(* ===== verification/_CoqProject ===== *)
-Q . S2P
Prelude.v
Rfc3339.v
Json.v
JsonText.v
GoAny.v
Encoding.v
Lines.v
Protocol.v
Payloads.v
Leader.v
Scratchpad.v
Auth.v
Session.v
Sha256.v
Filestore.v
Presence.v
Mailbox.v
MailOnce.v
Hub.v
HubDelivery.v
HubOrder.v
HubMembers.v
HubLifecycle.v
Watcher.v
WatchToken.v
Persist.v
Flushing.v
Api.v
ApiOrder.v
ApiAuth.v
ApiStream.v
ApiOpen.v
Server.v
Process.v
Http.v
Signal.v
Mcp.v
McpRun.v
Bridge.v
BridgeTools.v
BridgeWatch.v
Cli.v
Sse.v
BridgeWake.v
BridgeLaws.v
BridgeProcess.v
Net.v
EndToEnd.v
FileSharing.v
WakeUp.v
TaskLaws.v
BridgeArgs.v
CliLaws.v
Witnesses.v
ClientWitnesses.v
NetWitnesses.v
ProcessWitnesses.v
