(* ===== verification/Prelude.v ===== *)
(** * agentchat, server and clients: a verification library (root file)

    ** The program

    agentchat (src/cmd/server, src/internal) is an in-memory message hub for AI agents, served
    over HTTP. Agents join a session (a channel protected by a pre-shared key), send each other
    direct messages and broadcasts, share a scratchpad and files, elect and transfer a leader,
    and watch the traffic of a session live. The parts:

    - internal/session, internal/auth: sessions and their keys;
    - internal/presence: who was last seen when; a periodic sweep marks agents whose TTL ran
      out and forgets those gone for long;
    - internal/leader, internal/scratchpad, internal/filestore: small per-session stores;
    - internal/mailbox: one bounded queue per agent, with filtered drains and long polling;
    - internal/hub: the core. It numbers and records messages, fans events out to mailboxes and
      to the real-time notifier, reacts to presence changes, ends sessions;
    - internal/api: the HTTP handlers, the SSE fan-out (watcher.go) and its tokens
      (watchtoken.go);
    - internal/persist and cmd/server/main.go: crash-safe snapshots, startup and shutdown;
    - internal/mcp, internal/signal, cmd/agentchat-mcp-bridge: the bridge, a client process that
      offers the server's operations to an agent as MCP tools (JSON-RPC over its standard
      streams), keeps the agent's presence alive, reads the watch stream and wakes the agent
      through a Unix socket when a message concerns it;
    - cmd/agentchat-cli: the terminal client.

    Handlers call the hub, the hub calls its stores, and every store has a mutex of its own.
    Goroutines for requests, the presence sweep, the janitor and the flusher run side by side.

    ** How it is modelled

    One critical section of the source is an atomic function [Atom S A] of the state its mutex
    guards and of the environment [Env] (clock readings, map iteration orders, [select] choices,
    random bytes). A method that locks several times, or calls several components, is a [prog]:
    the sequence of its sections, each lifted to the whole state by a lens ([⟨L⟩] one section,
    [⟪L⟫] a whole program of a component). The same program is used in two ways: [run]/[wp]
    executes it with nothing beside it, and [pool_step] lets a scheduler interleave the sections
    of any number of programs. [sched] runs a given schedule, so that examples compute.

    The proof rules for interleavings: [safe] says that a program keeps an invariant section by
    section ([pool_invariant]); [guar R] that each of its sections moves the state by the
    relation [R], whatever the others did before, which makes one proof per method serve every
    invariant that [R] preserves ([safe_of_guar]); [staged] lets the invariant speak of the stage
    each goroutine is in, the message in its hand or the file it has open ([pool_staged]).
    [keeps] is for sequences of whole programs, [always] for the points where a process may die.
    A goroutine over a time.Ticker is [run_ticker]: the channel's one buffered tick, the choice
    of [select] when it could also stop, and a number of rounds.

    Integers that can overflow (sequence numbers, the entry counter) carry [int64] wrap-around;
    times are nanoseconds. Fallible methods return [option] or [result].

    ** The files

    - Prelude: this file. Environment, sections, programs, the proof rules, bounded queues,
      session/agent keys, hex, [%q], maps of maps.
    - Rfc3339: decimal text, the calendar, RFC 3339 times both ways ([parse_rfc3339_back]).
    - Json: JSON values, struct encoding and decoding as encoding/json does them.
    - JsonText: the text of JSON, written and read ([Unmarshal_Marshal]: any spellable value).
    - GoAny: values of type [any]: float64 numbers, maps with sorted keys, [%v]; the normal form
      every decoded value has.
    - Encoding: base64 and query escaping, with their round trips.
    - Lines: bufio.Scanner over a text in any number of reads, and the strings functions used.
    - Protocol: message.go (envelopes, message types, the stored structs and their JSON;
      [Envelope_text]: an envelope's text is read back). Payloads: its payload structs, both
      ways ([payloads_read_back]).
    - Leader, Scratchpad, Auth, Session, Sha256, Filestore: the package of the same name; Sha256
      is crypto/sha256, executable, which the file store uses.
    - Presence: presence.go; [sweep_exact], [touch_revives].
    - Mailbox: mailbox.go with boxes as shared objects in a heap; the abstract machine
      [spec_step] and the refinement [mailbox_refines_spec]; bounds under every interleaving;
      long polls return ([wait_returns]).
    - MailOnce: under every interleaving of its callers no message is lost in a mailbox or
      handed out twice ([mail_conserved]).
    - Hub: hub.go, every method; the interface [Notifier] with the instance [Recorder] that
      keeps what is emitted.
    - HubDelivery: who receives what ([send_delivers], [broadcast_reaches_members], ...).
    - HubOrder: history stays in strict sequence order under every interleaving of the hub's
      methods ([history_ordered_interleaved]).
    - HubMembers: registration, the sweep's callbacks, leadership ([leader_is_active]).
    - HubLifecycle: closing and reaping sessions, reading history, restoring it.
    - Watcher, WatchToken: watcher.go (the hub's [Notifier]; fan-out and the order in which a
      stream reads it) and watchtoken.go.
    - Persist: persist.go, one system call at a time, over a file system that fails and
      crashes; the snapshot's JSON round trip and the atomicity of one [Flush]. Flushing: any
      number of flushes beside each other ([flushes_atomic]).
    - Api: api.go, every handler, the middleware, the routing table and the SSE stream.
    - ApiAuth, ApiStream: what each route can do without and with a key; long polls are
      answered; what a watcher is sent. ApiOrder: every section of every route and stream
      moves the hub as its methods do ([serve_guar]).
    - Server: the initial state of main.go, snapshots of the whole server, restarts.
    - Process: main.go: settings (time.ParseDuration included), startup, the goroutines that run
      beside each other, shutdown. What holds of the running process and of what it leaves on
      disk at any moment ([process_sound]), and over any number of lives and crashes
      ([server_survives]).
    - Http: what clients ask of net/http, the class [HttpClient] with its law [HttpClock]; the
      instance [script_client] gives any sequence of outcomes.
    - Signal: internal/signal over a scripted socket peer.
    - Mcp: internal/mcp/server.go: the reading loop over the input's text, a goroutine per
      request, the responses; [mcp_answers_once], [mcp_requests_read], [mcp_errors]. McpRun:
      [RunWith] with the goroutines it starts, its wait group and its grace period
      ([run_answers_once]).
    - Bridge: main.go of the bridge: configuration, registration, requests, mailbox polling,
      argument handling. BridgeTools: the 17 tools and the declared signal. BridgeWatch:
      watcher.go: heartbeat, watch stream, watchdog, wake-ups.
    - Cli: cmd/agentchat-cli/main.go.
    - Sse: the text api.go prints for each frame of a watch stream, read by the bridge's and the
      CLI's parsers alike ([sse_readers_agree]).
    - BridgeWake: for which events the agent is woken ([stream_wakes], [wakes_at_most_once]) and
      how long a silent stream is kept ([silent_stream_dropped]). BridgeLaws: pacing of
      reconnections, recovery of a lost registration, delivery of wake-ups. BridgeProcess: the
      bridge's goroutines beside each other ([wake_up_never_lost]). BridgeArgs: the
      values handlers see. CliLaws: what is shown.
    - Net: the server as the clients' network: URLs and queries taken apart, ServeMux's patterns
      ([routes_disjoint], [routes_reached]), [Api.serve], responses as text. EndToEnd: two
      bridges on one server; what one agent's tool call sends, the other's receives, once
      ([message_reaches_agent]). FileSharing: the same for files ([file_reaches_agent]). WakeUp:
      the same message through the watch stream to the recipient's wake-up
      ([message_wakes_agent]). TaskLaws: the task tools send the declared payloads.
    - Witnesses, ClientWitnesses, NetWitnesses, ProcessWitnesses: a concrete server, concrete
      clients, both together and a server process, on which the theorems with hypotheses are
      applied; [first_message] executes the way of a first message on a new server,
      [stream_wakes_bob] that of a wake-up. [final_flush_undone] and [snapshot_misses_counter]
      are schedules on which the shutdown and a snapshot fall short of what main.go says.

    ** What the theorems assume

    Theorems about membership and about closing sessions ask for session IDs without a slash
    ([plain]): the source joins session and agent with a slash and looks up by the joined key.
    The server's own IDs are hexadecimal ([hex_encode_plain]), but a client may register any ID;
    [slash_sessions_collide] shows what then happens. The order of the history is proved up to
    the number of steps at which an int64 counter could overflow. Functional theorems ([wp])
    describe a method with no other goroutine running between its sections; the theorems about
    pools ([nsteps (pool_step ..)]: those named "interleaved", [mail_conserved],
    [flushes_atomic], [process_sound], [server_survives], [run_answers_once],
    [wake_up_never_lost]) hold for any
    schedule. That counters cover the histories of a snapshot is claimed only while no session
    is being ended; [snapshot_misses_counter] shows why.

    Theorems about the clients' text assume what the server writes: envelopes whose numbers are
    int64s, whose payload is JSON and whose year has four digits ([wire_ok]), and lines shorter
    than the reader's buffer. Theorems about time between reads assume a machine on which two
    clock readings in a row are at most [slack] apart ([quick]). The end-to-end theorems are
    about two registered bridges of one [channel]: IDs and keys that are path segments and
    header values as they are ([segment], [header_value]), no other request in between, and
    payloads that a Go [any] holds unchanged ([wire_value], as [bridge_values_normal] shows of
    arguments).

    ** Bounds and fuel

    [drain_loop], the loop of [DrainMatchingWait], takes fuel because other goroutines may wake
    it any number of times; alone it needs [wait_rounds]: one round per half-second tick of the
    wait and three more, and [wait_returns] shows that is enough. A request can wait for at most
    30 s, so [poll_fuel] is enough for every request ([drain_answers]). [sse_loop] takes as fuel
    the number of rounds of a stream to look at: the stream has no end of its own. So do the
    tickers of the server's process and the clients' endless loops ([sseLoop], [signalLoop], [presenceHeartbeat], [watchLoop],
    [heartbeatLoop], [WaitForSocket]); [wake_up_delivered] says how many rounds a delivery
    takes. The readers of JSON text use the length of the text.

    ** What is not modelled

    Log lines (slog). What ServeMux and net/http do with a request outside the plain cases (a
    path to be cleaned, which is redirected, spaces and control characters, other methods) is a
    parameter of Net, and so is the stream behind [GET /watch] there, whose frames and text are
    in ApiStream and Sse; time limits of the clients' requests are left out. The server's own
    handlers see bodies as the values they spell, and so is a file's contents: a write is whole
    or absent. A crash may lose any file that was not synced and take back directory entries to
    an earlier version. The read lock [Mailbox.Snapshot] holds on
    the map of boxes while it copies them one by one. Failure of crypto/rand. A negative [maxHistory], which the source
    would panic on and never sets. How Shutdown closes connections (requests may go on in the
    model, as they may after its ten seconds); the log file of the bridge and the signals that
    end a client, flag parsing. Strings are bytes: invalid UTF-8, which
    encoding/json replaces, and Unicode case folding of field names are left out. White space
    and spelling of a [json.RawMessage] are not kept.

    ** Planned extensions, in order

    The [HttpClock] law for the server of Net; the text of snapshots in Persist; delivery by the
    hub and the watchers' invariants under every interleaving; the bridge's process against the
    server's, both interleaved. *)

From Stdlib Require Export ZArith Lia.
From Stdlib Require Import Strings.Ascii Strings.String.
From Stdlib Require Export Strings.Byte.
From stdpp Require Export base gmap strings list fin_maps pretty.

Export Strings.Ascii (ascii, ascii_dec, ascii_of_N, N_of_ascii).

Set Default Proof Using "Type".

(** ** Time, widths *)

(** [time.Time] as nanoseconds since the Unix epoch, [time.Duration] as nanoseconds. *)
Abbreviation Time := Z.
Abbreviation Duration := Z.
Definition millisecond : Duration := (10 ^ 6)%Z.
Definition second : Duration := (10 ^ 9)%Z.
Definition minute : Duration := (60 * second)%Z.
Definition hour : Duration := (3600 * second)%Z.

(** The zero [time.Time], January 1 of year 1 UTC. *)
Definition zeroTime : Time := (-62135596800 * second)%Z.

(** Two's complement wrap-around of an int64. *)
Definition int64 (z : Z) : Z := ((z + 2 ^ 63) mod 2 ^ 64 - 2 ^ 63)%Z.
Definition maxInt64 : Z := (2 ^ 63 - 1)%Z.

Lemma int64_small (z : Z) : (- 2 ^ 63 <= z <= maxInt64)%Z -> int64 z = z.
Proof.
  unfold int64, maxInt64. intros H. rewrite Z.mod_small; lia.
Qed.

Lemma int64_range (z : Z) : (- 2 ^ 63 <= int64 z <= maxInt64)%Z.
Proof.
  unfold int64, maxInt64.
  pose proof (Z.mod_pos_bound (z + 2 ^ 63) (2 ^ 64)). lia.
Qed.

(** A Go slice that may be [nil]: [None] is [nil], [Some l] a non-nil slice. *)
Abbreviation slice A := (option (list A)).

(** What appending in a loop to a [nil] slice leaves behind. *)
Definition to_slice {A} (l : list A) : slice A :=
  match l with [] => None | _ => Some l end.

Lemma default_to_slice {A} (l : list A) : default [] (to_slice l) = l.
Proof. by destruct l. Qed.

(** ** The environment of a run

    Everything a Go program reads that its own state does not determine. [ticks] are the
    nanoseconds that pass between successive clock readings (the monotonic clock never runs
    backwards), [orders] the iteration orders the runtime picks for successive [range]s over
    maps, [coins] its choices between ready [select] branches and [entropy] the bytes
    [crypto/rand] and [math/rand] draw on. A theorem that holds for every environment holds for every run. *)
Record Env := mkEnv {
  clock : Time;
  ticks : list N;
  orders : list (list nat);
  coins : list bool;
  entropy : list byte;
}.

(** Time only passes. *)
Definition env_le (e e' : Env) : Prop := (clock e <= clock e')%Z.
Declare Scope go_scope.
Delimit Scope go_scope with go.
#[global] Open Scope go_scope.
Infix "≼" := env_le (at level 70) : go_scope.

#[export] Instance env_le_preorder : PreOrder env_le.
Proof. split; unfold env_le; [intros ?|intros ???]; lia. Qed.

(** ** Atomic sections

    One critical section of the source (a method body under its mutex) is a function of the
    state it locks and of the environment. *)
Definition Atom (S A : Type) : Type := S -> Env -> A * S * Env.

#[export] Instance atom_ret {S} : MRet (Atom S) := fun _ x s e => (x, s, e).
#[export] Instance atom_bind {S} : MBind (Atom S) :=
  fun _ _ f m s e => let '(x, s', e') := m s e in f x s' e'.

Definition gets {S A} (f : S -> A) : Atom S A := fun s e => (f s, s, e).
Definition modify {S} (f : S -> S) : Atom S unit := fun s e => (tt, f s, e).

(** [time.Now()]. *)
Definition now {S} : Atom S Time := fun s e =>
  match ticks e with
  | [] => (clock e, s, e)
  | d :: ds =>
      let t := (clock e + Z.of_N d)%Z in
      (t, s, mkEnv t ds (orders e) (coins e) (entropy e))
  end.

(** [time.Since(t)]. *)
Definition since {S} (t : Time) : Atom S Duration :=
  n ← now; mret (n - t)%Z.

(** The order [ix] of a [range]: repeatedly take the element the next index names. *)
Fixpoint shuffle {A} (ix : list nat) (l : list A) : list A :=
  match ix with
  | [] => l
  | i :: ix' =>
      match l !! i with
      | Some x => x :: shuffle ix' (delete i l)
      | None => l
      end
  end.

(** The order in which one [range] visits the elements of a map. *)
Definition range {S A} (l : list A) : Atom S (list A) := fun s e =>
  match orders e with
  | [] => (l, s, e)
  | o :: os => (shuffle o l, s, mkEnv (clock e) (ticks e) os (coins e) (entropy e))
  end.

(** The first tick, after the instant [t], of a ticker of period [period] started at [t0]: a
    ticker keeps one tick that nobody waits for and drops the rest. *)
Definition tick_after (t0 : Time) (period : Duration) (t : Time) : Time :=
  (t0 + ((t - t0) / period + 1) * period)%Z.

Lemma tick_after_bounds t0 period t :
  (0 < period)%Z -> (t < tick_after t0 period t <= t + period)%Z.
Proof.
  unfold tick_after. intros Hp. pose proof (Z.div_mod (t - t0) period).
  pose proof (Z.mod_pos_bound (t - t0) period). nia.
Qed.

(** Which of two ready [select] branches runs. *)
Definition flip {S} : Atom S bool := fun s e =>
  match coins e with
  | [] => (true, s, e)
  | b :: bs => (b, s, mkEnv (clock e) (ticks e) (orders e) bs (entropy e))
  end.

(** [rand.Read] into a buffer of [n] bytes. *)
Definition rand_read {S} (n : nat) : Atom S (list byte) := fun s e =>
  (take n (entropy e ++ replicate n x00), s,
   mkEnv (clock e) (ticks e) (orders e) (coins e) (drop n (entropy e))).

(** Blocking until the clock has reached [t]. *)
Definition sleep_until {S} (t : Time) : Atom S unit := fun s e =>
  (tt, s, mkEnv (Z.max (clock e) t) (ticks e) (orders e) (coins e) (entropy e)).

(** A loop whose body may keep a value, as [out = append(out, v)] under a [continue] guard. *)
Fixpoint collectA {S A B} (f : A -> Atom S (option B)) (l : list A) : Atom S (list B) :=
  match l with
  | [] => mret []
  | x :: l' => y ← f x; ys ← collectA f l';
               mret (match y with Some b => b :: ys | None => ys end)
  end.

(** A loop over an accumulator. *)
Fixpoint foldA {S A B} (f : B -> A -> Atom S B) (acc : B) (l : list A) : Atom S B :=
  match l with
  | [] => mret acc
  | x :: l' => acc' ← f acc x; foldA f acc' l'
  end.

(** ** Lenses: a component's state inside the state that holds it *)
Record Lens (W S : Type) := mkLens {
  get : W -> S;
  put : S -> W -> W;
  get_put : forall s w, get (put s w) = s;
  put_get : forall w, put (get w) w = w;
  put_put : forall s s' w, put s (put s' w) = put s w;
}.
Arguments get {W S} _ _.
Arguments put {W S} _ _ _.
Arguments mkLens {W S} _ _ _ _ _.

Definition lens_id {S} : Lens S S.
Proof. by refine (mkLens (fun s => s) (fun s _ => s) _ _ _). Defined.

Definition lens_comp {W S T} (L : Lens W S) (M : Lens S T) : Lens W T.
Proof.
  refine (mkLens (fun w => get M (get L w)) (fun t w => put L (put M t (get L w)) w) _ _ _).
  - intros. by rewrite !get_put.
  - intros. by rewrite !put_get.
  - intros. by rewrite get_put, !put_put.
Defined.

Definition lens_fst {S T} : Lens (S * T) S.
Proof. by refine (mkLens fst (fun s w => (s, w.2)) _ _ _); [|intros []|]. Defined.
Definition lens_snd {S T} : Lens (S * T) T.
Proof. by refine (mkLens snd (fun t w => (w.1, t)) _ _ _); [|intros []|]. Defined.

(** An atomic section of a component, run inside the state that holds the component. *)
Definition zoom {W S A} (L : Lens W S) (a : Atom S A) : Atom W A := fun w e =>
  let '(x, s', e') := a (get L w) e in (x, put L s' w, e').

(** ** Programs

    A method that locks several times is a sequence of atomic sections: other goroutines may
    run between any two of them. *)
Inductive prog (W A : Type) : Type :=
| Ret (a : A)
| Act {B : Type} (a : Atom W B) (k : B -> prog W A).
Arguments Ret {W A} _.
Arguments Act {W A B} _ _.

Fixpoint prog_bind_ {W A B} (f : A -> prog W B) (p : prog W A) : prog W B :=
  match p with
  | Ret a => f a
  | Act a k => Act a (fun b => prog_bind_ f (k b))
  end.

#[export] Instance prog_ret {W} : MRet (prog W) := fun _ x => Ret x.
#[export] Instance prog_bind {W} : MBind (prog W) := fun _ _ f p => prog_bind_ f p.

(** One atomic section of the component [L] points at. *)
Definition atomically {W S A} (L : Lens W S) (a : Atom S A) : prog W A := Act (zoom L a) Ret.

(** A whole program of the component [L] points at. *)
Fixpoint within {W S A} (L : Lens W S) (p : prog S A) : prog W A :=
  match p with
  | Ret a => Ret a
  | Act a k => Act (zoom L a) (fun b => within L (k b))
  end.

Notation "⟨ L ⟩ a" := (atomically L a) (at level 10, a at level 59, format "⟨ L ⟩  a") : go_scope.
Notation "⟪ L ⟫ p" := (within L p) (at level 10, p at level 59, format "⟪ L ⟫  p") : go_scope.

(** One clock reading outside every lock. *)
Definition nowP {W} : prog W Time := Act now Ret.

(** [for _, x := range l { body(x) }]. *)
Fixpoint for_each {W A} (l : list A) (body : A -> prog W unit) : prog W unit :=
  match l with
  | [] => mret tt
  | x :: l' => body x ;; for_each l' body
  end.

(** The program with nothing running beside it. *)
Fixpoint run {W A} (p : prog W A) : Atom W A :=
  match p with
  | Ret a => mret a
  | Act a k => fun w e => let '(b, w', e') := a w e in run (k b) w' e'
  end.

Arguments run {W A} !p _ _ /.
#[global] Arguments prog_bind {W A B} _ _ : simpl never.
#[global] Arguments atom_bind {S A B} _ _ : simpl never.
#[global] Arguments atomically {W S A} _ _ : simpl never.
#[global] Arguments nowP {W} : simpl never.

(** ** Weakest preconditions of atomic sections and of programs run alone *)
Definition wpA {S A} (a : Atom S A) (Q : A -> S -> Env -> Prop) (s : S) (e : Env) : Prop :=
  let '(x, s', e') := a s e in Q x s' e'.
Definition wp {W A} (p : prog W A) (Q : A -> W -> Env -> Prop) : W -> Env -> Prop :=
  wpA (run p) Q.

Section WpAtom.
Context {S : Type}.
Implicit Types (s : S) (e : Env).

Lemma wpA_mono {A} (a : Atom S A) (Q R : A -> S -> Env -> Prop) s e :
  wpA a Q s e -> (forall x s' e', Q x s' e' -> R x s' e') -> wpA a R s e.
Proof. unfold wpA. destruct (a s e) as [[x s'] e']. auto. Qed.

Lemma wpA_and {A} (a : Atom S A) (Q R : A -> S -> Env -> Prop) s e :
  wpA a Q s e -> wpA a R s e -> wpA a (fun x s' e' => Q x s' e' /\ R x s' e') s e.
Proof. unfold wpA. destruct (a s e) as [[x s'] e']. auto. Qed.

Lemma wpA_ret {A} (x : A) (Q : A -> S -> Env -> Prop) s e :
  Q x s e -> wpA (mret x) Q s e.
Proof. done. Qed.

Lemma wpA_bind {A B} (m : Atom S A) (f : A -> Atom S B) (Q : B -> S -> Env -> Prop) s e :
  wpA m (fun x s' e' => wpA (f x) Q s' e') s e -> wpA (m ≫= f) Q s e.
Proof.
  unfold wpA, mbind, atom_bind. destruct (m s e) as [[x s'] e'].
  by destruct (f x s' e') as [[y s''] e''].
Qed.

Lemma wpA_gets {A} (f : S -> A) (Q : A -> S -> Env -> Prop) s e :
  Q (f s) s e -> wpA (gets f) Q s e.
Proof. done. Qed.

Lemma wpA_modify (f : S -> S) (Q : unit -> S -> Env -> Prop) s e :
  Q tt (f s) e -> wpA (modify f) Q s e.
Proof. done. Qed.

Lemma wpA_now (Q : Time -> S -> Env -> Prop) s e :
  (forall e', e ≼ e' -> Q (clock e') s e') -> wpA now Q s e.
Proof.
  unfold wpA, now, env_le. intros H. destruct (ticks e) as [|d ds].
  - apply H. lia.
  - apply (H (mkEnv (clock e + Z.of_N d)%Z ds (orders e) (coins e) (entropy e))). cbn [clock]. lia.
Qed.

Lemma wpA_since (t : Time) (Q : Duration -> S -> Env -> Prop) s e :
  (forall e', e ≼ e' -> Q (clock e' - t)%Z s e') -> wpA (since t) Q s e.
Proof. intros H. apply wpA_bind, wpA_now. intros e' He. by apply wpA_ret, H. Qed.
End WpAtom.

Lemma shuffle_perm {A} (ix : list nat) (l : list A) : shuffle ix l ≡ₚ l.
Proof.
  revert l. induction ix as [|i ix IH]; intros l; simpl; [done|].
  destruct (l !! i) as [x|] eqn:E; [|done].
  rewrite IH. symmetry. by apply delete_Permutation.
Qed.

(** Every order is the order of some choice of indices: no iteration order is left out. *)
Lemma shuffle_complete {A} (l l' : list A) : l' ≡ₚ l -> exists ix, shuffle ix l = l'.
Proof.
  revert l. induction l' as [|x l' IH]; intros l Hp.
  - apply Permutation_nil_l in Hp. subst. by exists [].
  - assert (x ∈ l) as Hx by (rewrite <- Hp; left).
    apply list_elem_of_lookup in Hx as [i Hi].
    destruct (IH (delete i l)) as [ix Hix].
    + apply (Permutation_cons_inv (a := x)). rewrite Hp. by apply delete_Permutation.
    + exists (i :: ix). simpl. by rewrite Hi, Hix.
Qed.

(** *** Time spent and bytes drawn *)

(** No two clock readings in a row are more than [slack] apart. *)
Definition quick (slack : Duration) (e : Env) : Prop := Forall (fun d => (Z.of_N d <= slack)%Z) (ticks e).

(** From [e] to [e'] the clock is read [n] times and waited on for [d], at most: on a machine
    whose readings are at most [slack] apart that takes no longer than [d] and [n] times [slack]. *)
Definition spends (d : Duration) (n : Z) (e e' : Env) : Prop :=
  e ≼ e' /\ forall slack, (0 <= slack)%Z -> quick slack e ->
    quick slack e' /\ (clock e' <= clock e + d + n * slack)%Z.

Lemma spends_refl e : spends 0 0 e e.
Proof. split; [reflexivity|]. intros slack H0 Hq. split; [done|lia]. Qed.

Lemma spends_trans d1 n1 d2 n2 e1 e2 e3 :
  spends d1 n1 e1 e2 -> spends d2 n2 e2 e3 -> spends (d1 + d2)%Z (n1 + n2)%Z e1 e3.
Proof.
  intros [He1 H1] [He2 H2]. split; [by trans e2|]. intros slack H0 Hq.
  destruct (H1 slack H0 Hq) as [Hq2 Hc2]. destruct (H2 slack H0 Hq2) as [Hq3 Hc3]. split; [done|lia].
Qed.

Lemma spends_le d n d' n' e e' : (d <= d')%Z -> (n <= n')%Z -> spends d n e e' -> spends d' n' e e'.
Proof.
  intros Hd Hn [He H]. split; [done|]. intros slack H0 Hq. destruct (H slack H0 Hq). split; [done|nia].
Qed.

Lemma wpA_now_spends {S} (Q : Time -> S -> Env -> Prop) s e :
  (forall e', spends 0 1 e e' -> Q (clock e') s e') -> wpA now Q s e.
Proof.
  unfold wpA, now. intros H. destruct (ticks e) as [|d ds] eqn:Ht.
  - apply H. split; [reflexivity|]. intros slack H0 Hq. split; [done|lia].
  - apply (H (mkEnv (clock e + Z.of_N d)%Z ds (orders e) (coins e) (entropy e))).
    split; [unfold env_le; cbn [clock]; lia|]. intros slack H0 Hq. unfold quick in *. rewrite Ht in Hq.
    apply Forall_cons in Hq as [Hd Hq]. split; [done|]. cbn [clock]. lia.
Qed.

Lemma wpA_sleep_spends {S} t (Q : unit -> S -> Env -> Prop) s e :
  (forall e', spends (Z.max 0 (t - clock e))%Z 0 e e' -> clock e' = Z.max (clock e) t -> Q tt s e') ->
  wpA (sleep_until t) Q s e.
Proof.
  intros H. apply H; [|done]. split; [unfold env_le; cbn [clock]; lia|]. intros slack H0 Hq.
  split; [exact Hq|]. cbn [clock]. lia.
Qed.

Lemma wpA_flip_spends {S} (Q : bool -> S -> Env -> Prop) s e :
  (forall b e', spends 0 0 e e' -> Q b s e') -> wpA flip Q s e.
Proof.
  unfold wpA, flip. intros H. destruct (coins e) as [|b bs]; apply H; [apply spends_refl|].
  split; [unfold env_le; cbn [clock]; lia|]. intros slack H0 Hq. split; [exact Hq|]. cbn [clock]. lia.
Qed.

(** The [n] random bytes after the next [k]. *)
Definition drawn (k n : nat) (e : Env) : list byte := take n (drop k (entropy e) ++ replicate n x00).

Lemma wpA_now_entropy {S} (Q : Time -> S -> Env -> Prop) s e :
  (forall e', e ≼ e' -> entropy e' = entropy e -> Q (clock e') s e') -> wpA now Q s e.
Proof.
  unfold wpA, now. intros H. destruct (ticks e) as [|d ds]; [by apply H|].
  apply (H (mkEnv (clock e + Z.of_N d)%Z ds (orders e) (coins e) (entropy e))); [|done].
  unfold env_le. cbn [clock]. lia.
Qed.

Lemma wpA_drawn {S} n (Q : list byte -> S -> Env -> Prop) s e :
  (forall e', e ≼ e' -> entropy e' = drop n (entropy e) -> Q (drawn 0 n e) s e') ->
  wpA (rand_read n) Q s e.
Proof. intros H. apply H; [unfold env_le; reflexivity|done]. Qed.

Lemma length_drawn k n e : length (drawn k n e) = n.
Proof. unfold drawn. rewrite length_take, length_app, length_replicate. lia. Qed.

Section WpAtomEnv.
Context {S : Type}.
Implicit Types (s : S) (e : Env).

Lemma wpA_range {A} (l : list A) (Q : list A -> S -> Env -> Prop) s e :
  (forall l' e', l' ≡ₚ l -> e ≼ e' -> Q l' s e') -> wpA (range l) Q s e.
Proof.
  unfold wpA, range, env_le. intros H. destruct (orders e) as [|o os].
  - apply H; [done|lia].
  - apply H; [apply shuffle_perm|simpl; lia].
Qed.

Lemma wpA_flip (Q : bool -> S -> Env -> Prop) s e :
  (forall b e', e ≼ e' -> Q b s e') -> wpA flip Q s e.
Proof.
  unfold wpA, flip, env_le. intros H.
  destruct (coins e); apply H; simpl; lia.
Qed.

Lemma wpA_rand n (Q : list byte -> S -> Env -> Prop) s e :
  (forall bs e', length bs = n -> e ≼ e' -> Q bs s e') -> wpA (rand_read n) Q s e.
Proof.
  unfold wpA, rand_read, env_le. intros H. apply H; [|simpl; lia].
  rewrite length_take, length_app, length_replicate. lia.
Qed.

Lemma wpA_sleep t (Q : unit -> S -> Env -> Prop) s e :
  (forall e', e ≼ e' -> (t <= clock e')%Z -> Q tt s e') -> wpA (sleep_until t) Q s e.
Proof. unfold wpA, sleep_until, env_le. intros H. apply H; simpl; lia. Qed.

(** A loop that only reads: each element is judged at its own instant, between the start
    and the end of the loop. *)
Lemma wpA_collect {A B} (f : A -> Atom S (option B)) (R : A -> option B -> Env -> Prop)
    (l : list A) (Q : list B -> S -> Env -> Prop) s e :
  (forall x o e1 e2, R x o e1 -> e1 ≼ e2 -> R x o e2) ->
  (forall x e1, e ≼ e1 -> wpA (f x) (fun o s' e2 => s' = s /\ e1 ≼ e2 /\ R x o e2) s e1) ->
  (forall os e', e ≼ e' -> Forall2 (fun x o => R x o e') l os -> Q (omap id os) s e') ->
  wpA (collectA f l) Q s e.
Proof.
  intros HR. revert e Q. induction l as [|x l IH]; intros e Q Hf HQ; simpl.
  - by apply wpA_ret, (HQ []).
  - apply wpA_bind. eapply wpA_mono; [by apply Hf|].
    intros o s' e2 (-> & He2 & Ho). apply wpA_bind. apply IH.
    + intros y e1 He1. apply Hf. by trans e2.
    + intros os e' He' HF. apply wpA_ret.
      specialize (HQ (o :: os) e'). destruct o; apply HQ; eauto; by trans e2.
Qed.
End WpAtomEnv.

Section WpProg.
Context {W : Type}.
Implicit Types (w : W) (e : Env).

Lemma wp_mono {A} (p : prog W A) (Q R : A -> W -> Env -> Prop) w e :
  wp p Q w e -> (forall x w' e', Q x w' e' -> R x w' e') -> wp p R w e.
Proof. apply wpA_mono. Qed.

Lemma wp_and {A} (p : prog W A) (Q R : A -> W -> Env -> Prop) w e :
  wp p Q w e -> wp p R w e -> wp p (fun x w' e' => Q x w' e' /\ R x w' e') w e.
Proof. apply wpA_and. Qed.

Lemma wp_ret {A} (x : A) (Q : A -> W -> Env -> Prop) w e : Q x w e -> wp (mret x) Q w e.
Proof. done. Qed.

Lemma wp_act {A B} (a : Atom W B) (k : B -> prog W A) (Q : A -> W -> Env -> Prop) w e :
  wpA a (fun b w' e' => wp (k b) Q w' e') w e -> wp (Act a k) Q w e.
Proof. unfold wp, wpA. simpl. by destruct (a w e) as [[b w'] e']. Qed.

Lemma wp_act_inv {A B} (a : Atom W B) (k : B -> prog W A) (Q : A -> W -> Env -> Prop) w e :
  wp (Act a k) Q w e -> wpA a (fun b w' e' => wp (k b) Q w' e') w e.
Proof. unfold wp, wpA. simpl. by destruct (a w e) as [[b w'] e']. Qed.

Lemma wp_bind {A B} (p : prog W A) (f : A -> prog W B) (Q : B -> W -> Env -> Prop) w e :
  wp p (fun x w' e' => wp (f x) Q w' e') w e -> wp (p ≫= f) Q w e.
Proof.
  revert w e. induction p as [a|C a k IH]; intros w e; [done|].
  intros H%wp_act_inv. apply wp_act. eapply wpA_mono; [exact H|]. intros. by apply IH.
Qed.

Lemma wp_nowP (Q : Time -> W -> Env -> Prop) w e :
  (forall e', e ≼ e' -> Q (clock e') w e') -> wp nowP Q w e.
Proof. intros H. by apply wp_act, wpA_now. Qed.

Lemma wp_now_spends (Q : Time -> W -> Env -> Prop) w e :
  (forall e', spends 0 1 e e' -> Q (clock e') w e') -> wp nowP Q w e.
Proof. intros H. by apply wp_act, wpA_now_spends. Qed.

End WpProg.

Section WpLens.
Context {W : Type}.
Implicit Types (w : W) (e : Env).

Lemma wpA_zoom {S A} (L : Lens W S) (a : Atom S A) (Q : A -> W -> Env -> Prop) w e :
  wpA a (fun x s' e' => Q x (put L s' w) e') (get L w) e -> wpA (zoom L a) Q w e.
Proof. unfold wpA, zoom. by destruct (a (get L w) e) as [[x s'] e']. Qed.

Lemma wp_atomically {S A} (L : Lens W S) (a : Atom S A) (Q : A -> W -> Env -> Prop) w e :
  wpA a (fun x s' e' => Q x (put L s' w) e') (get L w) e -> wp (⟨L⟩ a) Q w e.
Proof. intros H. by apply wp_act, wpA_zoom. Qed.

Lemma wp_within {S A} (L : Lens W S) (p : prog S A) (Q : A -> W -> Env -> Prop) w e :
  wp p (fun x s' e' => Q x (put L s' w) e') (get L w) e -> wp (⟪L⟫ p) Q w e.
Proof.
  revert w e. induction p as [a|C a k IH]; intros w e H; simpl.
  - unfold wp, wpA in *. simpl in *. by rewrite put_get in H.
  - apply wp_act, wpA_zoom. apply wp_act_inv in H.
    eapply wpA_mono; [exact H|]. intros x s' e' Hk. simpl in *. apply IH.
    rewrite get_put. eapply wp_mono; [exact Hk|]. intros. by rewrite put_put.
Qed.

(** Loops by an invariant indexed by the elements visited so far. *)
Lemma wp_for_each {A} (l : list A) (body : A -> prog W unit)
    (I : list A -> W -> Env -> Prop) w e :
  I [] w e ->
  (forall seen x w' e', seen ++ [x] `prefix_of` l -> I seen w' e' ->
     wp (body x) (fun _ => I (seen ++ [x])) w' e') ->
  wp (for_each l body) (fun _ => I l) w e.
Proof.
  enough (forall seen rest w e, seen ++ rest = l -> I seen w e ->
    (forall seen x w' e', seen ++ [x] `prefix_of` l -> I seen w' e' ->
       wp (body x) (fun _ => I (seen ++ [x])) w' e') ->
    wp (for_each rest body) (fun _ => I l) w e) as Hgen.
  { intros H0 Hs. by apply (Hgen []). }
  clear w e. intros seen rest. revert seen.
  induction rest as [|x rest IH]; intros seen w e Hl HI Hs; simpl.
  - apply wp_ret. rewrite app_nil_r in Hl. by subst.
  - apply wp_bind. eapply wp_mono.
    + apply Hs; [|exact HI]. exists rest. by rewrite <- app_assoc.
    + intros ? w' e' HI'. apply (IH (seen ++ [x])); [|done|done].
      by rewrite <- app_assoc.
Qed.
End WpLens.

(** *** Automation

    [wps] runs the parts of a program whose outcome is determined: binds, returns, reads,
    writes, and the entry into a component. [wp_now e H] reads the clock at a later [e]. *)
Ltac wp_pure :=
  lazymatch goal with
  | |- wp (mbind _ _) _ _ _ => apply wp_bind
  | |- wp (prog_bind _ _) _ _ _ => apply (wp_bind _ _)
  | |- wp (Act (zoom _ _) _) _ _ _ => apply wp_act
  | |- wp (mret _) _ _ _ => apply wp_ret
  | |- wp (Ret _) _ _ _ => apply wp_ret
  | |- wp (atomically _ _) _ _ _ => apply wp_atomically
  | |- wp (within _ _) _ _ _ => apply wp_within
  | |- wpA (mbind _ _) _ _ _ => apply wpA_bind
  | |- wpA (atom_bind _ _) _ _ _ => apply (wpA_bind _ _)
  | |- wpA (zoom _ _) _ _ _ => apply wpA_zoom
  | |- wpA (mret _) _ _ _ => apply wpA_ret
  | |- wpA (gets _) _ _ _ => apply wpA_gets
  | |- wpA (modify _) _ _ _ => apply wpA_modify
  end.
Ltac wps := cbv beta; repeat (wp_pure; cbv beta); cbn [get put lens_id].
Tactic Notation "wp_now" simple_intropattern(e) simple_intropattern(H) :=
  wps; lazymatch goal with
       | |- wp nowP _ _ _ => apply wp_nowP
       | |- wpA now _ _ _ => apply wpA_now
       | |- wpA (since _) _ _ _ => apply wpA_since
       end; intros e H; wps.

Create HintDb go discriminated.
#[export] Hint Unfold env_le : go.
(** Closes goals about the order of instants. *)
Ltac clock := unfold env_le in *; cbn [clock] in *; lia.

(** ** Invariants of programs run one after the other *)
Section Keeps.
Context {W : Type} (I : W -> Env -> Prop).

Definition keeps {A} (p : prog W A) : Prop :=
  forall w e, I w e -> wp p (fun _ w' e' => I w' e') w e.

Lemma keeps_ret {A} (x : A) : keeps (mret x).
Proof. intros w e HI. by wps. Qed.

Lemma keeps_bind {A B} (p : prog W A) (f : A -> prog W B) :
  keeps p -> (forall x, keeps (f x)) -> keeps (p ≫= f).
Proof.
  intros Hp Hf w e HI. wps. eapply wp_mono; [by apply Hp|]. intros x w' e' HI'. by apply Hf.
Qed.

Lemma keeps_for_each {A} (l : list A) (body : A -> prog W unit) :
  (forall x, keeps (body x)) -> keeps (for_each l body).
Proof.
  intros Hb. induction l as [|x l IH]; simpl; [apply keeps_ret|]. by apply keeps_bind.
Qed.

(** Runs of whole programs, one after the other. *)
Inductive runs (start : prog W unit -> Prop) : W -> Env -> W -> Env -> Prop :=
| runs_refl w e : runs start w e w e
| runs_step p w e w1 e1 w2 e2 :
    start p -> run p w e = (tt, w1, e1) -> runs start w1 e1 w2 e2 -> runs start w e w2 e2.

Lemma runs_invariant start w e w' e' :
  (forall p, start p -> keeps p) -> runs start w e w' e' -> I w e -> I w' e'.
Proof.
  intros Hs. induction 1 as [|p w e w1 e1 w2 e2 Hp Hrun _ IH]; [done|].
  intros HI. apply IH. specialize (Hs p Hp w e HI). unfold wp, wpA in Hs. by rewrite Hrun in Hs.
Qed.
End Keeps.

(** [always I p Q]: run alone from here, [I] holds before and after every section of [p], so at
    every point where the process may die, and [p] ends with [Q]. *)
Fixpoint always {W A} (I : W -> Prop) (p : prog W A) (Q : A -> W -> Env -> Prop)
    (w : W) (e : Env) : Prop :=
  I w /\
  match p with
  | Ret x => Q x w e
  | Act a k => wpA a (fun b w' e' => always I (k b) Q w' e') w e
  end.

Section Always.
Context {W : Type} (I : W -> Prop).

Lemma always_now {A} (p : prog W A) (Q : A -> W -> Env -> Prop) w e : always I p Q w e -> I w.
Proof. by destruct p; intros [? ?]. Qed.

Lemma always_ret {A} (x : A) (Q : A -> W -> Env -> Prop) w e :
  I w -> Q x w e -> always I (mret x) Q w e.
Proof. by split. Qed.

Lemma always_bind {A B} (p : prog W A) (f : A -> prog W B) (Q : B -> W -> Env -> Prop) w e :
  always I p (fun x w' e' => always I (f x) Q w' e') w e -> always I (p ≫= f) Q w e.
Proof.
  unfold mbind, prog_bind. revert w e. induction p as [x|C a k IH]; intros w e [HI H]; [done|].
  split; [done|]. eapply wpA_mono; [exact H|]. intros. by apply IH.
Qed.

Lemma always_section {A} (a : Atom W A) (Q : A -> W -> Env -> Prop) w e :
  I w -> wpA a (fun x w' e' => I w' /\ Q x w' e') w e -> always I (⟨lens_id⟩ a) Q w e.
Proof.
  intros HI H. split; [done|]. apply wpA_zoom. eapply wpA_mono; [exact H|].
  intros x w' e' [HI' HQ]. by split.
Qed.

Lemma always_wp {A} (p : prog W A) (Q : A -> W -> Env -> Prop) w e :
  always I p Q w e -> wp p Q w e.
Proof.
  revert w e. induction p as [x|C a k IH]; intros w e [HI H]; [done|].
  apply wp_act. eapply wpA_mono; [exact H|]. intros. by apply IH.
Qed.
End Always.

(** Sections only let time pass. *)
Definition later {S A} (a : Atom S A) : Prop := forall s e, wpA a (fun _ _ e' => e ≼ e') s e.

Lemma later_ret {S A} (x : A) : later (S := S) (mret x).
Proof. intros s e. by wps. Qed.
Lemma later_gets {S A} (f : S -> A) : later (gets f).
Proof. intros s e. by wps. Qed.
Lemma later_modify {S} (f : S -> S) : later (modify f).
Proof. intros s e. by wps. Qed.
Lemma later_now {S} : later (S := S) now.
Proof. intros s e. by apply wpA_now. Qed.
Lemma later_range {S A} (l : list A) : later (S := S) (range l).
Proof. intros s e. by apply wpA_range. Qed.
Lemma later_rand {S} n : later (S := S) (rand_read n).
Proof. intros s e. by apply wpA_rand. Qed.
Lemma later_bind {S A B} (m : Atom S A) (f : A -> Atom S B) :
  later m -> (forall x, later (f x)) -> later (m ≫= f).
Proof.
  intros Hm Hf s e. apply wpA_bind. eapply wpA_mono; [apply Hm|]. intros x s' e1 He1.
  eapply wpA_mono; [apply Hf|]. intros y s2 e2 He2. simpl in *. by trans e1.
Qed.
#[export] Hint Resolve later_ret later_gets later_modify later_now later_range later_rand
  later_bind : go.

Lemma later_flip {S} : later (S := S) flip.
Proof. intros s e. by apply wpA_flip. Qed.
Lemma later_sleep {S} t : later (S := S) (sleep_until t).
Proof. intros s e. apply wpA_sleep. intros e' He _. exact He. Qed.
#[export] Hint Resolve later_flip later_sleep : go.

(** Programs only let time pass. *)
Definition forward {W A} (p : prog W A) : Prop := forall w e, wp p (fun _ _ e' => e ≼ e') w e.

Section Forward.
Context {W : Type}.

Lemma forward_ret {A} (x : A) : forward (W := W) (mret x).
Proof. intros w e. by wps. Qed.
Lemma forward_now : forward (W := W) nowP.
Proof. intros w e. by apply wp_nowP. Qed.
Lemma forward_atomically {S A} (L : Lens W S) (a : Atom S A) : later a -> forward (⟨L⟩ a).
Proof. intros Ha w e. apply wp_atomically, Ha. Qed.
Lemma forward_within {S A} (L : Lens W S) (p : prog S A) : forward p -> forward (⟪L⟫ p).
Proof. intros Hp w e. apply wp_within, Hp. Qed.
Lemma forward_bind {A B} (p : prog W A) (f : A -> prog W B) :
  forward p -> (forall x, forward (f x)) -> forward (p ≫= f).
Proof.
  intros Hp Hf w e. wps. eapply wp_mono; [apply Hp|]. intros x w' e' He.
  eapply wp_mono; [apply Hf|]. intros y w2 e2 He2. simpl in *. by trans e'.
Qed.

(** A program that only lets time pass, in a longer proof. *)
Lemma wp_forward {A} (p : prog W A) (Q : A -> W -> Env -> Prop) w e :
  forward p -> (forall x w' e', e ≼ e' -> Q x w' e') -> wp p Q w e.
Proof. intros Hp HQ. eapply wp_mono; [apply Hp|]. auto. Qed.
End Forward.
#[export] Hint Resolve forward_ret forward_now forward_atomically forward_within forward_bind : go.

(** ** Invariants of interleaved programs

    [safe I p Q]: every atomic section of [p] keeps [I], whatever other goroutines that keep
    [I] did since the section before it, and what [p] returns satisfies [Q]. The number [n] in
    [I n w e] counts the sections run so far, by any goroutine: an invariant may weaken with it
    (a counter that has not overflowed yet). *)
Fixpoint safe {W A} (I : nat -> W -> Env -> Prop) (p : prog W A) (Q : A -> Prop) : Prop :=
  match p with
  | Ret a => Q a
  | Act a k => forall n w e, I n w e -> wpA a (fun b w' e' => I (S n) w' e' /\ safe I (k b) Q) w e
  end.

Section Safe.
Context {W : Type} (I : nat -> W -> Env -> Prop).

Lemma safe_ret {A} (a : A) (Q : A -> Prop) : Q a -> safe I (mret a) Q.
Proof. done. Qed.

Lemma safe_mono {A} (p : prog W A) (Q R : A -> Prop) :
  safe I p Q -> (forall a, Q a -> R a) -> safe I p R.
Proof.
  induction p as [a|B a k IH]; simpl; intros Hp HQR; [auto|].
  intros n w e HI. eapply wpA_mono; [by apply (Hp n)|]. intros b w' e' [? ?]. eauto.
Qed.

Lemma safe_bind {A B} (p : prog W A) (f : A -> prog W B) (Q : A -> Prop) (R : B -> Prop) :
  safe I p Q -> (forall a, Q a -> safe I (f a) R) -> safe I (p ≫= f) R.
Proof.
  unfold mbind, prog_bind.
  induction p as [a|C a k IH]; simpl; intros Hp Hf; [auto|].
  intros n w e HI. eapply wpA_mono; [by apply (Hp n)|]. intros b w' e' [? ?]. eauto.
Qed.

Lemma safe_then {A B} (p : prog W A) (f : A -> prog W B) (R : B -> Prop) :
  safe I p (fun _ => True) -> (forall a, safe I (f a) R) -> safe I (p ≫= f) R.
Proof. intros Hp Hf. eapply safe_bind; [exact Hp|auto]. Qed.

Lemma safe_run {A} (p : prog W A) (Q : A -> Prop) n w e :
  safe I p Q -> I n w e ->
  wp p (fun a w' e' => (exists n', n <= n' /\ I n' w' e') /\ Q a) w e.
Proof.
  revert n w e. induction p as [a|C a k IH]; simpl; intros n w e Hp HI.
  - apply wp_ret. split; [by exists n|done].
  - apply wp_act. eapply wpA_mono; [by apply (Hp n)|]. intros b w' e' [? ?].
    eapply wp_mono; [by eapply IH|]. intros x w2 e2 [(n' & ? & ?) ?].
    split; [|done]. exists n'. split; [lia|done].
Qed.

Lemma safe_for_each {A} (l : list A) (body : A -> prog W unit) :
  (forall x, x ∈ l -> safe I (body x) (fun _ => True)) ->
  safe I (for_each l body) (fun _ => True).
Proof.
  induction l as [|x l IH]; intros Hb; simpl; [done|].
  apply safe_then; [apply Hb; left|]. intros. apply IH. intros. apply Hb. by right.
Qed.

Lemma safe_atomically {S A} (L : Lens W S) (a : Atom S A) (Q : A -> Prop) :
  (forall n w e, I n w e -> wpA a (fun b s' e' => I (1 + n) (put L s' w) e' /\ Q b) (get L w) e) ->
  safe I (⟨L⟩ a) Q.
Proof. intros H n w e HI. apply wpA_zoom. eapply wpA_mono; [by apply (H n)|]. done. Qed.
End Safe.

(** A program of a component, against an invariant of the component alone. *)
Lemma safe_within {W S A} (L : Lens W S) (I : nat -> W -> Env -> Prop)
    (J : nat -> S -> Env -> Prop) (p : prog S A) (Q : A -> Prop) :
  (forall n w e, I n w e -> J n (get L w) e) ->
  (forall n w e s' e', I n w e -> J (1 + n) s' e' -> I (1 + n) (put L s' w) e') ->
  safe J p Q -> safe I (⟪L⟫ p) Q.
Proof.
  intros Hget Hput. induction p as [a|B a k IH]; simpl; [done|].
  intros Hp n w e HI. apply wpA_zoom. eapply wpA_mono; [apply (Hp n); auto|].
  intros b s' e' [HJ Hk]. split; [by eapply Hput|auto].
Qed.

(** *** Goroutines *)
Record Pool (W : Type) := mkPool {
  p_world : W;
  p_env : Env;
  p_threads : list (prog W unit);
}.
Arguments mkPool {W} _ _ _.
Arguments p_world {W} _.
Arguments p_env {W} _.
Arguments p_threads {W} _.

(** The next atomic section of a goroutine; [None] when it has returned. *)
Definition step1 {W A} (p : prog W A) (w : W) (e : Env) : option (prog W A * W * Env) :=
  match p with
  | Ret _ => None
  | Act a k => let '(b, w', e') := a w e in Some (k b, w', e')
  end.

(** The scheduler runs one section of any goroutine, or starts a new one. *)
Inductive pool_step {W} (start : prog W unit -> Prop) : Pool W -> Pool W -> Prop :=
| pool_run i p p' w w' e e' ts :
    ts !! i = Some p -> step1 p w e = Some (p', w', e') ->
    pool_step start (mkPool w e ts) (mkPool w' e' (<[i := p']> ts))
| pool_spawn p w e ts :
    start p -> pool_step start (mkPool w e ts) (mkPool w e (ts ++ [p])).

(** An executable scheduler: run the next section of each goroutine named, in turn. *)
Fixpoint sched {W} (ixs : list nat) (P : Pool W) : option (Pool W) :=
  match ixs with
  | [] => Some P
  | i :: ixs' =>
      match p_threads P !! i with
      | None => None
      | Some p =>
          match step1 p (p_world P) (p_env P) with
          | None => None
          | Some (p', w', e') => sched ixs' (mkPool w' e' (<[i := p']> (p_threads P)))
          end
      end
  end.

Lemma sched_nsteps {W} (start : prog W unit -> Prop) ixs (P P' : Pool W) :
  sched ixs P = Some P' -> nsteps (pool_step start) (length ixs) P P'.
Proof.
  revert P. induction ixs as [|i ixs IH]; intros P Hs; simpl in *; [simplify_eq; constructor|].
  destruct P as [w e ts]. simpl in *. destruct (ts !! i) as [p|] eqn:Hi; [|done].
  destruct (step1 p w e) as [[[p' w'] e']|] eqn:H1; [|done].
  econstructor; [by eapply pool_run|]. by apply IH.
Qed.

(** Goroutines started one after the other, then scheduled. *)
Lemma spawn_all {W} (start : prog W unit -> Prop) w e ts ts0 :
  Forall start ts ->
  nsteps (pool_step start) (length ts) (mkPool w e ts0) (mkPool w e (ts0 ++ ts)).
Proof.
  intros Hts. revert ts0. induction Hts as [|p ts Hp _ IH]; intros ts0; simpl.
  - rewrite app_nil_r. constructor.
  - econstructor; [by apply pool_spawn|]. by rewrite (cons_middle p ts0 ts), app_assoc.
Qed.

Lemma spawn_sched {W} (start : prog W unit -> Prop) w e ts ixs P :
  Forall start ts -> sched ixs (mkPool w e ts) = Some P ->
  nsteps (pool_step start) (length ts + length ixs) (mkPool w e []) P.
Proof.
  intros Hts Hs. eapply nsteps_trans; [by apply (spawn_all start w e ts [])|]. by eapply sched_nsteps.
Qed.

(** The state a schedule ends in. *)
Definition sched_end {W} (ixs : list nat) (P : Pool W) : Pool W := default P (sched ixs P).

Lemma sched_ends {W} ixs (P : Pool W) :
  (if sched ixs P is Some _ then true else false) = true -> sched ixs P = Some (sched_end ixs P).
Proof. unfold sched_end. by destruct (sched ixs P). Qed.

Lemma safe_step1 {W A} (I : nat -> W -> Env -> Prop) (p p' : prog W A) (Q : A -> Prop) n w w' e e' :
  safe I p Q -> I n w e -> step1 p w e = Some (p', w', e') -> I (S n) w' e' /\ safe I p' Q.
Proof.
  destruct p as [|B a k]; simpl; intros Hp HI H1; [done|].
  specialize (Hp n w e HI). unfold wpA in Hp.
  destruct (a w e) as [[b w1] e1]. by simplify_eq.
Qed.

(** An invariant every startable program keeps section by section holds in every state an
    interleaving reaches. *)
Theorem pool_invariant {W} (I : nat -> W -> Env -> Prop) (start : prog W unit -> Prop)
    (P P' : Pool W) m n :
  (forall n w e, I n w e -> I (S n) w e) ->
  (forall p, start p -> safe I p (fun _ => True)) ->
  nsteps (pool_step start) m P P' ->
  I n (p_world P) (p_env P) -> Forall (fun p => safe I p (fun _ => True)) (p_threads P) ->
  I (m + n) (p_world P') (p_env P') /\ Forall (fun p => safe I p (fun _ => True)) (p_threads P').
Proof.
  intros Hmono Hstart Hrun. revert n. induction Hrun as [P|m P P1 P' Hstep _ IH]; [done|].
  intros n HI Hts. replace (S m + n) with (m + S n) by lia.
  apply IH; clear IH; destruct Hstep as [i p p' w w' e e' ts Hi H1|]; simpl in *.
  - eapply safe_step1; [|done..]. by apply (Forall_lookup_1 _ _ _ _ Hts Hi).
  - auto.
  - apply Forall_insert; [done|].
    eapply safe_step1; [|done..]. by apply (Forall_lookup_1 _ _ _ _ Hts Hi).
  - apply Forall_app. split; [done|]. apply Forall_singleton. auto.
Qed.

(** *** What every section does

    [guar R p Q]: whatever state a section of [p] finds, it leaves one that [R] relates to it,
    and the answer satisfies [Q]. Nothing is assumed of the state, so a guarantee can be checked
    program by program and used with any invariant [R] preserves. *)
Section Guar.
Context {W : Type} (R : W -> W -> Prop).

Fixpoint guar {A} (p : prog W A) (Q : A -> Prop) : Prop :=
  match p with
  | Ret a => Q a
  | Act a k => forall w e, wpA a (fun b w' _ => R w w' /\ guar (k b) Q) w e
  end.

Lemma guar_ret {A} (a : A) (Q : A -> Prop) : Q a -> guar (mret a) Q.
Proof. done. Qed.

Lemma guar_mono {A} (p : prog W A) (P Q : A -> Prop) :
  guar p P -> (forall a, P a -> Q a) -> guar p Q.
Proof.
  induction p as [a|B a k IH]; simpl; intros Hp HPQ; [auto|].
  intros w e. eapply wpA_mono; [apply Hp|]. intros b w' e' [? ?]. eauto.
Qed.

Lemma guar_bind {A B} (p : prog W A) (f : A -> prog W B) (P : A -> Prop) (Q : B -> Prop) :
  guar p P -> (forall a, P a -> guar (f a) Q) -> guar (p ≫= f) Q.
Proof.
  unfold mbind, prog_bind.
  induction p as [a|C a k IH]; simpl; intros Hp Hf; [auto|].
  intros w e. eapply wpA_mono; [apply Hp|]. intros b w' e' [? ?]. eauto.
Qed.

Lemma guar_then {A B} (p : prog W A) (f : A -> prog W B) (Q : B -> Prop) :
  guar p (fun _ => True) -> (forall a, guar (f a) Q) -> guar (p ≫= f) Q.
Proof. intros Hp Hf. eapply guar_bind; [exact Hp|auto]. Qed.

Lemma guar_drop {A} (p : prog W A) :
  guar (p ;; mret tt) (fun _ => True) -> guar p (fun _ => True).
Proof.
  unfold mbind, prog_bind. induction p as [a|C a k IH]; simpl; intros Hp; [done|].
  intros w e. eapply wpA_mono; [apply Hp|]. intros b w' e' [? ?]. auto.
Qed.

Lemma guar_for_each {A} (l : list A) (body : A -> prog W unit) :
  (forall x, x ∈ l -> guar (body x) (fun _ => True)) -> guar (for_each l body) (fun _ => True).
Proof.
  induction l as [|x l IH]; intros Hb; simpl; [done|].
  apply guar_then; [apply Hb; left|]. intros. apply IH. intros. apply Hb. by right.
Qed.

Lemma guar_atomically {S A} (L : Lens W S) (a : Atom S A) (Q : A -> Prop) :
  (forall w e, wpA a (fun b s' _ => R w (put L s' w) /\ Q b) (get L w) e) -> guar (⟨L⟩ a) Q.
Proof. intros H w e. apply wpA_zoom. eapply wpA_mono; [apply H|done]. Qed.

Lemma guar_nowP (Q : Time -> Prop) :
  (forall w, R w w) -> (forall t, Q t) -> guar nowP Q.
Proof. intros HR HQ w e. apply wpA_now. intros e' _. split; [apply HR|apply HQ]. Qed.

(** A guarantee keeps every invariant it preserves. *)
Lemma safe_of_guar {A} (I : nat -> W -> Env -> Prop) (p : prog W A) (Q : A -> Prop) :
  (forall n w e w' e', I n w e -> R w w' -> I (S n) w' e') -> guar p Q -> safe I p Q.
Proof.
  intros HI. induction p as [a|B a k IH]; simpl; [done|].
  intros Hp n w e H. eapply wpA_mono; [apply Hp|]. intros b w' e' [HR Hk]. split; [by eapply HI|auto].
Qed.
End Guar.

(** Any program keeps what everything keeps. *)
Lemma guar_any {S A} (R : S -> S -> Prop) (p : prog S A) :
  (forall s s', R s s') -> guar R p (fun _ => True).
Proof.
  intros HR. induction p as [a|B a k IH]; [done|]. intros w e. unfold wpA.
  destruct (a w e) as [[b w'] e']. by split.
Qed.

Lemma guar_weaken {W A} (R R' : W -> W -> Prop) (p : prog W A) (Q : A -> Prop) :
  (forall w w', R w w' -> R' w w') -> guar R p Q -> guar R' p Q.
Proof.
  intros HR. induction p as [a|B a k IH]; simpl; [done|].
  intros Hp w e. eapply wpA_mono; [apply Hp|]. intros b w' e' [? ?]. auto.
Qed.

Lemma guar_and {W A} (R R' : W -> W -> Prop) (p : prog W A) (Q Q' : A -> Prop) :
  guar R p Q -> guar R' p Q' -> guar (fun w w' => R w w' /\ R' w w') p (fun a => Q a /\ Q' a).
Proof.
  induction p as [a|B a k IH]; simpl; [done|]. intros Hp Hp' w e.
  eapply wpA_mono; [apply wpA_and; [apply Hp|apply Hp']|]. simpl. naive_solver.
Qed.

Lemma guar_within {W S A} (L : Lens W S) (R : S -> S -> Prop) (R' : W -> W -> Prop)
    (p : prog S A) (Q : A -> Prop) :
  (forall w s', R (get L w) s' -> R' w (put L s' w)) -> guar R p Q -> guar R' (⟪L⟫ p) Q.
Proof.
  intros HR. induction p as [a|B a k IH]; simpl; [done|].
  intros Hp w e. apply wpA_zoom. eapply wpA_mono; [apply Hp|]. intros b s' e' [? ?]. auto.
Qed.

(** *** Goroutines with stages

    [staged I L i ph p Q]: goroutine [i], now at stage [ph] and running the program [p] of the
    component [L] points at, keeps [I] section by section, where [I] relates the state to the
    stage of every goroutine; when it returns, its answer and its stage satisfy [Q]. A stage is
    what a goroutine holds between two sections (a message it has taken and not yet handed on,
    a file half written), which an invariant of the state alone cannot see. Only the first [lim]
    sections of the whole run count, for invariants that hold until a counter overflows. *)
Section Staged.
Context {W G : Type} (lim : nat) (I : nat -> list G -> W -> Env -> Prop).

Fixpoint staged {S A} (L : Lens W S) (i : nat) (ph : G) (p : prog S A) (Q : A -> G -> Prop) : Prop :=
  match p with
  | Ret a => Q a ph
  | Act a k => forall n g w e, n < lim -> g !! i = Some ph -> I n g w e ->
      wpA a (fun b s' e' =>
        exists ph', I (1 + n) (<[i := ph']> g) (put L s' w) e' /\ staged L i ph' (k b) Q)
        (get L w) e
  end.

Section Component.
Context {S : Type} (L : Lens W S).

Lemma staged_ret {A} i ph (a : A) (Q : A -> G -> Prop) : Q a ph -> staged L i ph (mret a) Q.
Proof. done. Qed.

Lemma staged_mono {A} i ph (p : prog S A) (Q R : A -> G -> Prop) :
  staged L i ph p Q -> (forall a ph', Q a ph' -> R a ph') -> staged L i ph p R.
Proof.
  revert ph. induction p as [a|B a k IH]; simpl; intros ph Hp HQR; [auto|].
  intros n g w e Hn Hg HI. eapply wpA_mono; [by apply (Hp n g)|].
  intros b w' e' (ph' & HI' & Hk). exists ph'. eauto.
Qed.

Lemma staged_bind {A B} i ph (p : prog S A) (f : A -> prog S B) Q R :
  staged L i ph p Q -> (forall a ph', Q a ph' -> staged L i ph' (f a) R) ->
  staged L i ph (p ≫= f) R.
Proof.
  unfold mbind, prog_bind. revert ph.
  induction p as [a|C a k IH]; simpl; intros ph Hp Hf; [auto|].
  intros n g w e Hn Hg HI. eapply wpA_mono; [by apply (Hp n g)|].
  intros b w' e' (ph' & HI' & Hk). exists ph'. eauto.
Qed.

Lemma staged_section {T A} i ph (M : Lens S T) (a : Atom T A) (Q : A -> G -> Prop) :
  (forall n g w e, n < lim -> g !! i = Some ph -> I n g w e ->
     wpA a (fun b t' e' => exists ph',
              I (1 + n) (<[i := ph']> g) (put L (put M t' (get L w)) w) e' /\ Q b ph')
       (get M (get L w)) e) ->
  staged L i ph (⟨M⟩ a) Q.
Proof. intros H n g w e Hn Hg HI. apply wpA_zoom. by apply (H n g). Qed.

(** A section that leaves the component alone. *)
Lemma staged_read {A} i ph (a : Atom S A) (Q : A -> G -> Prop) :
  (forall n g w e e', n < lim -> I n g w e -> I (1 + n) g w e') ->
  (forall n g w e, g !! i = Some ph -> I n g w e ->
     wpA a (fun b s' _ => s' = get L w /\ Q b ph) (get L w) e) ->
  staged L i ph (Act a Ret) Q.
Proof.
  intros Henv H n g w e Hn Hg HI. eapply wpA_mono; [by apply (H n g)|]. intros b s' e' [-> HQ].
  exists ph. rewrite list_insert_id, put_get by done. by split; [eapply Henv|].
Qed.

(** A program that guarantees what the invariant needs stays at its stage. *)
Lemma staged_of_guar {A} (R : S -> S -> Prop) i ph (p : prog S A) (Q : A -> Prop) :
  (forall n g w e s' e', n < lim -> I n g w e -> R (get L w) s' ->
     I (1 + n) g (put L s' w) e') ->
  guar R p Q -> staged L i ph p (fun a ph' => Q a /\ ph' = ph).
Proof.
  intros HI. induction p as [a|B a k IH]; simpl; [done|].
  intros Hp n g w e Hn Hg H. eapply wpA_mono; [apply Hp|]. intros b s' e' [HR Hk].
  exists ph. rewrite list_insert_id by done. split; [by eapply HI|auto].
Qed.

Lemma staged_within {A} i ph (p : prog S A) (Q : A -> G -> Prop) :
  staged L i ph p Q -> staged lens_id i ph (⟪L⟫ p) Q.
Proof.
  revert ph. induction p as [a|B a k IH]; simpl; intros ph Hp; [done|].
  intros n g w e Hn Hg HI. apply wpA_zoom. eapply wpA_mono; [by apply (Hp n g)|].
  intros b s' e' (ph' & HI' & Hk). exists ph'. auto.
Qed.
End Component.

Definition all_staged (ts : list (prog W unit)) (Q : unit -> G -> Prop) (g : list G) : Prop :=
  length g = length ts /\
  forall i p ph, ts !! i = Some p -> g !! i = Some ph -> staged lens_id i ph p Q.
End Staged.

(** An invariant every startable program keeps stage by stage holds, for some stages of the
    goroutines, in every state an interleaving reaches. *)
Theorem pool_staged {W G} lim (I : nat -> list G -> W -> Env -> Prop) (start : prog W unit -> Prop)
    (idle : G) (Q : unit -> G -> Prop) (P P' : Pool W) m n g :
  (forall n g w e, n < lim -> I n g w e -> I (1 + n) (g ++ [idle]) w e) ->
  (forall i p, start p -> staged lim I lens_id i idle p Q) ->
  nsteps (pool_step start) m P P' -> m + n <= lim ->
  I n g (p_world P) (p_env P) -> all_staged lim I (p_threads P) Q g ->
  exists g', I (m + n) g' (p_world P') (p_env P') /\ all_staged lim I (p_threads P') Q g'.
Proof.
  intros Hidle Hstart Hrun. revert n g.
  induction Hrun as [P|m P P1 P' Hstep _ IH]; intros n g Hlim HI [Hlen Hts]; [by exists g|].
  replace (S m + n) with (m + (1 + n)) by lia. assert (n < lim) as Hn by lia.
  destruct Hstep as [i p p' w w' e e' ts Hi H1|p w e ts Hp]; simpl in *.
  - destruct (lookup_lt_is_Some_2 g i) as [ph Hph]; [rewrite Hlen; by eapply lookup_lt_Some|].
    pose proof (Hts i p ph Hi Hph) as Hst. destruct p as [|B a k]; simpl in *; [done|].
    specialize (Hst n g w e Hn Hph HI). unfold wpA in Hst.
    destruct (a w e) as [[b w1] e1]. simplify_eq. destruct Hst as (ph' & HI' & Hk).
    apply (IH _ (<[i := ph']> g)); [lia|done|]. split; [rewrite !list.length_insert; exact Hlen|].
    intros j q ph1. rewrite !list_lookup_insert_Some.
    intros [(? & ? & _)|[Hne Hj]] [(? & ? & _)|[Hne' Hj']]; simplify_eq; eauto.
  - apply (IH _ (g ++ [idle])); [lia|auto|]. split; [rewrite !length_app; simpl; lia|].
    intros j q ph [Hj|[Hlj Hj]]%lookup_app_Some [Hj'|[Hlj' Hj']]%lookup_app_Some.
    + eauto.
    + apply lookup_lt_Some in Hj. lia.
    + apply lookup_lt_Some in Hj'. lia.
    + apply list_lookup_singleton_Some in Hj as [_ <-].
      apply list_lookup_singleton_Some in Hj' as [_ <-]. auto.
Qed.

(** Once every goroutine has returned, every stage is one a goroutine may end at. *)
Lemma all_staged_finished {W G} lim (I : nat -> list G -> W -> Env -> Prop)
    (ts : list (prog W unit)) Q g :
  all_staged lim I ts Q g -> Forall (fun p => p = Ret tt) ts -> Forall (Q tt) g.
Proof.
  intros [Hlen Hts] Hdone. apply Forall_lookup. intros i ph Hi.
  destruct (lookup_lt_is_Some_2 ts i) as [p Hp]; [rewrite <- Hlen; by eapply lookup_lt_Some|].
  specialize (Hts i p ph Hp Hi). rewrite (Forall_lookup_1 _ _ _ _ Hdone Hp) in Hts. exact Hts.
Qed.

(** *** Two programs beside each other

    Every interleaving of [p] and [q], section by section: [s] says whose section is next; when
    it is used up, [p] runs to its end and then [q]. *)
Fixpoint weave {W A B} (s : list bool) (p : prog W A) (q : prog W B) : prog W (A * B) :=
  match s with
  | [] => x ← p; y ← q; mret (x, y)
  | true :: s' => match p with
                  | Ret _ => weave s' p q
                  | Act a k => Act a (fun x => weave s' (k x) q)
                  end
  | false :: s' => match q with
                   | Ret _ => weave s' p q
                   | Act a k => Act a (fun y => weave s' p (k y))
                   end
  end.

Section Weave.
Context {W G : Type} (I : list G -> W -> Env -> Prop).
Abbreviation stays := (staged 1 (fun _ => I) lens_id).

(** A program run with nothing beside it, from one stage to another. *)
Lemma staged_wp {A} i ph (p : prog W A) (Q : A -> G -> Prop) g w e :
  stays i ph p Q -> g !! i = Some ph -> I g w e ->
  wp p (fun x w' e' => exists ph', I (<[i := ph']> g) w' e' /\ Q x ph') w e.
Proof.
  revert ph g w e. induction p as [x|B a k IH]; intros ph g w e Hp Hg HI.
  - apply wp_ret. exists ph. by rewrite list_insert_id.
  - apply wp_act. eapply wpA_mono; [apply (Hp 0 g); [lia|done..]|].
    intros b w' e' (ph1 & HI1 & Hk). eapply wp_mono; [apply (IH b ph1 (<[i := ph1]> g)); [done| |done]|].
    + rewrite list_lookup_insert_eq; [done|by eapply lookup_lt_Some].
    + intros x w2 e2 (ph2 & HI2 & HQ). exists ph2. by rewrite list_insert_insert_eq in HI2.
Qed.

Lemma weave_staged {A B} s (p : prog W A) (q : prog W B) (P : A -> G -> Prop) (Q : B -> G -> Prop) :
  forall g0 g1 w e, stays 0 g0 p P -> stays 1 g1 q Q -> I [g0; g1] w e ->
  wp (weave s p q) (fun r w' e' => exists g0' g1', I [g0'; g1'] w' e' /\ P r.1 g0' /\ Q r.2 g1') w e.
Proof.
  revert p q. induction s as [|[] s IH]; intros p q g0 g1 w e Hp Hq HI; cbn [weave].
  - apply wp_bind. eapply wp_mono; [apply (staged_wp 0 g0 p P [g0; g1]); [exact Hp|done|exact HI]|].
    intros x w1 e1 (g0' & HI1 & HP). cbn in HI1. apply wp_bind.
    eapply wp_mono; [apply (staged_wp 1 g1 q Q [g0'; g1]); [exact Hq|done|exact HI1]|].
    intros y w2 e2 (g1' & HI2 & HQ). cbn in HI2. apply wp_ret. by exists g0', g1'.
  - destruct p as [x|C a k]; [by eapply IH|]. apply wp_act.
    eapply wpA_mono; [apply (Hp 0 [g0; g1]); [lia|done..]|].
    intros b w' e' (g0' & HI' & Hk). by eapply IH.
  - destruct q as [x|C a k]; [by eapply IH|]. apply wp_act.
    eapply wpA_mono; [apply (Hq 0 [g0; g1]); [lia|done..]|].
    intros b w' e' (g1' & HI' & Hk). by eapply IH.
Qed.
End Weave.

(** ** Tickers

    [time.NewTicker(period)] as a loop uses it: [t] is the instant of the next tick. The channel
    holds one tick, so a loop that falls behind finds one waiting and the others are dropped. *)
Definition next_tick (period : Duration) (t c : Time) : Time :=
  (t + period * ((c - t) / period + 1))%Z.

(** [select { case <-stopCh: ...; case <-ticker.C: ... }]: the instant it takes the tick at, or
    [None] when it finds the channel closed. Without a tick ready a closed channel ends the wait;
    with both ready the runtime picks either. *)
Definition select_tick {S} (stopped : S -> bool) (t : Time) : Atom S (option Time) :=
  b ← gets stopped;
  if (b : bool) then
    c ← now;
    if (c <? t)%Z then mret None
    else coin ← flip; mret (if (coin : bool) then Some c else None)
  else
    sleep_until t ;;
    c ← now;
    mret (Some c).

(** The loop over the ticks; [false] when [fuel] ticks were not enough. *)
Fixpoint ticker_loop {W} (fuel : nat) (stopped : W -> bool) (period : Duration) (t : Time)
    (body : prog W unit) : prog W bool :=
  match fuel with
  | O => mret false
  | S fuel' =>
      fired ← ⟨lens_id⟩ select_tick stopped t;
      match fired with
      | None => mret true
      | Some c => body ;; ticker_loop fuel' stopped period (next_tick period t c) body
      end
  end.

(** The ticker the loop starts with. *)
Definition run_ticker {W} (fuel : nat) (stopped : W -> bool) (period : Duration)
    (body : prog W unit) : prog W bool :=
  t ← nowP; ticker_loop fuel stopped period (t + period)%Z body.

(** Ticks come no sooner than a period after the one before, and never more than a period after
    the loop took it. *)
Lemma next_tick_spec period t c :
  (0 < period)%Z -> (t <= c)%Z ->
  (c < next_tick period t c <= c + period)%Z /\ (t + period <= next_tick period t c)%Z.
Proof.
  intros Hp Hc. unfold next_tick. pose proof (Z.div_mod (c - t) period ltac:(lia)) as Hd.
  pose proof (Z.mod_pos_bound (c - t) period Hp).
  pose proof (Z.div_pos (c - t) period ltac:(lia) Hp). nia.
Qed.

Lemma select_tick_wp {S} (stopped : S -> bool) t (Q : option Time -> S -> Env -> Prop) s e :
  (forall c e', e ≼ e' -> (t <= c <= clock e')%Z -> (clock e <= c)%Z -> Q (Some c) s e') ->
  (stopped s = true -> forall e', e ≼ e' -> Q None s e') ->
  wpA (select_tick stopped t) Q s e.
Proof.
  intros Hsome Hnone. unfold select_tick. wps. destruct (stopped s) eqn:Hs.
  - wp_now e1 He1. destruct (Z.ltb_spec (clock e1) t); wps; [by apply Hnone|].
    apply wpA_flip. intros [] e2 He2; wps; [apply Hsome; clock|apply Hnone; [done|clock]].
  - wps. apply wpA_sleep. intros e1 He1 Ht. wp_now e2 He2. apply Hsome; clock.
Qed.

Lemma guar_ticker {W} (R : W -> W -> Prop) fuel stopped period body :
  (forall w, R w w) -> guar R body (fun _ => True) ->
  guar R (run_ticker fuel stopped period body) (fun _ => True).
Proof.
  intros HR Hb. apply guar_then; [by apply guar_nowP|]. intros t. generalize (t + period)%Z.
  induction fuel as [|fuel IH]; intros t'; [done|]. cbn [ticker_loop]. apply guar_then.
  - apply guar_atomically. intros w e. by apply select_tick_wp.
  - intros [c|]; [|done]. apply guar_then; [done|]. intros _. apply IH.
Qed.

Lemma staged_ticker {W G S} lim (I : nat -> list G -> W -> Env -> Prop) (L : Lens W S) i ph fuel
    stopped period body :
  (forall n g w e e', n < lim -> I n g w e -> I (1 + n) g w e') ->
  staged lim I L i ph body (fun _ ph' => ph' = ph) ->
  staged lim I L i ph (run_ticker fuel stopped period body) (fun _ ph' => ph' = ph).
Proof.
  intros HI Hb. eapply (staged_bind lim I L i ph _ _ (fun _ ph' => ph' = ph)).
  { apply staged_read; [done|]. intros n g w e _ _. by apply wpA_now. }
  intros t ph' ->. generalize (t + period)%Z.
  induction fuel as [|fuel IH]; intros t'; [done|]. cbn [ticker_loop].
  eapply (staged_bind lim I L i ph _ _ (fun _ ph' => ph' = ph)).
  { apply (staged_section lim I L i ph lens_id). intros n g w e Hn Hi H. cbn [get put lens_id].
    apply select_tick_wp; [intros c e' _ _ _|intros _ e' _]; exists ph;
      rewrite list_insert_id, put_get by done; (split; [by eapply HI|done]). }
  intros [c|] ph' ->; [|done]. eapply staged_bind; [exact Hb|]. intros _ ph' ->. apply IH.
Qed.

(** ** Lists and what their elements hold *)
Section Bind.
Context {A B : Type} (f : A -> list B).

Lemma insert_Permutation (l : list A) i x y :
  l !! i = Some x -> <[i := y]> l ≡ₚ y :: delete i l.
Proof.
  revert i. induction l as [|z l IH]; intros [|i] Hi; simplify_eq/=; [done|].
  change (delete (S i) (z :: l)) with (z :: delete i l).
  rewrite (IH i Hi). apply Permutation_swap.
Qed.

Lemma bind_split l i x : l !! i = Some x -> l ≫= f ≡ₚ f x ++ (delete i l ≫= f).
Proof. intros Hi. by rewrite (delete_Permutation l i x Hi) at 1. Qed.

Lemma bind_insert l i x y :
  l !! i = Some x -> <[i := y]> l ≫= f ≡ₚ f y ++ (delete i l ≫= f).
Proof. intros Hi. by rewrite (insert_Permutation l i x y Hi). Qed.
End Bind.

(** ** Bounded queues

    [q = append(q, x); if len(q) > max { q = q[len(q)-max:] }] *)
Definition cap {A} (max : nat) (l : list A) : list A :=
  if (max <? length l)%nat then drop (length l - max) l else l.

Section Cap.
Context {A : Type}.
Implicit Types (l : list A).

Lemma cap_drop max l : cap max l = drop (length l - max) l.
Proof.
  unfold cap. destruct (Nat.ltb_spec max (length l)); [done|].
  by replace (length l - max) with 0 by lia.
Qed.

Lemma length_cap max l : length (cap max l) = min max (length l).
Proof. rewrite cap_drop, length_drop. lia. Qed.

Lemma cap_small max l : length l <= max -> cap max l = l.
Proof. intros. rewrite cap_drop. by replace (length l - max) with 0 by lia. Qed.

Lemma cap_suffix max l : cap max l `suffix_of` l.
Proof. rewrite cap_drop. eexists. symmetry. apply take_drop. Qed.

Lemma elem_of_cap max l x : x ∈ cap max l -> x ∈ l.
Proof. destruct (cap_suffix max l) as [k Hk]. rewrite Hk at 2. set_solver. Qed.

(** Capping after every append keeps the last [max] of everything ever appended. *)
Lemma cap_app max l l' : cap max (cap max l ++ l') = cap max (l ++ l').
Proof.
  rewrite !cap_drop, !length_app, length_drop.
  assert (l ++ l' = take (length l - max) l ++ (drop (length l - max) l ++ l')) as Hl
    by by rewrite app_assoc, take_drop.
  rewrite Hl, (drop_app_ge (take _ _)) by (rewrite length_take; lia).
  rewrite length_take. f_equal. lia.
Qed.

Lemma cap_last max l x : 0 < max -> last (cap max (l ++ [x])) = Some x.
Proof.
  intros. rewrite cap_drop, drop_app_le; [apply last_snoc|]. rewrite length_app. simpl. lia.
Qed.
End Cap.

(** ** Keys of the form [sessionID + "/" + agentID] *)
Definition slash : ascii := "/"%char.

Fixpoint has_slash (s : string) : bool :=
  match s with
  | EmptyString => false
  | String c s' => bool_decide (c = slash) || has_slash s'
  end.

(** A session ID no other session's keys can collide with. *)
Definition plain (s : string) : Prop := has_slash s = false.

#[export] Instance plain_dec s : Decision (plain s).
Proof. unfold plain. apply _. Defined.

Definition join_key (sid aid : string) : string := sid +:+ "/" +:+ aid.

Lemma join_key_inj s1 s2 a1 a2 :
  plain s1 -> plain s2 -> join_key s1 a1 = join_key s2 a2 -> s1 = s2 /\ a1 = a2.
Proof.
  unfold plain, join_key. revert s2.
  induction s1 as [|c s1 IH]; intros [|d s2]; simpl; intros H1 H2 He; simplify_eq; try done.
  apply orb_false_iff in H1 as [_ H1], H2 as [_ H2].
  destruct (IH s2) as [-> ->]; auto.
Qed.

Lemma join_key_inj_r s a1 a2 : join_key s a1 = join_key s a2 -> a1 = a2.
Proof. unfold join_key. induction s; simpl; intros; simplify_eq; auto. Qed.

(** [strings.HasPrefix] *)
Fixpoint HasPrefix (s p : string) : bool :=
  match p, s with
  | EmptyString, _ => true
  | String _ _, EmptyString => false
  | String c p', String d s' => bool_decide (d = c) && HasPrefix s' p'
  end.

Lemma HasPrefix_spec s p : HasPrefix s p = true <-> exists r, s = p +:+ r.
Proof.
  revert s. induction p as [|c p IH]; intros [|d s]; simpl.
  - split; [by exists ""|done].
  - split; [by exists (String d s)|done].
  - split; [done|by intros [r ?]].
  - rewrite andb_true_iff, bool_decide_eq_true, IH. split.
    + intros [-> [r ->]]. by exists r.
    + intros [r He]. injection He as -> ->. eauto.
Qed.

Lemma string_app_assoc s1 s2 s3 : (s1 +:+ s2) +:+ s3 = s1 +:+ (s2 +:+ s3).
Proof. induction s1 as [|c s1 IH]; [done|]. exact (f_equal (String c) IH). Qed.

Lemma HasPrefix_join s1 s2 a :
  plain s1 -> plain s2 -> HasPrefix (join_key s2 a) (s1 +:+ "/") = true <-> s1 = s2.
Proof.
  intros H1 H2. rewrite HasPrefix_spec. split.
  - intros [r He]. rewrite string_app_assoc in He. by eapply join_key_inj in He as [-> _].
  - intros ->. exists a. by rewrite string_app_assoc.
Qed.

Lemma HasPrefix_join_self s a : HasPrefix (join_key s a) (s +:+ "/") = true.
Proof. apply HasPrefix_spec. exists a. by rewrite string_app_assoc. Qed.

(** [strings.TrimPrefix] *)
Definition TrimPrefix (s p : string) : string :=
  if HasPrefix s p then String.substring (String.length p) (String.length s - String.length p) s
  else s.

(** ** [hex.EncodeToString] *)
Definition hex_digit (n : N) : ascii :=
  if (n <? 10)%N then ascii_of_N (48 + n) else ascii_of_N (87 + n).

Fixpoint hex_encode (bs : list byte) : string :=
  match bs with
  | [] => ""
  | b :: bs' =>
      String (hex_digit (Byte.to_N b / 16)) (String (hex_digit (Byte.to_N b mod 16))
        (hex_encode bs'))
  end.

Lemma length_hex_encode bs : String.length (hex_encode bs) = 2 * length bs.
Proof. induction bs as [|b bs IH]; simpl; [done|]. rewrite IH. lia. Qed.

(** Generated IDs never contain a slash. *)
Lemma hex_encode_plain bs : plain (hex_encode bs).
Proof.
  unfold plain. induction bs as [|b bs IH]; [done|].
  change (has_slash (hex_encode (b :: bs))) with
    (bool_decide (hex_digit (Byte.to_N b / 16) = slash) ||
     (bool_decide (hex_digit (Byte.to_N b mod 16) = slash) || has_slash (hex_encode bs))).
  rewrite IH. clear IH. by destruct b.
Qed.

Lemma byte_of_nibbles b1 b2 :
  hex_digit (Byte.to_N b1 / 16) = hex_digit (Byte.to_N b2 / 16) ->
  hex_digit (Byte.to_N b1 mod 16) = hex_digit (Byte.to_N b2 mod 16) -> b1 = b2.
Proof.
  assert (forall n m, (n < 16)%N -> (m < 16)%N -> hex_digit n = hex_digit m -> n = m) as Hinj.
  { intros n m Hn Hm He. unfold hex_digit in He.
    destruct (N.ltb_spec n 10), (N.ltb_spec m 10); apply (f_equal N_of_ascii) in He;
      rewrite !N_ascii_embedding in He; lia. }
  assert (forall b, (Byte.to_N b / 16 < 16)%N) as Hb.
  { intros b. pose proof (Byte.to_N_bounded b). apply N.Div0.div_lt_upper_bound; lia. }
  intros Hd%Hinj Hm%Hinj; [|by auto using N.mod_upper_bound..].
  assert (Byte.to_N b1 = Byte.to_N b2) as He.
  { rewrite (N.div_mod (Byte.to_N b1) 16), (N.div_mod (Byte.to_N b2) 16) by done. congruence. }
  apply (f_equal Byte.of_N) in He. rewrite !Byte.of_to_N in He. congruence.
Qed.

Lemma hex_encode_inj bs1 bs2 : hex_encode bs1 = hex_encode bs2 -> bs1 = bs2.
Proof.
  revert bs2. induction bs1 as [|b1 bs1 IH]; intros [|b2 bs2]; [done..|].
  intros He. injection He as He1 He2 He3.
  rewrite (byte_of_nibbles b1 b2) by done. f_equal. auto.
Qed.

(** ** Results: [(value, error)] returns *)
Inductive result (A : Type) : Type :=
| Ok (a : A)
| Err (msg : string).
Arguments Ok {A} _.
Arguments Err {A} _.

(** Integers in decimal, as [%d] prints them. *)
Definition itoa (z : Z) : string := pretty z.

(** [%q]: a double-quoted Go string. Bytes from 0x80 on, which Go keeps when they encode a
    printable character, are kept. *)
Definition quote_char (c : ascii) : string :=
  let n := N_of_ascii c in
  let esc d := String (ascii_of_N 92) (String d "") in
  if bool_decide (n = 34 \/ n = 92)%N then esc c
  else if (n <? 32)%N || (n =? 127)%N then
    match n with
    | 7 => esc "a" | 8 => esc "b" | 9 => esc "t" | 10 => esc "n"
    | 11 => esc "v" | 12 => esc "f" | 13 => esc "r"
    | _ => String (ascii_of_N 92) (String "x"
             (String (hex_digit (n / 16)) (String (hex_digit (n mod 16)) "")))
    end%N%char
  else String c "".

Fixpoint quote_body (s : string) : string :=
  match s with
  | EmptyString => ""
  | String c s' => quote_char c +:+ quote_body s'
  end.

Definition quote (s : string) : string :=
  String (ascii_of_N 34) (quote_body s +:+ String (ascii_of_N 34) "").

(** ** Rebuilding a map from its values

    [for _, x := range xs { m[key(x)] = x }] *)
Definition index_by {V} (key : V -> string) (l : list V) : gmap string V :=
  foldl (fun m x => <[key x := x]> m) ∅ l.

Section IndexBy.
Context {V : Type} (key : V -> string).
Implicit Types (m : gmap string V) (l : list V).

Lemma index_by_lookup l k : index_by key l !! k = last (filter (fun x => key x = k) l).
Proof.
  unfold index_by. induction l as [|x l IH] using rev_ind; [done|].
  rewrite foldl_snoc, filter_app, filter_cons, filter_nil.
  destruct (decide (key x = k)) as [<-|Hk].
  - by rewrite lookup_insert_eq, last_snoc.
  - by rewrite lookup_insert_ne, app_nil_r.
Qed.

Definition keyed_by m : Prop := forall k x, m !! k = Some x -> key x = k.

Lemma keyed_filter m k :
  keyed_by m -> filter (fun x => key x = k) (map_to_list m).*2 ≡ₚ option_list (m !! k).
Proof.
  induction m as [|i x m Hi _ IH] using map_first_key_ind; intros Hk;
    [by rewrite map_to_list_empty, lookup_empty|].
  rewrite map_to_list_insert by done. rewrite fmap_cons, filter_cons. simpl.
  assert (key x = i) as Hx by (apply Hk; by rewrite lookup_insert_eq).
  assert (keyed_by m) as Hk'.
  { intros j y Hy. apply Hk. rewrite lookup_insert_ne by congruence. done. }
  destruct (decide (key x = k)) as [Hxk|Hxk]; rewrite IH by done; subst.
  - by rewrite lookup_insert_eq, Hi.
  - by rewrite lookup_insert_ne.
Qed.

(** Listing the values of a map in any order and indexing them again gives the map back. *)
Lemma index_by_values m l : keyed_by m -> l ≡ₚ (map_to_list m).*2 -> index_by key l = m.
Proof.
  intros Hk Hp. apply map_eq. intros k. rewrite index_by_lookup.
  pose proof (keyed_filter m k Hk) as Hf. rewrite <- Hp in Hf.
  destruct (m !! k) as [x|]; simpl in Hf.
  - apply Permutation_singleton_r in Hf. by rewrite Hf.
  - apply Permutation_nil_r in Hf. by rewrite Hf.
Qed.

Lemma keyed_values_keys m : keyed_by m -> key <$> (map_to_list m).*2 = (map_to_list m).*1.
Proof.
  intros Hk. rewrite <- list_fmap_compose. apply list_fmap_ext. intros i [k x] Hi.
  apply list_elem_of_lookup_2, elem_of_map_to_list in Hi. simpl. by apply Hk.
Qed.

Lemma keyed_values_NoDup m l : keyed_by m -> l ≡ₚ (map_to_list m).*2 -> NoDup (key <$> l).
Proof.
  intros Hk ->. rewrite keyed_values_keys by done. apply NoDup_fst_map_to_list.
Qed.

Lemma keyed_values_elem m l x :
  keyed_by m -> l ≡ₚ (map_to_list m).*2 -> x ∈ l -> m !! key x = Some x.
Proof.
  intros Hk -> ([k y] & -> & Hy%elem_of_map_to_list)%list_elem_of_fmap. simpl.
  by rewrite (Hk _ _ Hy).
Qed.

Lemma index_by_keyed l : keyed_by (index_by key l).
Proof.
  intros k x. rewrite index_by_lookup. intros Hl.
  apply last_Some_elem_of, list_elem_of_filter in Hl. naive_solver.
Qed.
End IndexBy.

(** ** Maps of maps

    [if m[i] == nil { m[i] = make(map...) }; m[i][j] = v] *)
Definition insert2 {V} (i j : string) (v : V) (m : gmap string (gmap string V))
    : gmap string (gmap string V) :=
  <[i := <[j := v]> (default ∅ (m !! i))]> m.

Definition lookup2 {V} (i j : string) (m : gmap string (gmap string V)) : option V :=
  mi ← m !! i; mi !! j.

Lemma lookup2_insert2 {V} i j (v : V) m i' j' :
  lookup2 i' j' (insert2 i j v m) =
  if decide (i = i' /\ j = j') then Some v else lookup2 i' j' m.
Proof.
  unfold lookup2, insert2.
  destruct (decide (i = i')) as [<-|Hi];
    [|rewrite lookup_insert_ne by done; by rewrite decide_False by tauto].
  rewrite lookup_insert_eq. simpl. destruct (decide (j = j')) as [<-|Hj].
  - rewrite lookup_insert_eq. by rewrite decide_True.
  - rewrite lookup_insert_ne by done. rewrite decide_False by tauto. by destruct (m !! i).
Qed.

Lemma lookup2_delete {V} i (m : gmap string (gmap string V)) i' j' :
  lookup2 i' j' (delete i m) = if decide (i = i') then None else lookup2 i' j' m.
Proof. unfold lookup2. rewrite lookup_delete. by case_decide. Qed.

Lemma lookup2_delete2 {V} i j (mi : gmap string V) m i' j' :
  m !! i = Some mi ->
  lookup2 i' j' (<[i := delete j mi]> m) =
  if decide (i = i' /\ j = j') then None else lookup2 i' j' m.
Proof.
  unfold lookup2. intros Hmi. destruct (decide (i = i')) as [<-|Hi];
    [|rewrite lookup_insert_ne by done; by rewrite decide_False by tauto].
  rewrite lookup_insert_eq, Hmi. simpl. rewrite lookup_delete.
  repeat case_decide; tauto.
Qed.

Lemma sublist_fmap {A B} (f : A -> B) (l1 l2 : list A) :
  l1 `sublist_of` l2 -> f <$> l1 `sublist_of` f <$> l2.
Proof. induction 1; simpl; by constructor. Qed.

Lemma alter_alter {A} (f g : A -> A) (i : nat) (l : list A) :
  alter f i (alter g i l) = alter (f ∘ g) i l.
Proof. revert i. induction l as [|x l IH]; intros [|i]; simpl; [done..|]. f_equal. apply IH. Qed.

Lemma filter_true {A} (P : A -> Prop) `{!forall x, Decision (P x)} (l : list A) :
  (forall x, x ∈ l -> P x) -> filter P l = l.
Proof.
  induction l as [|x l IH]; intros Hl; [done|].
  rewrite filter_cons, decide_True by (apply Hl; left). f_equal. apply IH. intros. apply Hl. by right.
Qed.

(** When no element passes a test, all of them fail it. *)
Lemma filter_complement {A} (f : A -> bool) (l : list A) :
  filter (fun x => f x = true) l = [] -> filter (fun x => f x = false) l = l.
Proof.
  intros Hnone. apply filter_true. intros x Hx. destruct (f x) eqn:Hf; [|done].
  assert (x ∈ @nil A) as Habs%not_elem_of_nil; [|done].
  rewrite <- Hnone. by apply list_elem_of_filter.
Qed.

Lemma filter_none {A} (P : A -> Prop) `{!forall x, Decision (P x)} (l : list A) :
  (forall x, x ∈ l -> ~ P x) -> filter P l = [].
Proof.
  induction l as [|x l IH]; intros Hl; [done|].
  rewrite filter_cons, decide_False by (apply Hl; left). apply IH. intros. apply Hl. by right.
Qed.
