(* ===== verification/Rfc3339.v ===== *)
(** * Decimal text and RFC 3339 times

    Runs of digits, fixed-width numbers, the calendar, and the two directions of a time's JSON:
    [rfc3339] is what [time.Time.MarshalJSON] writes of a UTC time, [parse_rfc3339] what
    [UnmarshalJSON] reads (a fraction of any length, any offset). *)

From Stdlib Require Import Strings.Ascii.
From S2P Require Import Prelude.

#[local] Open Scope Z_scope.

(** A character by its code, and one-character strings. *)
Definition chr (n : N) : ascii := ascii_of_N n.
Abbreviation str1 c := (String c "").

Lemma str_app_nil s : s +:+ "" = s.
Proof. induction s as [|c s IH]; [done|]. exact (f_equal (String c) IH). Qed.

Lemma str_app_length s r : String.length (s +:+ r) = (String.length s + String.length r)%nat.
Proof. induction s as [|c s IH]; [done|]. exact (f_equal S IH). Qed.

Lemma str_cons_app c s r : String c s +:+ r = String c (s +:+ r).
Proof. done. Qed.

(** The rest after a prefix. *)
Definition expect (p s : string) : option string :=
  if HasPrefix s p then Some (TrimPrefix s p) else None.

Lemma expect_app p r : expect p (p +:+ r) = Some r.
Proof.
  assert (HasPrefix (p +:+ r) p = true) as Hp by (apply HasPrefix_spec; by exists r).
  unfold expect, TrimPrefix. rewrite Hp. f_equal. rewrite str_app_length.
  replace (String.length p + String.length r - String.length p)%nat with (String.length r) by lia.
  clear Hp. induction p as [|c p IH]; simpl; [|exact IH].
  induction r as [|c r IH]; [done|]. simpl. f_equal. exact IH.
Qed.

Definition is_digit (c : ascii) : bool := ((48 <=? N_of_ascii c) && (N_of_ascii c <=? 57))%N.

(** A run of digits and what follows it. *)
Fixpoint span_digits (s : string) : string * string :=
  match s with
  | String c s' => if is_digit c then let '(d, r) := span_digits s' in (String c d, r) else ("", s)
  | EmptyString => ("", "")
  end.

Fixpoint dec_value (acc : Z) (s : string) : Z :=
  match s with
  | String c s' => dec_value (10 * acc + (Z.of_N (N_of_ascii c) - 48)) s'
  | EmptyString => acc
  end.

(** Number literals that are not integers, as the reader takes them. *)
Definition number_end (r : string) : Prop :=
  match r with
  | EmptyString => True
  | String c _ => is_digit c = false /\ c <> "."%char /\ c <> "e"%char /\ c <> "E"%char
  end.

Lemma pretty_char_digit x :
  (x < 10)%N -> is_digit (pretty_N_char x) = true /\ N_of_ascii (pretty_N_char x) = (48 + x)%N.
Proof.
  intros Hx. assert (x ∈ [0; 1; 2; 3; 4; 5; 6; 7; 8; 9]%N) as Hin by (rewrite !elem_of_cons; lia).
  revert Hin. clear. intros Hin. repeat (apply elem_of_cons in Hin as [->|Hin]; [by split|]).
  by apply not_elem_of_nil in Hin.
Qed.

Fixpoint all_digits (s : string) : bool :=
  match s with String c s' => is_digit c && all_digits s' | EmptyString => true end.

Lemma span_all s r :
  all_digits s = true -> number_end r -> span_digits (s +:+ r) = (s, r).
Proof.
  intros Hs Hr. induction s as [|c s IH]; simpl in *.
  - destruct r as [|c r]; [done|]. simpl. by destruct Hr as [-> _].
  - apply andb_true_iff in Hs as [-> Hs]. by rewrite IH.
Qed.

Lemma dec_value_app acc s r : dec_value acc (s +:+ r) = dec_value (dec_value acc s) r.
Proof. revert acc. induction s as [|c s IH]; intros acc; [done|]. apply IH. Qed.

(** The digits of a positive number, before the digits [s]. *)
Lemma pretty_go_spec x : forall s, (0 < x)%N ->
  exists p c, pretty_N_go x s = String c p +:+ s /\ all_digits (String c p) = true /\
    dec_value 0 (String c p) = Z.of_N x /\ c <> "0"%char.
Proof.
  induction (N.lt_wf_0 x) as [x _ IH]. intros s Hx. rewrite pretty_N_go_step by done.
  assert (x `mod` 10 < 10)%N as Hm by (by apply N.mod_lt).
  destruct (pretty_char_digit _ Hm) as [Hd Hn].
  destruct (N.ltb_spec x 10) as [Hlt|Hge].
  - rewrite N.div_small, pretty_N_go_0 by done. rewrite N.mod_small in * by done.
    exists "", (pretty_N_char x). split; [done|]. simpl. rewrite Hd, Hn. split; [done|].
    split; [lia|]. intros E. rewrite E in Hn. change (N_of_ascii "0") with 48%N in Hn. lia.
  - destruct (IH (x `div` 10)%N ltac:(apply N.div_lt; lia) (String (pretty_N_char (x `mod` 10)) s))
      as (p & c & -> & Ha & Hv & Hc); [apply N.div_str_pos; lia|].
    exists (p +:+ str1 (pretty_N_char (x `mod` 10))), c.
    split; [exact (f_equal (String c) (eq_sym (string_app_assoc p (str1 (pretty_N_char (x `mod` 10))) s)))|].
    change (String c (p +:+ str1 (pretty_N_char (x `mod` 10)))) with
      (String c p +:+ str1 (pretty_N_char (x `mod` 10))).
    split; [|split; [|done]].
    + clear -Ha Hd. revert Ha. generalize (String c p) as q. induction q as [|d q IHq]; simpl.
      * by rewrite Hd.
      * rewrite !andb_true_iff. naive_solver.
    + rewrite dec_value_app, Hv. simpl. rewrite Hn.
      pose proof (N.div_mod x 10 ltac:(done)). lia.
Qed.

(** A positive number in decimal. *)
Lemma itoa_pos p :
  exists c q, itoa (Zpos p) = String c q /\ all_digits (String c q) = true /\
    dec_value 0 (String c q) = Zpos p /\ c <> "0"%char.
Proof.
  destruct (pretty_go_spec (Npos p) "" ltac:(done)) as (q & c & E & H).
  exists c, q. rewrite str_app_nil in E. split; [exact E|done].
Qed.

(** ** Times, as [time.Time.MarshalJSON] writes them *)

(** Year, month and day of the [z]-th day from January 1, 1970. *)
Definition civil (z : Z) : Z * Z * Z :=
  let z := z + 719468 in
  let era := z / 146097 in
  let doe := z mod 146097 in
  let yoe := (doe - doe / 1460 + doe / 36524 - doe / 146096) / 365 in
  let doy := doe - (365 * yoe + yoe / 4 - yoe / 100) in
  let mp := (5 * doy + 2) / 153 in
  let d := doy - (153 * mp + 2) / 5 + 1 in
  let m := if mp <? 10 then mp + 3 else mp - 9 in
  (yoe + era * 400 + (if m <=? 2 then 1 else 0), m, d).

(** [n] in decimal with at least [w] digits. *)
Fixpoint zeros (w : nat) : string := match w with O => "" | S w' => String "0"%char (zeros w') end.
Definition pad0 (w : nat) (n : Z) : string :=
  let s := itoa n in zeros (w - String.length s) +:+ s.

(** The digits of a string with the trailing zeros dropped. *)
Fixpoint trim_zeros (s : string) : string :=
  match s with
  | EmptyString => ""
  | String c s' =>
      let t := trim_zeros s' in
      if bool_decide (t = "" /\ c = "0"%char) then "" else String c t
  end.

Definition rfc3339 (t : Time) : string :=
  let secs := t / 10 ^ 9 in
  let ns := t mod 10 ^ 9 in
  let '(y, m, d) := civil (secs / 86400) in
  let sod := secs mod 86400 in
  let frac := trim_zeros (pad0 9 ns) in
  pad0 4 y +:+ "-" +:+ pad0 2 m +:+ "-" +:+ pad0 2 d +:+ "T" +:+ pad0 2 (sod / 3600) +:+ ":" +:+
  pad0 2 (sod / 60 mod 60) +:+ ":" +:+ pad0 2 (sod mod 60) +:+
  (if bool_decide (frac = "") then "" else "." +:+ frac) +:+ "Z".

Example rfc3339_epoch : rfc3339 0 = "1970-01-01T00:00:00Z".
Proof. vm_compute. reflexivity. Qed.
Example rfc3339_leap : rfc3339 (951827696 * 10 ^ 9 + 120000000) = "2000-02-29T12:34:56.12Z".
Proof. vm_compute. reflexivity. Qed.
Example rfc3339_zero : rfc3339 zeroTime = "0001-01-01T00:00:00Z".
Proof. vm_compute. reflexivity. Qed.

(** *** Reading *)
Definition leap (y : Z) : bool :=
  (y mod 4 =? 0) && (negb (y mod 100 =? 0) || (y mod 400 =? 0)).

Definition daysIn (m y : Z) : Z :=
  if m =? 2 then (if leap y then 29 else 28)
  else if bool_decide (m ∈ [4; 6; 9; 11]) then 30 else 31.

(** The number of the day from January 1, 1970. *)
Definition days (y m d : Z) : Z :=
  let y := if m <=? 2 then y - 1 else y in
  let era := y / 400 in
  let yoe := y mod 400 in
  let mp := if m <=? 2 then m + 9 else m - 3 in
  let doy := (153 * mp + 2) / 5 + d - 1 in
  let doe := yoe * 365 + yoe / 4 - yoe / 100 + doy in
  era * 146097 + doe - 719468.

(** Exactly [k] digits. *)
Fixpoint read_digits (k : nat) (acc : Z) (s : string) : option (Z * string) :=
  match k with
  | O => Some (acc, s)
  | S k' =>
      match s with
      | String c s' => if is_digit c then read_digits k' (10 * acc + (Z.of_N (N_of_ascii c) - 48)) s'
                       else None
      | EmptyString => None
      end
  end.

(** A number of [k] digits between two bounds. *)
Definition read_between (k : nat) (lo hi : Z) (s : string) : option (Z * string) :=
  '(n, r) ← read_digits k 0 s; if (lo <=? n) && (n <=? hi) then Some (n, r) else None.

(** The nanoseconds of a fraction: digits beyond the ninth are dropped. *)
Definition frac_ns (ds : string) : Z :=
  let ds := String.substring 0 9 ds in
  dec_value 0 ds * 10 ^ (9 - Z.of_nat (String.length ds)).

Definition read_fraction (s : string) : Z * string :=
  match expect "." s with
  | Some r => let '(ds, r) := span_digits r in if bool_decide (ds = "") then (0, s) else (frac_ns ds, r)
  | None => (0, s)
  end.

(** The offset from UTC in seconds. *)
Definition read_offset (s : string) : option Z :=
  if bool_decide (s = "Z") then Some 0
  else
    match s with
    | String c s' =>
        '(h, s') ← read_between 2 0 23 s'; s' ← expect ":" s';
        '(m, s') ← read_between 2 0 59 s';
        if bool_decide (s' <> "") then None
        else if bool_decide (c = "+"%char) then Some ((h * 60 + m) * 60)
        else if bool_decide (c = "-"%char) then Some (- ((h * 60 + m) * 60))
        else None
    | EmptyString => None
    end.

Definition parse_rfc3339 (s : string) : option Time :=
  '(y, s) ← read_between 4 0 9999 s; s ← expect "-" s;
  '(mo, s) ← read_between 2 1 12 s; s ← expect "-" s;
  '(d, s) ← read_between 2 1 (daysIn mo y) s; s ← expect "T" s;
  '(h, s) ← read_between 2 0 23 s; s ← expect ":" s;
  '(mi, s) ← read_between 2 0 59 s; s ← expect ":" s;
  '(sec, s) ← read_between 2 0 59 s;
  let '(ns, s) := read_fraction s in
  off ← read_offset s;
  Some ((days y mo d * 86400 + h * 3600 + mi * 60 + sec - off) * 10 ^ 9 + ns).

Example parse_offset : parse_rfc3339 "2000-02-29T14:34:56.12+02:00" = Some (951827696 * 10 ^ 9 + 120000000).
Proof. vm_compute. reflexivity. Qed.

(** *** The calendar is one to one *)

(** A check of every number from [z] on. *)
Fixpoint upto (check : Z -> bool) (n : nat) (z : Z) : bool :=
  match n with O => true | S n' => check z && upto check n' (z + 1) end.

Lemma upto_spec check n z x : upto check n z = true -> z <= x < z + Z.of_nat n -> check x = true.
Proof.
  revert z. induction n as [|n IH]; intros z; [lia|]. cbn [upto]. intros [Hz Hn]%andb_true_iff Hx.
  destruct (decide (x = z)) as [->|]; [done|]. apply (IH (z + 1)); [done|lia].
Qed.

(** The years of an era begin on March 1; the days from [year_start y] to [year_start (y + 1)]
    are those of the [y]-th, and the last year has one more. *)
Definition year_start (y : Z) : Z :=
  365 * y + y / 4 - y / 100 + (if y =? 400 then 1 else 0).
Definition year_days (doe : Z) : Z := doe - doe / 1460 + doe / 36524 - doe / 146096.

Definition year_ok (y : Z) : bool :=
  (year_days (year_start y) / 365 =? y) && (year_days (year_start (y + 1) - 1) / 365 =? y) &&
  (year_start (y + 1) - year_start y =? if leap (y + 1) then 366 else 365).

(** The month and the day of the [doy]-th day of a year; the last one only leap years have. *)
Definition day_ok (doy : Z) : bool :=
  let mp := (5 * doy + 2) / 153 in
  let d := doy - (153 * mp + 2) / 5 + 1 in
  let m := if mp <? 10 then mp + 3 else mp - 9 in
  (0 <=? mp) && (mp <=? 11) && (1 <=? d) &&
  (if doy =? 365 then (m =? 2) && (d =? 29) else d <=? daysIn m 1).

Lemma years_ok : upto year_ok 400 0 = true.
Proof. vm_compute. reflexivity. Qed.
Lemma days_ok : upto day_ok 366 0 = true.
Proof. vm_compute. reflexivity. Qed.

Lemma year_days_step x : 0 <= x < 146096 -> year_days x <= year_days (x + 1).
Proof. unfold year_days. intros Hx. Z.to_euclidean_division_equations. lia. Qed.

Lemma year_days_mono x y : 0 <= x <= y -> y < 146097 -> year_days x <= year_days y.
Proof.
  intros Hxy Hy. assert (exists n, y = x + Z.of_nat n) as [n ->] by (exists (Z.to_nat (y - x)); lia).
  assert (0 <= x) by lia. clear Hxy. induction n as [|n IH]; [by rewrite Z.add_0_r|].
  etrans; [apply IH; lia|]. replace (x + Z.of_nat (S n)) with (x + Z.of_nat n + 1) by lia.
  apply year_days_step. lia.
Qed.

(** The year a day of an era belongs to. *)
Lemma year_of doe : 0 <= doe < 146097 ->
  exists y, 0 <= y < 400 /\ year_start y <= doe < year_start (y + 1).
Proof.
  intros Hd.
  assert (forall n, (n <= 400)%nat -> doe < year_start (Z.of_nat n) ->
    exists y, 0 <= y < 400 /\ year_start y <= doe < year_start (y + 1)) as H.
  { induction n as [|n IH]; intros Hn Hlt; [change (year_start (Z.of_nat 0)) with 0 in Hlt; lia|].
    destruct (Z.lt_ge_cases doe (year_start (Z.of_nat n))) as [Hl|Hg]; [apply IH; [lia|done]|].
    exists (Z.of_nat n). replace (Z.of_nat n + 1) with (Z.of_nat (S n)) by lia. lia. }
  apply (H 400%nat); [lia|]. replace (year_start (Z.of_nat 400)) with 146097 by done. lia.
Qed.

Lemma era_spec doe : 0 <= doe < 146097 ->
  let yoe := year_days doe / 365 in
  let doy := doe - (365 * yoe + yoe / 4 - yoe / 100) in
  0 <= yoe < 400 /\ 0 <= doy <= 365 /\ day_ok doy = true /\ (doy = 365 -> leap (yoe + 1) = true).
Proof.
  intros Hd. destruct (year_of doe Hd) as (y & Hy & Hs). cbv zeta.
  pose proof (upto_spec _ _ _ y years_ok ltac:(lia)) as Hok. unfold year_ok in Hok.
  rewrite !andb_true_iff, !Z.eqb_eq in Hok. destruct Hok as [[H1 H2] H3].
  assert (0 <= year_start y /\ year_start (y + 1) <= 146097) as [Hlo Hhi].
  { unfold year_start. split.
    - destruct (Z.eqb_spec y 400); Z.to_euclidean_division_equations; lia.
    - destruct (Z.eqb_spec (y + 1) 400); Z.to_euclidean_division_equations; lia. }
  pose proof (year_days_mono (year_start y) doe ltac:(lia) ltac:(lia)).
  pose proof (year_days_mono doe (year_start (y + 1) - 1) ltac:(lia) ltac:(lia)).
  assert (year_days doe / 365 = y) as -> by (Z.to_euclidean_division_equations; lia).
  assert (year_start y = 365 * y + y / 4 - y / 100) as Hst.
  { unfold year_start. destruct (Z.eqb_spec y 400); lia. }
  rewrite <- Hst. destruct (leap (y + 1)) eqn:Hl; (split; [lia|]); (split; [lia|]);
    (split; [apply (upto_spec _ _ _ _ days_ok); lia|]); [done|lia].
Qed.

Lemma leap_era y e : leap (y + e * 400) = leap y.
Proof.
  unfold leap. rewrite Z.mod_add by done.
  replace (y + e * 400) with (y + (e * 100) * 4) at 1 by lia.
  replace (y + e * 400) with (y + (e * 4) * 100) by lia. by rewrite !Z.mod_add.
Qed.

Lemma daysIn_era m y e : daysIn m (y + e * 400) = daysIn m y.
Proof. unfold daysIn. by rewrite leap_era. Qed.

Lemma civil_spec z : let '(y, m, d) := civil z in
  days y m d = z /\ 1 <= m <= 12 /\ 1 <= d <= daysIn m y.
Proof.
  unfold civil. cbv zeta. set (x := z + 719468). set (era := x / 146097). set (doe := x mod 146097).
  assert (0 <= doe < 146097) as Hdoe by (apply Z.mod_pos_bound; done).
  assert (x = era * 146097 + doe) as Hx by (subst era doe; pose proof (Z.div_mod x 146097); lia).
  destruct (era_spec doe Hdoe) as (Hyoe & Hdoy & Hok & Hleap). unfold year_days in *. unfold day_ok in Hok.
  cbv zeta in Hok.
  set (yoe := (doe - doe / 1460 + doe / 36524 - doe / 146096) / 365) in *.
  set (doy := doe - (365 * yoe + yoe / 4 - yoe / 100)) in *.
  set (mp := (5 * doy + 2) / 153) in *. rewrite !andb_true_iff, !Z.leb_le in Hok.
  destruct Hok as [[[H3 H4] H5] H6].
  assert (forall m, (if mp <? 10 then mp + 3 else mp - 9) = m ->
    1 <= m <= 12 /\ (if m <=? 2 then m + 9 else m - 3) = mp) as Hm.
  { intros m <-. destruct (Z.ltb_spec mp 10); destruct (Z.leb_spec (mp + 3) 2);
      destruct (Z.leb_spec (mp - 9) 2); lia. }
  set (m := if mp <? 10 then mp + 3 else mp - 9) in *. destruct (Hm m eq_refl) as [Hm1 Hm2].
  split; [|split; [done|]].
  - unfold days. rewrite Hm2.
    replace (if m <=? 2 then yoe + era * 400 + (if m <=? 2 then 1 else 0) - 1
             else yoe + era * 400 + (if m <=? 2 then 1 else 0)) with (yoe + era * 400)
      by (destruct (m <=? 2); lia).
    rewrite Z.div_add, Z.mod_add, Z.div_small, Z.mod_small by lia. subst doy. lia.
  - split; [done|]. replace (yoe + era * 400 + (if m <=? 2 then 1 else 0)) with
      (yoe + (if m <=? 2 then 1 else 0) + era * 400) by lia. rewrite daysIn_era.
    destruct (Z.eqb_spec doy 365) as [Hl|Hl].
    + apply andb_true_iff in H6 as [Hm2'%Z.eqb_eq Hd29%Z.eqb_eq]. rewrite Hm2' in *. simpl.
      unfold daysIn. simpl. rewrite Hleap by done. lia.
    + apply Z.leb_le in H6. etrans; [exact H6|]. unfold daysIn. destruct (m =? 2); [|done].
      change (leap 1) with false. cbv iota. generalize (leap (yoe + (if m <=? 2 then 1 else 0))). intros []; lia.
Qed.

(** *** Fixed-width numbers *)
Lemma all_digits_app s r : all_digits (s +:+ r) = all_digits s && all_digits r.
Proof.
  induction s as [|c s IH]; [done|]. rewrite str_cons_app. cbn [all_digits].
  by rewrite IH, andb_assoc.
Qed.

Lemma dec_value_acc acc s : dec_value acc s = acc * 10 ^ Z.of_nat (String.length s) + dec_value 0 s.
Proof.
  revert acc. induction s as [|c s IH]; intros acc; cbn [dec_value String.length]; [simpl; lia|].
  rewrite IH, (IH (10 * 0 + _)), Nat2Z.inj_succ, Z.pow_succ_r by lia. ring.
Qed.

Lemma dec_value_zeros w s : dec_value 0 (zeros w +:+ s) = dec_value 0 s.
Proof. induction w as [|w IH]; [done|]. exact IH. Qed.

Lemma all_digits_zeros w : all_digits (zeros w) = true.
Proof. by induction w. Qed.

Lemma length_zeros w : String.length (zeros w) = w.
Proof. induction w as [|w IH]; [done|]. exact (f_equal S IH). Qed.

Lemma digit_range c : is_digit c = true -> 0 <= Z.of_N (N_of_ascii c) - 48 <= 9.
Proof. unfold is_digit. rewrite andb_true_iff, !N.leb_le. lia. Qed.

Lemma dec_value_bounds s : all_digits s = true -> 0 <= dec_value 0 s < 10 ^ Z.of_nat (String.length s).
Proof.
  induction s as [|c s IH]; [simpl; lia|]. cbn [all_digits dec_value]. intros [Hc Hs]%andb_true_iff.
  specialize (IH Hs). pose proof (digit_range c Hc). rewrite dec_value_acc. cbn [String.length].
  rewrite Nat2Z.inj_succ, Z.pow_succ_r by lia. nia.
Qed.

(** A number of at most [w] digits, padded, is [w] digits that spell it. *)
Lemma pad0_spec w n : 0 <= n < 10 ^ Z.of_nat w -> (0 < w)%nat ->
  String.length (pad0 w n) = w /\ all_digits (pad0 w n) = true /\ dec_value 0 (pad0 w n) = n.
Proof.
  intros Hn Hw. unfold pad0. cbv zeta.
  assert ((String.length (itoa n) <= w)%nat /\ all_digits (itoa n) = true /\ dec_value 0 (itoa n) = n)
    as (Hl & Ha & Hv).
  { destruct n as [|p|p]; [done| |lia]. destruct (itoa_pos p) as (c & q & -> & Ha & Hv & Hc).
    split; [|done]. cbn [String.length]. cbn [all_digits] in Ha. apply andb_true_iff in Ha as [Hc' Ha].
    cbn [dec_value] in Hv. rewrite dec_value_acc in Hv. pose proof (dec_value_bounds q Ha).
    pose proof (digit_range c Hc').
    assert (Z.of_N (N_of_ascii c) <> 48).
    { intros E. apply Hc. rewrite <- (ascii_N_embedding c). by replace (N_of_ascii c) with 48%N by lia. }
    apply Nat.nle_gt. intros Hle.
    assert (10 ^ Z.of_nat w <= 10 ^ Z.of_nat (String.length q)) by (apply Z.pow_le_mono_r; lia). nia. }
  rewrite str_app_length, length_zeros, all_digits_app, all_digits_zeros, dec_value_zeros.
  split; [lia|done].
Qed.

Lemma read_digits_app d r acc :
  all_digits d = true -> read_digits (String.length d) acc (d +:+ r) = Some (dec_value acc d, r).
Proof.
  revert acc. induction d as [|c d IH]; intros acc; [done|]. cbn [all_digits]. intros [Hc Hd]%andb_true_iff.
  rewrite str_cons_app. cbn [String.length read_digits dec_value]. by rewrite Hc, IH.
Qed.

Lemma read_between_pad k lo hi n r :
  0 <= n < 10 ^ Z.of_nat k -> (0 < k)%nat -> lo <= n <= hi ->
  read_between k lo hi (pad0 k n +:+ r) = Some (n, r).
Proof.
  intros Hn Hk Hb. destruct (pad0_spec k n Hn Hk) as (Hl & Ha & Hv). unfold read_between.
  rewrite <- Hl at 1. rewrite read_digits_app by done. simpl. rewrite Hv.
  by rewrite (proj2 (Z.leb_le lo n)), (proj2 (Z.leb_le n hi)) by lia.
Qed.

(** *** Fractions *)
Lemma trim_zeros_spec s : all_digits s = true -> all_digits (trim_zeros s) = true /\
  (String.length (trim_zeros s) <= String.length s)%nat /\
  dec_value 0 (trim_zeros s) * 10 ^ (Z.of_nat (String.length s) - Z.of_nat (String.length (trim_zeros s)))
    = dec_value 0 s.
Proof.
  induction s as [|c s IH]; [done|]. cbn [all_digits]. intros [Hc Hs]%andb_true_iff.
  destruct (IH Hs) as (Ha & Hl & Hv). cbn [trim_zeros]. case_bool_decide as Ht.
  - destruct Ht as [Ht ->]. rewrite Ht in Hv. split; [done|]. split; [simpl; lia|].
    cbn [dec_value] in *. change (10 * 0 + (Z.of_N (N_of_ascii "0") - 48)) with 0. lia.
  - cbn [all_digits String.length dec_value]. rewrite Hc, Ha. split; [done|]. split; [lia|].
    rewrite (dec_value_acc (10 * 0 + _) s), (dec_value_acc (10 * 0 + _) (trim_zeros s)), <- Hv.
    rewrite !Nat2Z.inj_succ.
    replace (Z.succ (Z.of_nat (String.length s)) - Z.succ (Z.of_nat (String.length (trim_zeros s))))
      with (Z.of_nat (String.length s) - Z.of_nat (String.length (trim_zeros s))) by lia.
    rewrite Z.mul_add_distr_r, <- Z.mul_assoc, <- Z.pow_add_r by lia. do 2 f_equal. f_equal. lia.
Qed.

Lemma substring_short n s : (String.length s <= n)%nat -> String.substring 0 n s = s.
Proof.
  revert n. induction s as [|c s IH]; intros [|n] Hn; simpl in *; [done..|lia|]. f_equal. apply IH. lia.
Qed.

Lemma read_fraction_back ns r :
  0 <= ns < 10 ^ 9 -> number_end r ->
  let f := trim_zeros (pad0 9 ns) in
  read_fraction ((if bool_decide (f = "") then "" else "." +:+ f) +:+ r) = (ns, r).
Proof.
  intros Hn Hr f. destruct (pad0_spec 9 ns Hn ltac:(lia)) as (Hl & Ha & Hv).
  destruct (trim_zeros_spec _ Ha) as (Hfa & Hfl & Hfv). fold f in Hfa, Hfl, Hfv. rewrite Hl in *.
  unfold read_fraction. case_bool_decide as Hf.
  - rewrite Hf in Hfv. change ("" +:+ r) with r. simpl in Hfv. replace ns with 0 by lia.
    destruct r as [|c r]; [done|]. destruct Hr as (_ & Hdot & _).
    unfold expect. simpl. by rewrite bool_decide_eq_false_2.
  - rewrite string_app_assoc, expect_app, span_all by done. rewrite bool_decide_eq_false_2 by done.
    unfold frac_ns. rewrite substring_short by done. f_equal.
    rewrite <- Hv, <- Hfv. done.
Qed.

(** The instants whose year is written with four digits. *)
Definition year_written (t : Time) : Prop := 0 <= (civil (t / 10 ^ 9 / 86400)).1.1 <= 9999.

Lemma parse_rfc3339_back t : year_written t -> parse_rfc3339 (rfc3339 t) = Some t.
Proof.
  unfold year_written, rfc3339, parse_rfc3339. cbv zeta. set (secs := t / 10 ^ 9).
  pose proof (civil_spec (secs / 86400)) as Hc. destruct (civil (secs / 86400)) as [[y m] d].
  destruct Hc as (Hz & Hm & Hd). cbn [fst]. intros Hy.
  pose proof (Z.mod_pos_bound t (10 ^ 9) ltac:(done)) as Hns.
  pose proof (Z.mod_pos_bound secs 86400 ltac:(done)) as Hs.
  set (sod := secs mod 86400) in *.
  assert (0 <= sod / 3600 <= 23) as Hh by (Z.to_euclidean_division_equations; lia).
  pose proof (Z.mod_pos_bound (sod / 60) 60 ltac:(done)) as Hmi.
  pose proof (Z.mod_pos_bound sod 60 ltac:(done)) as Hse.
  assert (daysIn m y <= 31) by (unfold daysIn; repeat case_match; lia).
  rewrite read_between_pad by (simpl; lia). cbn [mbind option_bind]. rewrite expect_app. cbn [mbind option_bind].
  rewrite read_between_pad by (simpl; lia). cbn [mbind option_bind]. rewrite expect_app. cbn [mbind option_bind].
  rewrite read_between_pad by (simpl; lia). cbn [mbind option_bind]. rewrite expect_app. cbn [mbind option_bind].
  rewrite read_between_pad by (simpl; lia). cbn [mbind option_bind]. rewrite expect_app. cbn [mbind option_bind].
  rewrite read_between_pad by (simpl; lia). cbn [mbind option_bind]. rewrite expect_app. cbn [mbind option_bind].
  rewrite read_between_pad by (simpl; lia). cbn [mbind option_bind].
  rewrite read_fraction_back by done. cbn [mbind option_bind read_offset]. simpl. f_equal.
  rewrite Hz. subst sod secs. Z.to_euclidean_division_equations. lia.
Qed.
