(* ===== verification/Json.v ===== *)
(** * encoding/json as the server uses it

    JSON values, the decoding of a request body into a struct (absent and [null] fields keep
    the zero value, keys match case-insensitively, a field of the wrong type is an error, the
    last of several equal keys wins) and the encoding of a struct with [omitempty] fields.
    A [json.RawMessage] is the value it spells: white space is not represented. *)

From S2P Require Import Prelude Rfc3339.

#[local] Open Scope Z_scope.
#[local] Set Warnings "-register-all".

Inductive json : Type :=
| JNull
| JBool (b : bool)
| JInt (z : Z)                     (* an integer literal *)
| JFloat (lit : string)            (* any other number, as spelled *)
| JStr (s : string)
| JTime (t : Time)                 (* the RFC 3339 string [time.Time.MarshalJSON] writes *)
| JArr (l : list json)
| JObj (kvs : list (string * json)).

Definition RawMessage : Type := json.

(** ** Encoding *)

(** The fields of a struct that are present, in declaration order. *)
Definition obj (fs : list (option (string * json))) : json := JObj (omap id fs).

Definition fld (k : string) (v : json) : option (string * json) := Some (k, v).
Definition fld_str (k s : string) : option (string * json) :=
  if bool_decide (s = "") then None else Some (k, JStr s).
Definition fld_int (k : string) (z : Z) : option (string * json) :=
  if bool_decide (z = 0) then None else Some (k, JInt z).
Definition fld_raw (k : string) (v : option RawMessage) : option (string * json) :=
  (fun j => (k, j)) <$> v.
Definition fld_strs (k : string) (l : slice string) : option (string * json) :=
  match l with
  | None | Some [] => None
  | Some l => Some (k, JArr (JStr <$> l))
  end.

(** ** Decoding *)
Definition lower_ascii (c : ascii) : ascii :=
  let n := N_of_ascii c in
  if ((65 <=? n) && (n <=? 90))%N then ascii_of_N (n + 32) else c.

Fixpoint lower (s : string) : string :=
  match s with
  | EmptyString => EmptyString
  | String c s' => String (lower_ascii c) (lower s')
  end.

(** What a body decoded into a struct offers its fields; [None] is a decoding error. *)
Definition body_fields (j : json) : option (list (string * json)) :=
  match j with
  | JNull => Some []
  | JObj kvs => Some kvs
  | _ => None
  end.

(** A [string] field, [name] in lower case. *)
Fixpoint string_field_from (acc name : string) (kvs : list (string * json)) : option string :=
  match kvs with
  | [] => Some acc
  | (k, v) :: kvs' =>
      if bool_decide (lower k = name) then
        match v with
        | JStr s => string_field_from s name kvs'
        | JNull => string_field_from acc name kvs'
        | _ => None
        end
      else string_field_from acc name kvs'
  end.
Definition string_field := string_field_from "".

(** A [json.RawMessage] field: it keeps the literal, [null] included. *)
Fixpoint raw_field (name : string) (kvs : list (string * json)) : option RawMessage :=
  match kvs with
  | [] => None
  | (k, v) :: kvs' =>
      match raw_field name kvs' with
      | Some w => Some w
      | None => if bool_decide (lower k = name) then Some v else None
      end
  end.

(** A [[]string] field of a body whose decoding error is ignored: an element of another type
    leaves the empty string, a field of another type leaves the slice as it was. *)
Definition elem_string (j : json) : string := match j with JStr s => s | _ => "" end.

Fixpoint strings_field_from (acc : slice string) (name : string) (kvs : list (string * json))
    : slice string :=
  match kvs with
  | [] => acc
  | (k, v) :: kvs' =>
      if bool_decide (lower k = name) then
        match v with
        | JArr l => strings_field_from (Some (elem_string <$> l)) name kvs'
        | JNull => strings_field_from None name kvs'
        | _ => strings_field_from acc name kvs'
        end
      else strings_field_from acc name kvs'
  end.
Definition strings_field := strings_field_from None.

(** The value of a key of an object, for readers of our own encodings. *)
Fixpoint lookup_key (k : string) (kvs : list (string * json)) : option json :=
  match kvs with
  | [] => None
  | (k', v) :: kvs' => if bool_decide (k = k') then Some v else lookup_key k kvs'
  end.

(** *** Decoding into typed fields

    A decoder gets the value the field has so far and the JSON value; [None] is an error. *)
Fixpoint field_from {A} (dec : A -> json -> option A) (acc : A) (name : string)
    (kvs : list (string * json)) : option A :=
  match kvs with
  | [] => Some acc
  | (k, v) :: kvs' =>
      if bool_decide (lower k = name) then
        match dec acc v with
        | Some x => field_from dec x name kvs'
        | None => None
        end
      else field_from dec acc name kvs'
  end.

Definition dec_string (acc : string) (j : json) : option string :=
  match j with JStr s => Some s | JNull => Some acc | _ => None end.
Definition dec_time (acc : Time) (j : json) : option Time :=
  match j with
  | JTime t => Some t
  | JStr s => parse_rfc3339 s
  | JNull => Some acc
  | _ => None
  end.
Definition dec_int64 (acc : Z) (j : json) : option Z :=
  match j with
  | JInt z => if bool_decide (-2 ^ 63 <= z <= maxInt64) then Some z else None
  | JNull => Some acc
  | _ => None
  end.
Definition dec_raw (_ : option RawMessage) (j : json) : option (option RawMessage) := Some (Some j).

(** A [[]T]: [null] is the nil slice. *)
Definition dec_slice {A} (dec : json -> option A) (_ : list A) (j : json) : option (list A) :=
  match j with JArr l => mapM dec l | JNull => Some [] | _ => None end.

(** A [map[string]T]: [null] leaves the map as it is, the last of equal keys wins. *)
Fixpoint dec_entries {A} (dec : json -> option A) (acc : gmap string A)
    (kvs : list (string * json)) : option (gmap string A) :=
  match kvs with
  | [] => Some acc
  | (k, v) :: kvs' =>
      match dec v with
      | Some x => dec_entries dec (<[k := x]> acc) kvs'
      | None => None
      end
  end.
Definition dec_map {A} (dec : json -> option A) (acc : gmap string A) (j : json)
    : option (gmap string A) :=
  match j with JObj kvs => dec_entries dec acc kvs | JNull => Some acc | _ => None end.

(** A nil slice marshals to [null], a non-nil one to an array. *)
Definition enc_nil_slice {A} (enc : A -> json) (l : list A) : json :=
  match l with [] => JNull | _ => JArr (enc <$> l) end.
Definition enc_slice {A} (enc : A -> json) (l : list A) : json := JArr (enc <$> l).

(** [json.Marshal] writes the keys of a map in sorted order; a decoder does not depend on it. *)
Definition enc_map {A} (enc : A -> json) (m : gmap string A) : json :=
  JObj ((fun kv => (kv.1, enc kv.2)) <$> map_to_list m).

(** *** Reading back what was written *)

(** A field written under the key [k], or left out. *)
Definition keyed_field (k : string) (o : option (string * json)) : Prop :=
  match o with Some (k', _) => k' = k | None => True end.

Section FieldLemmas.
Context {A : Type} (dec : A -> json -> option A).

Lemma field_skip k o acc name fs :
  keyed_field k o -> lower k <> name ->
  field_from dec acc name (omap id (o :: fs)) = field_from dec acc name (omap id fs).
Proof.
  destruct o as [[k' v]|]; simpl; [|done]. intros -> Hk. by rewrite bool_decide_eq_false_2.
Qed.

Lemma field_hit k v x acc name fs :
  lower k = name -> dec acc v = Some x ->
  field_from dec acc name (omap id (fld k v :: fs)) = field_from dec x name (omap id fs).
Proof. intros Hk Hd. simpl. by rewrite bool_decide_eq_true_2, Hd. Qed.

Lemma field_end acc name : field_from dec acc name (omap id []) = Some acc.
Proof. done. Qed.
End FieldLemmas.

Lemma field_hit_str k s name fs :
  lower k = name ->
  field_from dec_string "" name (omap id (fld_str k s :: fs)) =
  field_from dec_string s name (omap id fs).
Proof.
  intros Hk. unfold fld_str. case_bool_decide as Hs; [by subst|]. by apply field_hit.
Qed.

Lemma field_hit_int k z name fs :
  lower k = name -> -2 ^ 63 <= z <= maxInt64 ->
  field_from dec_int64 0 name (omap id (fld_int k z :: fs)) =
  field_from dec_int64 z name (omap id fs).
Proof.
  intros Hk Hz. unfold fld_int. case_bool_decide as Hs; [by subst|].
  apply field_hit; [done|]. simpl. by rewrite bool_decide_eq_true_2.
Qed.

Lemma field_hit_raw k v name fs :
  lower k = name ->
  field_from dec_raw None name (omap id (fld_raw k v :: fs)) =
  field_from dec_raw v name (omap id fs).
Proof. intros Hk. destruct v; [by apply field_hit|done]. Qed.

Lemma keyed_fld k v : keyed_field k (fld k v).
Proof. done. Qed.
Lemma keyed_fld_str k s : keyed_field k (fld_str k s).
Proof. unfold fld_str. by case_bool_decide. Qed.
Lemma keyed_fld_int k z : keyed_field k (fld_int k z).
Proof. unfold fld_int. by case_bool_decide. Qed.
Lemma keyed_fld_raw k v : keyed_field k (fld_raw k v).
Proof. by destruct v. Qed.

(** Reads one field out of an encoded struct. *)
Ltac read_field :=
  repeat first
    [ rewrite field_end
    | rewrite field_hit_str by (vm_compute; reflexivity)
    | rewrite field_hit_raw by (vm_compute; reflexivity)
    | rewrite field_hit_int; [|vm_compute; reflexivity|assumption]
    | erewrite field_hit;
        [|vm_compute; reflexivity|cbv beta; first [eassumption | reflexivity]]
    | rewrite (field_skip _ _ _ _ _ _ (keyed_fld _ _)) by (vm_compute; discriminate)
    | rewrite (field_skip _ _ _ _ _ _ (keyed_fld_str _ _)) by (vm_compute; discriminate)
    | rewrite (field_skip _ _ _ _ _ _ (keyed_fld_int _ _)) by (vm_compute; discriminate)
    | rewrite (field_skip _ _ _ _ _ _ (keyed_fld_raw _ _)) by (vm_compute; discriminate) ].

Lemma dec_enc_slice {A} (enc : A -> json) (dec : json -> option A) (f : A -> A) l acc :
  Forall (fun x => dec (enc x) = Some (f x)) l ->
  dec_slice dec acc (enc_slice enc l) = Some (f <$> l).
Proof.
  intros HF. apply mapM_Some_2. induction HF as [|x l Hx _ IH]; by constructor.
Qed.

Lemma dec_enc_nil_slice {A} (enc : A -> json) (dec : json -> option A) (f : A -> A) l acc :
  Forall (fun x => dec (enc x) = Some (f x)) l ->
  dec_slice dec acc (enc_nil_slice enc l) = Some (f <$> l).
Proof. destruct l as [|x l]; [done|]. apply (dec_enc_slice enc dec f (x :: l)). Qed.

Lemma dec_enc_entries {A} (enc : A -> json) (dec : json -> option A) (f : A -> A) l acc :
  NoDup l.*1 -> Forall (fun kv => dec (enc kv.2) = Some (f kv.2)) l ->
  dec_entries dec acc ((fun kv => (kv.1, enc kv.2)) <$> l) =
  Some ((f <$> list_to_map l) ∪ acc).
Proof.
  intros Hnd HF. revert acc. induction HF as [|[k x] l Hx _ IH]; intros acc; simpl.
  { by rewrite fmap_empty, (left_id_L ∅ (∪)). }
  apply NoDup_cons in Hnd as [Hk Hnd]. simpl in *. rewrite Hx, IH by done. f_equal.
  rewrite fmap_insert, <- insert_union_l, insert_union_r; [done|].
  by rewrite lookup_fmap, not_elem_of_list_to_map_1.
Qed.

(** A map written and read into an empty one comes back, its values decoded. *)
Lemma dec_enc_map {A} (enc : A -> json) (dec : json -> option A) (f : A -> A) (m : gmap string A) :
  (forall k x, m !! k = Some x -> dec (enc x) = Some (f x)) ->
  dec_map dec ∅ (enc_map enc m) = Some (f <$> m).
Proof.
  intros Hm. unfold dec_map, enc_map. rewrite (dec_enc_entries enc dec f).
  - by rewrite list_to_map_to_list, (right_id_L ∅ (∪)).
  - apply NoDup_fst_map_to_list.
  - apply Forall_forall. intros [k x] Hk%elem_of_map_to_list. simpl. eauto.
Qed.
