(* ===== verification/JsonText.v ===== *)
(** * The text of JSON: what encoding/json writes and reads

    [Marshal] spells a JSON value the way [json.Marshal] does: no white space, HTML-sensitive
    characters escaped, times in RFC 3339 with nanoseconds. [Unmarshal] is the reader: any
    white space, any escape, any number literal. Strings are taken to be valid UTF-8, whose
    bytes from 0x80 on are kept; an escape of a surrogate pair is read as one character. *)

From Stdlib Require Import Strings.Ascii.
From S2P Require Export Rfc3339.
From S2P Require Import Prelude Json.

#[local] Set Warnings "-register-all".

#[local] Open Scope Z_scope.

(** A nested induction principle for JSON values. *)
Section JsonInd.
Context (P : json -> Prop).
Hypothesis (Hnull : P JNull) (Hbool : forall b, P (JBool b)) (Hint_ : forall z, P (JInt z))
  (Hfloat : forall l, P (JFloat l)) (Hstr : forall s, P (JStr s)) (Htime : forall t, P (JTime t))
  (Harr : forall l, Forall P l -> P (JArr l))
  (Hobj : forall kvs, Forall (fun kv => P kv.2) kvs -> P (JObj kvs)).

Fixpoint json_induction (j : json) : P j :=
  match j with
  | JNull => Hnull
  | JBool b => Hbool b
  | JInt z => Hint_ z
  | JFloat l => Hfloat l
  | JStr s => Hstr s
  | JTime t => Htime t
  | JArr l => Harr l ((fix all (l : list json) : Forall P l :=
      match l with
      | [] => Forall_nil_2 P
      | x :: l' => Forall_cons_2 P x l' (json_induction x) (all l')
      end) l)
  | JObj kvs => Hobj kvs ((fix all (kvs : list (string * json)) : Forall (fun kv => P kv.2) kvs :=
      match kvs with
      | [] => Forall_nil_2 _
      | kv :: kvs' => Forall_cons_2 _ kv kvs' (json_induction kv.2) (all kvs')
      end) kvs)
  end.
End JsonInd.

(** ** Writing *)

Definition quote_mark : ascii := chr 34.
Definition backslash : ascii := chr 92.

(** [strings.Join]. *)
Fixpoint Join (l : list string) (sep : string) : string :=
  match l with
  | [] => ""
  | [s] => s
  | s :: l' => s +:+ sep +:+ Join l' sep
  end.

(** The escapes of a string literal. *)
Definition escape_char (c : ascii) : string :=
  let n := N_of_ascii c in
  let esc d := String backslash (str1 d) in
  if bool_decide (n = 34 \/ n = 92)%N then esc c
  else if bool_decide (n = 8)%N then esc "b"%char
  else if bool_decide (n = 12)%N then esc "f"%char
  else if bool_decide (n = 10)%N then esc "n"%char
  else if bool_decide (n = 13)%N then esc "r"%char
  else if bool_decide (n = 9)%N then esc "t"%char
  else if (n <? 32)%N || bool_decide (n = 60 \/ n = 62 \/ n = 38)%N then
    String backslash ("u00" +:+ String (hex_digit (n / 16)) (str1 (hex_digit (n mod 16))))
  else str1 c.

Fixpoint escape (s : string) : string :=
  match s with
  | EmptyString => ""
  | String c s' => escape_char c +:+ escape s'
  end.

Definition text_string (s : string) : string :=
  String quote_mark (escape s +:+ str1 quote_mark).

Fixpoint Marshal (j : json) : string :=
  match j with
  | JNull => "null"
  | JBool b => if b then "true" else "false"
  | JInt z => itoa z
  | JFloat lit => lit
  | JStr s => text_string s
  | JTime t => text_string (rfc3339 t)
  | JArr l => "[" +:+ Join (Marshal <$> l) "," +:+ "]"
  | JObj kvs =>
      "{" +:+ Join ((fun kv => text_string kv.1 +:+ ":" +:+ Marshal kv.2) <$> kvs) "," +:+ "}"
  end.

(** ** Reading *)
Definition is_space (c : ascii) : bool :=
  let n := N_of_ascii c in bool_decide (n = 32 \/ n = 9 \/ n = 10 \/ n = 13)%N.

Fixpoint skip_ws (s : string) : string :=
  match s with
  | String c s' => if is_space c then skip_ws s' else s
  | EmptyString => ""
  end.

Definition hex_val (c : ascii) : option N :=
  let n := N_of_ascii c in
  if ((48 <=? n) && (n <=? 57))%N then Some (n - 48)%N
  else if ((97 <=? n) && (n <=? 102))%N then Some (n - 87)%N
  else if ((65 <=? n) && (n <=? 70))%N then Some (n - 55)%N
  else None.

Definition hex4 (s : string) : option (N * string) :=
  match s with
  | String a (String b (String c (String d s'))) =>
      x ← hex_val a; y ← hex_val b; z ← hex_val c; w ← hex_val d;
      Some (((x * 16 + y) * 16 + z) * 16 + w, s')%N
  | _ => None
  end.

(** A character in UTF-8. *)
Definition utf8 (n : N) : string :=
  (if n <? 128 then str1 (chr n)
   else if n <? 2048 then String (chr (192 + n / 64)) (str1 (chr (128 + n mod 64)))
   else if n <? 65536 then
     String (chr (224 + n / 4096)) (String (chr (128 + n / 64 mod 64)) (str1 (chr (128 + n mod 64))))
   else
     String (chr (240 + n / 262144)) (String (chr (128 + n / 4096 mod 64))
       (String (chr (128 + n / 64 mod 64)) (str1 (chr (128 + n mod 64))))))%N.

(** What follows [\u]: a character, a surrogate pair, or a lone surrogate, which is replaced. *)
Definition read_u (s : string) : option (string * string) :=
  '(n, s1) ← hex4 s;
  if ((55296 <=? n) && (n <? 56320))%N then
    match expect (String backslash "u") s1 ≫= hex4 with
    | Some (m, s2) =>
        if ((56320 <=? m) && (m <? 57344))%N
        then Some (utf8 (65536 + (n - 55296) * 1024 + (m - 56320)), s2)
        else Some (utf8 65533, s1)
    | None => Some (utf8 65533, s1)
    end
  else if ((56320 <=? n) && (n <? 57344))%N then Some (utf8 65533, s1)
  else Some (utf8 n, s1).

Definition unescape_char (c : ascii) : option ascii :=
  match N_of_ascii c with
  | 34 | 47 | 92 => Some c
  | 98 => Some (chr 8) | 102 => Some (chr 12) | 110 => Some (chr 10)
  | 114 => Some (chr 13) | 116 => Some (chr 9)
  | _ => None
  end%N.

(** The rest of a string literal, its opening quote read. *)
Fixpoint read_string (fuel : nat) (s : string) : option (string * string) :=
  match fuel, s with
  | S fuel', String c s' =>
      if bool_decide (c = quote_mark) then Some ("", s')
      else if bool_decide (c = backslash) then
        match s' with
        | String d s2 =>
            if bool_decide (d = "u"%char) then
              '(u, s3) ← read_u s2; '(r, s4) ← read_string fuel' s3; Some (u +:+ r, s4)
            else
              x ← unescape_char d; '(r, s3) ← read_string fuel' s2; Some (String x r, s3)
        | EmptyString => None
        end
      else if (N_of_ascii c <? 32)%N then None
      else '(r, s2) ← read_string fuel' s'; Some (String c r, s2)
  | _, _ => None
  end.

(** A fraction and an exponent, when there are any. *)
Definition read_frac (s : string) : option (string * string) :=
  match s with
  | String c s' =>
      if bool_decide (c = "."%char) then
        let '(d, r) := span_digits s' in
        if bool_decide (d = "") then None else Some (String c d, r)
      else Some ("", s)
  | EmptyString => Some ("", "")
  end.
Definition read_exp (s : string) : option (string * string) :=
  match s with
  | String c s' =>
      if bool_decide (c = "e"%char \/ c = "E"%char) then
        let '(sg, s2) := match s' with
                         | String d s2 => if bool_decide (d = "+"%char \/ d = "-"%char)
                                          then (str1 d, s2) else ("", s')
                         | EmptyString => ("", s')
                         end in
        let '(d, r) := span_digits s2 in
        if bool_decide (d = "") then None else Some (String c (sg +:+ d), r)
      else Some ("", s)
  | EmptyString => Some ("", "")
  end.

(** A number; an integer literal is its value. *)
Definition read_number (s : string) : option (json * string) :=
  let '(neg, s1) := match expect "-" s with Some s1 => (true, s1) | None => (false, s) end in
  let '(d, s2) := span_digits s1 in
  if bool_decide (d = "") then None
  else if HasPrefix d "0" && bool_decide (d <> "0") then None
  else
    '(f, s3) ← read_frac s2;
    '(x, s4) ← read_exp s3;
    if bool_decide (f = "" /\ x = "")
    then Some (JInt (if (neg : bool) then - dec_value 0 d else dec_value 0 d), s4)
    else Some (JFloat ((if neg then "-" else "") +:+ d +:+ f +:+ x), s4).

Fixpoint read_value (fuel : nat) (s : string) {struct fuel} : option (json * string) :=
  match fuel with
  | O => None
  | S fuel' =>
      match skip_ws s with
      | EmptyString => None
      | String c s' as s0 =>
          if bool_decide (c = quote_mark) then
            '(x, r) ← read_string (String.length s') s'; Some (JStr x, r)
          else if bool_decide (c = "["%char) then
            match expect "]" (skip_ws s') with
            | Some r => Some (JArr [], r)
            | None => '(l, r) ← read_elems fuel' s'; Some (JArr l, r)
            end
          else if bool_decide (c = "{"%char) then
            match expect "}" (skip_ws s') with
            | Some r => Some (JObj [], r)
            | None => '(l, r) ← read_fields fuel' s'; Some (JObj l, r)
            end
          else if bool_decide (c = "n"%char) then r ← expect "null" s0; Some (JNull, r)
          else if bool_decide (c = "t"%char) then r ← expect "true" s0; Some (JBool true, r)
          else if bool_decide (c = "f"%char) then r ← expect "false" s0; Some (JBool false, r)
          else read_number s0
      end
  end
with read_elems (fuel : nat) (s : string) {struct fuel} : option (list json * string) :=
  match fuel with
  | O => None
  | S fuel' =>
      '(v, r) ← read_value fuel' s;
      let r := skip_ws r in
      match expect "," r with
      | Some r => '(l, r) ← read_elems fuel' r; Some (v :: l, r)
      | None => r ← expect "]" r; Some ([v], r)
      end
  end
with read_fields (fuel : nat) (s : string) {struct fuel}
    : option (list (string * json) * string) :=
  match fuel with
  | O => None
  | S fuel' =>
      s1 ← expect (str1 quote_mark) (skip_ws s);
      '(k, s2) ← read_string (String.length s1) s1;
      s3 ← expect ":" (skip_ws s2);
      '(v, r) ← read_value fuel' s3;
      let r := skip_ws r in
      match expect "," r with
      | Some r => '(l, r) ← read_fields fuel' r; Some ((k, v) :: l, r)
      | None => r ← expect "}" r; Some ([(k, v)], r)
      end
  end.

(** The value a text spells: one value, white space around it. *)
Definition Unmarshal (s : string) : option json :=
  '(j, r) ← read_value (S (2 * String.length s)) s;
  if bool_decide (skip_ws r = "") then Some j else None.

(** What reading makes of a value that was written: times are strings again. *)
Fixpoint retyped (j : json) : json :=
  match j with
  | JTime t => JStr (rfc3339 t)
  | JArr l => JArr (retyped <$> l)
  | JObj kvs => JObj ((fun kv => (kv.1, retyped kv.2)) <$> kvs)
  | _ => j
  end.

(** ** Reading back what was written *)

(** A text without line breaks. *)
Fixpoint one_line (s : string) : bool :=
  match s with
  | String c s' => negb (bool_decide (N_of_ascii c = 10 \/ N_of_ascii c = 13)%N) && one_line s'
  | EmptyString => true
  end.

Definition float_literal (lit : string) : Prop :=
  (forall r, number_end r -> read_number (lit +:+ r) = Some (JFloat lit, r)) /\
  match lit with
  | String c _ => bool_decide (c = "-"%char) || is_digit c = true
  | EmptyString => False
  end /\ one_line lit = true.

(** The values whose numbers are literals of JSON. *)
Inductive spellable : json -> Prop :=
| sp_null : spellable JNull
| sp_bool b : spellable (JBool b)
| sp_int z : spellable (JInt z)
| sp_float l : float_literal l -> spellable (JFloat l)
| sp_str s : spellable (JStr s)
| sp_time t : spellable (JTime t)
| sp_arr l : Forall spellable l -> spellable (JArr l)
| sp_obj kvs : Forall (fun kv => spellable kv.2) kvs -> spellable (JObj kvs).

Lemma expect_head p c s :
  match p with String d _ => c <> d | EmptyString => False end -> expect p (String c s) = None.
Proof. destruct p as [|d p]; [done|]. intros Hd. unfold expect. simpl. by rewrite bool_decide_eq_false_2. Qed.

(** *** Strings *)
Lemma read_escaped_char c n r :
  read_string (S n) (escape_char c +:+ r) = '(x, r') ← read_string n r; Some (String c x, r').
Proof. destruct c as [[] [] [] [] [] [] [] []]; reflexivity. Qed.

Lemma read_escaped s n r :
  (String.length s < n)%nat ->
  read_string n (escape s +:+ String quote_mark r) = Some (s, r).
Proof.
  revert n. induction s as [|c s IH]; intros [|n] Hn; simpl in Hn; try lia.
  - done.
  - cbn [escape]. rewrite string_app_assoc, read_escaped_char, IH by lia. done.
Qed.

Lemma length_escape s : (String.length s <= String.length (escape s))%nat.
Proof.
  induction s as [|c s IH]; [done|]. cbn [escape]. rewrite str_app_length.
  assert (1 <= String.length (escape_char c))%nat; [|simpl; lia].
  unfold escape_char. repeat case_match; simpl; lia.
Qed.

(** What follows a literal's opening quote. *)
Lemma read_literal s r :
  let t := escape s +:+ str1 quote_mark +:+ r in
  read_string (String.length t) t = Some (s, r).
Proof.
  intros t. apply read_escaped. unfold t. rewrite str_app_length. simpl.
  pose proof (length_escape s). lia.
Qed.

(** *** Integers *)
Lemma read_itoa z r : number_end r -> read_number (itoa z +:+ r) = Some (JInt z, r).
Proof.
  intros Hr.
  assert (forall sg c q, all_digits (String c q) = true -> c <> "0"%char -> forall neg : bool,
    sg = (if neg then "-" else "") ->
    read_number (sg +:+ String c q +:+ r) =
    Some (JInt (if neg then - dec_value 0 (String c q) else dec_value 0 (String c q)), r)) as Hgen.
  { intros sg c q Hq Hc neg ->. unfold read_number.
    assert (match expect "-" ((if neg then "-" else "") +:+ String c q +:+ r) with
            | Some s1 => (true, s1)
            | None => (false, (if neg then "-" else "") +:+ String c q +:+ r)
            end = (neg, String c q +:+ r)) as ->.
    { destruct neg; [by rewrite expect_app|]. change ("" +:+ String c q +:+ r) with (String c q +:+ r).
      rewrite str_cons_app, expect_head; [done|]. simpl in Hq. apply andb_true_iff in Hq as [Hq _].
      intros ->. done. }
    rewrite span_all by done. rewrite bool_decide_eq_false_2 by done.
    rewrite (bool_decide_eq_true_2 (String c q <> "0")) by congruence.
    simpl HasPrefix. rewrite bool_decide_eq_false_2 by done. simpl.
    destruct r as [|d r]; [done|]. destruct Hr as (Hd & H1 & H2 & H3). unfold read_frac, read_exp.
    rewrite bool_decide_eq_false_2 by done. simpl. rewrite bool_decide_eq_false_2 by tauto. done. }
  destruct z as [|p|p].
  - change (itoa 0) with "0". destruct r as [|d r]; [done|].
    destruct Hr as (Hd & H1 & H2 & H3). unfold read_number. simpl. rewrite Hd.
    unfold read_frac, read_exp. simpl. rewrite bool_decide_eq_false_2 by done. simpl.
    rewrite bool_decide_eq_false_2 by tauto. done.
  - destruct (itoa_pos p) as (c & q & -> & Hq & Hv & Hc).
    specialize (Hgen "" c q Hq Hc false eq_refl). by rewrite Hv in Hgen.
  - change (itoa (Zneg p)) with ("-" +:+ itoa (Zpos p)).
    destruct (itoa_pos p) as (c & q & -> & Hq & Hv & Hc). rewrite string_app_assoc.
    specialize (Hgen "-" c q Hq Hc true eq_refl). by rewrite Hv in Hgen.
Qed.

Lemma itoa_head z : exists c s, itoa z = String c s /\ bool_decide (c = "-"%char) || is_digit c = true.
Proof.
  destruct z as [|p|p]; [by exists "0"%char, ""| |].
  - destruct (itoa_pos p) as (c & q & -> & [Hc _]%andb_true_iff & _). exists c, q.
    by rewrite Hc, orb_true_r.
  - change (itoa (Zneg p)) with ("-" +:+ itoa (Zpos p)). by eexists _, _.
Qed.

(** *** Values *)
Lemma skip_ws_none c s : is_space c = false -> skip_ws (String c s) = String c s.
Proof. intros Hc. simpl. by rewrite Hc. Qed.

Lemma digit_not_space c : bool_decide (c = "-"%char) || is_digit c = true ->
  is_space c = false /\ c <> quote_mark /\ c <> "["%char /\ c <> "{"%char /\ c <> "n"%char /\
  c <> "t"%char /\ c <> "f"%char /\ c <> "]"%char /\ c <> "}"%char.
Proof.
  intros Hc. repeat split; [|intros ->; by vm_compute in Hc..].
  revert Hc. by destruct c as [[] [] [] [] [] [] [] []].
Qed.

(** A value that begins like a number is read as one. *)
Lemma read_value_number n c s :
  bool_decide (c = "-"%char) || is_digit c = true ->
  read_value (S n) (String c s) = read_number (String c s).
Proof.
  intros (Hsp & H1 & H2 & H3 & H4 & H5 & H6 & _)%digit_not_space. cbn [read_value].
  rewrite skip_ws_none by done. by rewrite !bool_decide_eq_false_2.
Qed.

Lemma read_value_string n s r : read_value (S n) (text_string s +:+ r) = Some (JStr s, r).
Proof.
  unfold text_string. rewrite str_cons_app, string_app_assoc. cbn [read_value].
  rewrite skip_ws_none by done. rewrite bool_decide_eq_true_2 by done. by rewrite read_literal.
Qed.

(** What a written value begins with. *)
Lemma Marshal_head j : spellable j -> exists c s, Marshal j = String c s /\ is_space c = false /\
  c <> "]"%char /\ c <> "}"%char.
Proof.
  destruct 1 as [|[]|z|l (_ & Hl & _)|s|t|l|kvs]; cbn [Marshal]; unfold text_string; try by eexists _, _.
  - destruct (itoa_head z) as (c & s & -> & Hc%digit_not_space). exists c, s. tauto.
  - destruct l as [|c l]; [done|]. apply digit_not_space in Hl. exists c, l. tauto.
Qed.

Lemma skip_ws_Marshal j r : spellable j -> skip_ws (Marshal j +:+ r) = Marshal j +:+ r.
Proof. intros (c & s & -> & Hc & _)%Marshal_head. simpl. by rewrite Hc. Qed.

(** Any value is read back, whatever follows it that cannot continue a number. *)
Definition reads_back (j : json) : Prop :=
  forall n r, spellable j -> (String.length (Marshal j) <= n)%nat -> number_end r ->
    read_value n (Marshal j +:+ r) = Some (retyped j, r).

Lemma Join_cons s s' l sep : Join (s :: s' :: l) sep = s +:+ sep +:+ Join (s' :: l) sep.
Proof. done. Qed.

Lemma expect_char c s : expect (str1 c) (String c s) = Some s.
Proof. apply (expect_app (str1 c) s). Qed.

(** A character that is no white space ends it. *)
Lemma skip_ws_app c s r : is_space c = false -> skip_ws (String c s +:+ r) = String c (s +:+ r).
Proof. intros Hc. simpl. by rewrite Hc. Qed.

Lemma read_elems_back l : forall n r,
  l <> [] -> Forall reads_back l -> Forall spellable l ->
  (String.length (Join (Marshal <$> l) ",") < n)%nat ->
  read_elems n (Join (Marshal <$> l) "," +:+ String "]"%char r) = Some (retyped <$> l, r).
Proof.
  induction l as [|j l IH]; intros n r Hne Hb Hs Hn; [done|].
  apply Forall_cons in Hb as [Hj Hb], Hs as [Hsj Hs].
  destruct n as [|n]; [lia|]. cbn [read_elems]. destruct l as [|j' l].
  - change (Join (Marshal <$> [j]) ",") with (Marshal j) in *. rewrite Hj by (done || lia).
    cbn [mbind option_bind]. rewrite skip_ws_none, (expect_head ",") by done.
    by rewrite (expect_char "]"%char).
  - rewrite !fmap_cons, Join_cons, <- fmap_cons in *. rewrite !str_app_length in Hn.
    simpl (String.length ",") in Hn. rewrite !string_app_assoc, Hj by (done || lia).
    cbn [mbind option_bind]. rewrite skip_ws_app, (expect_char ","%char) by done.
    change ("" +:+ ?x) with x. by rewrite IH by (done || lia).
Qed.

(** A field of an object. *)
Definition field_text (kv : string * json) : string := text_string kv.1 +:+ ":" +:+ Marshal kv.2.

Lemma read_fields_back kvs : forall n r,
  kvs <> [] -> Forall (fun kv => reads_back kv.2) kvs -> Forall (fun kv => spellable kv.2) kvs ->
  (String.length (Join (field_text <$> kvs) ",") < n)%nat ->
  read_fields n (Join (field_text <$> kvs) "," +:+ String "}"%char r) =
  Some ((fun kv => (kv.1, retyped kv.2)) <$> kvs, r).
Proof.
  induction kvs as [|[k j] kvs IH]; intros n r Hne Hb Hs Hn; [done|].
  apply Forall_cons in Hb as [Hj Hb], Hs as [Hsj Hs]. simpl in Hj, Hsj.
  assert (forall m t, (String.length (Marshal j) <= m)%nat -> number_end t ->
    read_fields (S m) ((text_string k +:+ ":" +:+ Marshal j) +:+ t) =
    match expect "," (skip_ws t) with
    | Some r => '(l, r) ← read_fields m r; Some ((k, retyped j) :: l, r)
    | None => r ← expect "}" (skip_ws t); Some ([(k, retyped j)], r)
    end) as Hfield.
  { intros m t Hm Ht. unfold text_string. rewrite !string_app_assoc, !str_cons_app.
    cbn [read_fields]. rewrite skip_ws_none by done. rewrite expect_char. cbn [mbind option_bind].
    rewrite string_app_assoc, read_literal. cbn [mbind option_bind].
    rewrite skip_ws_none by done. rewrite (expect_char ":"%char). cbn [mbind option_bind].
    change ("" +:+ ?x) with x. by rewrite Hj. }
  destruct n as [|n]; [lia|]. destruct kvs as [|kv kvs].
  - change (Join (field_text <$> [(k, j)]) ",") with (text_string k +:+ ":" +:+ Marshal j) in *.
    rewrite !str_app_length in Hn. rewrite Hfield by (done || lia).
    rewrite skip_ws_none by done. rewrite (expect_head ",") by done. by rewrite (expect_char "}"%char).
  - rewrite !fmap_cons, Join_cons, <- fmap_cons in Hn |- *. unfold field_text at 1 in Hn.
    unfold field_text at 1. cbn [fst snd] in *.
    rewrite !str_app_length in Hn. simpl (String.length ",") in Hn.
    rewrite string_app_assoc, Hfield by (done || lia).
    rewrite string_app_assoc, skip_ws_app by done. rewrite (expect_char ","%char).
    change ("" +:+ ?x) with x. by rewrite IH by (done || lia).
Qed.

Lemma Marshal_reads_back j : reads_back j.
Proof.
  induction j as [|b|z|l|s|t|l IH|kvs IH] using json_induction; intros n r Hs Hn Hr;
    (destruct n as [|n]; [destruct (Marshal_head _ Hs) as (c & t' & E & _); rewrite E in Hn; simpl in Hn; lia|]).
  - cbn [Marshal retyped read_value]. rewrite skip_ws_app by done. simpl bool_decide.
    by rewrite (expect_app "null" r : expect "null" (String "n" ("ull" +:+ r)) = Some r).
  - destruct b; cbn [Marshal retyped read_value]; rewrite skip_ws_app by done; simpl bool_decide.
    + by rewrite (expect_app "true" r : expect "true" (String "t" ("rue" +:+ r)) = Some r).
    + by rewrite (expect_app "false" r : expect "false" (String "f" ("alse" +:+ r)) = Some r).
  - cbn [Marshal retyped]. destruct (itoa_head z) as (c & t & E & Hc).
    rewrite <- (read_itoa z r Hr), E. by apply read_value_number.
  - inversion Hs as [| | |? (Hl & Hh & _)| | | |]; subst. cbn [Marshal retyped].
    destruct l as [|c l]; [done|]. rewrite <- Hl by done. by apply read_value_number.
  - apply read_value_string.
  - apply read_value_string.
  - cbn [Marshal retyped]. inversion Hs as [| | | | | |? Hl|]; subst.
    rewrite !string_app_assoc, str_cons_app. cbn [read_value]. rewrite skip_ws_none by done.
    rewrite bool_decide_eq_false_2, bool_decide_eq_true_2 by done.
    change ("" +:+ ?x) with x. change ("]" +:+ r) with (String "]"%char r).
    destruct l as [|j l]; [simpl; by rewrite (expect_char "]"%char)|].
    assert (expect "]" (skip_ws (Join (Marshal <$> j :: l) "," +:+ String "]"%char r)) = None) as ->.
    { apply Forall_cons in Hl as [Hj _]. destruct (Marshal_head j Hj) as (c & t & E & Hc & Hc' & _).
      rewrite fmap_cons, E. destruct l; simpl Join; rewrite ?str_cons_app; rewrite skip_ws_none by done;
        by apply (expect_head "]"). }
    cbn [Marshal] in Hn. rewrite !str_app_length in Hn. simpl in Hn.
    by rewrite read_elems_back by (done || (simpl; lia)).
  - cbn [Marshal retyped]. inversion Hs as [| | | | | | |? Hl]; subst.
    rewrite !string_app_assoc, str_cons_app. cbn [read_value]. rewrite skip_ws_none by done.
    rewrite !bool_decide_eq_false_2, bool_decide_eq_true_2 by done.
    change ("" +:+ ?x) with x. change ("}" +:+ r) with (String "}"%char r).
    change (fun kv : string * json => text_string kv.1 +:+ ":" +:+ Marshal kv.2) with field_text.
    destruct kvs as [|[k j] kvs]; [simpl; by rewrite (expect_char "}"%char)|].
    assert (forall t, expect "}" (skip_ws (text_string k +:+ t)) = None) as Hnone.
    { intros t. unfold text_string. rewrite skip_ws_app by done. by apply (expect_head "}"). }
    change (Marshal (JObj ((k, j) :: kvs))) with
      ("{" +:+ Join (field_text <$> (k, j) :: kvs) "," +:+ "}") in Hn.
    rewrite !str_app_length in Hn. simpl (String.length "{") in Hn. simpl (String.length "}") in Hn.
    rewrite read_fields_back by (done || lia).
    rewrite fmap_cons. unfold field_text at 1.
    destruct kvs as [|kv kvs]; [|rewrite fmap_cons, Join_cons]; cbn [fmap list_fmap Join fst];
      by rewrite !string_app_assoc, Hnone.
Qed.

Lemma Marshal_nonempty j : spellable j -> (1 <= String.length (Marshal j))%nat.
Proof. intros (c & s & -> & _)%Marshal_head. simpl. lia. Qed.

(** Reading the text of a value gives the value, its times as strings. *)
Lemma Unmarshal_Marshal j : spellable j -> Unmarshal (Marshal j) = Some (retyped j).
Proof.
  intros Hs. unfold Unmarshal. rewrite <- (str_app_nil (Marshal j)) at 2.
  rewrite Marshal_reads_back by (done || lia). done.
Qed.

(** *** Text on one line *)
Lemma one_line_app s r : one_line (s +:+ r) = one_line s && one_line r.
Proof.
  induction s as [|c s IH]; [done|]. rewrite str_cons_app. cbn [one_line]. by rewrite IH, andb_assoc.
Qed.

Lemma one_line_digits s : all_digits s = true -> one_line s = true.
Proof.
  induction s as [|c s IH]; [done|]. cbn [all_digits one_line]. intros [Hc Hs]%andb_true_iff.
  rewrite IH by done. rewrite bool_decide_eq_false_2; [done|]. apply andb_true_iff in Hc as [?%N.leb_le ?%N.leb_le]. lia.
Qed.

Lemma one_line_itoa z : one_line (itoa z) = true.
Proof.
  destruct z as [|p|p]; [done| |].
  - destruct (itoa_pos p) as (c & q & -> & Hq & _). by apply one_line_digits.
  - change (itoa (Zneg p)) with ("-" +:+ itoa (Zpos p)). rewrite one_line_app.
    destruct (itoa_pos p) as (c & q & -> & Hq & _). by apply one_line_digits.
Qed.

Lemma one_line_text s : one_line (text_string s) = true.
Proof.
  unfold text_string. cbn [one_line]. rewrite one_line_app. cbn [one_line].
  rewrite !andb_true_r. simpl. induction s as [|c s IH]; [done|]. cbn [escape].
  rewrite one_line_app, IH, andb_true_r. by destruct c as [[] [] [] [] [] [] [] []].
Qed.

Lemma one_line_Join l : Forall (fun s => one_line s = true) l -> one_line (Join l ",") = true.
Proof.
  induction 1 as [|s l Hs _ IH]; [done|]. destruct l as [|s' l]; [done|].
  by rewrite Join_cons, !one_line_app, Hs, IH.
Qed.

(** The text of a value is one line. *)
Lemma one_line_Marshal j : spellable j -> one_line (Marshal j) = true.
Proof.
  induction j as [|[]|z|l|s|t|l IH|kvs IH] using json_induction; intros Hs; cbn [Marshal];
    rewrite ?one_line_app; try done.
  - apply one_line_itoa.
  - inversion Hs as [| | |? (_ & _ & ?)| | | |]; by subst.
  - apply one_line_text.
  - apply one_line_text.
  - rewrite one_line_Join; [done|]. inversion Hs as [| | | | | |? Hl|]; subst.
    rewrite Forall_forall in IH, Hl. apply Forall_fmap, Forall_forall. intros j Hj.
    by apply IH, Hl.
  - rewrite one_line_Join; [done|]. inversion Hs as [| | | | | | |? Hl]; subst.
    rewrite Forall_forall in IH, Hl. apply Forall_fmap, Forall_forall. intros kv Hkv. unfold compose.
    rewrite !one_line_app, one_line_text. cbn [one_line]. simpl. by apply IH, Hl.
Qed.

(** ** Structs on the wire *)
Definition retyped_fld (o : option (string * json)) : option (string * json) :=
  (fun kv => (kv.1, retyped kv.2)) <$> o.

Lemma retyped_obj fs : retyped (obj fs) = obj (retyped_fld <$> fs).
Proof.
  unfold obj. simpl. f_equal. induction fs as [|[[k v]|] fs IH]; simpl; [done| |done]. by f_equal.
Qed.

Lemma retyped_fld_str k s : retyped_fld (fld_str k s) = fld_str k s.
Proof. unfold fld_str. by case_bool_decide. Qed.
Lemma retyped_fld_int k z : retyped_fld (fld_int k z) = fld_int k z.
Proof. unfold fld_int. by case_bool_decide. Qed.
Lemma retyped_fld_raw k v : retyped_fld (fld_raw k v) = fld_raw k (retyped <$> v).
Proof. by destruct v. Qed.

Definition spellable_field (o : option (string * json)) : Prop :=
  match o with Some kv => spellable kv.2 | None => True end.

Lemma spellable_obj fs : Forall spellable_field fs -> spellable (obj fs).
Proof.
  intros Hf. constructor. induction Hf as [|[kv|] fs Ho _ IH]; simpl; [done|by constructor|done].
Qed.

Lemma spellable_fld_str k s : spellable_field (fld_str k s).
Proof. unfold fld_str. case_bool_decide; [done|constructor]. Qed.
Lemma spellable_fld_int k z : spellable_field (fld_int k z).
Proof. unfold fld_int. case_bool_decide; [done|constructor]. Qed.
