(* ===== verification/GoAny.v ===== *)
(** * Values of type [any]: what a client decodes and encodes again

    [json.Unmarshal] into an [any] keeps a JSON value up to two things: an object becomes a
    map, so of several equal keys the last wins and the keys come out sorted, and every number
    becomes a float64. An [any] is represented by the JSON value it is marshalled to: its normal
    form, which [into_any] computes. [json.Marshal] of an [any] is then [Marshal] itself.

    A float64 is an integer mantissa and a binary exponent, rounded to nearest, ties to even;
    its spelling is the shortest decimal that reads back as the same number, as strconv picks
    it. Seventeen digits are always enough. *)

From Stdlib Require Import Strings.Ascii Sorting.Sorted.
From Stdlib Require Structures.OrdersEx.
From S2P Require Import Prelude Json JsonText.

#[local] Set Warnings "-register-all".
#[local] Open Scope Z_scope.

(** ** Numbers *)

(** [n / d] to the nearest integer, ties to even. *)
Definition round_even (n d : Z) : Z :=
  let q := n / d in
  let r := n mod d in
  if 2 * r <? d then q else if d <? 2 * r then q + 1 else if Z.even q then q else q + 1.

(** A finite float64 is [m * 2 ^ e]. *)
Definition float64 : Type := Z * Z.

(** The float64 nearest to [n / d] for [0 <= n], [0 < d]; [None] when it overflows. *)
Definition float_of_ratio (n d : Z) : option float64 :=
  if n =? 0 then Some (0, 0)
  else
    let k := Z.log2 n - Z.log2 d in
    let k := if n * 2 ^ Z.max 0 (- k) <? d * 2 ^ Z.max 0 k then k - 1 else k in
    let e := Z.max (-1074) (k - 52) in
    let m := round_even (n * 2 ^ Z.max 0 (- e)) (d * 2 ^ Z.max 0 e) in
    if 2 ^ 1024 <=? m * 2 ^ Z.max 0 e then None else Some (m, e).

Definition float_opp (f : float64) : float64 := (- f.1, f.2).

(** A decimal literal as a sign and a fraction. *)
Definition literal_ratio (lit : string) : bool * Z * Z :=
  let '(neg, s) := match expect "-" lit with Some s => (true, s) | None => (false, lit) end in
  let '(d, s) := span_digits s in
  let '(f, s) := match expect "." s with Some s => span_digits s | None => ("", s) end in
  let x := match s with
           | String _ s => match expect "-" s, expect "+" s with
                           | Some s, _ => - dec_value 0 s
                           | None, Some s => dec_value 0 s
                           | None, None => dec_value 0 s
                           end
           | EmptyString => 0
           end in
  let n := dec_value 0 (d +:+ f) in
  let x := x - Z.of_nat (String.length f) in
  (neg, n * 10 ^ Z.max 0 x, 10 ^ Z.max 0 (- x)).

(** [strconv.ParseFloat] of a number. *)
Definition float_of (j : json) : option float64 :=
  match j with
  | JInt z => (if z <? 0 then float_opp else id) <$> float_of_ratio (Z.abs z) 1
  | JFloat lit =>
      let '(neg, n, d) := literal_ratio lit in
      (if (neg : bool) then float_opp else id) <$> float_of_ratio n d
  | _ => None
  end.

(** The integer part, and the conversion to a 64-bit integer of this architecture (amd64),
    which maps what is out of range to the least one. *)
Definition float_trunc (f : float64) : Z :=
  let '(m, e) := f in if 0 <=? e then m * 2 ^ e else Z.quot m (2 ^ (- e)).
Definition float_to_int64 (f : float64) : Z :=
  let z := float_trunc f in
  if bool_decide (- 2 ^ 63 <= z <= maxInt64) then z else - 2 ^ 63.

(** *** Spelling *)

(** The position of the decimal point of [n / d > 0]: it lies in [[10^(p-1), 10^p)]. *)
Fixpoint point_up (fuel : nat) (p : Z) (n d : Z) : Z :=
  match fuel with
  | O => p
  | S fuel' => if n <? d * 10 ^ p then p else point_up fuel' (p + 1) n d
  end.
Fixpoint point_down (fuel : nat) (p : Z) (n d : Z) : Z :=
  match fuel with
  | O => p
  | S fuel' => if d <=? n * 10 ^ (1 - p) then p else point_down fuel' (p - 1) n d
  end.
Definition point (n d : Z) : Z :=
  if d <=? n then point_up 400 1 n d else point_down 400 0 n d.

(** The [k]-digit decimal nearest to [n / d], as digits and the position of the point. *)
Definition digits_at (k : nat) (n d : Z) : string * Z :=
  let p := point n d in
  let x := Z.of_nat k - p in
  let v := round_even (n * 10 ^ Z.max 0 x) (d * 10 ^ Z.max 0 (- x)) in
  if v =? 10 ^ Z.of_nat k then ("1", p + 1) else (itoa v, p).

(** Formats [%f] and [%e] of digits [ds] with the point after [p] of them. *)
Definition split_at (k : nat) (s : string) : string * string :=
  (String.substring 0 k s, String.substring k (String.length s - k) s).

Definition format_f (ds : string) (p : Z) : string :=
  if p <=? 0 then "0." +:+ zeros (Z.to_nat (- p)) +:+ ds
  else if Z.of_nat (String.length ds) <=? p then ds +:+ zeros (Z.to_nat p - String.length ds)
  else let '(a, b) := split_at (Z.to_nat p) ds in a +:+ "." +:+ b.

Definition format_e (width : nat) (ds : string) (p : Z) : string :=
  let '(a, b) := split_at 1 ds in
  a +:+ (if bool_decide (b = "") then "" else "." +:+ b) +:+ "e" +:+
  (if p - 1 <? 0 then "-" else "+") +:+ pad0 width (Z.abs (p - 1)).

(** The number as encoding/json writes it: [%f] between 1e-6 and 1e21, [%e] outside. *)
Definition spell (neg : bool) (ds : string) (p : Z) : json :=
  if bool_decide (-6 <= p - 1 < 21) then
    if Z.of_nat (String.length ds) <=? p then
      let z := dec_value 0 (format_f ds p) in JInt (if neg then - z else z)
    else JFloat ((if neg then "-" else "") +:+ format_f ds p)
  else JFloat ((if neg then "-" else "") +:+ format_e 1 ds p).

(** The float as a fraction. *)
Definition float_ratio (f : float64) : Z * Z :=
  (Z.abs f.1 * 2 ^ Z.max 0 f.2, 2 ^ Z.max 0 (- f.2)).

#[export] Instance float64_eq_dec : EqDecision float64.
Proof. solve_decision. Defined.

(** The shortest digits that read back as the float, from [k] digits on. *)
Fixpoint shortest (fuel k : nat) (f : float64) : option (string * Z) :=
  match fuel with
  | O => None
  | S fuel' =>
      let '(n, d) := float_ratio f in
      let '(ds, p) := digits_at k n d in
      if bool_decide (float_of (spell (f.1 <? 0) ds p) = Some f) then Some (ds, p)
      else shortest fuel' (S k) f
  end.

(** The number a float64 is written as. Integers up to 2^53 are their own spelling; the sign
    of a zero is not kept. *)
Definition norm_float (j : json) : json :=
  match float_of j with
  | None => JNull
  | Some f =>
      if f.1 =? 0 then JInt 0
      else match shortest 17 1 f with
           | Some (ds, p) => spell (f.1 <? 0) ds p
           | None => j
           end
  end.

Definition norm_number (j : json) : json :=
  match j with
  | JInt z => if Z.abs z <=? 2 ^ 53 then j else norm_float j
  | JFloat _ => norm_float j
  | _ => j
  end.

Example norm_half : norm_number (JFloat "0.50") = JFloat "0.5".
Proof. vm_compute. reflexivity. Qed.
Example norm_tenth : norm_number (JFloat "1e-1") = JFloat "0.1".
Proof. vm_compute. reflexivity. Qed.
Example norm_exponent : norm_number (JFloat "2.5E3") = JInt 2500.
Proof. vm_compute. reflexivity. Qed.
Example norm_small : norm_number (JFloat "-1.50e-7") = JFloat "-1.5e-7".
Proof. vm_compute. reflexivity. Qed.
Example norm_rounded : norm_number (JInt 9007199254740993) = JInt 9007199254740992.
Proof. vm_compute. reflexivity. Qed.
Example norm_padded : norm_number (JInt (2 ^ 64)) = JInt 18446744073709552000.
Proof. vm_compute. reflexivity. Qed.
Example norm_huge : norm_number (JInt (10 ^ 22)) = JFloat "1e+22".
Proof. vm_compute. reflexivity. Qed.
Example norm_overflow : norm_number (JFloat "1e400") = JNull.
Proof. vm_compute. reflexivity. Qed.
Example norm_third : norm_number (JFloat "0.333333333333333333333") = JFloat "0.3333333333333333".
Proof. vm_compute. reflexivity. Qed.

(** ** Maps and nested values *)

(** [m[k] = v] on a map kept sorted by key. *)
Fixpoint insert_key {A} (k : string) (v : A) (l : list (string * A)) : list (string * A) :=
  match l with
  | [] => [(k, v)]
  | (k', v') :: l' =>
      match String.compare k k' with
      | Lt => (k, v) :: l
      | Eq => (k, v) :: l'
      | Gt => (k', v') :: insert_key k v l'
      end
  end.

Definition make_map {A} (kvs : list (string * A)) : list (string * A) :=
  foldl (fun m kv => insert_key kv.1 kv.2 m) [] kvs.

(** [delete(m, k)]. *)
Definition delete_key {A} (k : string) (l : list (string * A)) : list (string * A) :=
  filter (fun kv => kv.1 <> k) l.

(** [json.Unmarshal] into an [any]. *)
Fixpoint into_any (j : json) : json :=
  match j with
  | JArr l => JArr (into_any <$> l)
  | JObj kvs => JObj (make_map ((fun kv => (kv.1, into_any kv.2)) <$> kvs))
  | _ => norm_number j
  end.

(** Whether every number fits a float64; if not, [json.Unmarshal] reports an error (and
    leaves nil in its place). *)
Fixpoint floats_ok (j : json) : bool :=
  match j with
  | JInt _ | JFloat _ => bool_decide (float_of j <> None)
  | JArr l => forallb floats_ok l
  | JObj kvs => forallb (fun kv => floats_ok kv.2) kvs
  | _ => true
  end.

(** ** Type assertions: [v, ok := x.(T)] *)
Abbreviation args := (list (string * json)).

Definition as_string (j : json) : option string :=
  match j with JStr s => Some s | JTime t => Some (rfc3339 t) | _ => None end.
Definition as_map (j : json) : option args := match j with JObj kvs => Some kvs | _ => None end.
Definition as_slice (j : json) : option (list json) :=
  match j with JArr l => Some l | _ => None end.
Definition as_float (j : json) : option float64 := float_of j.

(** [m[k]] of a map that may be nil; nil when the key is absent. *)
Definition index (m : args) (k : string) : json := default JNull (lookup_key k m).

(** ** [%v] *)

(** [%g] of a float64: exponents below -4 and from 6 on use [%e]. *)
Definition format_v_number (j : json) : string :=
  match float_of j with
  | None => ""
  | Some f =>
      if f.1 =? 0 then "0" else
      match shortest 17 1 f with
      | None => Marshal j
      | Some (ds, p) =>
          (if f.1 <? 0 then "-" else "") +:+
          (if (p - 1 <? -4) || (6 <=? p - 1) then format_e 2 ds p else format_f ds p)
      end
  end.

Fixpoint format_v (j : json) : string :=
  match j with
  | JNull => "<nil>"
  | JBool b => if b then "true" else "false"
  | JStr s => s
  | JTime t => rfc3339 t
  | JArr l => "[" +:+ Join (format_v <$> l) " " +:+ "]"
  | JObj kvs => "map[" +:+ Join ((fun kv => kv.1 +:+ ":" +:+ format_v kv.2) <$> kvs) " " +:+ "]"
  | _ => format_v_number j
  end.

Example format_v_map :
  format_v (JObj [("a", JArr [JInt 1; JNull]); ("b", JStr "x")]) = "map[a:[1 <nil>] b:x]".
Proof. vm_compute. reflexivity. Qed.
Example format_v_million : format_v (JInt 1000000) = "1e+06".
Proof. vm_compute. reflexivity. Qed.

(** ** Normal forms *)
Definition key_lt (a b : string) : Prop := String.compare a b = Lt.

Inductive normal : json -> Prop :=
| normal_null : normal JNull
| normal_bool b : normal (JBool b)
| normal_int z : norm_number (JInt z) = JInt z -> normal (JInt z)
| normal_float l : norm_number (JFloat l) = JFloat l -> normal (JFloat l)
| normal_str s : normal (JStr s)
| normal_time t : normal (JTime t)
| normal_arr l : Forall normal l -> normal (JArr l)
| normal_obj kvs : StronglySorted key_lt kvs.*1 -> Forall (fun kv => normal kv.2) kvs ->
    normal (JObj kvs).

(** A map holds normal values under sorted keys. *)
Definition normal_map (m : args) : Prop := normal (JObj m).

Lemma shortest_sound fuel k f ds p :
  shortest fuel k f = Some (ds, p) -> float_of (spell (f.1 <? 0) ds p) = Some f.
Proof.
  revert k. induction fuel as [|fuel IH]; intros k; [done|]. cbn [shortest].
  destruct (float_ratio f) as [n d]. destruct (digits_at k n d) as [ds' p'].
  case_bool_decide; [intros; by simplify_eq|apply IH].
Qed.

Lemma spell_number neg ds p :
  (exists z, spell neg ds p = JInt z) \/ (exists l, spell neg ds p = JFloat l).
Proof. unfold spell. case_bool_decide; [case_match|]; eauto. Qed.

Lemma norm_float_idem j : norm_number (norm_float j) = norm_float j \/ norm_float j = j.
Proof.
  unfold norm_float. destruct (float_of j) as [f|] eqn:Hf; [|by left].
  destruct (f.1 =? 0) eqn:H0; [by left|].
  destruct (shortest 17 1 f) as [[ds p]|] eqn:Hs; [|by right].
  left. pose proof (shortest_sound _ _ _ _ _ Hs) as Hsound.
  assert (norm_float (spell (f.1 <? 0) ds p) = spell (f.1 <? 0) ds p) as Hn.
  { unfold norm_float. by rewrite Hsound, H0, Hs. }
  destruct (spell_number (f.1 <? 0) ds p) as [[z E]|[l E]]; rewrite E in *; cbn [norm_number].
  - by case_match.
  - done.
Qed.

Lemma norm_number_idem j : norm_number (norm_number j) = norm_number j.
Proof.
  destruct j as [|b|z|l|s|t|l|kvs]; try done; cbn [norm_number].
  - destruct (Z.abs z <=? 2 ^ 53) eqn:Hz; [cbn [norm_number]; by rewrite Hz|].
    destruct (norm_float_idem (JInt z)) as [H|H]; [done|]. rewrite H. cbn [norm_number]. by rewrite Hz.
  - destruct (norm_float_idem (JFloat l)) as [H|H]; [done|]. rewrite H. done.
Qed.

Lemma norm_number_normal j : match j with JArr _ | JObj _ => False | _ => True end ->
  normal (norm_number j).
Proof.
  intros Hj. pose proof (norm_number_idem j) as Hi.
  destruct (norm_number j) as [|b|z|l|s|t|l|kvs] eqn:E; try by constructor.
  all: exfalso; destruct j as [|b|z|l'|s|t|l'|kvs']; try done; cbn [norm_number] in E;
    try case_match; unfold norm_float in E; repeat case_match; try done;
    match goal with
    | _ : spell ?n ?d ?p = _ |- _ => destruct (spell_number n d p) as [[? ?]|[? ?]]; congruence
    end.
Qed.

(** *** Sorted maps *)
#[export] Instance key_lt_strict : StrictOrder key_lt := OrdersEx.String_as_OT.lt_strorder.

Lemma compare_keys a b :
  match String.compare a b with Lt => key_lt a b | Eq => a = b | Gt => key_lt b a end.
Proof.
  destruct (String.compare a b) eqn:E; [by apply String.compare_eq_iff|done|].
  unfold key_lt. by rewrite String.compare_antisym, E.
Qed.

Lemma insert_key_keys {A} k (v : A) l x :
  x ∈ (insert_key k v l).*1 -> x = k \/ x ∈ l.*1.
Proof.
  induction l as [|[k' v'] l IH]; simpl; [set_solver|].
  destruct (String.compare k k'); simpl; set_solver.
Qed.

Lemma insert_key_sorted {A} k (v : A) l :
  StronglySorted key_lt l.*1 -> StronglySorted key_lt (insert_key k v l).*1.
Proof.
  induction l as [|[k' v'] l IH]; simpl; intros Hs; [by repeat constructor|].
  apply StronglySorted_inv in Hs as [Hs Hall]. rewrite Forall_forall in Hall.
  pose proof (compare_keys k k') as Hk. destruct (String.compare k k'); simpl.
  - subst. constructor; [done|]. by apply Forall_forall.
  - constructor; [by constructor; [|apply Forall_forall]|]. apply Forall_forall.
    intros x [->|Hx]%elem_of_cons; [done|]. trans k'; [done|]. by apply Hall.
  - constructor; [by apply IH|]. apply Forall_forall.
    intros x [->|Hx]%insert_key_keys; [done|]. by apply Hall.
Qed.

Lemma insert_key_Forall {A} (P : A -> Prop) k v l :
  P v -> Forall (fun kv => P kv.2) l -> Forall (fun kv => P kv.2) (insert_key k v l).
Proof.
  intros Hv. induction 1 as [|[k' v'] l Hv' Hl IH]; simpl; [by repeat constructor|].
  destruct (String.compare k k'); by repeat constructor.
Qed.

(** [m[k]] after [m[k'] = v]. *)
Lemma lookup_insert_key k k' (v : json) l :
  lookup_key k (insert_key k' v l) = if decide (k = k') then Some v else lookup_key k l.
Proof.
  induction l as [|[k2 v2] l IH]; simpl.
  - case_decide; [by rewrite bool_decide_eq_true_2|by rewrite bool_decide_eq_false_2].
  - pose proof (compare_keys k' k2) as Hk. destruct (String.compare k' k2); simpl.
    + subst. case_decide; [by rewrite bool_decide_eq_true_2|by rewrite bool_decide_eq_false_2].
    + case_decide; [by rewrite bool_decide_eq_true_2|by rewrite (bool_decide_eq_false_2 (k = k'))].
    + rewrite IH. case_bool_decide as H2; [|done]. subst.
      rewrite decide_False; [done|]. intros ->. by apply (irreflexivity key_lt k').
Qed.

Lemma index_insert_ne k k' v (m : args) : k <> k' -> index (insert_key k' v m) k = index m k.
Proof. intros Hk. unfold index. by rewrite lookup_insert_key, decide_False. Qed.
Lemma index_insert_eq k v (m : args) : index (insert_key k v m) k = v.
Proof. unfold index. by rewrite lookup_insert_key, decide_True. Qed.

Lemma make_map_from {A} (P : A -> Prop) kvs : forall acc,
  StronglySorted key_lt acc.*1 -> Forall (fun kv => P kv.2) acc ->
  Forall (fun kv => P kv.2) kvs ->
  let m := foldl (fun m kv => insert_key kv.1 kv.2 m) acc kvs in
  StronglySorted key_lt m.*1 /\ Forall (fun kv => P kv.2) m.
Proof.
  induction kvs as [|[k v] kvs IH]; intros acc Ha Hp Hk; [done|].
  apply Forall_cons in Hk as [Hv Hk]. apply IH; [by apply insert_key_sorted| |done].
  by apply insert_key_Forall.
Qed.

(** What [json.Unmarshal] puts in an [any] is in normal form. *)
Lemma into_any_normal j : normal (into_any j).
Proof.
  induction j as [|b|z|l|s|t|l IH|kvs IH] using json_induction;
    try by (apply norm_number_normal; done).
  - constructor. by apply Forall_fmap.
  - cbn [into_any]. destruct (make_map_from normal ((fun kv => (kv.1, into_any kv.2)) <$> kvs) [])
      as [H1 H2]; [constructor|done| |by constructor].
    by apply Forall_fmap.
Qed.

Lemma insert_key_last {A} k (v : A) l :
  Forall (fun x => key_lt x k) l.*1 -> insert_key k v l = l ++ [(k, v)].
Proof.
  induction l as [|[k' v'] l IH]; simpl; intros Hl; [done|].
  apply Forall_cons in Hl as [Hk Hl]. rewrite String.compare_antisym. unfold key_lt in Hk.
  rewrite Hk. simpl. by rewrite IH.
Qed.

Lemma make_map_sorted {A} (kvs : list (string * A)) :
  StronglySorted key_lt kvs.*1 -> make_map kvs = kvs.
Proof.
  enough (forall acc, StronglySorted key_lt (acc ++ kvs).*1 ->
    foldl (fun m kv => insert_key kv.1 kv.2 m) acc kvs = acc ++ kvs) as H by apply (H []).
  induction kvs as [|[k v] kvs IH]; intros acc Hs; simpl; [by rewrite app_nil_r|].
  rewrite insert_key_last.
  - rewrite IH; rewrite <- app_assoc; done.
  - rewrite fmap_app in Hs. simpl in Hs. clear -Hs. induction acc as [|[k' v'] acc IH]; [done|].
    simpl in *. apply StronglySorted_inv in Hs as [Hs Hall]. constructor; [|by apply IH].
    rewrite Forall_forall in Hall. apply Hall. set_solver.
Qed.

(** Decoding what was marshalled from an [any] changes nothing. *)
Lemma into_any_fixed j : normal j -> into_any j = j.
Proof.
  induction j as [|b|z|l|s|t|l IH|kvs IH] using json_induction; intros Hn; inversion Hn; subst;
    try done; cbn [into_any].
  - f_equal. rewrite <- (list_fmap_id l) at 2. apply list_fmap_ext. intros i x Hx.
    eapply Forall_lookup_1 in IH; [|done]. eapply Forall_lookup_1 in H0; [|done]. by apply IH.
  - f_equal.
    assert ((fun kv => (kv.1, into_any kv.2)) <$> kvs = kvs) as ->; [|by apply make_map_sorted].
    rewrite <- (list_fmap_id kvs) at 2. apply list_fmap_ext. intros i [k x] Hx.
    eapply Forall_lookup_1 in IH; [|done]. eapply Forall_lookup_1 in H1; [|done].
    simpl in *. by rewrite IH.
Qed.

Lemma make_map_lookup k kvs : NoDup kvs.*1 -> lookup_key k (make_map kvs) = lookup_key k kvs.
Proof.
  intros Hnd. unfold make_map. enough (forall acc : args,
    lookup_key k (foldl (fun m kv => insert_key kv.1 kv.2 m) acc kvs) =
    match lookup_key k kvs with Some v => Some v | None => lookup_key k acc end) as ->
    by (simpl; by destruct (lookup_key k kvs)).
  induction kvs as [|[k' v] kvs IH]; intros acc; [done|]. apply NoDup_cons in Hnd as [Hk Hnd].
  simpl. rewrite IH, lookup_insert_key by done. case_bool_decide as Hc.
  - subst. rewrite decide_True by done.
    assert (lookup_key k' kvs = None) as ->; [|done].
    clear -Hk. induction kvs as [|[k2 v2] kvs IH]; [done|]. simpl in *.
    rewrite bool_decide_eq_false_2 by set_solver. apply IH. set_solver.
  - rewrite decide_False by done. done.
Qed.

(** ** Integers a float64 carries exactly *)
Definition exact (z : Z) : Prop := Z.abs z <= 2 ^ 53.

Lemma norm_exact z : exact z -> norm_number (JInt z) = JInt z.
Proof. unfold exact. intros Hz. cbn [norm_number]. apply Z.leb_le in Hz. by rewrite Hz. Qed.

Lemma round_even_mul n d : 0 < d -> round_even (n * d) d = n.
Proof.
  intros Hd. unfold round_even. rewrite Z.div_mul, Z.mod_mul by lia.
  replace (2 * 0 <? d) with true by lia. done.
Qed.

Lemma float_of_nat_exact n : 0 <= n <= 2 ^ 53 ->
  exists f, float_of_ratio n 1 = Some f /\ float_trunc f = n /\ float_trunc (float_opp f) = - n.
Proof.
  intros Hn. unfold float_of_ratio. destruct (Z.eqb_spec n 0) as [->|H0]; [by eexists|].
  change (Z.log2 1) with 0. rewrite Z.sub_0_r.
  pose proof (Z.log2_spec n ltac:(lia)) as [Hlo Hhi].
  pose proof (Z.log2_nonneg n) as Hk.
  assert (Z.log2 n <= 53) as Hk53 by (rewrite <- (Z.log2_pow2 53) by lia; apply Z.log2_le_mono; lia).
  set (k := Z.log2 n) in *.
  replace (Z.max 0 (- k)) with 0 by lia. replace (Z.max 0 k) with k by lia.
  rewrite Z.pow_0_r, Z.mul_1_r, Z.mul_1_l.
  replace (n <? 2 ^ k) with false by lia. replace (Z.max (-1074) (k - 52)) with (k - 52) by lia.
  destruct (decide (k = 53)) as [E|E].
  - rewrite E in *. assert (n = 2 ^ 53) as -> by lia. by eexists.
  - replace (Z.max 0 (- (k - 52))) with (52 - k) by lia. replace (Z.max 0 (k - 52)) with 0 by lia.
    rewrite Z.pow_0_r, !Z.mul_1_l, Z.mul_1_r.
    assert (round_even (n * 2 ^ (52 - k)) 1 = n * 2 ^ (52 - k)) as ->.
    { rewrite <- (Z.mul_1_r (n * 2 ^ (52 - k))) at 1. by apply round_even_mul. }
    assert (n * 2 ^ (52 - k) < 2 ^ 53) as Hm.
    { replace 53 with (Z.succ k + (52 - k)) by lia. rewrite Z.pow_add_r by lia.
      apply Z.mul_lt_mono_pos_r; [|done]. apply Z.pow_pos_nonneg; lia. }
    assert (2 ^ 53 < 2 ^ 1024) as Hbig by done.
    replace (2 ^ 1024 <=? n * 2 ^ (52 - k)) with false by lia.
    eexists; split; [done|]. unfold float_trunc, float_opp. simpl fst. simpl snd.
    destruct (Z.leb_spec 0 (k - 52)).
    + replace (52 - k) with 0 by lia. replace (k - 52) with 0 by lia. lia.
    + replace (- (k - 52)) with (52 - k) by lia.
      assert (2 ^ (52 - k) <> 0) by (apply Z.pow_nonzero; lia).
      split; [by apply Z.quot_mul|]. rewrite <- Z.mul_opp_l. by apply Z.quot_mul.
Qed.

(** Such an integer comes back from the float64 it was decoded into. *)
Lemma float_exact z : exact z ->
  exists f, float_of (JInt z) = Some f /\ float_trunc f = z /\ float_to_int64 f = z.
Proof.
  intros Hz. unfold exact in Hz. destruct (float_of_nat_exact (Z.abs z)) as (f & Hf & H1 & H2); [lia|].
  assert (forall g, float_trunc g = z -> float_to_int64 g = z) as Hint.
  { intros g Hg. unfold float_to_int64. rewrite Hg, bool_decide_eq_true_2; [done|].
    unfold maxInt64. lia. }
  cbn [float_of]. rewrite Hf. destruct (Z.ltb_spec z 0); simpl.
  - eexists. split; [done|]. assert (float_trunc (float_opp f) = z) by (rewrite H2; lia). auto.
  - eexists. split; [done|]. assert (float_trunc f = z) by (rewrite H1; lia). auto.
Qed.
