(* ===== verification/Encoding.v ===== *)
(** * encoding/base64 and net/url as the clients use them

    Standard base64 with padding, as [base64.StdEncoding], and the escaping of query
    parameters, as [url.QueryEscape] and its inverse on the server's side. Both round trips
    are proved here: the file tools and the filtered mailbox requests depend on them. *)

From Stdlib Require Import Strings.Ascii.
From S2P Require Import Prelude Json JsonText.

#[local] Open Scope N_scope.

(** ** Base64 *)
Definition b64_char (n : N) : ascii :=
  if n <? 26 then chr (65 + n)
  else if n <? 52 then chr (71 + n)
  else if n <? 62 then chr (n - 4)
  else if n =? 62 then "+"%char else "/"%char.

Definition b64_val (c : ascii) : option N :=
  let n := N_of_ascii c in
  if (65 <=? n) && (n <=? 90) then Some (n - 65)
  else if (97 <=? n) && (n <=? 122) then Some (n - 71)
  else if (48 <=? n) && (n <=? 57) then Some (n + 4)
  else if n =? 43 then Some 62
  else if n =? 47 then Some 63
  else None.

Definition byte_of_N (n : N) : byte := default x00 (Byte.of_N n).

(** [base64.StdEncoding.EncodeToString]. *)
Fixpoint EncodeToString (bs : list byte) : string :=
  match bs with
  | [] => ""
  | [a] =>
      let n := Byte.to_N a * 65536 in
      String (b64_char (n / 262144)) (String (b64_char (n / 4096 mod 64)) "==")
  | [a; b] =>
      let n := Byte.to_N a * 65536 + Byte.to_N b * 256 in
      String (b64_char (n / 262144)) (String (b64_char (n / 4096 mod 64))
        (String (b64_char (n / 64 mod 64)) "="))
  | a :: b :: c :: bs' =>
      let n := Byte.to_N a * 65536 + Byte.to_N b * 256 + Byte.to_N c in
      String (b64_char (n / 262144)) (String (b64_char (n / 4096 mod 64))
        (String (b64_char (n / 64 mod 64)) (String (b64_char (n mod 64)) (EncodeToString bs'))))
  end.

(** Line breaks inside the encoded text are skipped. *)
Fixpoint strip_breaks (s : string) : string :=
  match s with
  | EmptyString => ""
  | String c s' => if bool_decide (N_of_ascii c = 10 \/ N_of_ascii c = 13) then strip_breaks s'
                   else String c (strip_breaks s')
  end.

Fixpoint decode_quanta (s : string) : option (list byte) :=
  match s with
  | EmptyString => Some []
  | String c1 (String c2 (String c3 (String c4 s'))) =>
      x1 ← b64_val c1; x2 ← b64_val c2;
      if bool_decide (c3 = "="%char) then
        if bool_decide (c4 = "="%char /\ s' = "") then Some [byte_of_N (x1 * 4 + x2 / 16)] else None
      else
        x3 ← b64_val c3;
        if bool_decide (c4 = "="%char) then
          if bool_decide (s' = "") then
            Some [byte_of_N (x1 * 4 + x2 / 16); byte_of_N (x2 mod 16 * 16 + x3 / 4)]
          else None
        else
          x4 ← b64_val c4; bs ← decode_quanta s';
          Some (byte_of_N (x1 * 4 + x2 / 16) :: byte_of_N (x2 mod 16 * 16 + x3 / 4) ::
                byte_of_N (x3 mod 4 * 64 + x4) :: bs)
  | _ => None
  end.

(** [base64.StdEncoding.DecodeString]; [None] is an error. *)
Definition DecodeString (s : string) : option (list byte) := decode_quanta (strip_breaks s).

Example base64_man : EncodeToString (String.list_byte_of_string "Man y") = "TWFuIHk=".
Proof. vm_compute. reflexivity. Qed.
Example base64_cut : DecodeString "TWFuI" = None.
Proof. vm_compute. reflexivity. Qed.

Lemma b64_val_char n : n < 64 ->
  b64_val (b64_char n) = Some n /\ b64_char n <> "="%char /\
  bool_decide (N_of_ascii (b64_char n) = 10 \/ N_of_ascii (b64_char n) = 13) = false.
Proof.
  intros Hn. replace n with (N.of_nat (N.to_nat n)) by lia.
  assert (N.to_nat n < 64)%nat as Hm by lia. revert Hm. generalize (N.to_nat n). clear.
  intros m Hm. do 64 (destruct m as [|m]; [by repeat split|]). lia.
Qed.

Lemma byte_of_to b n : n = Byte.to_N b -> byte_of_N n = b.
Proof. intros ->. unfold byte_of_N. by rewrite Byte.of_to_N. Qed.

Lemma strip_char c s : bool_decide (N_of_ascii c = 10 \/ N_of_ascii c = 13) = false ->
  strip_breaks (String c s) = String c (strip_breaks s).
Proof. intros Hc. cbn [strip_breaks]. by rewrite Hc. Qed.

(** The six-bit digits of three bytes, put together again. *)
Lemma quantum a b c :
  let n := Byte.to_N a * 65536 + Byte.to_N b * 256 + Byte.to_N c in
  (n / 262144 < 64 /\ n / 4096 mod 64 < 64 /\ n / 64 mod 64 < 64 /\ n mod 64 < 64) /\
  n / 262144 * 4 + n / 4096 mod 64 / 16 = Byte.to_N a /\
  n / 4096 mod 64 mod 16 * 16 + n / 64 mod 64 / 4 = Byte.to_N b /\
  n / 64 mod 64 mod 4 * 64 + n mod 64 = Byte.to_N c.
Proof.
  pose proof (Byte.to_N_bounded a) as HA. pose proof (Byte.to_N_bounded b) as HB.
  pose proof (Byte.to_N_bounded c) as HC. cbv zeta.
  generalize dependent (Byte.to_N a). generalize dependent (Byte.to_N b).
  generalize dependent (Byte.to_N c). clear. intros C HC B HB A HA.
  set (n := A * 65536 + B * 256 + C).
  pose proof (N.div_mod A 4 ltac:(done)). pose proof (N.mod_lt A 4 ltac:(done)).
  pose proof (N.div_mod B 16 ltac:(done)). pose proof (N.mod_lt B 16 ltac:(done)).
  pose proof (N.div_mod C 64 ltac:(done)). pose proof (N.mod_lt C 64 ltac:(done)).
  set (a1 := A / 4) in *. set (a0 := A mod 4) in *. set (b1 := B / 16) in *.
  set (b0 := B mod 16) in *. set (c1 := C / 64) in *. set (c0 := C mod 64) in *.
  assert (n / 262144 = a1) as ->.
  { symmetry. apply (N.div_unique _ _ _ (a0 * 65536 + b1 * 4096 + b0 * 256 + c1 * 64 + c0)); lia. }
  assert (n / 4096 = a1 * 64 + a0 * 16 + b1) as ->.
  { symmetry. apply (N.div_unique _ _ _ (b0 * 256 + c1 * 64 + c0)); lia. }
  assert (n / 64 = a1 * 4096 + a0 * 1024 + b1 * 64 + b0 * 4 + c1) as ->.
  { symmetry. apply (N.div_unique _ _ _ c0); lia. }
  assert ((a1 * 64 + a0 * 16 + b1) mod 64 = a0 * 16 + b1) as ->.
  { symmetry. apply (N.mod_unique _ _ a1); lia. }
  assert ((a1 * 4096 + a0 * 1024 + b1 * 64 + b0 * 4 + c1) mod 64 = b0 * 4 + c1) as ->.
  { symmetry. apply (N.mod_unique _ _ (a1 * 64 + a0 * 16 + b1)); lia. }
  assert (n mod 64 = c0) as ->.
  { symmetry. apply (N.mod_unique _ _ (a1 * 4096 + a0 * 1024 + b1 * 64 + b0 * 4 + c1)); lia. }
  assert ((a0 * 16 + b1) / 16 = a0) as -> by (symmetry; apply (N.div_unique _ _ _ b1); lia).
  assert ((a0 * 16 + b1) mod 16 = b1) as -> by (symmetry; apply (N.mod_unique _ _ a0); lia).
  assert ((b0 * 4 + c1) / 4 = b0) as -> by (symmetry; apply (N.div_unique _ _ _ c1); lia).
  assert ((b0 * 4 + c1) mod 4 = c1) as -> by (symmetry; apply (N.mod_unique _ _ b0); lia).
  repeat split; lia.
Qed.

(** Every encoding decodes to the bytes it encodes. *)
Lemma DecodeString_Encode bs : DecodeString (EncodeToString bs) = Some bs.
Proof.
  unfold DecodeString. induction bs as [bs IH] using (induction_ltof1 _ (@length byte)).
  unfold ltof in IH. destruct bs as [|a [|b [|c bs]]]; [done| | |].
  - destruct (quantum a x00 x00) as [(H1 & H2 & _ & _) (Ha & _ & _)].
    change (Byte.to_N x00) with 0 in *. rewrite !N.mul_0_l, !N.add_0_r in *. cbn [EncodeToString].
    destruct (b64_val_char _ H1) as (V1 & _ & S1), (b64_val_char _ H2) as (V2 & _ & S2).
    rewrite !strip_char by done. cbn -[b64_val b64_char N.div N.modulo N.mul N.add].
    rewrite V1, V2. cbn -[b64_val b64_char N.div N.modulo N.mul N.add].
    by rewrite (byte_of_to a) by done.
  - destruct (quantum a b x00) as [(H1 & H2 & H3 & _) (Ha & Hb & _)].
    change (Byte.to_N x00) with 0 in *. rewrite !N.add_0_r in *. cbn [EncodeToString].
    destruct (b64_val_char _ H1) as (V1 & _ & S1), (b64_val_char _ H2) as (V2 & _ & S2),
      (b64_val_char _ H3) as (V3 & E3 & S3).
    rewrite !strip_char by done. cbn -[b64_val b64_char N.div N.modulo N.mul N.add].
    rewrite V1, V2, V3. cbn -[b64_val b64_char N.div N.modulo N.mul N.add].
    rewrite bool_decide_eq_false_2 by done. cbn -[b64_val b64_char N.div N.modulo N.mul N.add].
    by rewrite (byte_of_to a), (byte_of_to b) by done.
  - destruct (quantum a b c) as [(H1 & H2 & H3 & H4) (Ha & Hb & Hc)]. cbn [EncodeToString].
    destruct (b64_val_char _ H1) as (V1 & _ & S1), (b64_val_char _ H2) as (V2 & _ & S2),
      (b64_val_char _ H3) as (V3 & E3 & S3), (b64_val_char _ H4) as (V4 & E4 & S4).
    rewrite !strip_char by done. cbn [decode_quanta]. rewrite V1, V2, V3, V4.
    cbn [mbind option_bind]. rewrite !bool_decide_eq_false_2 by done.
    rewrite IH by (simpl; lia). cbn [mbind option_bind].
    by rewrite (byte_of_to a), (byte_of_to b), (byte_of_to c) by done.
Qed.

(** ** Query parameters *)
Definition unreserved (c : ascii) : bool :=
  let n := N_of_ascii c in
  ((48 <=? n) && (n <=? 57)) || ((65 <=? n) && (n <=? 90)) || ((97 <=? n) && (n <=? 122)) ||
  bool_decide (n = 45 \/ n = 95 \/ n = 46 \/ n = 126).

Definition upper_hex (n : N) : ascii := if n <? 10 then chr (48 + n) else chr (55 + n).

Definition escape_query_char (c : ascii) : string :=
  let n := N_of_ascii c in
  if unreserved c then str1 c
  else if n =? 32 then "+"
  else String "%"%char (String (upper_hex (n / 16)) (str1 (upper_hex (n mod 16)))).

Fixpoint QueryEscape (s : string) : string :=
  match s with
  | EmptyString => ""
  | String c s' => escape_query_char c +:+ QueryEscape s'
  end.

(** [unescape], of a query component ([plus]: a plus sign is a space) or of a path segment. *)
Fixpoint unescape (plus : bool) (s : string) : option string :=
  match s with
  | EmptyString => Some ""
  | String c s' =>
      if bool_decide (c = "%"%char) then
        match s' with
        | String a (String b s2) =>
            x ← hex_val a; y ← hex_val b; r ← unescape plus s2; Some (String (chr (x * 16 + y)) r)
        | _ => None
        end
      else
        r ← unescape plus s';
        Some (String (if plus && bool_decide (c = "+"%char) then " "%char else c) r)
  end.

Lemma unescape_char c r :
  unescape true (escape_query_char c +:+ r) = x ← unescape true r; Some (String c x).
Proof. destruct c as [[] [] [] [] [] [] [] []]; reflexivity. Qed.

(** A parameter the client escapes is the one the server reads. *)
Lemma unescape_QueryEscape s : unescape true (QueryEscape s) = Some s.
Proof. induction s as [|c s IH]; [done|]. cbn [QueryEscape]. by rewrite unescape_char, IH. Qed.

(** The characters that structure a URL. *)
Definition url_special (c : ascii) : bool :=
  bool_decide (c = "%"%char \/ c = "?"%char \/ c = "#"%char \/ c = "&"%char \/ c = "="%char \/
               c = "+"%char \/ c = "/"%char \/ c = ";"%char).

Fixpoint has_char (P : ascii -> bool) (s : string) : bool :=
  match s with String c s' => P c || has_char P s' | EmptyString => false end.

Lemma has_char_app P s r : has_char P (s +:+ r) = has_char P s || has_char P r.
Proof.
  induction s as [|c s IH]; [done|]. change (String c s +:+ r) with (String c (s +:+ r)).
  cbn [has_char]. by rewrite IH, orb_assoc.
Qed.

(** An escaped parameter cannot be mistaken for the end of its own value. *)
Lemma QueryEscape_safe s :
  has_char (fun c => bool_decide (c = "&"%char \/ c = "="%char \/ c = "#"%char \/ c = ";"%char))
    (QueryEscape s) = false.
Proof.
  induction s as [|c s IH]; [done|]. cbn [QueryEscape]. rewrite has_char_app, IH, orb_false_r.
  by destruct c as [[] [] [] [] [] [] [] []].
Qed.

Lemma unescape_plain plus s :
  has_char (fun c => bool_decide (c = "%"%char \/ c = "+"%char)) s = false -> unescape plus s = Some s.
Proof.
  induction s as [|c s IH]; [done|]. cbn [has_char unescape]. intros [Hc Hs]%orb_false_iff.
  apply bool_decide_eq_false in Hc. rewrite IH by done.
  rewrite bool_decide_eq_false_2 by tauto. cbn. rewrite (bool_decide_eq_false_2 (c = _)) by tauto.
  by rewrite andb_false_r.
Qed.
