(* ===== verification/Lines.v ===== *)
(** * Lines of text: bufio.Scanner and the string functions the clients use

    [scan] is a [bufio.Scanner] over a text that has all arrived: lines without their line
    feed and one carriage return before it, up to the first line that does not fit the
    scanner's buffer, which ends it with an error. *)

From Stdlib Require Import Strings.Ascii.
From S2P Require Import Prelude Json JsonText.

#[local] Open Scope Z_scope.

Definition LF : ascii := chr 10.
Definition CR : ascii := chr 13.

(** The text up to each line feed, and what is left after the last one. *)
Fixpoint split_lf (s : string) : list string * string :=
  match s with
  | EmptyString => ([], "")
  | String c s' =>
      let '(ls, r) := split_lf s' in
      if bool_decide (c = LF) then ("" :: ls, r)
      else match ls with
           | [] => ([], String c r)
           | l :: ls' => (String c l :: ls', r)
           end
  end.

(** [strings.TrimSuffix]. *)
Fixpoint TrimSuffix (s p : string) : string :=
  if bool_decide (s = p) then ""
  else match s with EmptyString => "" | String c s' => String c (TrimSuffix s' p) end.

Definition drop_cr (s : string) : string := TrimSuffix s (str1 CR).

(** The lines before the first that is as long as the buffer, and whether there is one. *)
Fixpoint take_fitting (max : Z) (ls : list string) : list string * bool :=
  match ls with
  | [] => ([], false)
  | l :: ls' =>
      if max <=? Z.of_nat (String.length l) then ([], true)
      else let '(r, b) := take_fitting max ls' in (drop_cr l :: r, b)
  end.

Definition raw_lines (s : string) : list string :=
  let '(ls, r) := split_lf s in ls ++ (if bool_decide (r = "") then [] else [r]).

Definition scan (max : Z) (s : string) : list string * bool := take_fitting max (raw_lines s).

(** A text of complete lines. *)
Definition unlines (ls : list string) : string := foldr (fun l r => l +:+ String LF r) "" ls.

Lemma split_lf_line l r :
  one_line l = true ->
  split_lf (l +:+ String LF r) = (l :: (split_lf r).1, (split_lf r).2).
Proof.
  induction l as [|c l IH]; cbn [one_line]; intros Hl.
  - change ("" +:+ String LF r) with (String LF r). cbn [split_lf]. by destruct (split_lf r).
  - apply andb_true_iff in Hl as [Hc Hl]. rewrite str_cons_app. cbn [split_lf]. rewrite IH by done.
    rewrite bool_decide_eq_false_2; [done|]. intros ->. done.
Qed.

Lemma raw_lines_unlines ls : Forall (fun l => one_line l = true) ls -> raw_lines (unlines ls) = ls.
Proof.
  intros Hl. assert (split_lf (unlines ls) = (ls, "")) as E.
  { induction Hl as [|l ls Hl _ IH]; [done|]. cbn [unlines foldr].
    rewrite split_lf_line by done. unfold unlines in IH. by rewrite IH. }
  unfold raw_lines. by rewrite E, app_nil_r.
Qed.

Lemma drop_cr_one_line l : one_line l = true -> drop_cr l = l.
Proof.
  unfold drop_cr. induction l as [|c l IH]; [done|]. cbn [one_line TrimSuffix]. intros [Hc Hl]%andb_true_iff.
  rewrite IH by done. rewrite bool_decide_eq_false_2; [done|]. intros [= -> ->]. done.
Qed.

(** Complete lines that fit are read as they are. *)
Lemma scan_unlines max ls :
  Forall (fun l => one_line l = true /\ Z.of_nat (String.length l) < max) ls ->
  scan max (unlines ls) = (ls, false).
Proof.
  intros Hl. unfold scan. rewrite raw_lines_unlines by (eapply Forall_impl; [exact Hl|]; by intros ? [? ?]).
  induction Hl as [|l ls [Hl Hm] _ IH]; [done|]. cbn [take_fitting].
  replace (max <=? Z.of_nat (String.length l)) with false by lia.
  by rewrite IH, drop_cr_one_line.
Qed.

(** *** Reading as the text arrives

    What one more read adds to an incomplete line: the lines it completes, and the incomplete
    line after them, [None] when a line does not fit. *)
Definition scan_more (max : Z) (pending chunk : string) : list string * option string :=
  let '(ls, r) := split_lf (pending +:+ chunk) in
  let '(fit, long) := take_fitting max ls in
  (fit, if long || (max <=? Z.of_nat (String.length r)) then None else Some r).

(** What is left at the end is a line too. *)
Definition scan_rest (pending : string) : list string :=
  if bool_decide (pending = "") then [] else [drop_cr pending].

Fixpoint scan_chunks (max : Z) (pending : string) (cs : list string) : list string * bool :=
  match cs with
  | [] => (scan_rest pending, false)
  | c :: cs' =>
      match scan_more max pending c with
      | (ls, None) => (ls, true)
      | (ls, Some r) => let '(ls', b) := scan_chunks max r cs' in (ls ++ ls', b)
      end
  end.

Definition concat_str (cs : list string) : string := foldr String.append "" cs.

Lemma split_lf_app a b :
  split_lf (a +:+ b) =
  ((split_lf a).1 ++ (split_lf ((split_lf a).2 +:+ b)).1, (split_lf ((split_lf a).2 +:+ b)).2).
Proof.
  induction a as [|c a IH]; [cbn [split_lf fst snd app]; by rewrite <- surjective_pairing|].
  rewrite str_cons_app. cbn [split_lf]. rewrite IH. clear IH.
  destruct (split_lf a) as [[|l ls] r]; cbn [fst snd].
  - destruct (bool_decide (c = LF)) eqn:Hc; cbn [fst snd app]; [by destruct (split_lf (r +:+ b))|].
    rewrite str_cons_app. cbn [split_lf]. rewrite Hc. by destruct (split_lf (r +:+ b)) as [[] ?].
  - destruct (bool_decide (c = LF)); simpl; by destruct (split_lf (r +:+ b)).
Qed.

Lemma take_fitting_app max l1 l2 :
  take_fitting max (l1 ++ l2) =
  if (take_fitting max l1).2 then take_fitting max l1
  else ((take_fitting max l1).1 ++ (take_fitting max l2).1, (take_fitting max l2).2).
Proof.
  induction l1 as [|l l1 IH]; simpl; [by destruct (take_fitting max l2)|].
  destruct (max <=? Z.of_nat (String.length l)); simpl; [done|]. rewrite IH.
  by destruct (take_fitting max l1) as [a []]; destruct (take_fitting max l2).
Qed.

Lemma split_lf_partial s : (split_lf s).1 = [] -> split_lf s = ([], s).
Proof.
  induction s as [|c s IH]; [done|]. cbn [split_lf]. destruct (split_lf s) as [ls r].
  case_bool_decide; [done|]. destruct ls; [|done]. intros _. by injection (IH eq_refl) as ->.
Qed.

Lemma split_lf_rest s : (split_lf (split_lf s).2).1 = [].
Proof.
  induction s as [|c s IH]; [done|]. cbn [split_lf]. destruct (split_lf s) as [ls r]. cbn [snd] in IH.
  case_bool_decide as Hc; [done|]. destruct ls; [|done]. cbn [snd split_lf].
  rewrite (split_lf_partial r) by done. by rewrite bool_decide_eq_false_2.
Qed.

Lemma raw_lines_app a b : raw_lines (a +:+ b) = (split_lf a).1 ++ raw_lines ((split_lf a).2 +:+ b).
Proof.
  unfold raw_lines. rewrite split_lf_app. destruct (split_lf ((split_lf a).2 +:+ b)) as [ls r].
  by rewrite <- app_assoc.
Qed.

(** The first line of a text continues the incomplete line it starts with. *)
Lemma raw_lines_head p s :
  (split_lf p).1 = [] -> p <> "" -> exists l ls, raw_lines (p +:+ s) = (p +:+ l) :: ls.
Proof.
  unfold raw_lines. induction p as [|c p IH]; [done|]. cbn [split_lf]. rewrite str_cons_app. cbn [split_lf].
  destruct (split_lf p) as [lp rp] eqn:Hp. intros Hc _.
  case_bool_decide as Hcl; [by destruct (bool_decide (rp = "")), lp|].
  destruct lp; [|done]. destruct (decide (p = "")) as [->|Hn].
  - change ("" +:+ s) with s. destruct (split_lf s) as [[|l ls] r]; cbn [app].
    + by exists r, [].
    + by eexists l, _.
  - destruct (IH eq_refl Hn) as (l & ls & He). destruct (split_lf (p +:+ s)) as [[|l' ls'] r]; cbn [app] in *.
    + case_bool_decide; simplify_eq/=. by exists l, [].
    + simplify_eq/=. by eexists l, _.
Qed.

Lemma scan_chunks_lines max cs p :
  0 < max -> (split_lf p).1 = [] ->
  Z.of_nat (String.length p) < max ->
  scan_chunks max p cs = scan max (p +:+ concat_str cs).
Proof.
  intros Hmax. unfold scan. revert p. induction cs as [|c cs IH]; intros p Hp Hl; cbn [scan_chunks concat_str foldr].
  - rewrite str_app_nil. unfold raw_lines, scan_rest. rewrite split_lf_partial by done.
    case_bool_decide; [done|]. cbn [app take_fitting]. by replace (max <=? _) with false by lia.
  - fold (concat_str cs). rewrite <- string_app_assoc, raw_lines_app, take_fitting_app. unfold scan_more.
    pose proof (split_lf_rest (p +:+ c)) as Hr. destruct (split_lf (p +:+ c)) as [ls r]. cbn [fst snd] in *.
    destruct (take_fitting max ls) as [fit long]. cbn [fst snd].
    destruct long; cbn [orb]; [done|]. destruct (Z.leb_spec max (Z.of_nat (String.length r))) as [Hle|Hlt].
    + destruct (raw_lines_head r (concat_str cs)) as (l & ls' & ->); [done|by intros ->; simpl in Hle; lia|].
      cbn [take_fitting]. rewrite str_app_length, Nat2Z.inj_add. rewrite (proj2 (Z.leb_le _ _)) by lia. by rewrite app_nil_r.
    + rewrite IH by done. by destruct (take_fitting max (raw_lines (r +:+ concat_str cs))).
Qed.

(** However the text is cut into reads, the scanner sees the same lines. *)
Lemma scan_chunks_scan max cs : 0 < max -> scan_chunks max "" cs = scan max (concat_str cs).
Proof. intros Hm. by apply scan_chunks_lines. Qed.

(** [strings.TrimSpace], of ASCII white space. *)
Definition white (c : ascii) : bool :=
  let n := N_of_ascii c in ((9 <=? n) && (n <=? 13) || (n =? 32))%N.
Fixpoint trim_left (s : string) : string :=
  match s with String c s' => if white c then trim_left s' else s | EmptyString => "" end.
Fixpoint trim_right (s : string) : string :=
  match s with
  | String c s' =>
      let t := trim_right s' in
      if bool_decide (t = "") && white c then "" else String c t
  | EmptyString => ""
  end.
Definition TrimSpace (s : string) : string := trim_right (trim_left s).

(** The first occurrence of a character: what is before and after it. *)
Fixpoint cut (d : ascii) (s : string) : option (string * string) :=
  match s with
  | EmptyString => None
  | String c s' =>
      if bool_decide (c = d) then Some ("", s')
      else '(a, b) ← cut d s'; Some (String c a, b)
  end.

(** [strings.SplitN] and [strings.Split] on one character. *)
Fixpoint SplitN (n : nat) (d : ascii) (s : string) : list string :=
  match n with
  | O | S O => [s]
  | S n' => match cut d s with Some (a, b) => a :: SplitN n' d b | None => [s] end
  end.
Definition Split (d : ascii) (s : string) : list string := SplitN (S (String.length s)) d s.

(** ** Prefixes *)
Lemma TrimPrefix_app p s : TrimPrefix (p +:+ s) p = s.
Proof.
  pose proof (expect_app p s) as H. unfold expect in H. by destruct (HasPrefix (p +:+ s) p); simplify_eq.
Qed.

Lemma HasPrefix_app p s : HasPrefix (p +:+ s) p = true.
Proof. apply HasPrefix_spec. by exists s. Qed.
