(* ===== verification/Protocol.v ===== *)
(** * internal/protocol: message types, envelopes and payload structs

    The message-type constants, the structs the server stores and fans out, the envelope
    constructors of message.go and the JSON each struct is marshalled to (field names and
    [omitempty] from the struct tags). [Timestamp] is read from the clock by the caller. *)

From S2P Require Import Prelude Rfc3339 Json JsonText.

#[local] Open Scope Z_scope.

Definition TypeAuth := "auth".
Definition TypeAuthOK := "auth_ok".
Definition TypeError := "error".
Definition TypeMessage := "message".
Definition TypeBroadcast := "broadcast".
Definition TypeAgentJoined := "agent_joined".
Definition TypeAgentLeft := "agent_left".
Definition TypeAgentReconnected := "agent_reconnected".
Definition TypeListAgents := "list_agents".
Definition TypeAgentsList := "agents_list".
Definition TypeTaskAssign := "task_assign".
Definition TypeTaskStatus := "task_status".
Definition TypeTaskResult := "task_result".
Definition TypeScratchpadGet := "scratchpad_get".
Definition TypeScratchpadSet := "scratchpad_set".
Definition TypeScratchpadDelete := "scratchpad_delete".
Definition TypeScratchpadList := "scratchpad_list".
Definition TypeScratchpadResult := "scratchpad_result".
Definition TypeScratchpadUpdate := "scratchpad_update".
Definition TypeLeaderQuery := "leader_query".
Definition TypeLeaderInfo := "leader_info".
Definition TypeLeaderTransfer := "leader_transfer".
Definition TypeHistoryRequest := "history_request".
Definition TypeHistoryResult := "history_result".
Definition TypeFileShare := "file_share".

Record Envelope := mkEnvelope {
  Type_ : string;
  RequestID : string;
  env_SessionID : string;
  From : string;
  To : string;
  Payload : option RawMessage;
  Sequence : Z;
  Timestamp : Time;
}.

(** [env.Sequence = n] *)
Definition with_Sequence (n : Z) (env : Envelope) : Envelope :=
  mkEnvelope (Type_ env) (RequestID env) (env_SessionID env) (From env) (To env) (Payload env)
    n (Timestamp env).

Record AgentInfo := mkAgentInfo {
  info_AgentID : string;
  info_Capabilities : slice string;
  Online : bool;
}.

Record ScratchpadEntry := mkScratchpadEntry {
  Key : string;
  Value : option RawMessage;
  UpdatedBy : string;
  UpdatedAt : Time;
}.

Definition zeroScratchpadEntry : ScratchpadEntry := mkScratchpadEntry "" None "" zeroTime.

Record FileSharePayload := mkFileSharePayload {
  fs_FileID : string;
  fs_FileName : string;
  fs_ContentType : string;
  fs_Size : Z;
  fs_Sha256 : string;
  fs_Description : string;
}.

(** ** What [json.Marshal] writes *)
Definition FileSharePayload_json (p : FileSharePayload) : json :=
  obj [fld "file_id" (JStr (fs_FileID p)); fld "file_name" (JStr (fs_FileName p));
       fld "content_type" (JStr (fs_ContentType p)); fld "size" (JInt (fs_Size p));
       fld_str "sha256" (fs_Sha256 p); fld_str "description" (fs_Description p)].

Definition Envelope_json (env : Envelope) : json :=
  obj [fld "type" (JStr (Type_ env));
       fld_str "request_id" (RequestID env);
       fld_str "session_id" (env_SessionID env);
       fld_str "from" (From env);
       fld_str "to" (To env);
       fld_raw "payload" (Payload env);
       fld_int "sequence" (Sequence env);
       fld "timestamp" (JTime (Timestamp env))].

Definition AgentInfo_json (i : AgentInfo) : json :=
  obj [fld "agent_id" (JStr (info_AgentID i));
       fld_strs "capabilities" (info_Capabilities i);
       fld "online" (JBool (Online i))].

(** A nil [json.RawMessage] marshals to [null]. *)
Definition ScratchpadEntry_json (e : ScratchpadEntry) : json :=
  obj [fld "key" (JStr (Key e));
       fld "value" (default JNull (Value e));
       fld "updated_by" (JStr (UpdatedBy e));
       fld "updated_at" (JTime (UpdatedAt e))].

(** A [map[string]string] literal; the keys below are written in the sorted order
    [json.Marshal] emits. *)
Definition strmap_json (kvs : list (string * string)) : json :=
  JObj ((fun '(k, v) => (k, JStr v)) <$> kvs).

(** ** Constructors *)
Definition NewEnvelope {S} (msgType sessionID from to : string) (payload : option json)
    : Atom S Envelope :=
  t ← now; mret (mkEnvelope msgType "" sessionID from to payload 0 t).

Definition error_payload (errMsg : string) : option RawMessage :=
  Some (strmap_json [("error", errMsg)]).

Definition NewError {S} (sessionID errMsg : string) : Atom S Envelope :=
  t ← now; mret (mkEnvelope TypeError "" sessionID "" "" (error_payload errMsg) 0 t).

Definition NewErrorWithID {S} (sessionID errMsg requestID : string) : Atom S Envelope :=
  t ← now; mret (mkEnvelope TypeError requestID sessionID "" "" (error_payload errMsg) 0 t).

(** ** What [json.Unmarshal] reads of an envelope *)
Definition zeroEnvelope : Envelope := mkEnvelope "" "" "" "" "" None 0 zeroTime.

Definition Envelope_of (j : json) : option Envelope :=
  kvs ← body_fields j;
  ty ← field_from dec_string "" "type" kvs;
  rid ← field_from dec_string "" "request_id" kvs;
  sid ← field_from dec_string "" "session_id" kvs;
  from ← field_from dec_string "" "from" kvs;
  to ← field_from dec_string "" "to" kvs;
  payload ← field_from dec_raw None "payload" kvs;
  seq ← field_from dec_int64 0 "sequence" kvs;
  t ← field_from dec_time zeroTime "timestamp" kvs;
  Some (mkEnvelope ty rid sid from to payload seq t).

Definition in_int64 (z : Z) : Prop := -2 ^ 63 <= z <= maxInt64.

Lemma Envelope_round env : in_int64 (Sequence env) -> Envelope_of (Envelope_json env) = Some env.
Proof.
  intros Hz. unfold Envelope_of, Envelope_json, obj. cbn [body_fields mbind option_bind].
  unfold in_int64 in Hz. destruct env as [ty rid sid fr to pl sq ts]. cbn [Sequence] in Hz.
  cbn [Type_ RequestID env_SessionID From To Payload Sequence Timestamp].
  by repeat (read_field; cbn [mbind option_bind]).
Qed.

(** An envelope that went over the wire: its payload was spelled and read again. *)
Definition retyped_env (env : Envelope) : Envelope :=
  mkEnvelope (Type_ env) (RequestID env) (env_SessionID env) (From env) (To env)
    (retyped <$> Payload env) (Sequence env) (Timestamp env).

(** Envelopes whose text is faithful: int64 numbers, a payload that is JSON, a year of four
    digits. *)
Record wire_ok (env : Envelope) : Prop := mkWireOk {
  wire_seq : in_int64 (Sequence env);
  wire_payload p : Payload env = Some p -> spellable p;
  wire_time : year_written (Timestamp env);
}.

Lemma spellable_Envelope_json env :
  (forall p, Payload env = Some p -> spellable p) -> spellable (Envelope_json env).
Proof.
  intros Hp. unfold Envelope_json. apply spellable_obj.
  repeat (apply Forall_cons; split; [try apply spellable_fld_str; try apply spellable_fld_int; try constructor|]); [|done].
  destruct (Payload env) as [p|]; simpl; auto.
Qed.

Lemma spellable_Envelope env : wire_ok env -> spellable (Envelope_json env).
Proof. intros [_ Hp _]. by apply spellable_Envelope_json. Qed.

Lemma Envelope_wire env : wire_ok env -> Envelope_of (retyped (Envelope_json env)) = Some (retyped_env env).
Proof.
  intros [Hz _ Ht%parse_rfc3339_back]. unfold Envelope_json. rewrite retyped_obj.
  cbn [fmap list_fmap]. rewrite !retyped_fld_str, retyped_fld_int, retyped_fld_raw. cbn [retyped_fld fld fmap option_fmap option_map fst snd retyped].
  change (Some ("type", JStr (Type_ env))) with (fld "type" (JStr (Type_ env))).
  change (Some ("timestamp", JStr (rfc3339 (Timestamp env)))) with (fld "timestamp" (JStr (rfc3339 (Timestamp env)))).
  assert (dec_time zeroTime (JStr (rfc3339 (Timestamp env))) = Some (Timestamp env)) as Hd by exact Ht.
  unfold Envelope_of, obj, retyped_env. cbn [body_fields mbind option_bind]. unfold in_int64 in Hz.
  destruct env as [ty rid sid fr to pl sq ts]. cbn [Sequence] in *.
  cbn [Type_ RequestID env_SessionID From To Payload Sequence Timestamp] in *.
  by repeat (read_field; cbn [mbind option_bind]).
Qed.

(** An envelope's text is read back. *)
Lemma Envelope_text env : wire_ok env ->
  (Unmarshal (Marshal (Envelope_json env)) ≫= Envelope_of) = Some (retyped_env env).
Proof.
  intros Hok. rewrite Unmarshal_Marshal by by apply spellable_Envelope. by apply Envelope_wire.
Qed.
