(* ===== verification/Payloads.v ===== *)
(** * internal/protocol: the payloads

    The payload structs of message.go beside those the server itself builds (file Protocol):
    their JSON, what [json.Unmarshal] reads as each of them, and that this is what was
    written. The agents' tools fill the task payloads (theorem [tasks_conform] of TaskLaws). *)

From S2P Require Import Prelude Rfc3339 Json Protocol.

#[local] Open Scope Z_scope.

Record AuthPayload := mkAuthPayload {
  au_SessionID : string;
  au_AgentID : string;
  au_PSK : string;
  au_Capabilities : slice string;
  au_SessionName : string;
}.

Record ScratchpadSetPayload := mkScratchpadSetPayload {
  ss_Key : string;
  ss_Value : option RawMessage;
}.

Record ScratchpadListResult := mkScratchpadListResult { sl_Entries : slice ScratchpadEntry }.

Record LeaderTransferPayload := mkLeaderTransferPayload { lt_NewLeaderID : string }.

Record HistoryRequestPayload := mkHistoryRequestPayload {
  hr_AfterSequence : Z;
  hr_Limit : Z;
}.

Record TaskAssignPayload := mkTaskAssignPayload {
  ta_TaskID : string;
  ta_Description : string;
  ta_Parameters : option RawMessage;
}.

Record TaskStatusPayload := mkTaskStatusPayload {
  ts_TaskID : string;
  ts_Status : string;
  ts_Detail : string;
}.

Record TaskResultPayload := mkTaskResultPayload {
  tr_TaskID : string;
  tr_Result : option RawMessage;
}.

(** ** What [json.Marshal] writes *)
Definition AuthPayload_json (p : AuthPayload) : json :=
  obj [fld "session_id" (JStr (au_SessionID p)); fld "agent_id" (JStr (au_AgentID p));
       fld "psk" (JStr (au_PSK p)); fld_strs "capabilities" (au_Capabilities p);
       fld_str "session_name" (au_SessionName p)].

Definition ScratchpadSetPayload_json (p : ScratchpadSetPayload) : json :=
  obj [fld "key" (JStr (ss_Key p)); fld "value" (default JNull (ss_Value p))].

Definition ScratchpadListResult_json (p : ScratchpadListResult) : json :=
  obj [fld "entries" (match sl_Entries p with
                      | None => JNull
                      | Some l => JArr (ScratchpadEntry_json <$> l)
                      end)].

Definition LeaderTransferPayload_json (p : LeaderTransferPayload) : json :=
  obj [fld "new_leader_id" (JStr (lt_NewLeaderID p))].

Definition HistoryRequestPayload_json (p : HistoryRequestPayload) : json :=
  obj [fld_int "after_sequence" (hr_AfterSequence p); fld_int "limit" (hr_Limit p)].

Definition TaskAssignPayload_json (p : TaskAssignPayload) : json :=
  obj [fld "task_id" (JStr (ta_TaskID p)); fld "description" (JStr (ta_Description p));
       fld_raw "parameters" (ta_Parameters p)].

Definition TaskStatusPayload_json (p : TaskStatusPayload) : json :=
  obj [fld "task_id" (JStr (ts_TaskID p)); fld "status" (JStr (ts_Status p));
       fld_str "detail" (ts_Detail p)].

Definition TaskResultPayload_json (p : TaskResultPayload) : json :=
  obj [fld "task_id" (JStr (tr_TaskID p)); fld "result" (default JNull (tr_Result p))].

(** ** What [json.Unmarshal] reads *)

(** A [[]T] that is still nil: [null] leaves it nil. *)
Definition dec_nil_slice {A} (dec : json -> option A) (_ : slice A) (j : json)
    : option (slice A) :=
  match j with JArr l => Some <$> mapM dec l | JNull => Some None | _ => None end.

Definition ScratchpadEntry_of (j : json) : option ScratchpadEntry :=
  kvs ← body_fields j;
  key ← field_from dec_string "" "key" kvs;
  value ← field_from dec_raw None "value" kvs;
  by_ ← field_from dec_string "" "updated_by" kvs;
  t ← field_from dec_time zeroTime "updated_at" kvs;
  Some (mkScratchpadEntry key value by_ t).

Definition AuthPayload_of (j : json) : option AuthPayload :=
  kvs ← body_fields j;
  sid ← field_from dec_string "" "session_id" kvs;
  aid ← field_from dec_string "" "agent_id" kvs;
  psk ← field_from dec_string "" "psk" kvs;
  caps ← field_from (dec_nil_slice (dec_string "")) None "capabilities" kvs;
  name ← field_from dec_string "" "session_name" kvs;
  Some (mkAuthPayload sid aid psk caps name).

Definition ScratchpadSetPayload_of (j : json) : option ScratchpadSetPayload :=
  kvs ← body_fields j;
  key ← field_from dec_string "" "key" kvs;
  value ← field_from dec_raw None "value" kvs;
  Some (mkScratchpadSetPayload key value).

Definition ScratchpadListResult_of (j : json) : option ScratchpadListResult :=
  kvs ← body_fields j;
  l ← field_from (dec_nil_slice ScratchpadEntry_of) None "entries" kvs;
  Some (mkScratchpadListResult l).

Definition LeaderTransferPayload_of (j : json) : option LeaderTransferPayload :=
  kvs ← body_fields j;
  id_ ← field_from dec_string "" "new_leader_id" kvs;
  Some (mkLeaderTransferPayload id_).

Definition HistoryRequestPayload_of (j : json) : option HistoryRequestPayload :=
  kvs ← body_fields j;
  after ← field_from dec_int64 0 "after_sequence" kvs;
  limit ← field_from dec_int64 0 "limit" kvs;
  Some (mkHistoryRequestPayload after limit).

Definition TaskAssignPayload_of (j : json) : option TaskAssignPayload :=
  kvs ← body_fields j;
  id_ ← field_from dec_string "" "task_id" kvs;
  descr ← field_from dec_string "" "description" kvs;
  params ← field_from dec_raw None "parameters" kvs;
  Some (mkTaskAssignPayload id_ descr params).

Definition TaskStatusPayload_of (j : json) : option TaskStatusPayload :=
  kvs ← body_fields j;
  id_ ← field_from dec_string "" "task_id" kvs;
  status ← field_from dec_string "" "status" kvs;
  detail ← field_from dec_string "" "detail" kvs;
  Some (mkTaskStatusPayload id_ status detail).

Definition TaskResultPayload_of (j : json) : option TaskResultPayload :=
  kvs ← body_fields j;
  id_ ← field_from dec_string "" "task_id" kvs;
  result ← field_from dec_raw None "result" kvs;
  Some (mkTaskResultPayload id_ result).

Definition FileSharePayload_of (j : json) : option FileSharePayload :=
  kvs ← body_fields j;
  id_ ← field_from dec_string "" "file_id" kvs;
  name ← field_from dec_string "" "file_name" kvs;
  ctype ← field_from dec_string "" "content_type" kvs;
  size ← field_from dec_int64 0 "size" kvs;
  sha ← field_from dec_string "" "sha256" kvs;
  descr ← field_from dec_string "" "description" kvs;
  Some (mkFileSharePayload id_ name ctype size sha descr).

(** ** What was written is read *)

(** A nil [json.RawMessage] is written as [null], which is read as the literal. *)
Definition spelled (v : option RawMessage) : option RawMessage := Some (default JNull v).
(** An empty slice is left out, and read as nil. *)
Definition unempty {A} (l : slice A) : slice A := match l with Some [] => None | _ => l end.
Definition spelled_entry (x : ScratchpadEntry) : ScratchpadEntry :=
  mkScratchpadEntry (Key x) (spelled (Value x)) (UpdatedBy x) (UpdatedAt x).

Definition spelled_entries (l : slice ScratchpadEntry) : slice ScratchpadEntry :=
  option_map (fmap spelled_entry) l.

Lemma mapM_dec {A B} (enc : A -> json) (dec : json -> option B) (f : A -> B) l :
  (forall x, dec (enc x) = Some (f x)) -> mapM dec (enc <$> l) = Some (f <$> l).
Proof. intros H. induction l as [|x l IH]; [done|]. cbn. by rewrite H, IH. Qed.

Lemma field_hit_strs k l name fs : lower k = name ->
  field_from (dec_nil_slice (dec_string "")) None name (omap id (fld_strs k l :: fs)) =
  field_from (dec_nil_slice (dec_string "")) (unempty l) name (omap id fs).
Proof.
  intros Hk. destruct l as [[|s l]|]; [done| |done].
  cbn [fld_strs]. apply (field_hit _ k (JArr (JStr <$> s :: l))); [done|].
  unfold dec_nil_slice. by rewrite (mapM_dec JStr (dec_string "") id), list_fmap_id.
Qed.

Lemma keyed_fld_strs k l : keyed_field k (fld_strs k l).
Proof. by destruct l as [[]|]. Qed.

(** One field of a struct just written, read. *)
Ltac read_written :=
  unfold obj; cbn [body_fields mbind option_bind];
  repeat (repeat first
    [ rewrite field_hit_strs by (vm_compute; reflexivity)
    | rewrite (field_skip _ _ _ _ _ _ (keyed_fld_strs _ _)) by (vm_compute; discriminate)
    | read_field ]; cbn [mbind option_bind]).

Lemma ScratchpadEntry_back x : ScratchpadEntry_of (ScratchpadEntry_json x) = Some (spelled_entry x).
Proof. destruct x. unfold ScratchpadEntry_of, ScratchpadEntry_json. read_written. done. Qed.

Lemma AuthPayload_back p : AuthPayload_of (AuthPayload_json p) =
  Some (mkAuthPayload (au_SessionID p) (au_AgentID p) (au_PSK p) (unempty (au_Capabilities p)) (au_SessionName p)).
Proof. destruct p. unfold AuthPayload_of, AuthPayload_json. read_written. done. Qed.

Lemma entries_back l : dec_nil_slice ScratchpadEntry_of None
    (match l with None => JNull | Some l => JArr (ScratchpadEntry_json <$> l) end) =
  Some (spelled_entries l).
Proof.
  destruct l as [l|]; [|done]. unfold dec_nil_slice.
  by rewrite (mapM_dec ScratchpadEntry_json ScratchpadEntry_of spelled_entry) by apply ScratchpadEntry_back.
Qed.

(** Every payload struct is read back from what it is written as: all fields of the wire
    structs survive, a nil raw message that is not omitted comes back as the literal null, an
    empty capability list comes back nil, and numbers do as long as they are int64s. *)
Theorem payloads_read_back :
  (forall p, AuthPayload_of (AuthPayload_json p) = Some (mkAuthPayload (au_SessionID p)
     (au_AgentID p) (au_PSK p) (unempty (au_Capabilities p)) (au_SessionName p))) /\
  (forall p, ScratchpadSetPayload_of (ScratchpadSetPayload_json p) =
     Some (mkScratchpadSetPayload (ss_Key p) (spelled (ss_Value p)))) /\
  (forall p, ScratchpadListResult_of (ScratchpadListResult_json p) =
     Some (mkScratchpadListResult (spelled_entries (sl_Entries p)))) /\
  (forall p, LeaderTransferPayload_of (LeaderTransferPayload_json p) = Some p) /\
  (forall p, in_int64 (hr_AfterSequence p) /\ in_int64 (hr_Limit p) ->
     HistoryRequestPayload_of (HistoryRequestPayload_json p) = Some p) /\
  (forall p, TaskAssignPayload_of (TaskAssignPayload_json p) = Some p) /\
  (forall p, TaskStatusPayload_of (TaskStatusPayload_json p) = Some p) /\
  (forall p, TaskResultPayload_of (TaskResultPayload_json p) =
     Some (mkTaskResultPayload (tr_TaskID p) (spelled (tr_Result p)))) /\
  (forall p, in_int64 (fs_Size p) ->
     FileSharePayload_of (FileSharePayload_json p) = Some p).
Proof.
  split; [exact AuthPayload_back|].
  repeat match goal with |- _ /\ _ => split end; intros p.
  - destruct p. unfold ScratchpadSetPayload_of, ScratchpadSetPayload_json. by read_written.
  - destruct p as [l]. unfold ScratchpadListResult_of, ScratchpadListResult_json. cbn [sl_Entries].
    pose proof (entries_back l) as Hl. by read_written.
  - destruct p. unfold LeaderTransferPayload_of, LeaderTransferPayload_json. by read_written.
  - destruct p. unfold in_int64, HistoryRequestPayload_of, HistoryRequestPayload_json.
    intros [Ha Hl]. cbn [hr_AfterSequence hr_Limit] in *. by read_written.
  - destruct p. unfold TaskAssignPayload_of, TaskAssignPayload_json. by read_written.
  - destruct p. unfold TaskStatusPayload_of, TaskStatusPayload_json. by read_written.
  - destruct p. unfold TaskResultPayload_of, TaskResultPayload_json. by read_written.
  - destruct p as [i n c z h d]. unfold in_int64, FileSharePayload_of, FileSharePayload_json. cbn [fs_Size].
    intros Hz. assert (dec_int64 0 (JInt z) = Some z) as Hs by (simpl; by rewrite bool_decide_eq_true_2).
    by read_written.
Qed.
