(* ===== verification/Leader.v ===== *)
(** * internal/leader: who leads each session

    [Tracker] is leader.go's map from session to leading agent; each method is one critical
    section of its mutex. *)

From S2P Require Import Prelude.

Record Tracker := mkTracker { leaders : gmap string string }.

Definition NewTracker : Tracker := mkTracker ∅.

Definition SetInitialLeader (sessionID creatorID : string) : Atom Tracker unit :=
  modify (fun t => mkTracker (<[sessionID := creatorID]> (leaders t))).

(** The pair [(id, ok)] of the source, [None] for [("", false)]. *)
Definition GetLeader (sessionID : string) : Atom Tracker (option string) :=
  gets (fun t => leaders t !! sessionID).

Definition Transfer (sessionID fromAgentID toAgentID : string) : Atom Tracker bool := fun t e =>
  match leaders t !! sessionID with
  | None => (false, t, e)
  | Some current =>
      if bool_decide (current <> fromAgentID) then (false, t, e)
      else (true, mkTracker (<[sessionID := toAgentID]> (leaders t)), e)
  end.

Definition ClearSession (sessionID : string) : Atom Tracker unit :=
  modify (fun t => mkTracker (delete sessionID (leaders t))).

Definition Snapshot : Atom Tracker (gmap string string) := gets leaders.

Definition Restore (ls : gmap string string) : Atom Tracker unit :=
  modify (fun _ => mkTracker ls).

Lemma leader_Transfer_wp sid a b (Q : bool -> Tracker -> Env -> Prop) t e :
  (leaders t !! sid = Some a -> Q true (mkTracker (<[sid := b]> (leaders t))) e) ->
  (leaders t !! sid <> Some a -> Q false t e) ->
  wpA (Transfer sid a b) Q t e.
Proof.
  intros H1 H2. unfold wpA, Transfer. destruct (leaders t !! sid) as [c|] eqn:E.
  - case_bool_decide; [apply H2; congruence|]. apply H1.
    destruct (decide (c = a)); naive_solver.
  - by apply H2.
Qed.

Lemma leader_Restore_Snapshot t e :
  wpA (Snapshot ≫= Restore) (fun _ t' e' => t' = t /\ e' = e) t e.
Proof. by destruct t. Qed.
