(* ===== verification/Scratchpad.v ===== *)
(** * internal/scratchpad: the shared key-value pads

    [Store] is scratchpad.go's map of maps with its per-session write counter. The inner maps
    hold pointers to entries that are never mutated after insertion, so entries are values.
    A session whose pad was never created differs from one whose pad is empty: [List] returns
    [nil] for the first and an empty slice for the second. *)

From S2P Require Import Prelude Json Protocol.

Record Store := mkStore {
  pads : gmap string (gmap string ScratchpadEntry);
  seq : gmap string Z;
}.

Definition NewStore : Store := mkStore ∅ ∅.

(** [s.seq[sessionID]++] *)
Definition bump (sessionID : string) (m : gmap string Z) : gmap string Z :=
  <[sessionID := int64 (default 0%Z (m !! sessionID) + 1)]> m.

Definition Set_ (sessionID key : string) (value : option RawMessage) (updatedBy : string)
    : Atom Store ScratchpadEntry :=
  t ← now;
  let entry := mkScratchpadEntry key value updatedBy t in
  modify (fun s => mkStore (insert2 sessionID key entry (pads s)) (bump sessionID (seq s))) ;;
  mret entry.

Definition Get (sessionID key : string) : Atom Store (option ScratchpadEntry) :=
  gets (fun s => lookup2 sessionID key (pads s)).

Definition Delete (sessionID key : string) : Atom Store bool := fun s e =>
  match pads s !! sessionID with
  | None => (false, s, e)
  | Some pad =>
      match pad !! key with
      | None => (false, s, e)
      | Some _ =>
          (true, mkStore (<[sessionID := delete key pad]> (pads s)) (bump sessionID (seq s)), e)
      end
  end.

Definition List_ (sessionID : string) : Atom Store (slice ScratchpadEntry) :=
  opad ← gets (fun s => pads s !! sessionID);
  match opad with
  | None => mret None
  | Some pad => kvs ← range (map_to_list pad); mret (Some (snd <$> kvs))
  end.

Definition ClearSession (sessionID : string) : Atom Store unit :=
  modify (fun s => mkStore (delete sessionID (pads s)) (delete sessionID (seq s))).

(** The pads as persistence copies them: each one's entries in the order of a [range]. *)
Fixpoint snapshot_pads (l : list (string * gmap string ScratchpadEntry))
    : Atom Store (gmap string (list ScratchpadEntry)) :=
  match l with
  | [] => mret ∅
  | (sid, pad) :: l' =>
      kvs ← range (map_to_list pad);
      out ← snapshot_pads l';
      mret (<[sid := snd <$> kvs]> out)
  end.

Definition Snapshot : Atom Store (gmap string (list ScratchpadEntry)) :=
  m ← gets pads; l ← range (map_to_list m); snapshot_pads l.

Definition pad_of (entries : list ScratchpadEntry) : gmap string ScratchpadEntry :=
  index_by Key entries.

(** [s.seq] is left as it was. *)
Definition Restore (m : gmap string (list ScratchpadEntry)) : Atom Store unit :=
  modify (fun s => mkStore (pad_of <$> m) (seq s)).

(** ** What the store holds under a session and key *)
Definition entry_at (s : Store) (sid key : string) : option ScratchpadEntry :=
  lookup2 sid key (pads s).

(** Every entry is filed under its own key: what [Set_] writes and [Restore] relies on. *)
Definition keyed (s : Store) : Prop :=
  forall sid pad, pads s !! sid = Some pad -> keyed_by Key pad.

Lemma scratchpad_Set_wp sid k v by_ (Q : ScratchpadEntry -> Store -> Env -> Prop) s e :
  (forall e', e ≼ e' ->
    let entry := mkScratchpadEntry k v by_ (clock e') in
    Q entry (mkStore (insert2 sid k entry (pads s)) (bump sid (seq s))) e') ->
  wpA (Set_ sid k v by_) Q s e.
Proof.
  intros H. apply wpA_bind, wpA_now. intros e' He.
  apply wpA_bind, wpA_modify, wpA_ret. by apply H.
Qed.

Lemma scratchpad_Delete_wp sid k (Q : bool -> Store -> Env -> Prop) s e :
  (entry_at s sid k = None -> Q false s e) ->
  (forall pad entry, pads s !! sid = Some pad -> pad !! k = Some entry ->
     Q true (mkStore (<[sid := delete k pad]> (pads s)) (bump sid (seq s))) e) ->
  wpA (Delete sid k) Q s e.
Proof.
  unfold entry_at, lookup2, wpA, Delete. intros HN HS.
  destruct (pads s !! sid) as [pad|] eqn:E; simpl in *; [|by apply HN].
  destruct (pad !! k) eqn:E'; [by eapply HS|by apply HN].
Qed.

(** The pads are maps: a write is what the next read of that session and key returns, a
    delete makes it absent and reports whether it was there, and neither affects any other
    session or key. *)
Theorem scratchpad_is_map sid k v by_ s e :
  wpA (Set_ sid k v by_) (fun entry s' e' =>
    Key entry = k /\ Value entry = v /\ UpdatedBy entry = by_ /\ clock e <= UpdatedAt entry <= clock e' /\
    (forall sid' k', wpA (Get sid' k') (fun r _ _ =>
       r = if decide (sid = sid' /\ k = k') then Some entry else entry_at s sid' k') s' e') /\
    wpA (Delete sid k) (fun ok s'' _ => ok = true /\
       forall sid' k', entry_at s'' sid' k' =
         if decide (sid = sid' /\ k = k') then None else entry_at s sid' k') s' e')%Z s e.
Proof.
  apply scratchpad_Set_wp. intros e' He entry. repeat (split; [done|]). split.
  - intros sid' k'. unfold Get. wps. simpl. apply lookup2_insert2.
  - apply scratchpad_Delete_wp.
    + unfold entry_at. simpl. by rewrite lookup2_insert2, decide_True.
    + intros pad entry' Hpad Hk. split; [done|]. intros sid' k'. unfold entry_at. simpl in *.
      rewrite (lookup2_delete2 _ _ pad) by done. rewrite lookup2_insert2. by case_decide.
Qed.
