(* ===== verification/Auth.v ===== *)
(** * internal/auth: pre-shared keys *)

From S2P Require Import Prelude.

Definition GeneratePSK {S} : Atom S string :=
  b ← rand_read 32; mret (hex_encode b).

Lemma auth_GeneratePSK_wp {S} (Q : string -> S -> Env -> Prop) s e :
  (forall psk e', String.length psk = 64 -> plain psk -> e ≼ e' -> Q psk s e') ->
  wpA GeneratePSK Q s e.
Proof.
  intros H. apply wpA_bind, wpA_rand. intros bs e' Hlen He. apply wpA_ret, H.
  - rewrite length_hex_encode. lia.
  - apply hex_encode_plain.
  - done.
Qed.
