(* ===== verification/Session.v ===== *)
(** * internal/session: sessions and their pre-shared keys

    [Store] is session.go's map from ID to session; each method is one critical section. The
    only field ever written after insertion is [LastActive], under the lock, so the pointers
    the methods return are read as values. *)

From S2P Require Import Prelude Auth.

#[local] Open Scope Z_scope.

Record Session := mkSession {
  ID : string;
  Name : string;
  PSK : string;
  CreatedAt : Time;
  LastActive : Time;
}.

Record Store := mkStore { sessions : gmap string Session }.

Definition NewStore : Store := mkStore ∅.

Definition generateID {S} : Atom S string :=
  b ← rand_read 16; mret (hex_encode b).

Definition Create (name : string) : Atom Store Session :=
  id_ ← generateID;
  n ← now;
  psk ← GeneratePSK;
  let sess := mkSession id_ name psk n n in
  modify (fun s => mkStore (<[id_ := sess]> (sessions s))) ;;
  mret sess.

Definition Get (id_ : string) : Atom Store (option Session) :=
  gets (fun s => sessions s !! id_).

Definition Delete (id_ : string) : Atom Store bool := fun s e =>
  match sessions s !! id_ with
  | None => (false, s, e)
  | Some _ => (true, mkStore (delete id_ (sessions s)), e)
  end.

Definition ValidatePSK (sessionID psk : string) : Atom Store (option Session) :=
  gets (fun s =>
    match sessions s !! sessionID with
    | None => None
    | Some sess => if bool_decide (PSK sess <> psk) then None else Some sess
    end).

(** Returns [(session, created)]; the error of the source is always [nil]. A new session's
    [LastActive] is the zero time. *)
Definition GetOrCreate (sessionID psk name : string) : Atom Store (option Session * bool) :=
  found ← gets (fun s => sessions s !! sessionID);
  match found with
  | Some sess =>
      if bool_decide (PSK sess <> psk) then mret (None, false) else mret (Some sess, false)
  | None =>
      n ← now;
      let name := if bool_decide (name = "") then sessionID else name in
      let sess := mkSession sessionID name psk n zeroTime in
      modify (fun s => mkStore (<[sessionID := sess]> (sessions s))) ;;
      mret (Some sess, true)
  end.

(** [sess.LastActive = at] *)
Definition with_LastActive (t : Time) (sess : Session) : Session :=
  mkSession (ID sess) (Name sess) (PSK sess) (CreatedAt sess) t.

Definition TouchActivity (sessionID : string) (at_ : Time) : Atom Store bool := fun s e =>
  match sessions s !! sessionID with
  | None => (false, s, e)
  | Some sess =>
      let sess' := if LastActive sess <? at_ then with_LastActive at_ sess else sess in
      (true, mkStore (<[sessionID := sess']> (sessions s)), e)
  end.

Definition Snapshot : Atom Store (list Session) :=
  m ← gets sessions; kvs ← range (map_to_list m); mret (snd <$> kvs).

Definition Restore (l : list Session) : Atom Store unit :=
  modify (fun _ => mkStore (index_by ID l)).

(** ** Specifications *)

(** Every session is filed under its own ID. *)
Definition keyed (s : Store) : Prop :=
  keyed_by ID (sessions s).

Lemma session_generateID_wp {S} (Q : string -> S -> Env -> Prop) s e :
  (forall id_ e', plain id_ -> String.length id_ = 32%nat -> e ≼ e' -> Q id_ s e') ->
  wpA generateID Q s e.
Proof.
  intros H. apply wpA_bind, wpA_rand. intros bs e' Hlen He. apply wpA_ret, H; [| |done].
  - apply hex_encode_plain.
  - rewrite length_hex_encode. lia.
Qed.

Lemma session_Create_wp name (Q : Session -> Store -> Env -> Prop) s e :
  (forall id_ psk t e', plain id_ -> String.length id_ = 32%nat -> String.length psk = 64%nat ->
     clock e <= t <= clock e' ->
     let sess := mkSession id_ name psk t t in
     Q sess (mkStore (<[id_ := sess]> (sessions s))) e') ->
  wpA (Create name) Q s e.
Proof.
  intros H. apply wpA_bind, session_generateID_wp. intros id_ e1 Hp Hl He1.
  apply wpA_bind, wpA_now. intros e2 He2.
  apply wpA_bind, auth_GeneratePSK_wp. intros psk e3 Hpsk _ He3.
  apply wpA_bind, wpA_modify, wpA_ret, H; auto. unfold env_le in *. lia.
Qed.

(** Where a new session's ID and key come from: the next sixteen random bytes and the thirty-two
    after them, and no later draw gives any of these again. *)
Definition new_ID (e : Env) : string := hex_encode (drawn 0 16 e).
Definition new_PSK (e : Env) : string := hex_encode (drawn 16 32 e).

Lemma session_Create_random name (Q : Session -> Store -> Env -> Prop) s e :
  (forall t e', clock e <= t <= clock e' -> entropy e' = drop 48 (entropy e) ->
     let sess := mkSession (new_ID e) name (new_PSK e) t t in
     Q sess (mkStore (<[new_ID e := sess]> (sessions s))) e') ->
  wpA (Create name) Q s e.
Proof.
  intros H. unfold Create, generateID, GeneratePSK. apply wpA_bind, wpA_bind, wpA_drawn.
  intros e1 He1 Hb1. apply wpA_ret, wpA_bind, wpA_now_entropy. intros e2 He2 Hb2.
  apply wpA_bind, wpA_bind, wpA_drawn. intros e3 He3 Hb3. apply wpA_ret, wpA_bind, wpA_modify, wpA_ret.
  assert (drawn 0 32 e2 = drawn 16 32 e) as -> by (unfold drawn; by rewrite Hb2, Hb1).
  apply H; [unfold env_le in *; lia|]. by rewrite Hb3, Hb2, Hb1, drop_drop.
Qed.

Lemma session_Delete_wp id_ (Q : bool -> Store -> Env -> Prop) s e :
  (sessions s !! id_ = None -> Q false s e) ->
  (is_Some (sessions s !! id_) -> Q true (mkStore (delete id_ (sessions s))) e) ->
  wpA (Delete id_) Q s e.
Proof. unfold wpA, Delete. destruct (sessions s !! id_); eauto. Qed.

Lemma session_TouchActivity_wp sid t (Q : bool -> Store -> Env -> Prop) s e :
  (sessions s !! sid = None -> Q false s e) ->
  (forall sess, sessions s !! sid = Some sess ->
     Q true (mkStore (<[sid := with_LastActive (Z.max (LastActive sess) t) sess]> (sessions s))) e) ->
  wpA (TouchActivity sid t) Q s e.
Proof.
  unfold wpA, TouchActivity. intros HN HS. destruct (sessions s !! sid) as [sess|]; [|auto].
  specialize (HS sess eq_refl). destruct (Z.ltb_spec (LastActive sess) t).
  - by rewrite Z.max_r in HS by lia.
  - rewrite Z.max_l in HS by lia. by destruct sess.
Qed.

Lemma session_GetOrCreate_wp sid psk name (Q : option Session * bool -> Store -> Env -> Prop) s e :
  (forall sess, sessions s !! sid = Some sess -> PSK sess <> psk -> Q (None, false) s e) ->
  (forall sess, sessions s !! sid = Some sess -> PSK sess = psk -> Q (Some sess, false) s e) ->
  (forall e', sessions s !! sid = None -> e ≼ e' ->
     let sess := mkSession sid (if bool_decide (name = "") then sid else name) psk
                   (clock e') zeroTime in
     Q (Some sess, true) (mkStore (<[sid := sess]> (sessions s))) e') ->
  wpA (GetOrCreate sid psk name) Q s e.
Proof.
  intros Hbad Hok Hnew. apply wpA_bind, wpA_gets.
  destruct (sessions s !! sid) as [sess|] eqn:E.
  - clear Hnew. case_bool_decide as Hp; apply wpA_ret; [by eapply Hbad|].
    eapply Hok; [done|]. by destruct (decide (PSK sess = psk)).
  - apply wpA_bind, wpA_now. intros e' He. apply wpA_bind, wpA_modify, wpA_ret. by apply Hnew.
Qed.

Lemma session_Snapshot_wp (Q : list Session -> Store -> Env -> Prop) s e :
  (forall l e', l ≡ₚ (map_to_list (sessions s)).*2 -> e ≼ e' -> Q l s e') ->
  wpA Snapshot Q s e.
Proof.
  intros H. apply wpA_bind, wpA_gets, wpA_bind, wpA_range. intros kvs e' Hp He.
  apply wpA_ret, H; [|done]. by rewrite Hp.
Qed.

(** Recording activity never moves a session's last activity back, changes nothing else
    of it and no other session, and reports whether the session exists. *)
Theorem activity_monotone sid t s e :
  wpA (TouchActivity sid t) (fun ok s' e' => e' = e /\
    ok = bool_decide (is_Some (sessions s !! sid)) /\
    forall k, match sessions s !! k, sessions s' !! k with
      | Some old, Some new => ID new = ID old /\ Name new = Name old /\ PSK new = PSK old /\
          CreatedAt new = CreatedAt old /\
          LastActive new = (if bool_decide (k = sid) then Z.max (LastActive old) t
                            else LastActive old)
      | None, None => True
      | _, _ => False
      end) s e.
Proof.
  apply session_TouchActivity_wp.
  - intros Hn. split; [done|]. split; [by rewrite Hn|]. intros k.
    destruct (sessions s !! k) eqn:E; [|done]. rewrite bool_decide_eq_false_2 by congruence. done.
  - intros sess Hs. split; [done|]. split; [by rewrite Hs|]. intros k. simpl.
    destruct (decide (sid = k)) as [<-|Hne].
    + rewrite Hs, lookup_insert_eq. simpl. by rewrite bool_decide_eq_true_2.
    + rewrite lookup_insert_ne by done. destruct (sessions s !! k); [|done].
      rewrite bool_decide_eq_false_2 by congruence. done.
Qed.
