(* ===== verification/Sha256.v ===== *)
(** * crypto/sha256

    The digest the file store keeps with every file (FIPS 180-4), on 32-bit words in [N]; the
    two published test vectors below check it. *)

From S2P Require Import Prelude.

#[local] Open Scope N_scope.

Definition mask32 : N := 2 ^ 32 - 1.
Definition add32 (a b : N) : N := N.land (a + b) mask32.
Definition rotr (n x : N) : N :=
  N.land (N.lor (N.shiftr x n) (N.shiftl x (32 - n))) mask32.
Definition not32 (x : N) : N := N.lxor x mask32.

(** The greatest [r] with [r ^ k <= n], found bit by bit. *)
Fixpoint root_bits (k n : N) (bits : nat) (r : N) : N :=
  match bits with
  | O => r
  | S i => let r' := N.setbit r (N.of_nat i) in
           root_bits k n i (if r' ^ k <=? n then r' else r)
  end.

(** The first 32 bits of the fractional part of the [k]-th root of [p]. *)
Definition root_frac (k p : N) : N := N.land (root_bits k (N.shiftl p (32 * k)) 40 0) mask32.

Definition is_prime (n : nat) : bool :=
  forallb (fun d => negb (Nat.eqb (Nat.modulo n d) 0)) (seq 2 (n - 2)).
(** The first 64 primes: 2 to 311. *)
Definition primes : list N := N.of_nat <$> List.filter is_prime (seq 2 310).

(** The standard's constants, by its own definition of them. *)
Definition K : list N := Eval vm_compute in root_frac 3 <$> primes.
Definition H0 : list N := Eval vm_compute in root_frac 2 <$> take 8 primes.

(** [n] as [k] bytes, big-endian. *)
Fixpoint be_bytes (k : nat) (n : N) : list N :=
  match k with
  | O => []
  | S k' => N.land (N.shiftr n (8 * N.of_nat k')) 255 :: be_bytes k' n
  end.

Definition pad (msg : list N) : list N :=
  let zeros := (119 - Nat.modulo (length msg) 64)%nat in
  msg ++ [128] ++ replicate (Nat.modulo zeros 64) 0 ++ be_bytes 8 (8 * N.of_nat (length msg)).

Definition be_word (bs : list N) : N := foldl (fun acc b => N.lor (N.shiftl acc 8) b) 0 bs.

Fixpoint words (fuel : nat) (bs : list N) : list N :=
  match fuel with
  | O => []
  | S fuel' => be_word (take 4 bs) :: words fuel' (drop 4 bs)
  end.

(** The message schedule, kept in reverse. *)
Fixpoint schedule (fuel : nat) (w : list N) : list N :=
  match fuel with
  | O => w
  | S fuel' =>
      let g i := nth i w 0 in
      let s0 := N.lxor (N.lxor (rotr 7 (g 14%nat)) (rotr 18 (g 14%nat))) (N.shiftr (g 14%nat) 3) in
      let s1 := N.lxor (N.lxor (rotr 17 (g 1%nat)) (rotr 19 (g 1%nat))) (N.shiftr (g 1%nat) 10) in
      schedule fuel' (add32 (add32 (g 15%nat) s0) (add32 (g 6%nat) s1) :: w)
  end.

Definition round (st : list N) (kw : N * N) : list N :=
  match st with
  | [a; b; c; d; e; f; g; h] =>
      let S1 := N.lxor (N.lxor (rotr 6 e) (rotr 11 e)) (rotr 25 e) in
      let ch := N.lxor (N.land e f) (N.land (not32 e) g) in
      let t1 := add32 (add32 h S1) (add32 ch (add32 kw.1 kw.2)) in
      let S0 := N.lxor (N.lxor (rotr 2 a) (rotr 13 a)) (rotr 22 a) in
      let maj := N.lxor (N.lxor (N.land a b) (N.land a c)) (N.land b c) in
      [add32 t1 (add32 S0 maj); a; b; c; add32 d t1; e; f; g]
  | _ => st
  end.

Definition block (h : list N) (bs : list N) : list N :=
  let w := rev (schedule 48 (rev (words 16 bs))) in
  zip_with add32 h (foldl round h (zip K w)).

Fixpoint blocks (fuel : nat) (h bs : list N) : list N :=
  match fuel with
  | O => h
  | S fuel' => match bs with [] => h | _ => blocks fuel' (block h (take 64 bs)) (drop 64 bs) end
  end.

Definition byte_of (n : N) : byte := default x00 (Byte.of_N n).

(** [sha256.Sum256]; one unit of fuel per 64-byte block, which [length] bounds. *)
Definition Sum256 (b : list byte) : list byte :=
  let p := pad (Byte.to_N <$> b) in
  byte_of <$> mjoin (be_bytes 4 <$> blocks (S (length p)) H0 p).

Definition bytes_of_string (s : string) : list byte :=
  String.list_byte_of_string s.

Example sha256_empty :
  hex_encode (Sum256 []) = "e3b0c44298fc1c149afbf4c8996fb92427ae41e4649b934ca495991b7852b855".
Proof. vm_compute. reflexivity. Qed.

Example sha256_abc :
  hex_encode (Sum256 (bytes_of_string "abc")) =
  "ba7816bf8f01cfea414140de5dae2223b00361a396177a9cb410ff61f20015ad".
Proof. vm_compute. reflexivity. Qed.
