(* ===== verification/Filestore.v ===== *)
(** * internal/filestore: shared files

    [Store] is store.go's map of maps with the upload size limit. Files are never mutated, so
    the pointers the methods return are read as values. *)

From S2P Require Import Prelude Sha256.

#[local] Open Scope Z_scope.

Definition sha256Hex (b : list byte) : string := hex_encode (Sum256 b).

Record File := mkFile {
  ID : string;
  Name : string;
  ContentType : string;
  Size : Z;
  Sha256 : string;
  Data : list byte;
  UploadedBy : string;
  UploadedAt : Time;
}.

Record Store := mkStore {
  files : gmap string (gmap string File);
  maxSize : Z;
}.

Definition ErrFileTooLarge : string := "file exceeds maximum allowed size".

Definition NewStore (maxFileSize : Z) : Store := mkStore ∅ maxFileSize.

Definition MaxSize (s : Store) : Z := maxSize s.

Definition generateID {S} : Atom S string :=
  b ← rand_read 16; mret (hex_encode b).

Definition Store_ (sessionID filename contentType uploadedBy : string) (data : list byte)
    : Atom Store (result File) :=
  tooBig ← gets (fun s => bool_decide (maxSize s < Z.of_nat (length data)));
  if (tooBig : bool) then mret (Err ErrFileTooLarge)
  else
    id_ ← generateID;
    n ← now;
    let f := mkFile id_ filename contentType (Z.of_nat (length data)) (sha256Hex data) data
               uploadedBy n in
    modify (fun s => mkStore (insert2 sessionID id_ f (files s)) (maxSize s)) ;;
    mret (Ok f).

Definition Get (sessionID fileID : string) : Atom Store (option File) :=
  gets (fun s => lookup2 sessionID fileID (files s)).

Definition Delete (sessionID fileID : string) : Atom Store bool := fun s e =>
  match files s !! sessionID with
  | None => (false, s, e)
  | Some m =>
      match m !! fileID with
      | None => (false, s, e)
      | Some _ =>
          (true, mkStore (<[sessionID := delete fileID m]> (files s)) (maxSize s), e)
      end
  end.

(** The copy [List] returns: no data and no digest. *)
Definition listed (f : File) : File :=
  mkFile (ID f) (Name f) (ContentType f) (Size f) "" [] (UploadedBy f) (UploadedAt f).

Definition List_ (sessionID : string) : Atom Store (slice File) :=
  om ← gets (fun s => files s !! sessionID);
  match om with
  | None => mret None
  | Some m => kvs ← range (map_to_list m); mret (Some ((fun kv => listed kv.2) <$> kvs))
  end.

Definition ClearSession (sessionID : string) : Atom Store unit :=
  modify (fun s => mkStore (delete sessionID (files s)) (maxSize s)).

Definition file_at (s : Store) (sid fid : string) : option File :=
  lookup2 sid fid (files s).

(** Every stored file is within the limit, and its size and digest are those of its data. *)
Definition intact (s : Store) : Prop :=
  forall sid fid f, file_at s sid fid = Some f ->
    ID f = fid /\ Size f = Z.of_nat (length (Data f)) /\ Size f <= maxSize s /\
    Sha256 f = sha256Hex (Data f).

Lemma filestore_Store_wp sid name ct by_ data (Q : result File -> Store -> Env -> Prop) s e :
  (maxSize s < Z.of_nat (length data) -> Q (Err ErrFileTooLarge) s e) ->
  (forall id_ e', Z.of_nat (length data) <= maxSize s ->
     (exists bs, length bs = 16%nat /\ id_ = hex_encode bs) -> e ≼ e' ->
     let f := mkFile id_ name ct (Z.of_nat (length data)) (sha256Hex data) data by_ (clock e') in
     Q (Ok f) (mkStore (insert2 sid id_ f (files s)) (maxSize s)) e') ->
  wpA (Store_ sid name ct by_ data) Q s e.
Proof.
  intros Hbig Hok. apply wpA_bind, wpA_gets. case_bool_decide.
  - by apply wpA_ret, Hbig.
  - apply wpA_bind, wpA_bind, wpA_rand. intros bs e1 Hbs He1. apply wpA_ret.
    apply wpA_bind, wpA_now. intros e2 He2. apply wpA_bind, wpA_modify, wpA_ret.
    apply Hok; [lia|by exists bs|by trans e1].
Qed.

(** A file within the size limit is stored under a fresh random ID and reads back byte for
    byte, with its size and the SHA-256 digest of its data, leaving the files under every other
    ID as they were; a larger one is refused and nothing changes. *)
Theorem store_then_get sid fn ct by_ data s e :
  wpA (Store_ sid fn ct by_ data) (fun r s' e' =>
    match r with
    | Err msg => maxSize s < Z.of_nat (length data) /\ msg = ErrFileTooLarge /\ s' = s
    | Ok f => Z.of_nat (length data) <= maxSize s /\ String.length (ID f) = 32%nat /\
        Data f = data /\ Size f = Z.of_nat (length data) /\ Sha256 f = hex_encode (Sum256 data) /\
        Name f = fn /\ ContentType f = ct /\ UploadedBy f = by_ /\
        wpA (Get sid (ID f)) (fun g s2 _ => g = Some f /\ s2 = s') s' e' /\
        forall sid' id_, (sid', id_) <> (sid, ID f) -> file_at s' sid' id_ = file_at s sid' id_
    end) s e.
Proof.
  unfold Store_. wps. case_bool_decide as Hbig; wps; [done|].
  unfold generateID. wps. apply wpA_rand. intros bs e1 Hlen He1. wp_now e2 He2.
  split; [lia|]. cbn [ID Data Size Sha256 Name ContentType UploadedBy].
  rewrite length_hex_encode, Hlen. repeat (split; [done|]). split.
  - unfold Get. wps. simpl. by rewrite lookup2_insert2, decide_True.
  - intros sid' id_ Hne. unfold file_at. simpl. rewrite lookup2_insert2, decide_False; [done|].
    intros [<- <-]. done.
Qed.
