(* ===== verification/Presence.v ===== *)
(** * internal/presence: who has been seen in each session, and when

    [Tracker] is presence.go's map from "session/agent" to the agent's state. [Touch],
    [IsPresent], [WasPresent], [GetAgents], [Remove], [SetForgetAfter], [ClearSession] and the
    locked part of [sweep] are critical sections of the tracker's mutex; the callbacks of a
    sweep run after the lock is released. The [AgentState] pointers a sweep collects are read
    as values: only [SessionID] and [AgentID], which never change, and the capabilities of
    removed states, which nothing can reach any more, are used after the lock is released. *)

From S2P Require Import Prelude Protocol.

#[local] Open Scope Z_scope.

Definition defaultTTL : Duration := 60 * second.
Definition defaultForgetAfter : Duration := 24 * hour.

Record AgentState := mkAgentState {
  AgentID : string;
  SessionID : string;
  Capabilities : slice string;
  LastSeen : Time;
  Expired : bool;
}.

Record Tracker := mkTracker {
  agents : gmap string AgentState;
  ttl : Duration;
  forgetAfter : Duration;
}.

Definition NewTracker (t : Duration) : Tracker :=
  mkTracker ∅ (if t <=? 0 then defaultTTL else t) defaultForgetAfter.

Definition set_agents (f : gmap string AgentState -> gmap string AgentState) (t : Tracker)
    : Tracker := mkTracker (f (agents t)) (ttl t) (forgetAfter t).

Definition agentKey (sessionID agentID : string) : string := join_key sessionID agentID.

Definition isLive (state : AgentState) : Atom Tracker bool :=
  t ← gets ttl; d ← since (LastSeen state); mret (d <? t).

Definition with_LastSeen (caps : slice string) (t : Time) (st : AgentState) : AgentState :=
  mkAgentState (AgentID st) (SessionID st)
    (match caps with Some _ => caps | None => Capabilities st end) t false.

Definition Touch (sessionID agentID : string) (capabilities : slice string)
    : Atom Tracker bool :=
  let key := agentKey sessionID agentID in
  found ← gets (fun t => agents t !! key);
  let state := default (mkAgentState agentID sessionID None zeroTime false) found in
  n ← now;
  modify (set_agents (insert key (with_LastSeen capabilities n state))) ;;
  mret (bool_decide (found = None)).

Definition IsPresent (sessionID agentID : string) : Atom Tracker bool :=
  found ← gets (fun t => agents t !! agentKey sessionID agentID);
  match found with
  | None => mret false
  | Some state => isLive state
  end.

Definition WasPresent (sessionID agentID : string) : Atom Tracker bool :=
  gets (fun t =>
    match agents t !! agentKey sessionID agentID with
    | None => false
    | Some state => bool_decide (SessionID state = sessionID)
    end).

Definition agent_info (sessionID : string) (state : AgentState)
    : Atom Tracker (option AgentInfo) :=
  if bool_decide (SessionID state <> sessionID) then mret None
  else
    online ← isLive state;
    mret (Some (mkAgentInfo (AgentID state) (Capabilities state) online)).

Definition GetAgents (sessionID : string) : Atom Tracker (slice AgentInfo) :=
  m ← gets agents;
  kvs ← range (map_to_list m);
  infos ← collectA (agent_info sessionID) (kvs.*2);
  mret (to_slice infos).

Definition Remove (sessionID agentID : string) : Atom Tracker unit :=
  modify (set_agents (delete (agentKey sessionID agentID))).

Definition SetForgetAfter (d : Duration) : Atom Tracker unit :=
  modify (fun t => mkTracker (agents t) (ttl t) d).

(** One iteration of the sweep's loop over [expired] and [forgotten]. *)
Definition sweep_one (acc : list AgentState * list AgentState) (kv : string * AgentState)
    : Atom Tracker (list AgentState * list AgentState) :=
  let '(key, state) := kv in
  let '(expired, forgotten) := acc in
  live ← (if Expired state then mret true else isLive state);
  let lapsed := negb (Expired state) && negb live in
  let state' := if lapsed then mkAgentState (AgentID state) (SessionID state)
                                (Capabilities state) (LastSeen state) true else state in
  let expired' := if lapsed then expired ++ [state'] else expired in
  modify (set_agents (insert key state')) ;;
  f ← gets forgetAfter;
  gone ← (if Expired state' then d ← since (LastSeen state'); mret (f <=? d)%Z else mret false);
  if (gone : bool) then
    modify (set_agents (delete key)) ;; mret (expired', forgotten ++ [state'])
  else mret (expired', forgotten).

Definition sweep_locked : Atom Tracker (list AgentState * list AgentState) :=
  m ← gets agents;
  kvs ← range (map_to_list m);
  foldA sweep_one ([], []) kvs.

Definition sweep {W} (L : Lens W Tracker)
    (onExpire onForget : string -> string -> slice string -> prog W unit) : prog W unit :=
  '(expired, forgotten) ← ⟨L⟩ sweep_locked;
  for_each expired (fun st => onExpire (SessionID st) (AgentID st) (Capabilities st)) ;;
  for_each forgotten (fun st => onForget (SessionID st) (AgentID st) (Capabilities st)).

Definition ClearSession (sessionID : string) : Atom Tracker unit :=
  modify (set_agents (filter (fun '(_, state) => SessionID state <> sessionID))).

(** ** What the tracker holds *)

(** Every state is filed under the key of its own session and agent. *)
Definition keyed (t : Tracker) : Prop :=
  forall k st, agents t !! k = Some st -> k = agentKey (SessionID st) (AgentID st).

(** The agent is on the session's roster, online or not. *)
Definition member (t : Tracker) (sid aid : string) : Prop :=
  exists st, agents t !! agentKey sid aid = Some st /\ SessionID st = sid /\ AgentID st = aid.

#[export] Instance member_dec t sid aid : Decision (member t sid aid).
Proof.
  unfold member. destruct (agents t !! agentKey sid aid) as [st|].
  - destruct (decide (SessionID st = sid /\ AgentID st = aid)) as [H|H].
    + left. by exists st.
    + right. naive_solver.
  - right. naive_solver.
Defined.

(** The states of a session's members. *)
Definition states_of (t : Tracker) (sid : string) : list AgentState :=
  filter (fun st => SessionID st = sid) (map_to_list (agents t)).*2.

(** The agent was seen less than the TTL before some instant between [e] and [e']. *)
Definition live_between (t : Tracker) (e e' : Env) (st : AgentState) (b : bool) : Prop :=
  exists n, clock e <= n <= clock e' /\ b = (n - LastSeen st <? ttl t).

Definition info_of (t : Tracker) (e e' : Env) (st : AgentState) (i : AgentInfo) : Prop :=
  info_AgentID i = AgentID st /\ info_Capabilities i = Capabilities st /\
  live_between t e e' st (Online i).

(** A roster listing: one entry per member, in some order. *)
Definition roster (t : Tracker) (sid : string) (e e' : Env) (infos : list AgentInfo) : Prop :=
  exists sts, sts ≡ₚ states_of t sid /\ Forall2 (info_of t e e') sts infos.

Lemma presence_isLive_wp st (Q : bool -> Tracker -> Env -> Prop) t e :
  (forall e', e ≼ e' -> Q (clock e' - LastSeen st <? ttl t) t e') -> wpA (isLive st) Q t e.
Proof.
  intros H. apply wpA_bind, wpA_gets, wpA_bind, wpA_since. intros e' He. by apply wpA_ret, H.
Qed.

Definition touched (sid aid : string) (caps : slice string) (n : Time) (t : Tracker) : Tracker :=
  set_agents (insert (agentKey sid aid)
    (with_LastSeen caps n
       (default (mkAgentState aid sid None zeroTime false) (agents t !! agentKey sid aid)))) t.

Lemma presence_Touch_spends sid aid caps (Q : bool -> Tracker -> Env -> Prop) t e :
  (forall e', spends 0 1 e e' ->
     Q (bool_decide (agents t !! agentKey sid aid = None)) (touched sid aid caps (clock e') t) e') ->
  wpA (Touch sid aid caps) Q t e.
Proof.
  intros H. apply wpA_bind, wpA_gets, wpA_bind, wpA_now_spends. intros e' He.
  by apply wpA_bind, wpA_modify, wpA_ret, H.
Qed.

Lemma presence_Touch_wp sid aid caps (Q : bool -> Tracker -> Env -> Prop) t e :
  (forall e', e ≼ e' ->
     Q (bool_decide (agents t !! agentKey sid aid = None)) (touched sid aid caps (clock e') t) e') ->
  wpA (Touch sid aid caps) Q t e.
Proof. intros H. apply presence_Touch_spends. intros e' [He _]. by apply H. Qed.

Lemma presence_IsPresent_wp sid aid (Q : bool -> Tracker -> Env -> Prop) t e :
  (agents t !! agentKey sid aid = None -> Q false t e) ->
  (forall st e', agents t !! agentKey sid aid = Some st -> e ≼ e' ->
     Q (clock e' - LastSeen st <? ttl t) t e') ->
  wpA (IsPresent sid aid) Q t e.
Proof.
  intros HN HS. apply wpA_bind, wpA_gets. destruct (agents t !! _) as [st|].
  - apply presence_isLive_wp. intros. by apply HS.
  - by apply wpA_ret, HN.
Qed.

Lemma presence_WasPresent_wp sid aid (Q : bool -> Tracker -> Env -> Prop) t e :
  (forall b, (b = true <-> exists st, agents t !! agentKey sid aid = Some st /\
                                      SessionID st = sid) -> Q b t e) ->
  wpA (WasPresent sid aid) Q t e.
Proof.
  intros H. apply wpA_gets, H. destruct (agents t !! _) as [st|].
  - rewrite bool_decide_eq_true. naive_solver.
  - naive_solver.
Qed.

Lemma presence_GetAgents_wp sid (Q : slice AgentInfo -> Tracker -> Env -> Prop) t e :
  (forall infos e', e ≼ e' -> roster t sid e e' infos -> Q (to_slice infos) t e') ->
  wpA (GetAgents sid) Q t e.
Proof.
  intros H. apply wpA_bind, wpA_gets, wpA_bind, wpA_range. intros kvs e1 Hp He1.
  apply wpA_bind. apply wpA_collect with (R := fun st o e2 =>
    match o with
    | None => SessionID st <> sid
    | Some i => SessionID st = sid /\ info_of t e1 e2 st i
    end).
  - intros st [i|] e2 e3; [|done]. intros (? & ? & ? & n & Hn & ?) He.
    split; [done|]. repeat split; auto. exists n. unfold env_le in He. split; [lia|done].
  - intros st e2 He2. unfold agent_info. case_bool_decide as Hs.
    + apply wpA_ret. done.
    + apply wpA_bind, presence_isLive_wp. intros e3 He3. apply wpA_ret.
      split; [done|]. split; [done|]. split; [by destruct (decide (SessionID st = sid))|].
      repeat split. exists (clock e3). unfold env_le in *. split; [lia|done].
  - intros os e' He' HF. apply wpA_ret, H; [by trans e1|].
    exists (filter (fun st => SessionID st = sid) (kvs.*2)). split; [unfold states_of; by rewrite Hp|].
    clear Hp H. revert os HF. induction (kvs.*2) as [|st l IH]; intros os HF;
      inversion HF as [|? o ? os' Ho HF']; subst; [constructor|].
    rewrite filter_cons. destruct o as [i|]; simpl.
    + destruct Ho as [Hs Hi]. rewrite decide_True by done. constructor; [|by apply IH].
      destruct Hi as (? & ? & n & ? & ?). repeat split; auto. exists n. unfold env_le in *.
      split; [lia|done].
    + rewrite decide_False by done. by apply IH.
Qed.

Lemma elem_of_states_of t sid st :
  st ∈ states_of t sid <-> SessionID st = sid /\ exists k, agents t !! k = Some st.
Proof.
  unfold states_of. rewrite list_elem_of_filter, list_elem_of_fmap. split.
  - intros [Hs [[k st'] [-> Hk%elem_of_map_to_list]]]. eauto.
  - intros [Hs [k Hk]]. split; [done|]. exists (k, st). by rewrite elem_of_map_to_list.
Qed.

Lemma roster_ids t sid e e' infos :
  roster t sid e e' infos -> info_AgentID <$> infos ≡ₚ AgentID <$> states_of t sid.
Proof.
  intros (sts & Hp & HF). rewrite <- Hp. clear Hp.
  induction HF as [|st i sts infos (Hid & _) _ IH]; [done|].
  rewrite !fmap_cons, Hid. by f_equiv.
Qed.

Lemma keyed_states_NoDup t sid : keyed t -> NoDup (AgentID <$> states_of t sid).
Proof.
  intros Hk. apply (NoDup_fmap_1 (agentKey sid)). rewrite <- list_fmap_compose.
  assert (agentKey sid ∘ AgentID <$> states_of t sid =
          fst <$> filter (fun kv => SessionID kv.2 = sid) (map_to_list (agents t))) as ->.
  { unfold states_of.
    assert (forall kv, kv ∈ map_to_list (agents t) ->
              kv.1 = agentKey (SessionID kv.2) (AgentID kv.2)) as Hl.
    { intros [k st] Hin%elem_of_map_to_list. by apply Hk. }
    induction (map_to_list (agents t)) as [|[k st] l IH]; [done|].
    rewrite fmap_cons, !filter_cons. simpl. case_decide as Hs.
    - rewrite !fmap_cons, IH by (intros; apply Hl; by right). f_equal. simpl.
      rewrite <- Hs. symmetry. apply (Hl (k, st)). left.
    - apply IH. intros. apply Hl. by right. }
  apply (sublist_NoDup _ ((map_to_list (agents t)).*1)); [apply NoDup_fst_map_to_list|].
  apply sublist_fmap, sublist_filter.
Qed.

Lemma member_states t sid a : keyed t -> a ∈ AgentID <$> states_of t sid <-> member t sid a.
Proof.
  intros Hk. rewrite list_elem_of_fmap. split.
  - intros (st & -> & [Hs [k Hst]]%elem_of_states_of). exists st.
    rewrite <- Hs, <- (Hk k st); auto.
  - intros (st & Hst & Hs & Ha). exists st. split; [done|]. apply elem_of_states_of. eauto.
Qed.

(** A listing names every member of the session exactly once. *)
Lemma roster_members t sid e e' infos :
  keyed t -> roster t sid e e' infos ->
  NoDup (info_AgentID <$> infos) /\
  forall a, a ∈ info_AgentID <$> infos <-> member t sid a.
Proof.
  intros Hk Hr%roster_ids. split.
  - rewrite Hr. by apply keyed_states_NoDup.
  - intros a. rewrite Hr. by apply member_states.
Qed.

Lemma roster_elem t sid e e' infos i :
  roster t sid e e' infos -> i ∈ infos ->
  exists st, SessionID st = sid /\ (exists k, agents t !! k = Some st) /\ info_of t e e' st i.
Proof.
  intros (sts & Hp & HF) Hi.
  apply list_elem_of_lookup in Hi as [n Hn].
  destruct (Forall2_lookup_r _ _ _ _ _ HF Hn) as (st & Hst & Hinfo).
  exists st. assert (st ∈ states_of t sid) as Hs%elem_of_states_of.
  { rewrite <- Hp. apply list_elem_of_lookup. eauto. }
  naive_solver.
Qed.

Lemma keyed_touched sid aid caps n t : keyed t -> keyed (touched sid aid caps n t).
Proof.
  intros Hk k st. simpl. destruct (decide (agentKey sid aid = k)) as [<-|Hne].
  - rewrite lookup_insert_eq. intros ?; simplify_eq. simpl.
    destruct (agents t !! agentKey sid aid) as [st|] eqn:E; simpl; [by apply Hk|done].
  - rewrite lookup_insert_ne by done. apply Hk.
Qed.

Lemma lookup_touched_ne sid aid caps n t k :
  k <> agentKey sid aid -> agents (touched sid aid caps n t) !! k = agents t !! k.
Proof. intros. simpl. by rewrite lookup_insert_ne. Qed.

Lemma member_touched sid aid caps n t sid' aid' :
  plain sid -> plain sid' -> keyed t ->
  (forall k st, agents t !! k = Some st -> plain (SessionID st)) ->
  member (touched sid aid caps n t) sid' aid' <->
  (sid' = sid /\ aid' = aid) \/ member t sid' aid'.
Proof.
  intros Hp Hp' Hk Hpl. unfold member.
  destruct (decide (agentKey sid' aid' = agentKey sid aid)) as [He|Hne].
  - pose proof (join_key_inj _ _ _ _ Hp' Hp He) as [-> ->]. simpl. rewrite lookup_insert_eq.
    split; [naive_solver|]. intros _. eexists. split; [done|].
    destruct (agents t !! agentKey sid aid) as [st|] eqn:E; simpl; [|done].
    pose proof (Hk _ _ E) as Hkey.
    apply join_key_inj in Hkey as [-> ->]; [done|done|by eapply Hpl].
  - rewrite lookup_touched_ne by done. split; [naive_solver|]. intros [[-> ->]|?]; [done|done].
Qed.

(** ** Sweeps *)
Definition mark (st : AgentState) : AgentState :=
  mkAgentState (AgentID st) (SessionID st) (Capabilities st) (LastSeen st) true.

(** What a sweep between [e] and [e'] may decide for a state: [(lapsed, gone)]. An unexpired
    state lapses when its TTL has run out; an expired one is gone past the forget horizon. *)
Definition judged (t : Tracker) (e e' : Env) (st : AgentState) (v : bool * bool) : Prop :=
  (if Expired st then v.1 = false else live_between t e e' st (negb v.1)) /\
  (if Expired st || v.1
   then exists n, clock e <= n <= clock e' /\ v.2 = (forgetAfter t <=? n - LastSeen st)
   else v.2 = false).

Definition after (st : AgentState) (v : bool * bool) : AgentState := if v.1 then mark st else st.

Definition settle (m : gmap string AgentState) (x : (string * AgentState) * (bool * bool))
    : gmap string AgentState :=
  if x.2.2 then delete x.1.1 m else <[x.1.1 := after x.1.2 x.2]> m.

Definition lapsed_of (x : (string * AgentState) * (bool * bool)) : option AgentState :=
  if x.2.1 then Some (mark x.1.2) else None.
Definition gone_of (x : (string * AgentState) * (bool * bool)) : option AgentState :=
  if x.2.2 then Some (after x.1.2 x.2) else None.

Lemma judged_mono t e0 e e' e1 st v :
  e0 ≼ e -> e' ≼ e1 -> judged t e e' st v -> judged t e0 e1 st v.
Proof.
  unfold judged, live_between, env_le. intros ?? [H1 H2]. split.
  - destruct (Expired st); [done|]. destruct H1 as (n & ? & ?). exists n. split; [lia|done].
  - destruct (Expired st || v.1); [|done]. destruct H2 as (n & ? & ?). exists n.
    split; [lia|done].
Qed.

Lemma sweep_one_wp E F k st (Q : list AgentState * list AgentState -> Tracker -> Env -> Prop) t e :
  (forall v e', e ≼ e' -> judged t e e' st v ->
     Q (E ++ option_list (lapsed_of ((k, st), v)), F ++ option_list (gone_of ((k, st), v)))
       (set_agents (fun m => settle m ((k, st), v)) t) e') ->
  wpA (sweep_one (E, F) (k, st)) Q t e.
Proof.
  intros H. unfold sweep_one. apply wpA_bind.
  assert (forall v e', e ≼ e' -> judged t e e' st v ->
     Q (if v.1 then E ++ [mark st] else E, if v.2 then F ++ [after st v] else F)
       (set_agents (fun m => settle m ((k, st), v)) t) e') as H'.
  { intros v e' He Hv. specialize (H v e' He Hv). unfold lapsed_of, gone_of in H. simpl in H.
    destruct v as [[] []]; simpl in *; by rewrite ?app_nil_r in H. }
  clear H. rename H' into H.
  assert (forall live e1, e ≼ e1 -> (if Expired st then live = true else live_between t e e1 st live) ->
    wpA (let lapsed := negb (Expired st) && negb live in
      let state' := if lapsed then mark st else st in
      let expired' := if lapsed then E ++ [state'] else E in
      modify (set_agents (insert k state'));;
      f ← gets forgetAfter;
      gone ← (if Expired state' then d ← since (LastSeen state'); mret (f <=? d)%Z else mret false);
      if (gone : bool) then
        modify (set_agents (delete k)) ;; mret (expired', F ++ [state'])
      else mret (expired', F)) Q t e1) as Hrest.
  { intros live e1 He1 Hl.
    set (l := negb (Expired st) && negb live). cbn zeta.
    assert ((if l then mark st else st) = after st (l, false)) as -> by done.
    assert (forall g e', e1 ≼ e' ->
       (if Expired st || l then exists n, clock e <= n <= clock e' /\ g = (forgetAfter t <=? n - LastSeen st)
        else g = false) -> judged t e e' st (l, g)) as Hj.
    { intros g e' He' Hg. split; [|exact Hg]. unfold l. simpl.
      destruct (Expired st); [done|]. simpl. rewrite negb_involutive.
      destruct Hl as (n & Hn & ?). exists n. unfold env_le in *. split; [lia|done]. }
    assert (Expired (after st (l, false)) = Expired st || l) as Hexp.
    { unfold after. simpl. destruct l; simpl; [by rewrite orb_true_r|by rewrite orb_false_r]. }
    apply wpA_bind, wpA_modify, wpA_bind, wpA_gets, wpA_bind.
    rewrite Hexp. destruct (Expired st || l) eqn:Hel.
    - apply wpA_bind, wpA_since. intros e2 He2. apply wpA_ret.
      assert (LastSeen (after st (l, false)) = LastSeen st) as -> by by destruct l.
      assert (e ≼ e2) as He by by trans e1.
      destruct (forgetAfter t <=? clock e2 - LastSeen st) eqn:Hf; cbn [forgetAfter set_agents];
        rewrite Hf.
      + apply wpA_bind, wpA_modify, wpA_ret.
        specialize (H (l, true) e2 He). unfold settle in H. simpl in H.
        unfold set_agents in *. simpl in *. rewrite delete_insert_eq.
        destruct l; apply H, Hj; try done; exists (clock e2); unfold env_le in *; split; lia || done.
      + apply wpA_ret. specialize (H (l, false) e2 He). unfold settle in H. simpl in H.
        destruct l; apply H, Hj; try done; exists (clock e2); unfold env_le in *; split; lia || done.
    - apply wpA_ret, wpA_ret. specialize (H (l, false) e1 He1). unfold settle in H. simpl in H.
      destruct l; apply H, Hj; done. }
  destruct (Expired st) eqn:Hx.
  - apply wpA_ret. by apply (Hrest true).
  - apply presence_isLive_wp. intros e1 He1. apply (Hrest _ e1); [done|].
    exists (clock e1). unfold env_le in *. split; [lia|done].
Qed.

Lemma sweep_loop_wp kvs E F (Q : list AgentState * list AgentState -> Tracker -> Env -> Prop) t e :
  (forall vs e', e ≼ e' -> Forall2 (judged t e e') kvs.*2 vs ->
     Q (E ++ omap lapsed_of (zip kvs vs), F ++ omap gone_of (zip kvs vs))
       (set_agents (fun m => foldl settle m (zip kvs vs)) t) e') ->
  wpA (foldA sweep_one (E, F) kvs) Q t e.
Proof.
  revert E F t e. induction kvs as [|[k st] kvs IH]; intros E F t e H; simpl.
  - apply wpA_ret. specialize (H [] e). simpl in H. rewrite !app_nil_r in H.
    destruct t. apply H; [done|constructor].
  - apply wpA_bind, sweep_one_wp. intros v e1 He1 Hv. apply IH. intros vs e' He' HF.
    specialize (H (v :: vs) e'). simpl in H. rewrite <- !app_assoc.
    assert (forall o (l : list AgentState), option_list o ++ l =
              match o with Some x => x :: l | None => l end) as Ho by by intros [].
    rewrite !Ho. apply H; [by trans e1|]. constructor.
    + by eapply judged_mono; [..|exact Hv].
    + eapply Forall2_impl; [exact HF|]. intros x y Hxy. by eapply judged_mono; [..|exact Hxy].
Qed.

(** A sweep visits every state once, in some order, and judges each at an instant of its own. *)
Record swept (t : Tracker) (e e' : Env) (expired forgotten : list AgentState) (t' : Tracker)
    : Prop := mkSwept {
  swept_ttl : ttl t' = ttl t;
  swept_forget : forgetAfter t' = forgetAfter t;
  swept_at : exists kvs vs, kvs ≡ₚ map_to_list (agents t) /\
    Forall2 (judged t e e') kvs.*2 vs /\
    expired = omap lapsed_of (zip kvs vs) /\ forgotten = omap gone_of (zip kvs vs) /\
    agents t' = foldl settle (agents t) (zip kvs vs);
}.

Lemma presence_sweep_locked_wp
    (Q : list AgentState * list AgentState -> Tracker -> Env -> Prop) t e :
  (forall expired forgotten t' e', e ≼ e' -> swept t e e' expired forgotten t' ->
     Q (expired, forgotten) t' e') ->
  wpA sweep_locked Q t e.
Proof.
  intros H. apply wpA_bind, wpA_gets, wpA_bind, wpA_range. intros kvs e1 Hp He1.
  apply sweep_loop_wp. intros vs e' He' HF. apply H; [by trans e1|].
  split; [done..|]. exists kvs, vs. repeat split; auto.
  eapply Forall2_impl; [exact HF|]. intros x y Hxy. by eapply judged_mono; [..|exact Hxy].
Qed.

(** The fold settles every key by its own verdict. *)
Lemma foldl_settle_lookup m (xs : list ((string * AgentState) * (bool * bool))) k :
  NoDup (xs.*1.*1) ->
  foldl settle m xs !! k =
  match list_find (fun x : (string * AgentState) * (bool * bool) => x.1.1 = k) xs with
  | Some (_, (kst, v)) => if v.2 then None else Some (after kst.2 v)
  | None => m !! k
  end.
Proof.
  revert m. induction xs as [|[[j st] v] xs IH]; intros m Hnd; [done|].
  rewrite !fmap_cons in Hnd. apply NoDup_cons in Hnd as [Hj Hnd]. simpl in *.
  rewrite IH by done. destruct (decide (j = k)) as [->|Hne]; simpl.
  - destruct (list_find (fun x : (string * AgentState) * (bool * bool) => x.1.1 = k) xs) as [[i [kst v']]|] eqn:Hf.
    + apply list_find_Some in Hf as (Hi & Hk & _). exfalso. apply Hj.
      rewrite <- list_fmap_compose. apply list_elem_of_fmap.
      exists (kst, v'). split; [done|]. by eapply list_elem_of_lookup_2.
    + unfold settle. simpl. destruct v as [l []]; simpl;
        [by rewrite lookup_delete_eq|by rewrite lookup_insert_eq].
  - assert (settle m ((j, st), v) !! k = m !! k) as Hm.
    { unfold settle. simpl. destruct (v.2); [by rewrite lookup_delete_ne|by rewrite lookup_insert_ne]. }
    destruct (list_find _ xs) as [[i [kst v']]|]; simpl; done.
Qed.

(** The outcome of a sweep, state by state. *)
Lemma swept_lookup t e e' expired forgotten t' :
  swept t e e' expired forgotten t' ->
  (forall k st, agents t !! k = Some st -> exists v, judged t e e' st v /\
     agents t' !! k = (if (v.2 : bool) then None else Some (after st v)) /\
     (v.1 = true -> mark st ∈ expired) /\ (v.2 = true -> after st v ∈ forgotten)) /\
  (forall k, agents t !! k = None -> agents t' !! k = None) /\
  (forall st', st' ∈ expired -> exists k st, agents t !! k = Some st /\ st' = mark st /\
     Expired st = false /\ live_between t e e' st false) /\
  (forall st', st' ∈ forgotten -> exists k st v, agents t !! k = Some st /\ st' = after st v /\
     judged t e e' st v /\ v.2 = true).
Proof.
  intros [_ _ (kvs & vs & Hp & HF & -> & -> & ->)].
  assert (length kvs = length vs) as Hlen by (apply Forall2_length in HF; by rewrite length_fmap in HF).
  assert (NoDup ((zip kvs vs).*1.*1)) as Hnd.
  { rewrite fst_zip by lia. rewrite Hp. apply NoDup_fst_map_to_list. }
  assert (forall x, x ∈ zip kvs vs -> judged t e e' x.1.2 x.2 /\ agents t !! x.1.1 = Some x.1.2) as Hz.
  { intros [[k st] v] Hx. apply list_elem_of_lookup in Hx as [i Hi].
    apply lookup_zip_with_Some in Hi as ([k' st'] & v' & Heq & Hk & Hv). simplify_eq.
    split.
    - eapply Forall2_lookup_lr; [exact HF| |exact Hv]. by rewrite list_lookup_fmap, Hk.
    - simpl. apply elem_of_map_to_list. rewrite <- Hp. by eapply list_elem_of_lookup_2. }
  assert (forall k st, agents t !! k = Some st -> exists v, ((k, st), v) ∈ zip kvs vs) as Hin.
  { intros k st Hst. apply elem_of_map_to_list in Hst. rewrite <- Hp in Hst.
    apply list_elem_of_lookup in Hst as [i Hi].
    destruct (lookup_lt_is_Some_2 vs i) as [v Hv].
    { rewrite <- Hlen. by eapply lookup_lt_Some. }
    exists v. apply list_elem_of_lookup. exists i. apply lookup_zip_with_Some. eauto. }
  assert (forall k st v, ((k, st), v) ∈ zip kvs vs ->
    foldl settle (agents t) (zip kvs vs) !! k = (if (v.2 : bool) then None else Some (after st v))) as Hfind.
  { intros k st v Hx. rewrite foldl_settle_lookup by done.
    destruct (list_find (fun x : (string * AgentState) * (bool * bool) => x.1.1 = k) (zip kvs vs)) as [[i [[k' st'] v']]|] eqn:Hf.
    - apply list_find_Some in Hf as (Hi & Hk & _). simpl in *. subst k'.
      apply list_elem_of_lookup in Hx as [i' Hi'].
      assert (i = i') as <-.
      { eapply NoDup_lookup; [exact Hnd|..]; rewrite !list_lookup_fmap;
          [rewrite Hi|rewrite Hi']; done. }
      rewrite Hi in Hi'. by simplify_eq.
    - apply list_find_None in Hf. rewrite Forall_forall in Hf. by specialize (Hf _ Hx). }
  split; [|split; [|split]].
  - intros k st Hst. destruct (Hin k st Hst) as [v Hv]. exists v.
    destruct (Hz _ Hv) as [Hj _]. split; [done|]. split; [by apply Hfind|].
    split; intros Hb; apply list_elem_of_omap; exists ((k, st), v);
      (split; [done|]); unfold lapsed_of, gone_of; simpl; by rewrite Hb.
  - intros k Hk. rewrite foldl_settle_lookup by done.
    destruct (list_find _ _) as [[i [[k' st'] v']]|] eqn:Hf; [|done].
    apply list_find_Some in Hf as (Hi & Hk' & _). simpl in *. subst.
    apply list_elem_of_lookup_2, Hz in Hi as [_ Hi]. simpl in *. congruence.
  - intros st' ([[k st] [l g]] & Hx & Hl)%list_elem_of_omap. unfold lapsed_of in Hl. simpl in Hl.
    destruct l; simplify_eq. exists k, st. destruct (Hz _ Hx) as [[Hj _] Hk]. simpl in *.
    destruct (Expired st); [done|]. auto.
  - intros st' ([[k st] v] & Hx & Hl)%list_elem_of_omap. unfold gone_of in Hl. simpl in Hl.
    destruct (v.2) eqn:Hg; simplify_eq. exists k, st, v. by destruct (Hz _ Hx).
Qed.

Lemma swept_forgotten t e e' expired forgotten t' st' :
  swept t e e' expired forgotten t' -> st' ∈ forgotten ->
  exists k st v, agents t !! k = Some st /\ st' = after st v /\ judged t e e' st v /\
    v.2 = true /\ agents t' !! k = None.
Proof.
  intros [_ _ (kvs & vs & Hp & HF & _ & -> & ->)] Hst.
  assert (length kvs = length vs) as Hlen
    by (apply Forall2_length in HF; by rewrite length_fmap in HF).
  apply list_elem_of_omap in Hst as ([[k st] v] & Hx & Hg). unfold gone_of in Hg. simpl in Hg.
  destruct (v.2) eqn:Hv; [|done]. simplify_eq.
  apply list_elem_of_lookup in Hx as [i Hi].
  pose proof Hi as Hi'. apply lookup_zip_with_Some in Hi' as ([k' st'] & v' & Heq & Hk & Hv').
  simplify_eq. exists k', st', v'. split; [|split; [done|split; [|split; [done|]]]].
  - apply elem_of_map_to_list. rewrite <- Hp. by eapply list_elem_of_lookup_2.
  - eapply Forall2_lookup_lr; [exact HF| |exact Hv']. by rewrite list_lookup_fmap, Hk.
  - rewrite foldl_settle_lookup.
    2: { rewrite fst_zip by lia. rewrite Hp. apply NoDup_fst_map_to_list. }
    destruct (list_find _ _) as [[j [[k2 st2] v2]]|] eqn:Hf.
    + apply list_find_Some in Hf as (Hj & Hk2 & _). simpl in *. subst k2.
      assert (NoDup ((zip kvs vs).*1.*1)) as Hnd.
      { rewrite fst_zip by lia. rewrite Hp. apply NoDup_fst_map_to_list. }
      assert (i = j) as <-.
      { eapply NoDup_lookup; [exact Hnd|..]; rewrite !list_lookup_fmap; [rewrite Hi|rewrite Hj]; done. }
      rewrite Hi in Hj. simplify_eq. by rewrite Hv.
    + apply list_find_None in Hf. rewrite Forall_forall in Hf.
      apply list_elem_of_lookup_2 in Hi. by specialize (Hf _ Hi).
Qed.

(** C40: One sweep, state by state: a live agent stays as it is, one past its TTL is marked
    expired and reported, and not reported again by a later sweep while it stays away; an
    expired one past the forget horizon is removed, and only such agents are reported gone.
    Nothing appears and nothing else changes. *)
Theorem sweep_exact t e :
  wpA sweep_locked (fun '(expired, forgotten) t' e' =>
    (forall k st, agents t !! k = Some st -> exists lapsed gone,
       judged t e e' st (lapsed, gone) /\
       agents t' !! k = (if gone then None else Some (if lapsed then mark st else st)) /\
       (lapsed = true -> mark st ∈ expired)) /\
    (forall k, agents t !! k = None -> agents t' !! k = None) /\
    (forall st', st' ∈ expired -> exists k st, agents t !! k = Some st /\ st' = mark st /\
       Expired st = false /\ exists at_, clock e <= at_ <= clock e' /\ ttl t <= at_ - LastSeen st) /\
    (forall st', st' ∈ forgotten -> exists k st at_, agents t !! k = Some st /\
       agents t' !! k = None /\ AgentID st' = AgentID st /\ SessionID st' = SessionID st /\
       clock e <= at_ <= clock e' /\ forgetAfter t <= at_ - LastSeen st)) t e.
Proof.
  apply presence_sweep_locked_wp. intros expired forgotten t' e' He Hsw.
  pose proof (swept_lookup _ _ _ _ _ _ Hsw) as (Hin & Hout & Hexp & Hforg).
  split; [|split; [|split]].
  - intros k st Hst. destruct (Hin k st Hst) as ([l g] & Hj & Hl & HE & _).
    exists l, g. split; [done|]. split; [done|]. exact HE.
  - done.
  - intros st' Hst'. destruct (Hexp st' Hst') as (k & st & Hk & -> & Hx & n & Hn & Hb).
    exists k, st. split; [done|]. split; [done|]. split; [done|]. exists n. split; [done|].
    symmetry in Hb. by apply Z.ltb_ge in Hb.
  - intros st' (k & st & v & Hk & -> & Hj & Hg & Hgone)%(swept_forgotten _ _ _ _ _ _ _ Hsw).
    assert (exists n, clock e <= n <= clock e' /\ true = (forgetAfter t <=? n - LastSeen st)) as (n & Hn & Hb).
    { destruct Hj as [_ Hj2]. rewrite Hg in Hj2. by destruct (Expired st || v.1). }
    exists k, st, n. symmetry in Hb. apply Z.leb_le in Hb.
    split; [done|]. split; [done|]. by destruct v as [[] ?].
Qed.

(** Touching an agent records it as seen now, unexpired, under its own session, keeps its
    last announced capabilities when the call brings none, reports it new exactly when the
    tracker did not know it, and leaves every other agent alone. *)
Theorem touch_revives sid aid caps t e :
  wpA (Touch sid aid caps) (fun isNew t' e' =>
    isNew = bool_decide (agents t !! agentKey sid aid = None) /\
    (exists st, agents t' !! agentKey sid aid = Some st /\ LastSeen st = clock e' /\
       Expired st = false /\
       match agents t !! agentKey sid aid with
       | None => SessionID st = sid /\ AgentID st = aid /\ Capabilities st = caps
       | Some old => SessionID st = SessionID old /\ AgentID st = AgentID old /\
           Capabilities st = (match caps with Some _ => caps | None => Capabilities old end)
       end) /\
    forall k, k <> agentKey sid aid -> agents t' !! k = agents t !! k) t e.
Proof.
  apply presence_Touch_wp. intros e' He. split; [done|]. split.
  - simpl. rewrite lookup_insert_eq. eexists. split; [done|]. split; [done|]. split; [done|].
    destruct (agents t !! agentKey sid aid); simpl; [done|]. by destruct caps.
  - intros k Hk. by apply lookup_touched_ne.
Qed.
