(* ===== verification/Mailbox.v ===== *)
(** * internal/mailbox: one bounded queue per agent

    [Store] is mailbox.go's map from keys "session/agent" to boxes. A box is a shared object
    with a mutex of its own: a goroutine may hold one that another has just deleted from the
    map, so [boxes] maps keys to addresses in [heap]. [Deliver] and the drains take the store's
    mutex and the box's mutex one after the other, so they are programs of several sections.
    The entry counter [entrySeq], a variable of the package, is kept here with the store.

    A Go slice of entries is [nil] exactly when it is empty in this file (a capped queue is
    never empty, [append] to [nil] of nothing is [nil]), so [list Entry] stands for it.

    [queue] is the abstract view: the entries waiting under a key. *)

From S2P Require Import Prelude Protocol.

Record Entry := mkEntry {
  ID : string;
  entry_Envelope : Envelope;
  Received : Time;
}.

(** [changed] holds whether the one-slot channel has a token. *)
Record Box := mkBox {
  entries : list Entry;
  max : nat;
  changed : bool;
}.

Record Store := mkStore {
  boxes : gmap string nat;
  heap : list Box;
  maxPer : nat;
  entrySeq : Z;
}.

Definition defaultMaxPerBox : Z := 1000.

Definition NewStore (maxPerBox : Z) : Store :=
  let m := if (maxPerBox <=? 0)%Z then defaultMaxPerBox else maxPerBox in
  mkStore ∅ [] (Z.to_nat m) 0.

Definition set_boxes (f : gmap string nat -> gmap string nat) (s : Store) : Store :=
  mkStore (f (boxes s)) (heap s) (maxPer s) (entrySeq s).

(** One section on one box's mutex. *)
Definition on_box (i : nat) (f : Box -> Box) : Atom Store unit :=
  modify (fun s => mkStore (boxes s) (alter f i (heap s)) (maxPer s) (entrySeq s)).

Definition entries_at (i : nat) (s : Store) : list Entry :=
  match heap s !! i with Some b => entries b | None => [] end.

(** [b, ok := s.boxes[key]] under the read lock. *)
Definition find_box (key : string) : Atom Store (option nat) := gets (fun s => boxes s !! key).

(** [s.boxes[key] = &Box{entries: es, max: s.maxPer, ...}] *)
Definition add_box (key : string) (es : list Entry) (s : Store) : Store :=
  mkStore (<[key := length (heap s)]> (boxes s)) (heap s ++ [mkBox es (maxPer s) false])
    (maxPer s) (entrySeq s).

(** The second look, and the creation, under the write lock. *)
Definition create_box (key : string) : Atom Store nat :=
  found ← find_box key;
  match found with
  | Some i => mret i
  | None =>
      i ← gets (fun s => length (heap s));
      modify (add_box key []) ;;
      mret i
  end.

Definition getOrCreateBox (key : string) : prog Store nat :=
  found ← ⟨lens_id⟩ find_box key;
  match found with
  | Some i => mret i
  | None => ⟨lens_id⟩ create_box key
  end.

(** [select { case b.changed <- struct{}{}: default: }] *)
Definition signal (b : Box) : Box := mkBox (entries b) (max b) true.

Definition append_entry (en : Entry) (b : Box) : Box :=
  mkBox (cap (max b) (entries b ++ [en])) (max b) (changed b).

(** [entrySeq.Add(1)] *)
Definition next_entry_seq : Atom Store Z :=
  n ← gets (fun s => int64 (entrySeq s + 1));
  modify (fun s => mkStore (boxes s) (heap s) (maxPer s) n) ;;
  mret n.

(** [fmt.Sprintf("m-%d", n)] *)
Definition entry_id (n : Z) : string := "m-" +:+ itoa n.

Definition Deliver (key : string) (env : Envelope) : prog Store unit :=
  b ← getOrCreateBox key;
  n ← ⟨lens_id⟩ next_entry_seq;
  t ← nowP;
  ⟨lens_id⟩ on_box b (append_entry (mkEntry (entry_id n) env t)) ;;
  ⟨lens_id⟩ on_box b signal.

Definition matchesEnvelope (env : Envelope) (from msgType : string) : bool :=
  if bool_decide (from <> "") && bool_decide (From env <> from) then false
  else if bool_decide (msgType <> "") && bool_decide (Type_ env <> msgType) then false
  else true.

(** [entries := b.entries; b.entries = nil] *)
Definition take_entries (i : nat) : Atom Store (list Entry) :=
  es ← gets (entries_at i);
  on_box i (fun b => mkBox [] (max b) (changed b)) ;;
  mret es.

Definition Drain (key : string) : prog Store (list Entry) :=
  found ← ⟨lens_id⟩ find_box key;
  match found with
  | None => mret []
  | Some b => ⟨lens_id⟩ take_entries b
  end.

(** The loop of [DrainMatching]: [(matched, kept)]. *)
Fixpoint split_entries (from msgType : string) (es : list Entry) : list Entry * list Entry :=
  match es with
  | [] => ([], [])
  | e :: es' =>
      let '(matched, kept) := split_entries from msgType es' in
      if matchesEnvelope (entry_Envelope e) from msgType then (e :: matched, kept)
      else (matched, e :: kept)
  end.

Definition take_matching (i : nat) (from msgType : string) : Atom Store (list Entry) :=
  es ← gets (entries_at i);
  let '(matched, kept) := split_entries from msgType es in
  on_box i (fun b => mkBox kept (max b) (changed b)) ;;
  mret matched.

Definition DrainMatching (key from msgType : string) : prog Store (list Entry) :=
  found ← ⟨lens_id⟩ find_box key;
  match found with
  | None => mret []
  | Some b => ⟨lens_id⟩ take_matching b from msgType
  end.

Definition mailboxPollTick : Duration := 500 * millisecond.

(** The [select] between the wake-up token and the timer started at [t]. It runs when the
    goroutine wakes: with a token there the runtime may pick either branch once both are
    ready, without one the timer has fired. *)
Definition await (i : nat) (t : Time) (sleep : Duration) : Atom Store unit :=
  b ← gets (fun s => heap s !! i);
  token ← (match b with
           | Some b => if changed b then flip else mret false
           | None => mret false
           end);
  if (token : bool) then on_box i (fun b => mkBox (entries b) (max b) false)
  else sleep_until (t + sleep)%Z.

(** The loop of [DrainMatchingWait]; [None] when [fuel] rounds were not enough. *)
Fixpoint drain_loop (fuel : nat) (key from msgType : string) (deadline : Time)
    : prog Store (option (list Entry)) :=
  match fuel with
  | O => mret None
  | S fuel' =>
      es ← DrainMatching key from msgType;
      if bool_decide (es <> []) then mret (Some es)
      else
        t ← nowP;
        let remaining := (deadline - t)%Z in
        if (remaining <=? 0)%Z then mret (Some [])
        else
          b ← getOrCreateBox key;
          let sleep := if (remaining <? mailboxPollTick)%Z then remaining else mailboxPollTick in
          t' ← nowP;
          ⟨lens_id⟩ await b t' sleep ;;
          drain_loop fuel' key from msgType deadline
  end.

Definition DrainMatchingWait (fuel : nat) (key from msgType : string) (wait : Duration)
    : prog Store (option (list Entry)) :=
  t ← nowP; drain_loop fuel key from msgType (t + wait)%Z.

Definition DeleteBox (key : string) : Atom Store unit := modify (set_boxes (delete key)).

Definition DeleteSession (sessionID : string) : Atom Store unit :=
  modify (set_boxes (filter (fun '(key, _) => HasPrefix key (sessionID +:+ "/") = false))).

Definition Len (key : string) : prog Store nat :=
  found ← ⟨lens_id⟩ find_box key;
  match found with
  | None => mret 0
  | Some b => ⟨lens_id⟩ (gets (fun s => length (entries_at b s)))
  end.

(** The loop of [Snapshot]: the boxes are locked one at a time, while others deliver to them.
    (The read lock on the map itself keeps keys from changing meanwhile, which the result does
    not depend on: the addresses are read once, before the loop.) *)
Fixpoint snapshot_boxes (l : list (string * nat)) : prog Store (gmap string (list Entry)) :=
  match l with
  | [] => mret ∅
  | (key, i) :: l' =>
      es ← ⟨lens_id⟩ (gets (entries_at i));
      out ← snapshot_boxes l';
      mret (<[key := es]> out)
  end.

Definition Snapshot : prog Store (gmap string (list Entry)) :=
  kvs ← ⟨lens_id⟩ (m ← gets boxes; range (map_to_list m));
  snapshot_boxes kvs.

(** [Restore]'s loop over the boxes of the snapshot: each gets a fresh address. *)
Fixpoint restore_boxes (l : list (string * list Entry)) : Atom Store unit :=
  match l with
  | [] => mret tt
  | (key, es) :: l' =>
      modify (add_box key es) ;;
      restore_boxes l'
  end.

Definition Restore (bs : gmap string (list Entry)) : Atom Store unit :=
  modify (set_boxes (fun _ => ∅)) ;;
  kvs ← range (map_to_list bs);
  restore_boxes kvs.

(** ** The abstract view and the invariant *)

(** The entries waiting under a key. *)
Definition queue (s : Store) (key : string) : list Entry :=
  match boxes s !! key with Some i => entries_at i s | None => [] end.

(** A wake-up is pending under a key. *)
Definition token (s : Store) (key : string) : bool :=
  match boxes s !! key with
  | Some i => match heap s !! i with Some b => changed b | None => false end
  | None => false
  end.

(** No address dangles, no two keys share a box, every box has the store's bound. *)
Record wf (s : Store) : Prop := mkWf {
  wf_addr : forall k i, boxes s !! k = Some i -> i < length (heap s);
  wf_inj : forall k1 k2 i, boxes s !! k1 = Some i -> boxes s !! k2 = Some i -> k1 = k2;
  wf_max : forall i b, heap s !! i = Some b -> max b = maxPer s;
  wf_pos : 0 < maxPer s;
}.

(** Every box holds at most its bound: what deliveries keep, whatever runs beside them. *)
Definition bounded (s : Store) : Prop :=
  forall i b, heap s !! i = Some b -> length (entries b) <= max b.

Lemma NewStore_wf m : wf (NewStore m).
Proof.
  split; simpl.
  - intros k i. by rewrite lookup_empty.
  - intros k1 k2 i. by rewrite lookup_empty.
  - done.
  - destruct (Z.leb_spec m 0); unfold defaultMaxPerBox; lia.
Qed.

Lemma queue_on_box f i s k :
  queue (mkStore (boxes s) (alter f i (heap s)) (maxPer s) (entrySeq s)) k =
  match boxes s !! k with
  | Some j => if decide (j = i) then
                match heap s !! i with Some b => entries (f b) | None => [] end
              else entries_at j s
  | None => []
  end.
Proof.
  unfold queue, entries_at. simpl. destruct (boxes s !! k) as [j|]; [|done].
  destruct (decide (j = i)) as [->|Hne].
  - rewrite list_lookup_alter_eq. by destruct (heap s !! i).
  - by rewrite list_lookup_alter_ne.
Qed.

Lemma wf_on_box f i s :
  (forall b, max (f b) = max b) -> wf s ->
  wf (mkStore (boxes s) (alter f i (heap s)) (maxPer s) (entrySeq s)).
Proof.
  intros Hf [Ha Hi Hm Hp]. split; simpl; [|done| |done].
  - intros k j Hj. rewrite length_alter. eauto.
  - intros j b. destruct (decide (j = i)) as [->|Hne].
    + rewrite list_lookup_alter_eq. destruct (heap s !! i) eqn:E; simpl; [|done].
      intros; simplify_eq. rewrite Hf. eauto.
    + rewrite list_lookup_alter_ne by done. eauto.
Qed.

(** A section that maps one key's queue and leaves the rest of the store alone. *)
Definition requeue (s : Store) (key : string) (q : list Entry) (s' : Store) : Prop :=
  queue s' key = q /\ (forall k, k <> key -> queue s' k = queue s k) /\
  maxPer s' = maxPer s /\ wf s'.

Lemma requeue_on_box s key i b f :
  wf s -> boxes s !! key = Some i -> heap s !! i = Some b -> (forall b, max (f b) = max b) ->
  requeue s key (entries (f b)) (mkStore (boxes s) (alter f i (heap s)) (maxPer s) (entrySeq s)).
Proof.
  intros Hwf Hk Hb Hf. split; [|split; [|split]].
  - rewrite queue_on_box, Hk, decide_True, Hb; done.
  - intros k Hne. rewrite queue_on_box. unfold queue.
    destruct (boxes s !! k) as [j|] eqn:E; [|done]. rewrite decide_False; [done|].
    intros ->. apply Hne. by eapply wf_inj.
  - done.
  - by apply wf_on_box.
Qed.

Lemma wf_add_box key es s : wf s -> wf (add_box key es s).
Proof.
  intros [Ha Hi Hm Hp].
  assert (forall k i, boxes s !! k = Some i -> i <> length (heap s)) as Hn.
  { intros k i Hk%Ha. lia. }
  split; simpl; [| | |done].
  - intros k i. rewrite lookup_insert_Some, length_app. simpl. intros [[_ <-]|[_ Hk%Ha]]; lia.
  - intros k1 k2 i. rewrite !lookup_insert_Some.
    intros [[<- <-]|[? H1]] [[<- Hi2]|[? H2]]; try done.
    + by apply Hn in H2.
    + subst. by apply Hn in H1.
    + eauto.
  - intros i b [Hb|[_ Hb]]%lookup_app_Some; [eauto|].
    by apply list_lookup_singleton_Some in Hb as [_ <-].
Qed.

Lemma queue_add_box key es s k :
  wf s -> queue (add_box key es s) k = if decide (k = key) then es else queue s k.
Proof.
  intros Hwf. unfold queue, entries_at. simpl. destruct (decide (k = key)) as [->|Hk].
  - by rewrite lookup_insert_eq, lookup_app_r, Nat.sub_diag.
  - rewrite lookup_insert_ne by done. destruct (boxes s !! k) as [j|] eqn:Ej; [|done].
    rewrite lookup_app_l; [done|]. by eapply wf_addr.
Qed.

Lemma mailbox_getOrCreateBox_wp key (Q : nat -> Store -> Env -> Prop) s e :
  wf s ->
  (forall i b s', wf s' -> boxes s' !! key = Some i -> heap s' !! i = Some b ->
     entries b = queue s key -> (forall k, queue s' k = queue s k) ->
     maxPer s' = maxPer s -> entrySeq s' = entrySeq s ->
     changed b = token s key ->
     Q i s' e) ->
  wp (getOrCreateBox key) Q s e.
Proof.
  intros Hwf HQ. apply wp_bind, wp_atomically, wpA_gets. simpl.
  destruct (boxes s !! key) as [i|] eqn:E.
  - apply wp_ret. destruct (lookup_lt_is_Some_2 (heap s) i) as [b Hb]; [by eapply wf_addr|].
    eapply HQ; eauto; unfold queue, token, entries_at; by rewrite E, Hb.
  - apply wp_atomically, wpA_bind, wpA_gets. simpl. rewrite E.
    wps. apply HQ with (b := mkBox [] (maxPer s) false); try done.
    + by apply wf_add_box.
    + simpl. by rewrite lookup_insert_eq.
    + simpl. by rewrite lookup_app_r, Nat.sub_diag.
    + unfold queue. by rewrite E.
    + intros k. rewrite queue_add_box by done. case_decide; [|done]. subst. unfold queue.
      by rewrite E.
    + unfold token. by rewrite E.
Qed.

(** Run alone, [Deliver] appends one entry to the key's queue, dropping the oldest beyond the
    bound, and touches no other queue. *)
Lemma mailbox_Deliver_wp key env (Q : unit -> Store -> Env -> Prop) s e :
  wf s ->
  (forall t s' e', clock e <= t <= clock e' ->
     let en := mkEntry (entry_id (int64 (entrySeq s + 1))) env t in
     requeue s key (cap (maxPer s) (queue s key ++ [en])) s' ->
     entrySeq s' = int64 (entrySeq s + 1) -> Q tt s' e')%Z ->
  wp (Deliver key env) Q s e.
Proof.
  intros Hwf HQ. apply wp_bind, mailbox_getOrCreateBox_wp; [done|].
  intros i b s1 Hwf1 Hk Hb Hes Hq Hm Hs _.
  wps. unfold next_entry_seq. wp_now e1 He1. unfold on_box. wps.
  cbn [boxes heap maxPer entrySeq]. rewrite Hs.
  set (s2 := mkStore (boxes s1) (heap s1) (maxPer s1) (int64 (entrySeq s + 1))).
  assert (wf s2) as Hwf2 by by destruct Hwf1.
  rewrite alter_alter.
  assert (max b = maxPer s) as Hmax by (rewrite <- Hm; by eapply wf_max).
  apply (HQ (clock e1)); [unfold env_le in *; lia|simpl|done].
  destruct (requeue_on_box s2 key i b
    (signal ∘ append_entry (mkEntry (entry_id (int64 (entrySeq s + 1))) env (clock e1))))
    as (H1 & H2 & H3 & H4); try done.
  split; [|split; [|split]].
  - rewrite <- Hmax, <- Hes. exact H1.
  - intros k Hne. rewrite <- Hq. by apply H2.
  - done.
  - exact H4.
Qed.

Lemma split_entries_filter from msgType es :
  split_entries from msgType es =
  (filter (fun en => matchesEnvelope (entry_Envelope en) from msgType = true) es,
   filter (fun en => matchesEnvelope (entry_Envelope en) from msgType = false) es).
Proof.
  induction es as [|en es IH]; [done|]. simpl. rewrite IH, !filter_cons.
  by destruct (matchesEnvelope (entry_Envelope en) from msgType).
Qed.

Lemma requeue_nobox s key : wf s -> boxes s !! key = None -> requeue s key [] s.
Proof. intros Hwf E. repeat split; try apply Hwf. unfold queue. by rewrite E. Qed.

Lemma wf_box s key i : wf s -> boxes s !! key = Some i -> exists b, heap s !! i = Some b.
Proof. intros Hwf E. apply lookup_lt_is_Some_2. by eapply wf_addr. Qed.

Lemma token_on_box s key i b f :
  boxes s !! key = Some i -> heap s !! i = Some b ->
  token (mkStore (boxes s) (alter f i (heap s)) (maxPer s) (entrySeq s)) key = changed (f b).
Proof. intros E Hb. unfold token. simpl. by rewrite E, list_lookup_alter_eq, Hb. Qed.

Lemma mailbox_Drain_wp key (Q : list Entry -> Store -> Env -> Prop) s e :
  wf s -> (forall s', requeue s key [] s' -> entrySeq s' = entrySeq s -> Q (queue s key) s' e) ->
  wp (Drain key) Q s e.
Proof.
  intros Hwf HQ. unfold Drain, find_box. wps. destruct (boxes s !! key) as [i|] eqn:E; wps.
  - destruct (wf_box s key i Hwf E) as [b Hb]. unfold take_entries, on_box. wps.
    replace (entries_at i s) with (queue s key) by (unfold queue; by rewrite E).
    apply HQ; [|done].
    by apply (requeue_on_box s key i b (fun b => mkBox [] (max b) (changed b))).
  - replace [] with (queue s key) by (unfold queue; by rewrite E).
    apply HQ; [|done]. by apply requeue_nobox.
Qed.

Lemma mailbox_DrainMatching_wp key from ty (Q : list Entry -> Store -> Env -> Prop) s e :
  wf s ->
  (forall s',
     requeue s key
       (filter (fun en => matchesEnvelope (entry_Envelope en) from ty = false) (queue s key)) s' ->
     token s' key = token s key -> entrySeq s' = entrySeq s ->
     Q (filter (fun en => matchesEnvelope (entry_Envelope en) from ty = true) (queue s key)) s' e) ->
  wp (DrainMatching key from ty) Q s e.
Proof.
  intros Hwf HQ. unfold DrainMatching, find_box. wps.
  destruct (boxes s !! key) as [i|] eqn:E; wps.
  - destruct (wf_box s key i Hwf E) as [b Hb]. unfold take_matching, on_box. wps.
    rewrite split_entries_filter. wps.
    replace (entries_at i s) with (queue s key) by (unfold queue; by rewrite E).
    apply HQ; [|rewrite (token_on_box _ _ _ b) by done|done].
    + eapply (requeue_on_box s key i b (fun b => mkBox _ (max b) (changed b))); done.
    + unfold token. by rewrite E, Hb.
  - replace (queue s key) with (@nil Entry) in HQ by (unfold queue; by rewrite E).
    apply HQ; [|done..]. by apply requeue_nobox.
Qed.

Lemma mailbox_Len_wp key (Q : nat -> Store -> Env -> Prop) s e :
  Q (length (queue s key)) s e -> wp (Len key) Q s e.
Proof.
  unfold Len, find_box, queue. intros HQ. wps. destruct (boxes s !! key) as [i|]; by wps.
Qed.

Lemma mailbox_DeleteBox_wp key (Q : unit -> Store -> Env -> Prop) s e :
  wf s ->
  (forall s', requeue s key [] s' -> entrySeq s' = entrySeq s -> Q tt s' e) ->
  wpA (DeleteBox key) Q s e.
Proof.
  intros [Ha Hi Hm Hp] HQ. unfold DeleteBox. wps. apply HQ; [|done].
  split; [|split; [|split]].
  - unfold queue. simpl. by rewrite lookup_delete_eq.
  - intros k Hk. unfold queue. simpl. by rewrite lookup_delete_ne.
  - done.
  - split; simpl; [..|done]; [| |done].
    + intros k i [_ Hk]%lookup_delete_Some. eauto.
    + intros k1 k2 i [_ H1]%lookup_delete_Some [_ H2]%lookup_delete_Some. eauto.
Qed.

Lemma mailbox_DeleteSession_wp sid (Q : unit -> Store -> Env -> Prop) s e :
  wf s ->
  (forall s', wf s' -> maxPer s' = maxPer s -> entrySeq s' = entrySeq s ->
     (forall k, queue s' k = if HasPrefix k (sid +:+ "/") then [] else queue s k) ->
     Q tt s' e) ->
  wpA (DeleteSession sid) Q s e.
Proof.
  intros [Ha Hi Hm Hp] HQ. unfold DeleteSession. wps. apply HQ; [|done..|].
  - split; simpl; [..|done]; [| |done].
    + intros k i [Hk _]%map_lookup_filter_Some. eauto.
    + intros k1 k2 i [H1 _]%map_lookup_filter_Some [H2 _]%map_lookup_filter_Some. eauto.
  - intros k. unfold queue. simpl. destruct (HasPrefix k (sid +:+ "/")) eqn:E.
    + rewrite map_lookup_filter_None_2; [done|]. right. intros i _. congruence.
    + rewrite (map_lookup_filter _ (boxes s)). destruct (boxes s !! k) as [i|]; [|done].
      simpl. rewrite option_guard_True by done. done.
Qed.

(** *** Long polling *)

(** Rounds the loop still needs, alone: one per tick until the deadline, one more when a
    wake-up is pending, and the last. *)
Definition rounds (s : Store) (key : string) (deadline : Time) (e : Env) : nat :=
  (if token s key then 1 else 0) +
  (if (deadline <=? clock e)%Z then 0
   else Z.to_nat ((deadline - clock e - 1) / mailboxPollTick) + 1) + 1.

Lemma rounds_step d e e' :
  (clock e < d)%Z -> (clock e + mailboxPollTick <= clock e' \/ d <= clock e')%Z ->
  (if (d <=? clock e')%Z then 0 else Z.to_nat ((d - clock e' - 1) / mailboxPollTick) + 1) + 1 <=
  (if (d <=? clock e)%Z then 0 else Z.to_nat ((d - clock e - 1) / mailboxPollTick) + 1).
Proof.
  intros Hlt H. destruct (Z.leb_spec d (clock e)); [lia|].
  destruct (Z.leb_spec d (clock e')); [lia|]. destruct H as [H|]; [|lia].
  assert (0 < mailboxPollTick)%Z as Ht by done.
  pose proof (Z.div_le_mono (d - clock e' - 1) (d - clock e - 1 - mailboxPollTick)
    mailboxPollTick Ht ltac:(lia)) as Hd.
  pose proof (Z.div_pos (d - clock e' - 1) mailboxPollTick ltac:(lia) Ht).
  replace (d - clock e - 1 - mailboxPollTick)%Z
    with (d - clock e - 1 + (-1) * mailboxPollTick)%Z in Hd by lia.
  rewrite Z.div_add in Hd by lia. lia.
Qed.

Lemma rounds_mono d e e' :
  (clock e <= clock e')%Z ->
  (if (d <=? clock e')%Z then 0 else Z.to_nat ((d - clock e' - 1) / mailboxPollTick) + 1) <=
  (if (d <=? clock e)%Z then 0 else Z.to_nat ((d - clock e - 1) / mailboxPollTick) + 1).
Proof.
  intros Hle. destruct (Z.leb_spec d (clock e)), (Z.leb_spec d (clock e')); try lia.
  assert (0 < mailboxPollTick)%Z as Ht by done.
  pose proof (Z.div_le_mono (d - clock e' - 1) (d - clock e - 1) mailboxPollTick Ht ltac:(lia)).
  lia.
Qed.

(** Waking up changes no queue; it consumes the pending token or lets the timer fire. *)
Lemma await_wp key i b t sleep (Q : unit -> Store -> Env -> Prop) s e :
  wf s -> boxes s !! key = Some i -> heap s !! i = Some b ->
  (forall s' e', wf s' -> (forall k, queue s' k = queue s k) -> maxPer s' = maxPer s ->
     spends (Z.max 0 (t + sleep - clock e))%Z 0 e e' ->
     (token s key = true /\ token s' key = false) \/
     (token s' key = token s key /\ t + sleep <= clock e')%Z ->
     Q tt s' e') ->
  wpA (await i t sleep) Q s e.
Proof.
  intros Hwf Hk Hb HQ. unfold await. wps. rewrite Hb.
  assert (token s key = changed b) as Htok by (unfold token; by rewrite Hk, Hb).
  assert (forall e1, spends 0 0 e e1 -> wpA (sleep_until (t + sleep)) Q s e1) as Hsleep.
  { intros e1 He1. apply wpA_sleep_spends. intros e2 He2 Hc. apply HQ; auto.
    - pose proof (spends_trans _ _ _ _ _ _ _ He1 He2) as H. eapply spends_le; [| |exact H]; [|lia].
      destruct He1 as [He1 _]. unfold env_le in He1. lia.
    - right. split; [done|lia]. }
  destruct (changed b) eqn:Hc; wps; [|apply Hsleep, spends_refl].
  apply wpA_flip_spends. intros [] e1 He1; [|by apply Hsleep]. unfold on_box. wps.
  destruct (requeue_on_box s key i b (fun b => mkBox (entries b) (max b) false))
    as (H1 & H2 & H3 & H4); try done.
  apply HQ; [done| |done|eapply spends_le; [| |exact He1]; lia|].
  - intros k. destruct (decide (k = key)) as [->|Hne]; [|by apply H2].
    rewrite H1. unfold queue, entries_at. by rewrite Hk, Hb.
  - left. split; [done|]. by rewrite (token_on_box _ _ _ b) by done.
Qed.

Lemma requeue_trans s key q s1 s2 :
  requeue s key q s1 -> wf s2 -> (forall k, queue s2 k = queue s1 k) -> maxPer s2 = maxPer s1 ->
  requeue s key q s2.
Proof.
  intros (H1 & H2 & H3 & H4) Hwf Hq Hm. repeat split; try apply Hwf.
  - by rewrite Hq.
  - intros k Hk. rewrite Hq. by apply H2.
  - by rewrite Hm.
Qed.

Lemma drain_loop_idle fuel key from ty deadline s e :
  wf s ->
  filter (fun en => matchesEnvelope (entry_Envelope en) from ty = true) (queue s key) = [] ->
  rounds s key deadline e <= fuel ->
  wp (drain_loop fuel key from ty deadline)
     (fun r s' e' => r = Some [] /\ requeue s key (queue s key) s' /\ e ≼ e' /\
       (deadline <= clock e')%Z /\
       forall slack, (0 <= slack)%Z -> quick slack e ->
         quick slack e' /\ (clock e' <= Z.max (clock e) (deadline + slack) + slack)%Z) s e.
Proof.
  revert s e. induction fuel as [|fuel IH]; intros s e Hwf Hnone Hfuel;
    [unfold rounds in Hfuel; lia|].
  cbn [drain_loop]. wps. apply mailbox_DrainMatching_wp; [done|].
  intros s1 (Hq1 & Ho1 & Hm1 & Hwf1) Htok1 _. rewrite Hnone.
  rewrite bool_decide_eq_false_2 by tauto.
  assert (forall k, queue s1 k = queue s k) as Hqq.
  { intros k. destruct (decide (k = key)) as [->|Hne]; [|by apply Ho1]. rewrite Hq1.
    apply (filter_complement (fun en => matchesEnvelope (entry_Envelope en) from ty) _ Hnone). }
  assert (requeue s key (queue s key) s1) as Hrq by (by split).
  wps. apply wp_now_spends. intros e1 [He1 Hk1]. destruct (Z.leb_spec (deadline - clock e1) 0).
  { wps. split; [done|]. split; [done|]. split; [done|]. split; [lia|]. intros slack H0 Hq.
    destruct (Hk1 slack H0 Hq). split; [done|lia]. }
  wps. apply mailbox_getOrCreateBox_wp; [done|].
  intros i b s2 Hwf2 Hk2 Hb2 _ Hq2 Hm2 _ Htok2.
  wps. apply wp_now_spends. intros e2 [He2 Hk2']. wps. eapply await_wp; [done..|].
  intros s3 e3 Hwf3 Hq3 Hm3 [He3 Hk3] Hcase. wps.
  assert (token s2 key = token s key) as Ht2.
  { rewrite <- Htok1, <- Htok2. unfold token. by rewrite Hk2, Hb2. }
  assert (forall k, queue s3 k = queue s k) as Hq3s by (intros; by rewrite Hq3, Hq2, Hqq).
  eapply wp_mono; [apply (IH s3 e3 Hwf3)|].
  - by rewrite Hq3s.
  - unfold rounds in *. rewrite Ht2 in Hcase.
    destruct Hcase as [[Hyes Hno]|[Hsame Hpast]].
    + rewrite Hno. rewrite Hyes in Hfuel.
      pose proof (rounds_mono deadline e e3 ltac:(clock)). lia.
    + rewrite Hsame. pose proof (rounds_step deadline e e3 ltac:(clock)) as Hstep.
      destruct (Z.ltb_spec (deadline - clock e1) mailboxPollTick);
        (specialize (Hstep ltac:(clock)); lia).
  - intros r s' e' (-> & (Hr1 & Hr2 & Hr3 & Hr4) & He & Hd & Hs). split; [done|].
    split; [|split; [clock|split; [done|]]].
    2: { intros slack H0 Hq. destruct (Hk1 slack H0 Hq) as [Ha Hca]. destruct (Hk2' slack H0 Ha) as [Hb Hcb].
         destruct (Hk3 slack H0 Hb) as [Hc Hcc]. destruct (Hs slack H0 Hc) as [Hd' Hcd]. split; [done|].
         destruct (Z.ltb_spec (deadline - clock e1) mailboxPollTick); clock. }
    repeat split; try apply Hr4.
    + by rewrite Hr1, Hq3s.
    + intros k Hk. by rewrite Hr2, Hq3s.
    + by rewrite Hr3, Hm3, Hm2, Hm1.
Qed.

(** How many rounds a wait needs: a tick each, a pending wake-up, the first and the last. *)
Definition wait_rounds (wait : Duration) : nat := Z.to_nat (wait / mailboxPollTick) + 3.

Lemma rounds_wait s key wait e : rounds s key (clock e + wait)%Z e <= wait_rounds wait.
Proof.
  unfold rounds, wait_rounds. assert (0 < mailboxPollTick)%Z as Ht by done.
  destruct (token s key), (Z.leb_spec (clock e + wait) (clock e)); try lia.
  all: pose proof (Z.div_le_mono (clock e + wait - clock e - 1) wait mailboxPollTick Ht ltac:(lia));
    lia.
Qed.

(** Run alone, a wait returns: at once with what matches already, otherwise empty-handed once
    the deadline has passed. *)
Lemma mailbox_DrainMatchingWait_wp fuel key from ty wait
    (Q : option (list Entry) -> Store -> Env -> Prop) s e :
  wf s -> wait_rounds wait <= fuel ->
  (forall s' e',
     let matched := filter (fun en => matchesEnvelope (entry_Envelope en) from ty = true)
                      (queue s key) in
     requeue s key
       (filter (fun en => matchesEnvelope (entry_Envelope en) from ty = false) (queue s key)) s' ->
     e ≼ e' -> (matched = [] -> clock e + wait <= clock e')%Z ->
     (if decide (matched = []) then spends (Z.max 0 wait) 3 e e' else spends 0 1 e e') ->
     Q (Some matched) s' e') ->
  wp (DrainMatchingWait fuel key from ty wait) Q s e.
Proof.
  intros Hwf Hfuel HQ. unfold DrainMatchingWait. wps. apply wp_now_spends. intros e1 He1s.
  pose proof He1s as [He1 Hq1].
  destruct (decide (filter (fun en => matchesEnvelope (entry_Envelope en) from ty = true)
                      (queue s key) = [])) as [Hnone|Hsome].
  - eapply wp_mono; [eapply (drain_loop_idle fuel)|]; [done..| |].
    + pose proof (rounds_wait s key wait e1). lia.
    + intros r s' e' (-> & Hr & He & Hd & Hs). rewrite Hnone in HQ. apply HQ; [|clock..|].
      2: { rewrite decide_True by done. split; [clock|]. intros slack H0 Hq.
           destruct (Hq1 slack H0 Hq) as [Ha Hca]. destruct (Hs slack H0 Ha). split; [done|clock]. }
      by rewrite (filter_complement (fun en => matchesEnvelope (entry_Envelope en) from ty)).
  - destruct fuel as [|fuel]; [unfold wait_rounds in Hfuel; lia|]. cbn [drain_loop]. wps.
    apply mailbox_DrainMatching_wp; [done|]. intros s1 Hr _ _.
    rewrite bool_decide_eq_true_2 by done. wps. apply HQ; [done..|]. by rewrite decide_False.
Qed.

(** *** Persistence *)
Lemma snapshot_boxes_wp l (Q : gmap string (list Entry) -> Store -> Env -> Prop) s e :
  NoDup l.*1 ->
  Q (list_to_map ((fun '(k, i) => (k, entries_at i s)) <$> l)) s e ->
  wp (snapshot_boxes l) Q s e.
Proof.
  revert Q. induction l as [|[k i] l IH]; intros Q Hnd HQ; cbn [snapshot_boxes]; wps; [done|].
  apply NoDup_cons in Hnd as [Hk Hnd]. apply IH; [done|]. by wps.
Qed.

Lemma mailbox_Snapshot_wp (Q : gmap string (list Entry) -> Store -> Env -> Prop) s e :
  (forall e', e ≼ e' -> Q ((fun i => entries_at i s) <$> boxes s) s e') ->
  wp Snapshot Q s e.
Proof.
  intros HQ. unfold Snapshot. wps. apply wpA_range. intros kvs e' Hp He. simpl.
  assert (NoDup kvs.*1) as Hnd by (rewrite Hp; apply NoDup_fst_map_to_list).
  apply snapshot_boxes_wp; [done|].
  replace (list_to_map _) with ((fun i => entries_at i s) <$> boxes s); [by apply HQ|].
  rewrite <- (list_to_map_to_list (boxes s)), <- list_to_map_fmap.
  symmetry. apply list_to_map_proper.
  - rewrite <- list_fmap_compose.
    assert (fst ∘ (λ '(k, i), (k, entries_at i s)) <$> kvs = kvs.*1) as ->; [|done].
    apply list_fmap_ext. by intros ? [].
  - rewrite Hp. erewrite list_fmap_ext; [done|]. by intros ? [].
Qed.

Lemma restore_boxes_wp l (Q : unit -> Store -> Env -> Prop) s e :
  NoDup l.*1 -> (forall k, k ∈ l.*1 -> boxes s !! k = None) -> wf s ->
  (forall s', wf s' -> maxPer s' = maxPer s -> entrySeq s' = entrySeq s ->
     dom (boxes s') = dom (boxes s) ∪ list_to_set l.*1 ->
     (forall k, queue s' k = match list_to_map (M := gmap string (list Entry)) l !! k with
                             | Some es => es | None => queue s k end) -> Q tt s' e) ->
  wpA (restore_boxes l) Q s e.
Proof.
  revert s. induction l as [|[k es] l IH]; intros s Hnd Hfresh Hwf HQ; cbn [restore_boxes]; wps.
  { apply HQ; try done. set_solver. }
  apply NoDup_cons in Hnd as [Hk Hnd]. simpl in Hk.
  assert (boxes s !! k = None) as Hks by (apply Hfresh; left).
  apply IH; [done| |by apply wf_add_box|].
  - intros k' Hk'. simpl. rewrite lookup_insert_ne by (intros ->; done).
    apply Hfresh. by right.
  - intros s' Hwf' Hm' Hs' Hd Hq. simpl in *. apply HQ; auto.
    + rewrite Hd, dom_insert_L. set_solver.
    + intros k'. rewrite Hq, queue_add_box by done. destruct (decide (k' = k)) as [->|Hne].
      * by rewrite lookup_insert_eq, not_elem_of_list_to_map_1.
      * by rewrite lookup_insert_ne.
Qed.

Lemma mailbox_Restore_wp m (Q : unit -> Store -> Env -> Prop) s e :
  wf s ->
  (forall s' e', wf s' -> maxPer s' = maxPer s -> entrySeq s' = entrySeq s -> e ≼ e' ->
     dom (boxes s') = dom m -> (forall k, queue s' k = default [] (m !! k)) -> Q tt s' e') ->
  wpA (Restore m) Q s e.
Proof.
  intros [Ha Hi Hm Hp] HQ. unfold Restore. wps. apply wpA_range. intros kvs e' Hkv He.
  assert (NoDup kvs.*1) as Hnd by (rewrite Hkv; apply NoDup_fst_map_to_list).
  assert (list_to_map kvs = m) as Hmap.
  { rewrite <- (list_to_map_to_list m). by apply list_to_map_proper. }
  apply restore_boxes_wp; [done|done| |].
  - split; simpl; try done.
  - intros s' Hwf' Hm' Hs' Hd Hq. apply HQ; auto.
    + rewrite Hd. simpl. rewrite <- Hmap, dom_list_to_map_L, dom_empty_L. set_solver.
    + intros k. rewrite Hq, Hmap. by destruct (m !! k).
Qed.

(** ** The store as an abstract machine

    What the hub relies on: a map from keys to queues and one counter. The machine is
    nondeterministic only in the instant an entry is received. *)
Inductive op :=
| OpDeliver (key : string) (env : Envelope)
| OpDrain (key : string)
| OpDrainMatching (key from msgType : string)
| OpLen (key : string)
| OpDeleteBox (key : string)
| OpDeleteSession (sessionID : string).

Inductive answer :=
| Done
| Entries (es : list Entry)
| Count (n : nat).

Definition exec (o : op) : prog Store answer :=
  match o with
  | OpDeliver key env => Deliver key env ;; mret Done
  | OpDrain key => es ← Drain key; mret (Entries es)
  | OpDrainMatching key from ty => es ← DrainMatching key from ty; mret (Entries es)
  | OpLen key => n ← Len key; mret (Count n)
  | OpDeleteBox key => ⟨lens_id⟩ DeleteBox key ;; mret Done
  | OpDeleteSession sid => ⟨lens_id⟩ DeleteSession sid ;; mret Done
  end.

Fixpoint exec_all (os : list op) : prog Store (list answer) :=
  match os with
  | [] => mret []
  | o :: os' => a ← exec o; rest ← exec_all os'; mret (a :: rest)
  end.

Record Spec := mkSpec { contents : gmap string (list Entry); issued : Z }.

Definition waiting (m : Spec) (key : string) : list Entry := default [] (contents m !! key).

Definition refill (m : Spec) (key : string) (q : list Entry) : Spec :=
  mkSpec (<[key := q]> (contents m)) (issued m).

Inductive spec_step (max : nat) : Spec -> op -> answer -> Spec -> Prop :=
| spec_Deliver m key env t n :
    n = int64 (issued m + 1) ->
    spec_step max m (OpDeliver key env) Done
      (mkSpec (<[key := cap max (waiting m key ++ [mkEntry (entry_id n) env t])]> (contents m)) n)
| spec_Drain m key :
    spec_step max m (OpDrain key) (Entries (waiting m key)) (refill m key [])
| spec_DrainMatching m key from ty :
    spec_step max m (OpDrainMatching key from ty)
      (Entries (filter (fun en => matchesEnvelope (entry_Envelope en) from ty = true)
                  (waiting m key)))
      (refill m key (filter (fun en => matchesEnvelope (entry_Envelope en) from ty = false)
                       (waiting m key)))
| spec_Len m key : spec_step max m (OpLen key) (Count (length (waiting m key))) m
| spec_DeleteBox m key : spec_step max m (OpDeleteBox key) Done (refill m key [])
| spec_DeleteSession m sid :
    spec_step max m (OpDeleteSession sid) Done
      (mkSpec (filter (fun '(k, _) => HasPrefix k (sid +:+ "/") = false) (contents m)) (issued m)).

Inductive spec_run (max : nat) : Spec -> list op -> list answer -> Spec -> Prop :=
| spec_nil m : spec_run max m [] [] m
| spec_cons m o a m1 os rest m2 :
    spec_step max m o a m1 -> spec_run max m1 os rest m2 ->
    spec_run max m (o :: os) (a :: rest) m2.

(** A store implements an abstract state when its queues are the abstract ones. *)
Record implements (s : Store) (m : Spec) : Prop := mkImplements {
  impl_wf : wf s;
  impl_queue : forall k, queue s k = waiting m k;
  impl_seq : entrySeq s = issued m;
}.

Lemma implements_refill s m key q s' :
  implements s m -> requeue s key q s' -> entrySeq s' = entrySeq s ->
  implements s' (refill m key q).
Proof.
  intros [_ Hq Hn] (H1 & H2 & _ & Hwf) Hs. split; [done| |by rewrite Hs].
  intros k. unfold waiting, refill. simpl. destruct (decide (k = key)) as [->|Hne].
  - by rewrite lookup_insert_eq.
  - rewrite lookup_insert_ne by done. by rewrite H2.
Qed.

(** One operation of the store is one step of the machine. *)
Lemma exec_refines o s m e :
  implements s m ->
  wp (exec o) (fun a s' _ => maxPer s' = maxPer s /\
     exists m', spec_step (maxPer s) m o a m' /\ implements s' m') s e.
Proof.
  intros Hi. pose proof (impl_wf s m Hi) as Hwf. destruct o; cbn [exec]; wps.
  - apply mailbox_Deliver_wp; [done|]. intros t s' e' _ en Hr Hs. wps.
    pose proof Hr as (_ & _ & Hm & _). split; [done|]. eexists. split; [by econstructor|].
    destruct Hi as [_ Hq Hn]. destruct Hr as (H1 & H2 & _ & Hwf').
    split; [done| |by rewrite Hs, <- Hn].
    intros k. unfold waiting. simpl. destruct (decide (k = key)) as [->|Hne].
    + rewrite lookup_insert_eq, H1. simpl. subst en. by rewrite Hq, Hn.
    + rewrite lookup_insert_ne by done. by rewrite H2.
  - apply mailbox_Drain_wp; [done|]. intros s' Hr Hs. wps.
    split; [apply Hr|]. eexists. rewrite (impl_queue s m Hi). split; [constructor|].
    by eapply implements_refill.
  - apply mailbox_DrainMatching_wp; [done|]. intros s' Hr _ Hs. wps.
    split; [apply Hr|]. eexists. rewrite (impl_queue s m Hi) in *. split; [constructor|].
    by eapply implements_refill.
  - apply mailbox_Len_wp. wps. split; [done|]. exists m.
    rewrite (impl_queue s m Hi). by split; [constructor|].
  - apply mailbox_DeleteBox_wp; [done|]. intros s' Hr Hs. wps.
    split; [apply Hr|]. eexists. split; [constructor|]. by eapply implements_refill.
  - apply mailbox_DeleteSession_wp; [done|]. intros s' Hwf' Hm Hs Hq. wps.
    split; [done|]. eexists. split; [constructor|]. destruct Hi as [_ Hi Hn].
    split; [done| |by rewrite Hs]. intros k. rewrite Hq, Hi. unfold waiting. simpl.
    rewrite (map_lookup_filter _ (contents m)).
    destruct (contents m !! k) as [q|]; simpl; [|by destruct (HasPrefix _ _)].
    destruct (HasPrefix k _) eqn:E.
    + by rewrite option_guard_False.
    + by rewrite option_guard_True.
Qed.

(** C9: Any sequence of deliveries, drains, filtered drains, counts and deletions, run on the
    store with its boxes, addresses and locks, gives answers that the abstract machine (a map
    from keys to queues capped by dropping the oldest) gives too, and ends in a state that
    implements the machine's. *)
Theorem mailbox_refines_spec os s m e :
  implements s m ->
  wp (exec_all os) (fun answers s' _ =>
     exists m', spec_run (maxPer s) m os answers m' /\ implements s' m') s e.
Proof.
  revert s m e. induction os as [|o os IH]; intros s m e Hi; cbn [exec_all]; wps.
  - exists m. by split; [constructor|].
  - eapply wp_mono; [by apply exec_refines|]. intros a s1 e1 (Hm & m1 & Hstep & Hi1). wps.
    eapply wp_mono; [by apply IH|]. intros rest s2 e2 (m2 & Hrun & Hi2). wps.
    exists m2. rewrite Hm in Hrun. by split; [econstructor|].
Qed.

(** ** Interleavings *)

(** What every section keeps: the store's shape, the boxes' bound, and a property [E] of the
    envelopes delivered. *)
Section Interleaved.
Context (E : Envelope -> Prop).

Definition mail_ok (s : Store) : Prop :=
  wf s /\ bounded s /\
  forall i b en, heap s !! i = Some b -> en ∈ entries b -> E (entry_Envelope en).

Definition mail_step (s s' : Store) : Prop := maxPer s' = maxPer s /\ (mail_ok s -> mail_ok s').

Lemma mail_step_refl s : mail_step s s.
Proof. by split. Qed.

Definition mail_entry (en : Entry) : Prop := E (entry_Envelope en).

Lemma guar_on_box i f (Q : unit -> Prop) :
  (forall b, max (f b) = max b /\
     (length (entries b) <= max b -> length (entries (f b)) <= max b) /\
     (Forall mail_entry (entries b) -> Forall mail_entry (entries (f b)))) ->
  Q tt -> guar mail_step (⟨lens_id⟩ on_box i f) Q.
Proof.
  intros Hf HQ. apply guar_atomically. intros s e. unfold on_box. wps.
  split; [split; [done|]|done]. intros (Hwf & Hb & HE).
  split; [apply wf_on_box; [intros b; apply Hf|done]|]. split; simpl.
  - intros j b. cbn [heap]. destruct (decide (i = j)) as [<-|Hne].
    + rewrite list_lookup_alter_eq. destruct (heap s !! i) as [b'|] eqn:Hi; [|done]. simpl.
      intros; simplify_eq. destruct (Hf b') as (-> & Hlen & _). by apply Hlen, (Hb i).
    + rewrite list_lookup_alter_ne by done. apply Hb.
  - intros j b en. destruct (decide (i = j)) as [<-|Hne].
    + rewrite list_lookup_alter_eq. destruct (heap s !! i) as [b'|] eqn:Hi; [|done]. simpl.
      intros; simplify_eq. destruct (Hf b') as (_ & _ & HF).
      assert (Forall mail_entry (entries b')) as Hb' by (apply Forall_forall; intros x; by eapply HE).
      specialize (HF Hb'). rewrite Forall_forall in HF. by apply HF.
    + rewrite list_lookup_alter_ne by done. apply HE.
Qed.

Lemma guar_read {A} (f : Store -> A) : guar mail_step (⟨lens_id⟩ (gets f)) (fun _ => True).
Proof. apply guar_atomically. intros s e. wps. split; [apply mail_step_refl|done]. Qed.

Lemma guar_clock : guar mail_step nowP (fun _ => True).
Proof. apply guar_nowP; [apply mail_step_refl|done]. Qed.

Lemma mail_step_add_box key s : mail_step s (add_box key [] s).
Proof.
  split; [done|]. intros (Hwf & Hb & HE). split; [by apply wf_add_box|]. split.
  - intros i b [Hb'|[_ Hb']]%lookup_app_Some; [eauto|].
    apply list_lookup_singleton_Some in Hb' as [_ <-]. simpl. lia.
  - intros i b en [Hb'|[_ Hb']]%lookup_app_Some; [by eapply HE|].
    apply list_lookup_singleton_Some in Hb' as [_ <-]. by intros ?%not_elem_of_nil.
Qed.

Lemma guar_getOrCreateBox key : guar mail_step (getOrCreateBox key) (fun _ => True).
Proof.
  apply guar_then; [apply guar_read|]. intros [i|]; [done|].
  apply guar_atomically. intros s e. unfold create_box, find_box. wps. simpl.
  destruct (boxes s !! key); wps; (split; [|done]); [apply mail_step_refl|apply mail_step_add_box].
Qed.

Lemma guar_set_boxes (f : gmap string nat -> gmap string nat) :
  (forall m, f m ⊆ m) -> guar mail_step (⟨lens_id⟩ (modify (set_boxes f))) (fun _ => True).
Proof.
  intros Hf. apply guar_atomically. intros s e. wps. split; [split; [done|]|done].
  intros ([Ha Hi Hm Hp] & Hb & HE). split; [|by split].
  assert (forall k i, f (boxes s) !! k = Some i -> boxes s !! k = Some i) as Hsub.
  { intros k i Hk. eapply lookup_weaken; [exact Hk|apply Hf]. }
  split; simpl; eauto.
Qed.

Lemma guar_Deliver key env : E env -> guar mail_step (Deliver key env) (fun _ => True).
Proof.
  intros HE. apply guar_then; [apply guar_getOrCreateBox|]. intros i.
  apply guar_then.
  { apply guar_atomically. intros s e. unfold next_entry_seq. wps. split; [|done].
    split; [done|]. intros ([Ha Hi Hm Hp] & ?). by split. }
  intros n. apply guar_then; [apply guar_clock|]. intros t.
  apply guar_then; [|intros _; by apply guar_on_box].
  apply guar_on_box; [|done]. intros b. split; [done|]. split; simpl; [rewrite length_cap; lia|].
  intros HF. apply Forall_forall. intros en Hen%elem_of_cap. revert en Hen. apply Forall_forall.
  apply Forall_app. split; [done|]. by apply Forall_singleton.
Qed.

(** Both drains keep part of what the box holds. *)
Lemma guar_take i (pick : list Entry -> list Entry * list Entry) :
  (forall es, (pick es).2 ⊆+ es /\ (pick es).1 ⊆+ es) ->
  guar mail_step (⟨lens_id⟩ (es ← gets (entries_at i);
                             let '(matched, kept) := pick es in
                             on_box i (fun b => mkBox kept (max b) (changed b)) ;;
                             mret matched)) (fun _ => True).
Proof.
  intros Hpick. apply guar_atomically. intros s e. wps.
  destruct (pick (entries_at i s)) as [matched kept] eqn:Hp. destruct (Hpick (entries_at i s)) as [Hk _].
  rewrite Hp in Hk. simpl in Hk. unfold on_box. wps. split; [split; [done|]|done].
  intros (Hwf & Hb & HE). split; [by apply wf_on_box|]. unfold entries_at in Hk. split; simpl.
  - intros j b. cbn [heap]. destruct (decide (i = j)) as [<-|Hne]; [|rewrite list_lookup_alter_ne by done; apply Hb].
    rewrite list_lookup_alter_eq. destruct (heap s !! i) as [b'|] eqn:Hi; [|done]. simpl.
    intros [= <-]. simpl. apply submseteq_length in Hk. specialize (Hb i b' Hi). lia.
  - intros j b en. destruct (decide (i = j)) as [<-|Hne]; [|rewrite list_lookup_alter_ne by done; apply HE].
    rewrite list_lookup_alter_eq. destruct (heap s !! i) as [b'|] eqn:Hi; [|done]. simpl.
    intros [= <-] Hen. apply (HE i b' en Hi). by eapply elem_of_submseteq.
Qed.

Lemma guar_Drain key : guar mail_step (Drain key) (fun _ => True).
Proof.
  apply guar_then; [apply guar_read|]. intros [i|]; [|done].
  apply (guar_take i (fun es => (es, []))). intros es. split; [apply submseteq_nil_l|done].
Qed.

Lemma guar_DrainMatching key from ty : guar mail_step (DrainMatching key from ty) (fun _ => True).
Proof.
  apply guar_then; [apply guar_read|]. intros [i|]; [|done].
  apply (guar_take i (split_entries from ty)). intros es. rewrite split_entries_filter. simpl.
  split; apply sublist_submseteq, sublist_filter.
Qed.

Lemma guar_await i t sleep : guar mail_step (⟨lens_id⟩ await i t sleep) (fun _ => True).
Proof.
  assert (guar mail_step (⟨lens_id⟩ on_box i (fun b => mkBox (entries b) (max b) false))
    (fun _ => True)) as Hbox by by apply guar_on_box.
  apply guar_atomically. intros s e. unfold await. wps.
  eapply (wpA_mono _ (fun _ s' _ => s' = s)).
  { destruct (heap s !! i) as [b|]; [destruct (changed b)|]; wps; [by apply wpA_flip|done..]. }
  intros [] s' e' ->; [exact (Hbox s e')|]. apply wpA_sleep. intros e2 _ _.
  split; [apply mail_step_refl|done].
Qed.

Lemma guar_drain_loop fuel key from ty deadline :
  guar mail_step (drain_loop fuel key from ty deadline) (fun _ => True).
Proof.
  induction fuel as [|fuel IH]; cbn [drain_loop]; [done|].
  apply guar_then; [apply guar_DrainMatching|]. intros es. case_bool_decide; [done|].
  apply guar_then; [apply guar_clock|]. intros t. destruct (_ <=? 0)%Z; [done|].
  apply guar_then; [apply guar_getOrCreateBox|]. intros i.
  apply guar_then; [apply guar_clock|]. intros t'. by apply guar_then; [apply guar_await|].
Qed.

Lemma guar_DrainMatchingWait fuel key from ty wait :
  guar mail_step (DrainMatchingWait fuel key from ty wait) (fun _ => True).
Proof. apply guar_then; [apply guar_clock|]. intros t. apply guar_drain_loop. Qed.

Lemma guar_Len key : guar mail_step (Len key) (fun _ => True).
Proof. apply guar_then; [apply guar_read|]. intros [i|]; [apply guar_read|done]. Qed.

Lemma guar_DeleteBox key : guar mail_step (⟨lens_id⟩ DeleteBox key) (fun _ => True).
Proof. apply guar_set_boxes. intros m. apply delete_subseteq. Qed.

Lemma guar_DeleteSession sid : guar mail_step (⟨lens_id⟩ DeleteSession sid) (fun _ => True).
Proof. apply guar_set_boxes. intros m. apply map_filter_subseteq. Qed.
End Interleaved.

#[export] Hint Resolve guar_Deliver guar_Drain guar_DrainMatching guar_DrainMatchingWait guar_Len
  guar_DeleteBox guar_DeleteSession : go.

(** What the goroutines of the server may run against the store. *)
Inductive client : prog Store unit -> Prop :=
| client_exec o : client (exec o ;; mret tt)
| client_wait fuel key from ty wait :
    client (DrainMatchingWait fuel key from ty wait ;; mret tt).

Lemma client_guar p : client p -> guar (mail_step (fun _ => True)) p (fun _ => True).
Proof.
  intros [[key env|key|key from ty|key|key|sid]|fuel key from ty wait];
    (apply guar_then; [|done]); cbn [exec];
    try (apply guar_then; [|done]); auto with go.
Qed.

(** C16: However the runtime interleaves any number of deliveries, drains, long polls, counts
    and deletions, in every state it reaches no box holds more than its bound, no two keys
    share a box and no key points at a box that does not exist. *)
Theorem mailbox_bounded_interleaved s e ts s' e' ts' :
  wf s -> bounded s -> Forall client ts ->
  rtc (pool_step client) (mkPool s e ts) (mkPool s' e' ts') ->
  wf s' /\ forall k, length (queue s' k) <= maxPer s'.
Proof.
  intros Hwf Hb Hts [m Hrun]%rtc_nsteps.
  set (I := fun (_ : nat) s (_ : Env) => mail_ok (fun _ => True) s).
  assert (forall p, client p -> safe I p (fun _ => True)) as Hsafe.
  { intros p Hp. eapply safe_of_guar; [|by apply client_guar]. intros n w e1 w' e2 HI [_ H]. by apply H. }
  destruct (pool_invariant I client _ _ m 0 (fun _ _ _ H => H) Hsafe Hrun) as [(Hwf' & Hb' & _) _].
  - by repeat split; try apply Hwf.
  - eapply Forall_impl; [exact Hts|]. exact Hsafe.
  - simpl in *. split; [done|]. intros k. unfold queue, entries_at.
    destruct (boxes s' !! k) as [i|]; [|simpl; lia].
    destruct (heap s' !! i) as [b|] eqn:Hi; [|simpl; lia].
    erewrite <- wf_max by done. eauto.
Qed.

(** C35: A long poll that runs undisturbed always returns, within one round per half-second
    tick plus three. When a queued entry matches it returns at once, without waiting (it reads
    the clock once and sleeps nowhere), with every entry that matches, oldest first, leaving the
    others queued in order. When none matches it returns empty-handed, with every entry still
    queued, not before its deadline and, on a machine whose clock readings are at most [slack]
    apart, not later than three times [slack] after it. No other mailbox changes. *)
Theorem wait_returns fuel key from ty wait s e :
  wf s -> wait_rounds wait <= fuel ->
  wp (DrainMatchingWait fuel key from ty wait) (fun r s' e' =>
    exists matched, r = Some matched /\
      matched = filter (fun en => matchesEnvelope (entry_Envelope en) from ty = true) (queue s key) /\
      queue s' key =
        filter (fun en => matchesEnvelope (entry_Envelope en) from ty = false) (queue s key) /\
      (forall k, k <> key -> queue s' k = queue s k) /\
      if decide (matched = [])
      then (clock e + wait <= clock e')%Z /\ spends (Z.max 0 wait) 3 e e'
      else spends 0 1 e e') s e.
Proof.
  intros Hwf Hf. apply mailbox_DrainMatchingWait_wp; [done..|].
  intros s' e' matched (H1 & H2 & _ & _) _ Hd Hs. exists matched.
  split; [done|]. split; [done|]. split; [done|]. split; [done|]. case_decide; auto.
Qed.

(** Session IDs with a slash break the isolation the keys are meant to give: agent "c" of
    session "a/b" and agent "b/c" of session "a" share one mailbox, and deleting session "a"
    deletes mail of session "a/b". *)
Theorem slash_sessions_collide :
  join_key "a" "b/c" = join_key "a/b" "c" /\
  forall s e, wf s ->
    wpA (DeleteSession "a") (fun _ s' _ => queue s' (join_key "a/b" "c") = []) s e.
Proof.
  split; [done|]. intros s e Hwf. apply mailbox_DeleteSession_wp; [done|].
  intros s' _ _ _ Hq. by rewrite Hq.
Qed.
