(* ===== verification/MailOnce.v ===== *)
(** * Mail is conserved, whatever runs beside it

    internal/mailbox/mailbox.go under any interleaving of its callers. The world is the store
    and the post, a record of what was handed to [Deliver] and of what the drains returned;
    [actor] is what a goroutine of the server may run. The invariant counts, besides the boxes
    of the map, the boxes a goroutine still holds after they were deleted, and the message or
    the entries a goroutine has in hand between two sections (its [Stage]). *)

From S2P Require Import Prelude Protocol Mailbox.

(** A message to the agent whose key it carries. *)
Abbreviation mail := (string * Envelope)%type.

Record Post := mkPost {
  sent : list mail;
  received : list mail;
}.

Definition tag (key : string) (es : list Entry) : list mail :=
  (fun en => (key, entry_Envelope en)) <$> es.

Definition log_sent (m : mail) : Atom Post unit :=
  modify (fun p => mkPost (sent p ++ [m]) (received p)).
Definition log_received (ms : list mail) : Atom Post unit :=
  modify (fun p => mkPost (sent p) (received p ++ ms)).

(** What a goroutine may do, and with [deleting], also what removes boxes. *)
Inductive action :=
| Send (key : string) (env : Envelope)
| Take (key : string)
| TakeMatching (key from msgType : string)
| TakeWait (fuel : nat) (key from msgType : string) (wait : Duration)
| Count (key : string)
| Forget (key : string)
| ForgetSession (sid : string).

Definition perform (a : action) : prog (Store * Post) unit :=
  match a with
  | Send key env => ⟨lens_snd⟩ log_sent (key, env) ;; ⟪lens_fst⟫ Deliver key env
  | Take key => es ← ⟪lens_fst⟫ Drain key; ⟨lens_snd⟩ log_received (tag key es)
  | TakeMatching key from ty =>
      es ← ⟪lens_fst⟫ DrainMatching key from ty; ⟨lens_snd⟩ log_received (tag key es)
  | TakeWait fuel key from ty wait =>
      r ← ⟪lens_fst⟫ DrainMatchingWait fuel key from ty wait;
      ⟨lens_snd⟩ log_received (tag key (default [] r))
  | Count key => ⟪lens_fst⟫ Len key ;; mret tt
  | Forget key => ⟨lens_fst⟩ DeleteBox key
  | ForgetSession sid => ⟨lens_fst⟩ DeleteSession sid
  end.

Definition deletes (a : action) : bool :=
  match a with Forget _ | ForgetSession _ => true | _ => false end.

Definition actor (deleting : bool) (p : prog (Store * Post) unit) : Prop :=
  exists a, p = perform a /\ (deletes a = true -> deleting = true).

Lemma split_entries_perm from ty es :
  (split_entries from ty es).1 ++ (split_entries from ty es).2 ≡ₚ es.
Proof.
  induction es as [|en es IH]; simpl; [done|].
  destruct (split_entries from ty es) as [matched kept]. simpl in IH.
  destruct (matchesEnvelope _ _ _); simpl; rewrite <- IH; [done|].
  symmetry. apply Permutation_middle.
Qed.

(** The part of a log that concerns one agent. *)
Definition to (key : string) (ms : list mail) : list Envelope :=
  (filter (fun m => m.1 = key) ms).*2.

Lemma alter_insert_list {A} (f : A -> A) (l : list A) i x :
  l !! i = Some x -> alter f i l = <[i := f x]> l.
Proof.
  revert i. induction l as [|y l IH]; intros [|i] Hi; simplify_eq/=; [done|]. f_equal. auto.
Qed.

Lemma to_app key l1 l2 : to key (l1 ++ l2) = to key l1 ++ to key l2.
Proof. unfold to. by rewrite filter_app, fmap_app. Qed.

#[export] Instance to_Permutation key : Proper ((≡ₚ) ==> (≡ₚ)) (to key).
Proof. intros l1 l2 Hl. unfold to. by rewrite Hl. Qed.

Lemma to_tag key k es :
  to key (tag k es) = if decide (k = key) then entry_Envelope <$> es else [].
Proof.
  induction es as [|en es IH]; [by case_decide|].
  change (to key (tag k (en :: es))) with (to key ([(k, entry_Envelope en)] ++ tag k es)).
  rewrite to_app, IH. unfold to. rewrite filter_cons, filter_nil. simpl. by repeat case_decide.
Qed.

Lemma tag_app k es es' : tag k (es ++ es') = tag k es ++ tag k es'.
Proof. apply fmap_app. Qed.

#[export] Instance tag_Permutation k : Proper ((≡ₚ) ==> (≡ₚ)) (tag k).
Proof. intros l1 l2 Hl. unfold tag. by rewrite Hl. Qed.

(** ** The invariant *)

(** [held] is the box a goroutine has looked up, under its key; [hand] the mail it carries. *)
Record Stage := mkStage { held : option (nat * string); hand : list mail }.

Definition idle : Stage := mkStage None [].

Definition boxed (kb : string * Box) : list mail := tag kb.1 (entries kb.2).

(** What all boxes ever made hold, under the keys they were made for. *)
Definition stored (owner : list string) (s : Store) : list mail := zip owner (heap s) ≫= boxed.

Section Ledger.
Context (deleting : bool) (M : nat) (lim : nat).

Record ledger (owner : list string) (dropped : list mail) (g : list Stage) (s : Store) (p : Post)
    : Prop := mkLedger {
  led_len : length owner = length (heap s);
  led_max : Forall (fun b => max b = M) (heap s);
  led_per : maxPer s = M;
  led_boxes k i : boxes s !! k = Some i -> owner !! i = Some k;
  led_owner k i : deleting = false -> owner !! i = Some k -> boxes s !! k = Some i;
  led_held : Forall (fun st => forall i k, held st = Some (i, k) -> owner !! i = Some k) g;
  led_sum : sent p ≡ₚ received p ++ (g ≫= hand) ++ stored owner s ++ dropped;
  led_drop k : length (to k (sent p)) <= M -> to k dropped = [];
}.

Definition balanced (_ : nat) (g : list Stage) (w : Store * Post) (_ : Env) : Prop :=
  exists owner dropped, ledger owner dropped g w.1 w.2.

(** A goroutine changes its stage and its box: what it takes out of the box it has in hand, and
    what it no longer has in hand is in the box or, if the box was full, dropped. *)
Lemma ledger_box owner dropped g s p t st i k f st' d b :
  ledger owner dropped g s p -> g !! t = Some st -> owner !! i = Some k -> heap s !! i = Some b ->
  max (f b) = max b -> held st' = held st ->
  hand st ++ tag k (entries b) ≡ₚ hand st' ++ tag k (entries (f b)) ++ d ->
  (d = [] \/ M < length (to k (hand st ++ tag k (entries b)))) ->
  (forall k', k' <> k -> to k' d = []) ->
  ledger owner (d ++ dropped) (<[t := st']> g)
    (mkStore (boxes s) (alter f i (heap s)) (maxPer s) (entrySeq s)) p.
Proof.
  intros [Hl Hm Hp Hb Ho Hh Hs Hd] Ht Hi Hbi Hf Hheld Hsum Hdrop Hother.
  pose proof (bind_split hand g t st Ht) as Hg1.
  pose proof (bind_insert hand g t st st' Ht) as Hg2.
  assert (zip owner (heap s) !! i = Some (k, b)) as Hz by (by rewrite lookup_zip_with, Hi; simpl; rewrite Hbi).
  pose proof (bind_split boxed _ i _ Hz) as Hc1.
  pose proof (bind_insert boxed _ i _ (k, f b) Hz) as Hc2.
  split; simpl; try done.
  - by rewrite length_alter.
  - rewrite (alter_insert_list f _ i b Hbi). apply Forall_insert; [done|]. rewrite Hf.
    by apply (Forall_lookup_1 _ _ _ _ Hm Hbi).
  - apply Forall_insert; [done|]. rewrite Hheld. by apply (Forall_lookup_1 _ _ _ _ Hh Ht).
  - unfold stored in *. simpl. rewrite (alter_insert_list f _ i b Hbi).
    assert (zip owner (<[i := f b]> (heap s)) = <[i := (k, f b)]> (zip owner (heap s))) as ->.
    { rewrite <- (list_insert_id owner i k Hi) at 1. by rewrite <- insert_zip_with. }
    rewrite Hs, Hg1, Hg2, Hc1, Hc2. unfold boxed at 1 3. simpl.
    set (R1 := delete t g ≫= hand). set (R2 := delete i (zip owner (heap s)) ≫= boxed).
    trans (received p ++ R1 ++ R2 ++ dropped ++ (hand st ++ tag k (entries b)));
      [solve_Permutation|]. rewrite Hsum. solve_Permutation.
  - intros k' Hk'. rewrite to_app, (Hd k' Hk'), app_nil_r.
    destruct (decide (k' = k)) as [->|Hne]; [|by apply Hother].
    destruct Hdrop as [->|Hbig]; [done|]. exfalso.
    rewrite Hs, Hg1 in Hk'. unfold stored in Hk'. rewrite Hc1 in Hk'. unfold boxed at 1 in Hk'.
    simpl in Hk'. rewrite !to_app, !length_app in *. lia.
Qed.

Lemma ledger_stage owner dropped g s p t st st' :
  ledger owner dropped g s p -> g !! t = Some st -> hand st' = hand st ->
  (forall i k, held st' = Some (i, k) -> owner !! i = Some k) ->
  ledger owner dropped (<[t := st']> g) s p.
Proof.
  intros [Hl Hm Hp Hb Ho Hh Hs Hd] Ht Hhand Hheld. split; try done.
  - by apply Forall_insert.
  - by rewrite (bind_insert hand g t st st' Ht), Hhand, <- (bind_split hand g t st Ht).
Qed.

Lemma ledger_add_box owner dropped g s p key :
  ledger owner dropped g s p -> boxes s !! key = None ->
  ledger (owner ++ [key]) dropped g (add_box key [] s) p.
Proof.
  intros [Hl Hm Hp Hb Ho Hh Hs Hd] Hnone. split; simpl; try done.
  - rewrite !length_app, Hl. done.
  - apply Forall_app. split; [done|]. apply Forall_singleton. simpl. done.
  - intros k i. rewrite lookup_insert_Some. intros [[<- <-]|[_ Hk]].
    + by rewrite <- Hl, lookup_app_r, Nat.sub_diag by lia.
    + apply lookup_app_l_Some. auto.
  - intros k i Hdel [Hi|[Hle Hi]]%lookup_app_Some.
    + rewrite lookup_insert_ne; [auto|]. intros <-. rewrite (Ho key i Hdel Hi) in Hnone. done.
    + apply list_lookup_singleton_Some in Hi as [Hi <-]. rewrite lookup_insert_eq. f_equal. lia.
  - eapply Forall_impl; [exact Hh|]. intros st Hst i k Hi. apply lookup_app_l_Some. auto.
  - rewrite Hs. unfold stored. simpl. rewrite zip_with_app, bind_app by done. simpl.
    by rewrite app_nil_r.
Qed.

Lemma ledger_seq owner dropped g s p n :
  ledger owner dropped g s p -> ledger owner dropped g (mkStore (boxes s) (heap s) (maxPer s) n) p.
Proof. by intros []. Qed.

Lemma ledger_shrink owner dropped g s p f :
  deleting = true -> (forall m : gmap string nat, f m ⊆ m) -> ledger owner dropped g s p ->
  ledger owner dropped g (set_boxes f s) p.
Proof.
  intros Hdel Hf [Hl Hm Hp Hb Ho Hh Hs Hd]. split; try done; simpl.
  - intros k i Hk. apply Hb. eapply lookup_weaken; [exact Hk|apply Hf].
  - congruence.
Qed.

(** A message enters the log and a hand. *)
Lemma ledger_send owner dropped g s p t st m :
  ledger owner dropped g s p -> g !! t = Some st -> hand st = [] ->
  ledger owner dropped (<[t := mkStage (held st) [m]]> g) s (mkPost (sent p ++ [m]) (received p)).
Proof.
  intros [Hl Hm Hp Hb Ho Hh Hs Hd] Ht Hst. split; try done; simpl.
  - apply Forall_insert; [done|]. by apply (Forall_lookup_1 _ _ _ _ Hh Ht).
  - rewrite Hs, (bind_insert hand g t st _ Ht), (bind_split hand g t st Ht), Hst. simpl.
    set (R := delete t g ≫= hand). solve_Permutation.
  - intros k Hk. apply Hd. rewrite to_app, length_app in Hk. lia.
Qed.

(** Mail leaves a hand for the log. *)
Lemma ledger_receive owner dropped g s p t st :
  ledger owner dropped g s p -> g !! t = Some st ->
  ledger owner dropped (<[t := mkStage (held st) []]> g) s
    (mkPost (sent p) (received p ++ hand st)).
Proof.
  intros [Hl Hm Hp Hb Ho Hh Hs Hd] Ht. split; try done; simpl.
  - apply Forall_insert; [done|]. by apply (Forall_lookup_1 _ _ _ _ Hh Ht).
  - rewrite Hs, (bind_insert hand g t st _ Ht), (bind_split hand g t st Ht). simpl.
    set (R := delete t g ≫= hand). solve_Permutation.
Qed.

(** ** The programs, section by section *)
Abbreviation on := (staged lim balanced lens_fst).

(** What a section leaves to a goroutine: its hand, and the box it has looked up. *)
Definition holding (h : list mail) (i : nat) (key : string) (st : Stage) : Prop :=
  held st = Some (i, key) /\ hand st = h.

Lemma on_find t st key :
  on t st (⟨lens_id⟩ find_box key) (fun o st' => hand st' = hand st /\
    forall i, o = Some i -> holding (hand st) i key st').
Proof.
  apply staged_section. intros n0 g [s p] e Hn Ht (ow & d & H). unfold find_box. wps. simpl in *.
  destruct (boxes s !! key) as [i|] eqn:Hk.
  - exists (mkStage (Some (i, key)) (hand st)). split; [|split; [done|]; intros; by simplify_eq].
    exists ow, d. apply (ledger_stage _ _ _ _ _ _ st); [done..|]. simpl. intros; simplify_eq.
    by eapply led_boxes.
  - exists st. rewrite list_insert_id by done. split; [by exists ow, d|done].
Qed.

Lemma on_create t st key :
  on t st (⟨lens_id⟩ create_box key) (fun i st' => holding (hand st) i key st').
Proof.
  apply staged_section. intros n0 g [s p] e Hn Ht (ow & d & H). unfold create_box, find_box. wps.
  simpl in *.
  assert (forall ow s i, ledger ow d g s p -> boxes s !! key = Some i ->
    exists ph', balanced (1 + n0) (<[t := ph']> g) (s, p) e /\ holding (hand st) i key ph') as Hgo.
  { intros ow' s' i H' Hk. exists (mkStage (Some (i, key)) (hand st)). split; [|done].
    exists ow', d. apply (ledger_stage _ _ _ _ _ _ st); [done..|]. simpl. intros; simplify_eq.
    by eapply led_boxes. }
  destruct (boxes s !! key) as [i|] eqn:Hk; wps; [by eapply Hgo|].
  eapply Hgo; [by apply ledger_add_box|]. simpl. by rewrite lookup_insert_eq.
Qed.

Lemma on_getOrCreateBox t st key :
  on t st (getOrCreateBox key) (fun i st' => holding (hand st) i key st').
Proof.
  eapply staged_bind; [apply on_find|]. intros [i|] st' [Hh Hf]; [by apply staged_ret, Hf|].
  rewrite <- Hh. apply on_create.
Qed.

(** A section on the box a goroutine holds. *)
Lemma on_the_box t st i k f h' d :
  held st = Some (i, k) ->
  (forall b, max (f b) = max b) ->
  (forall b, max b = M -> hand st ++ tag k (entries b) ≡ₚ h' b ++ tag k (entries (f b)) ++ d b /\
     (d b = [] \/ M < length (to k (hand st ++ tag k (entries b)))) /\
     forall k', k' <> k -> to k' (d b) = []) ->
  forall n g s p e, g !! t = Some st -> balanced n g (s, p) e ->
  exists b, heap s !! i = Some b /\
    balanced (1 + n) (<[t := mkStage (Some (i, k)) (h' b)]> g)
      (mkStore (boxes s) (alter f i (heap s)) (maxPer s) (entrySeq s), p) e.
Proof.
  intros Hst Hmax Hf n g s p e Ht (ow & dr & H). simpl in H.
  pose proof H as [Hl Hm Hp Hb Ho Hh Hs Hd].
  pose proof (Forall_lookup_1 _ _ _ _ Hh Ht i k Hst) as Hi.
  destruct (lookup_lt_is_Some_2 (heap s) i) as [b Hbi];
    [rewrite <- Hl; by eapply lookup_lt_Some|].
  exists b. split; [done|].
  destruct (Hf b) as (Hsum & Hdrop & Hother); [by apply (Forall_lookup_1 _ _ _ _ Hm Hbi)|].
  exists ow, (d b ++ dr). by eapply ledger_box.
Qed.

Lemma on_append t st i k en :
  holding [(k, entry_Envelope en)] i k st ->
  on t st (⟨lens_id⟩ on_box i (append_entry en)) (fun _ st' => holding [] i k st').
Proof.
  intros [Hst Hhand]. apply staged_section. intros n0 g [s p] e Hn Ht H. unfold on_box. wps.
  destruct (on_the_box t st i k (append_entry en) (fun _ => [])
    (fun b => tag k (take (length (entries b ++ [en]) - M) (entries b ++ [en]))) Hst
    ltac:(done)) with n0 g s p e as (b & _ & Hb); try done.
  - intros b Hmax. rewrite Hhand. simpl. rewrite Hmax, cap_drop. split; [|split].
    + set (es := entries b ++ [en]). rewrite Permutation_app_comm, <- tag_app, take_drop.
      unfold es. rewrite tag_app. simpl. solve_Permutation.
    + destruct (decide (length (entries b ++ [en]) <= M)) as [Hle|Hgt].
      * left. by replace (_ - M) with 0 by lia.
      * right. rewrite length_app in Hgt. simpl in Hgt.
        change ((k, entry_Envelope en) :: tag k (entries b)) with (tag k (en :: entries b)).
        rewrite to_tag, decide_True by done. simpl. rewrite length_fmap. lia.
    + intros k' Hk'. by rewrite to_tag, decide_False.
  - by exists (mkStage (Some (i, k)) []).
Qed.

(** A section that keeps the entries. *)
Lemma on_keep t st h i k f :
  holding h i k st -> (forall b, max (f b) = max b /\ entries (f b) = entries b) ->
  on t st (⟨lens_id⟩ on_box i f) (fun _ st' => holding h i k st').
Proof.
  intros [Hst Hhand] Hf. apply staged_section. intros n0 g [s p] e Hn Ht H. unfold on_box. wps.
  destruct (on_the_box t st i k f (fun _ => h) (fun _ => []) Hst (fun b => proj1 (Hf b)))
    with n0 g s p e as (b & _ & Hb); try done.
  - intros b _. rewrite (proj2 (Hf b)), Hhand, app_nil_r. split; [done|]. by split; [left|].
  - by exists (mkStage (Some (i, k)) h).
Qed.

Lemma on_now t st : on t st nowP (fun _ st' => st' = st).
Proof.
  apply staged_read; [done|]. intros n0 g w e _ _. by apply wpA_now.
Qed.

Lemma on_seq t st : on t st (⟨lens_id⟩ next_entry_seq) (fun _ st' => st' = st).
Proof.
  apply staged_section. intros n0 g [s p] e Hn Ht (ow & d & H). unfold next_entry_seq. wps.
  exists st. rewrite list_insert_id by done. split; [|done]. exists ow, d. by apply ledger_seq.
Qed.

Lemma on_Deliver t st key env :
  hand st = [(key, env)] -> on t st (Deliver key env) (fun _ st' => hand st' = []).
Proof.
  intros Hh. eapply staged_bind; [apply on_getOrCreateBox|]. intros i st1 H1. rewrite Hh in H1.
  eapply staged_bind; [apply on_seq|]. intros n st2 ->.
  eapply staged_bind; [apply on_now|]. intros t0 st2 ->.
  eapply staged_bind; [by apply (on_append _ _ _ key (mkEntry (entry_id n) env t0))|].
  intros u st2 H2. eapply staged_mono; [by apply (on_keep _ _ [] i key)|]. intros ? st3 H3. apply H3.
Qed.

(** A drain takes what the box holds, or what of it matches, in its hand. *)
Lemma on_take t st i k (pick : list Entry -> list Entry * list Entry) :
  holding [] i k st -> (forall es, (pick es).1 ++ (pick es).2 ≡ₚ es) ->
  on t st (⟨lens_id⟩ (es ← gets (entries_at i);
                      let '(matched, kept) := pick es in
                      on_box i (fun b => mkBox kept (max b) (changed b)) ;;
                      mret matched))
    (fun es st' => hand st' = tag k es).
Proof.
  intros [Hst Hhand] Hpick. apply staged_section. intros n0 g [s p] e Hn Ht H. wps. simpl in *.
  destruct (on_the_box t st i k (fun b => mkBox (pick (entries b)).2 (max b) (changed b))
    (fun b => tag k (pick (entries b)).1) (fun _ => []) Hst
    ltac:(done)) with n0 g s p e as (b & Hbi & Hb); try done.
  - intros b _. rewrite Hhand, app_nil_r. simpl. rewrite <- tag_app, Hpick. split; [done|].
    by split; [left|].
  - unfold entries_at. rewrite Hbi. destruct (pick (entries b)) as [matched kept] eqn:E.
    unfold on_box. wps. exists (mkStage (Some (i, k)) (tag k matched)). split; [|done].
    rewrite (alter_insert_list _ _ i b Hbi). rewrite (alter_insert_list _ _ i b Hbi) in Hb.
    cbv beta in Hb. by rewrite E in Hb.
Qed.

Lemma on_Drain t st key : hand st = [] -> on t st (Drain key) (fun es st' => hand st' = tag key es).
Proof.
  intros Hh. eapply staged_bind; [apply on_find|]. intros [i|] st' [Hh' Hf].
  - apply (on_take t st' i key (fun es => (es, []))); [rewrite <- Hh; by apply Hf|].
    intros es. simpl. by rewrite app_nil_r.
  - apply staged_ret. by rewrite Hh'.
Qed.

Lemma on_DrainMatching t st key from ty :
  hand st = [] -> on t st (DrainMatching key from ty) (fun es st' => hand st' = tag key es).
Proof.
  intros Hh. eapply staged_bind; [apply on_find|]. intros [i|] st' [Hh' Hf].
  - apply (on_take t st' i key (split_entries from ty)); [rewrite <- Hh; by apply Hf|].
    apply split_entries_perm.
  - apply staged_ret. by rewrite Hh'.
Qed.

Lemma on_await t st h i k t0 sleep :
  holding h i k st -> on t st (⟨lens_id⟩ await i t0 sleep) (fun _ st' => holding h i k st').
Proof.
  intros [Hst Hhand]. apply staged_section. intros n0 g [s p] e Hn Ht H. unfold await. wps. simpl in *.
  assert (forall s' e', s' = s -> wpA (sleep_until (t0 + sleep)) (fun _ s'' e'' =>
    exists ph', balanced (1 + n0) (<[t := ph']> g) (s'', p) e'' /\ holding h i k ph') s' e') as Hsleep.
  { intros s' e' ->. apply wpA_sleep. intros e2 _ _. exists st. by rewrite list_insert_id. }
  eapply (wpA_mono _ (fun _ s' _ => s' = s)).
  { destruct (heap s !! i) as [b|]; [destruct (changed b)|]; wps; [by apply wpA_flip|done..]. }
  intros [] s' e' ->; [|by apply Hsleep]. unfold on_box. wps.
  destruct (on_the_box t st i k (fun b => mkBox (entries b) (max b) false) (fun _ => h)
    (fun _ => []) Hst ltac:(done)) with n0 g s p e' as (b & _ & Hb); try done.
  - intros b _. rewrite Hhand, app_nil_r. split; [done|]. by split; [left|].
  - by exists (mkStage (Some (i, k)) h).
Qed.

Lemma on_drain_loop fuel t st key from ty deadline :
  hand st = [] ->
  on t st (drain_loop fuel key from ty deadline) (fun r st' => hand st' = tag key (default [] r)).
Proof.
  revert st. induction fuel as [|fuel IH]; intros st Hst; cbn [drain_loop]; [by apply staged_ret|].
  eapply staged_bind; [by apply on_DrainMatching|]. intros es st1 H1.
  case_bool_decide as Hes; [by apply staged_ret|].
  assert (es = []) as -> by (destruct es; [done|]; by destruct Hes).
  eapply staged_bind; [apply on_now|]. intros now0 st2 ->. destruct (_ <=? 0)%Z; [by apply staged_ret|].
  eapply staged_bind; [apply on_getOrCreateBox|]. intros i st2 H2. rewrite H1 in H2.
  eapply staged_bind; [apply on_now|]. intros now1 st3 ->.
  eapply staged_bind; [by apply on_await|]. intros [] st3 [_ H3]. by apply IH.
Qed.

Lemma on_DrainMatchingWait fuel t st key from ty wait :
  hand st = [] ->
  on t st (DrainMatchingWait fuel key from ty wait)
    (fun r st' => hand st' = tag key (default [] r)).
Proof.
  intros Hst. eapply staged_bind; [apply on_now|]. intros t0 st' ->. by apply on_drain_loop.
Qed.

Lemma on_Len t st key : hand st = [] -> on t st (Len key) (fun _ st' => hand st' = []).
Proof.
  intros Hh. eapply staged_bind; [apply on_find|]. intros [i|] st' [Hh' _].
  - apply staged_section. intros n0 g [s p] e Hn Ht H. wps. exists st'. rewrite list_insert_id by done.
    split; [done|congruence].
  - apply staged_ret. congruence.
Qed.

(** The logs. *)
Lemma on_log_received t st ms :
  hand st = ms ->
  staged lim balanced lens_id t st (⟨lens_snd⟩ log_received ms) (fun _ st' => hand st' = []).
Proof.
  intros <- n0 g [s p] e Hn Ht (ow & d & H). apply wpA_zoom. unfold log_received. wps.
  exists (mkStage (held st) []). split; [|done]. exists ow, d. simpl in *. by eapply ledger_receive.
Qed.

Lemma on_log_sent t st m :
  hand st = [] ->
  staged lim balanced lens_id t st (⟨lens_snd⟩ log_sent m) (fun _ st' => hand st' = [m]).
Proof.
  intros Hst n0 g [s p] e Hn Ht (ow & d & H). apply wpA_zoom. unfold log_sent. wps.
  exists (mkStage (held st) [m]). split; [|done]. exists ow, d. simpl in *. by eapply ledger_send.
Qed.

Lemma on_shrink t st f :
  deleting = true -> (forall m : gmap string nat, f m ⊆ m) -> hand st = [] ->
  staged lim balanced lens_id t st (⟨lens_fst⟩ (modify (set_boxes f))) (fun _ st' => hand st' = []).
Proof.
  intros Hdel Hf Hst n0 g [s p] e Hn Ht (ow & d & H). apply wpA_zoom. wps. exists st.
  rewrite list_insert_id by done. split; [|done]. exists ow, d. simpl in *. by apply ledger_shrink.
Qed.

Lemma on_perform t a :
  (deletes a = true -> deleting = true) ->
  staged lim balanced lens_id t idle (perform a) (fun _ st' => hand st' = []).
Proof.
  intros Hdel. destruct a as [key env|key|key from ty|fuel key from ty wait|key|key|sid]; cbn [perform].
  - eapply staged_bind; [by apply on_log_sent|]. intros u st Hst.
    apply staged_within. by apply on_Deliver.
  - eapply staged_bind; [by apply staged_within, on_Drain|]. intros. by apply on_log_received.
  - eapply staged_bind; [by apply staged_within, on_DrainMatching|]. intros.
    by apply on_log_received.
  - eapply staged_bind; [apply staged_within; by apply on_DrainMatchingWait|]. intros.
    by apply on_log_received.
  - eapply staged_bind; [by apply staged_within, on_Len|]. intros n st Hst. by apply staged_ret.
  - apply on_shrink; [auto|intros m; apply delete_subseteq|done].
  - apply on_shrink; [auto|intros m; apply map_filter_subseteq|done].
Qed.
End Ledger.

(** ** The theorem *)

Lemma stored_other key ow hs : key ∉ ow -> to key (zip ow hs ≫= boxed) = [].
Proof.
  revert hs. induction ow as [|k ow IH]; intros [|b hs] Hk; try done.
  apply not_elem_of_cons in Hk as [Hk Hks].
  change (to key (boxed (k, b) ++ (zip ow hs ≫= boxed)) = []).
  rewrite to_app, IH by done. unfold boxed. simpl. by rewrite to_tag, decide_False.
Qed.

(** A key's mail is in its one box, as long as no box has been deleted. *)
Lemma stored_queue M ow d g s p key :
  ledger false M ow d g s p -> to key (stored ow s) = entry_Envelope <$> queue s key.
Proof.
  intros [Hl _ _ Hb Ho _ _ _]. unfold stored, queue, entries_at.
  destruct (boxes s !! key) as [i|] eqn:Hk.
  - pose proof (Hb key i Hk) as Hi.
    destruct (lookup_lt_is_Some_2 (heap s) i) as [b Hbi]; [rewrite <- Hl; by eapply lookup_lt_Some|].
    rewrite Hbi. rewrite <- (take_drop_middle ow i key Hi), <- (take_drop_middle _ i b Hbi).
    assert (length (take i ow) = length (take i (heap s))) as Hlen by (rewrite !length_take; lia).
    assert (key ∉ take i ow) as Hn1.
    { intros [j Hj]%list_elem_of_lookup. apply lookup_take_Some in Hj as [Hj Hlt].
      apply Ho in Hj; [|done]. rewrite Hk in Hj. injection Hj. lia. }
    assert (key ∉ drop (S i) ow) as Hn2.
    { intros [j Hj]%list_elem_of_lookup. rewrite lookup_drop in Hj.
      apply Ho in Hj; [|done]. rewrite Hk in Hj. injection Hj. lia. }
    rewrite zip_with_app, bind_app, to_app, stored_other by done.
    change (to key (boxed (key, b) ++ (zip (drop (S i) ow) (drop (S i) (heap s)) ≫= boxed)) =
      entry_Envelope <$> entries b).
    rewrite to_app, stored_other by done. unfold boxed. simpl.
    by rewrite app_nil_r, to_tag, decide_True.
  - apply stored_other. intros [j Hj]%list_elem_of_lookup. apply Ho in Hj; [|done]. congruence.
Qed.

(** What waits for an agent is in a box made for it. *)
Lemma queue_stored deleting M ow d g s p key :
  ledger deleting M ow d g s p -> entry_Envelope <$> queue s key ⊆+ to key (stored ow s).
Proof.
  intros [Hl _ _ Hb _ _ _ _]. unfold stored, queue, entries_at.
  destruct (boxes s !! key) as [i|] eqn:Hk; [|apply submseteq_nil_l].
  pose proof (Hb key i Hk) as Hi.
  destruct (heap s !! i) as [b|] eqn:Hbi; [|apply submseteq_nil_l].
  assert (zip ow (heap s) !! i = Some (key, b)) as Hz
    by (by rewrite lookup_zip_with, Hi; simpl; rewrite Hbi).
  rewrite (bind_split boxed _ i _ Hz), to_app. unfold boxed at 1. simpl.
  rewrite to_tag, decide_True by done. by apply submseteq_inserts_r.
Qed.

Lemma ledger_start deleting m : exists M, M = maxPer (NewStore m) /\
  ledger deleting M [] [] [] (NewStore m) (mkPost [] []).
Proof.
  eexists. split; [done|]. by split.
Qed.

(** C6: Mail is conserved whatever runs beside it. However many goroutines send, drain, wait and
    (if [deleting]) delete boxes at once, and however the scheduler interleaves their locked
    sections: what an agent has received, with what waits for it, is at every moment part of
    what was sent to it, each message counted as often as it was sent, so that no message is
    delivered twice and none is invented. When no box is deleted, at most a box's bound was
    sent to the agent and every goroutine has returned, it is all of it: nothing is lost. *)
Theorem mail_conserved deleting (m : Z) n e P key :
  nsteps (pool_step (actor deleting)) n (mkPool (NewStore m, mkPost [] []) e []) P ->
  let s := (p_world P).1 in
  let got := to key (received (p_world P).2) ++ (entry_Envelope <$> queue s key) in
  let all := to key (sent (p_world P).2) in
  got ⊆+ all /\
  (deleting = false -> Forall (fun p => p = Ret tt) (p_threads P) ->
   length all <= maxPer (NewStore m) -> got ≡ₚ all).
Proof.
  intros Hrun. destruct (ledger_start deleting m) as (M & HM & H0).
  destruct (pool_staged n (balanced deleting M) (actor deleting) idle (fun _ st => hand st = [])
    (mkPool (NewStore m, mkPost [] []) e []) P n 0 []) as (g & (ow & d & H) & Hall); [| |exact Hrun|lia|..].
  - intros n0 g w e' _ (ow & d & H). exists ow, d. destruct H. split; try done.
    + apply Forall_app. split; [done|]. by apply Forall_singleton.
    + rewrite bind_app. simpl. by rewrite !app_nil_r.
  - intros t p (a & -> & Ha). by apply on_perform.
  - by exists [], [].
  - split; [done|]. intros i p ph Hi. done.
  - intros s got all. unfold all. rewrite (led_sum _ _ _ _ _ _ _ H), !to_app. split.
    + unfold got. apply submseteq_app; [done|]. etrans; [by eapply queue_stored|].
      apply submseteq_inserts_l, submseteq_inserts_r. done.
    + intros -> Hdone Hle. unfold got. rewrite <- (stored_queue _ _ _ _ _ _ _ H).
      rewrite (led_drop _ _ _ _ _ _ _ H key), app_nil_r.
      * assert (g ≫= hand = []) as ->; [|reflexivity].
        apply all_staged_finished in Hall; [|done]. clear -Hall.
        induction Hall as [|st g Hst _ IH]; [done|]. change (hand st ++ (g ≫= hand) = []).
        by rewrite Hst, IH.
      * by rewrite HM, (led_sum _ _ _ _ _ _ _ H), !to_app.
Qed.
