(* ===== verification/Hub.v ===== *)
(** * internal/hub: sequencing, fan-out, presence and leadership

    [Hub] is hub.go's struct with its collaborators inside it; a lens per collaborator gives
    each call its own critical section, so every method is the program of its sections in
    order. [history] and [seqNums] are guarded by the hub's own mutex. The real-time fan-out
    is the interface [Notifier]: its state is [notifier], [None] until [SetNotifier]. Log
    lines (slog) and the queue length they print are left out: they change no state. *)

From S2P Require Import Prelude Json Protocol.
From S2P Require Leader Scratchpad Session Filestore Presence Mailbox.

#[local] Open Scope Z_scope.

(** What the hub asks of the real-time fan-out: it takes an envelope without blocking. *)
Class Notifier (N : Type) := {
  notify : string -> Envelope -> Atom N unit;
  notify_later sid env n e : wpA (notify sid env) (fun _ _ e' => e ≼ e') n e;
}.

Record Hub (N : Type) := mkHub {
  sessionStore : Session.Store;
  leader : Leader.Tracker;
  scratchpad : Scratchpad.Store;
  files : Filestore.Store;
  presence : Presence.Tracker;
  mailboxes : Mailbox.Store;
  history : gmap string (list Envelope);
  maxHistory : nat;
  sweepInterval : Duration;
  seqNums : gmap string Z;
  debugLog : bool;
  notifier : option N;
}.
Arguments mkHub {N} _ _ _ _ _ _ _ _ _ _ _ _.
Arguments sessionStore {N} _.
Arguments leader {N} _.
Arguments scratchpad {N} _.
Arguments files {N} _.
Arguments presence {N} _.
Arguments mailboxes {N} _.
Arguments history {N} _.
Arguments maxHistory {N} _.
Arguments sweepInterval {N} _.
Arguments seqNums {N} _.
Arguments debugLog {N} _.
Arguments notifier {N} _.

Ltac hub_lens f g := refine (mkLens f g _ _ _); [done|by intros []|done].

Definition the_sessions {N} : Lens (Hub N) Session.Store.
Proof.
  hub_lens (@sessionStore N) (fun x (h : Hub N) =>
    mkHub x (leader h) (scratchpad h) (files h) (presence h) (mailboxes h) (history h)
      (maxHistory h) (sweepInterval h) (seqNums h) (debugLog h) (notifier h)).
Defined.
Definition the_leader {N} : Lens (Hub N) Leader.Tracker.
Proof.
  hub_lens (@leader N) (fun x (h : Hub N) =>
    mkHub (sessionStore h) x (scratchpad h) (files h) (presence h) (mailboxes h) (history h)
      (maxHistory h) (sweepInterval h) (seqNums h) (debugLog h) (notifier h)).
Defined.
Definition the_scratchpad {N} : Lens (Hub N) Scratchpad.Store.
Proof.
  hub_lens (@scratchpad N) (fun x (h : Hub N) =>
    mkHub (sessionStore h) (leader h) x (files h) (presence h) (mailboxes h) (history h)
      (maxHistory h) (sweepInterval h) (seqNums h) (debugLog h) (notifier h)).
Defined.
Definition the_files {N} : Lens (Hub N) Filestore.Store.
Proof.
  hub_lens (@files N) (fun x (h : Hub N) =>
    mkHub (sessionStore h) (leader h) (scratchpad h) x (presence h) (mailboxes h) (history h)
      (maxHistory h) (sweepInterval h) (seqNums h) (debugLog h) (notifier h)).
Defined.
Definition the_presence {N} : Lens (Hub N) Presence.Tracker.
Proof.
  hub_lens (@presence N) (fun x (h : Hub N) =>
    mkHub (sessionStore h) (leader h) (scratchpad h) (files h) x (mailboxes h) (history h)
      (maxHistory h) (sweepInterval h) (seqNums h) (debugLog h) (notifier h)).
Defined.
Definition the_mailboxes {N} : Lens (Hub N) Mailbox.Store.
Proof.
  hub_lens (@mailboxes N) (fun x (h : Hub N) =>
    mkHub (sessionStore h) (leader h) (scratchpad h) (files h) (presence h) x (history h)
      (maxHistory h) (sweepInterval h) (seqNums h) (debugLog h) (notifier h)).
Defined.
Definition the_notifier {N} : Lens (Hub N) (option N).
Proof.
  hub_lens (@notifier N) (fun (x : option N) (h : Hub N) =>
    mkHub (sessionStore h) (leader h) (scratchpad h) (files h) (presence h) (mailboxes h)
      (history h) (maxHistory h) (sweepInterval h) (seqNums h) (debugLog h) x).
Defined.

(** The message log: what the hub's own mutex guards, with the bound it is kept to. *)
Record Log := mkLog {
  log_history : gmap string (list Envelope);
  log_seqNums : gmap string Z;
  log_max : nat;
}.

Definition the_log {N} : Lens (Hub N) Log.
Proof.
  refine (mkLens (fun h => mkLog (history h) (seqNums h) (maxHistory h)) (fun x (h : Hub N) =>
    mkHub (sessionStore h) (leader h) (scratchpad h) (files h) (presence h) (mailboxes h)
      (log_history x) (log_max x) (sweepInterval h) (log_seqNums x) (debugLog h) (notifier h))
    _ _ _); [by intros []|by intros []|done].
Defined.

Definition defaultMaxHistory : nat := 100.

(** [Deps], and the options [New] applies to a hub it has just built. *)
Record Deps := mkDeps {
  d_SessionStore : Session.Store;
  d_Leader : Leader.Tracker;
  d_Scratchpad : Scratchpad.Store;
  d_Files : Filestore.Store;
  d_Presence : Presence.Tracker;
  d_Mailboxes : Mailbox.Store;
}.

Definition WithMaxHistory {N} (n : nat) (h : Hub N) : Hub N :=
  put the_log (mkLog (history h) (seqNums h) n) h.
Definition WithDebugLog {N} (debug : bool) (h : Hub N) : Hub N :=
  mkHub (sessionStore h) (leader h) (scratchpad h) (files h) (presence h) (mailboxes h)
    (history h) (maxHistory h) (sweepInterval h) (seqNums h) debug (notifier h).
Definition WithSweepInterval {N} (d : Duration) (h : Hub N) : Hub N :=
  mkHub (sessionStore h) (leader h) (scratchpad h) (files h) (presence h) (mailboxes h)
    (history h) (maxHistory h) d (seqNums h) (debugLog h) (notifier h).

(** [New]; the sweep it starts is [hub_sweep] below. *)
Definition New {N} (d : Deps) (opts : list (Hub N -> Hub N)) : Hub N :=
  foldl (fun h opt => opt h)
    (mkHub (d_SessionStore d) (d_Leader d) (d_Scratchpad d) (d_Files d) (d_Presence d)
       (d_Mailboxes d) ∅ defaultMaxHistory (15 * second) ∅ false None) opts.

Section Hub.
Context {N : Type} `{!Notifier N}.
Abbreviation H := (Hub N).

Definition SetNotifier (n : N) : Atom H unit := zoom the_notifier (modify (fun _ => Some n)).

Definition notify_opt (sessionID : string) (env : Envelope) : Atom (option N) unit := fun o e =>
  match o with
  | None => (tt, None, e)
  | Some n => let '(_, n', e') := notify sessionID env n e in (tt, Some n', e')
  end.

Definition notifyWatchers (sessionID : string) (env : Envelope) : prog H unit :=
  ⟨the_notifier⟩ notify_opt sessionID env.

(** [h.seqNums[sessionID]++; env.Sequence = h.seqNums[sessionID]] *)
Definition bumped (sessionID : string) (l : Log) : Z :=
  int64 (default 0 (log_seqNums l !! sessionID) + 1).

Definition recordEnvelope (sessionID : string) (env : Envelope) : Atom Log Envelope :=
  n ← gets (bumped sessionID);
  let env' := with_Sequence n env in
  modify (fun l =>
    mkLog (<[sessionID :=
               cap (log_max l) (default [] (log_history l !! sessionID) ++ [env'])]>
             (log_history l))
          (<[sessionID := n]> (log_seqNums l)) (log_max l)) ;;
  mret env'.

Definition sequenceEnvelope (sessionID : string) (env : Envelope) : Atom Log Envelope :=
  n ← gets (bumped sessionID);
  modify (fun l => mkLog (log_history l) (<[sessionID := n]> (log_seqNums l)) (log_max l)) ;;
  mret (with_Sequence n env).

Definition mailbox_key (sessionID agentID : string) : string := join_key sessionID agentID.

Definition deliverToAgentMailbox (sessionID agentID : string) (env : Envelope) : prog H unit :=
  ⟪the_mailboxes⟫ Mailbox.Deliver (mailbox_key sessionID agentID) env.

(** The loop of [deliverToSessionMailboxes]. *)
Fixpoint deliver_each (sessionID : string) (env : Envelope) (excludeAgent : string)
    (agents : list AgentInfo) (delivered : nat) : prog H nat :=
  match agents with
  | [] => mret delivered
  | a :: agents' =>
      if bool_decide (info_AgentID a <> excludeAgent) then
        deliverToAgentMailbox sessionID (info_AgentID a) env ;;
        deliver_each sessionID env excludeAgent agents' (S delivered)
      else deliver_each sessionID env excludeAgent agents' delivered
  end.

Definition deliverToSessionMailboxes (sessionID : string) (env : Envelope)
    (excludeAgent : string) : prog H nat :=
  agents ← ⟨the_presence⟩ Presence.GetAgents sessionID;
  deliver_each sessionID env excludeAgent (default [] agents) 0.

Definition emitSystemEvent (sessionID : string) (env : Envelope) (excludeAgent : string)
    : prog H unit :=
  env' ← ⟨the_log⟩ sequenceEnvelope sessionID env;
  deliverToSessionMailboxes sessionID env' excludeAgent ;;
  notifyWatchers sessionID env'.

Definition emitAmbientEvent (sessionID : string) (env : Envelope) : prog H unit :=
  env' ← ⟨the_log⟩ sequenceEnvelope sessionID env;
  notifyWatchers sessionID env'.

(** An event literal, its timestamp read from the clock. *)
Definition event (ty sessionID from : string) (payload : json) : prog H Envelope :=
  t ← nowP; mret (mkEnvelope ty "" sessionID from "*" (Some payload) 0 t).

Definition touch_activity (sessionID : string) : prog H unit :=
  t ← nowP; ⟨the_sessions⟩ Session.TouchActivity sessionID t ;; mret tt.

Definition Register (sessionID agentID : string) (capabilities : slice string) : prog H bool :=
  known ← ⟨the_presence⟩ Presence.WasPresent sessionID agentID;
  live ← ⟨the_presence⟩ Presence.IsPresent sessionID agentID;
  isNew ← ⟨the_presence⟩ Presence.Touch sessionID agentID capabilities;
  let info := AgentInfo_json (mkAgentInfo agentID capabilities true) in
  (if (known && negb live) then
     touch_activity sessionID ;;
     env ← event TypeAgentReconnected sessionID "server" info;
     emitAmbientEvent sessionID env
   else mret tt) ;;
  (if (isNew : bool) then
     touch_activity sessionID ;;
     env ← event TypeAgentJoined sessionID "server" info;
     emitAmbientEvent sessionID env ;;
     hasLeader ← ⟨the_leader⟩ Leader.GetLeader sessionID;
     match hasLeader with
     | None => ⟨the_leader⟩ Leader.SetInitialLeader sessionID agentID
     | Some _ => mret tt
     end
   else mret tt) ;;
  mret isNew.

Definition RefreshPresence (sessionID agentID : string) : prog H unit :=
  ⟨the_presence⟩ Presence.Touch sessionID agentID None ;;
  touch_activity sessionID.

(** [for _, a := range agents { if a.Online { newLeader = a.AgentID; break } }] *)
Fixpoint first_online (agents : list AgentInfo) : string :=
  match agents with
  | [] => ""
  | a :: agents' => if Online a then info_AgentID a else first_online agents'
  end.

Definition onAgentWentOffline (sessionID agentID : string) (capabilities : slice string)
    : prog H unit :=
  leaderID ← ⟨the_leader⟩ Leader.GetLeader sessionID;
  if bool_decide (leaderID = Some agentID) then
    agents ← ⟨the_presence⟩ Presence.GetAgents sessionID;
    let newLeader := first_online (default [] agents) in
    if bool_decide (newLeader <> "") then
      ⟨the_leader⟩ Leader.Transfer sessionID agentID newLeader ;;
      env ← event TypeLeaderInfo sessionID "server" (strmap_json [("leader_id", newLeader)]);
      emitSystemEvent sessionID env ""
    else ⟨the_leader⟩ Leader.ClearSession sessionID
  else mret tt.

(** The [onForget] hook [New] installs. *)
Definition onForget (sessionID agentID : string) (capabilities : slice string) : prog H unit :=
  env ← event TypeAgentLeft sessionID "server"
          (AgentInfo_json (mkAgentInfo agentID capabilities false));
  emitAmbientEvent sessionID env ;;
  ⟨the_mailboxes⟩ Mailbox.DeleteBox (mailbox_key sessionID agentID).

(** One tick of the sweep [New] starts. *)
Definition hub_sweep : prog H unit :=
  Presence.sweep the_presence onAgentWentOffline onForget.

Definition PeekMailbox (sessionID agentID : string) : prog H nat :=
  ⟨the_presence⟩ Presence.Touch sessionID agentID None ;;
  ⟪the_mailboxes⟫ Mailbox.Len (mailbox_key sessionID agentID).

Definition DrainMailbox (sessionID agentID : string) : prog H (list Mailbox.Entry) :=
  ⟨the_presence⟩ Presence.Touch sessionID agentID None ;;
  ⟪the_mailboxes⟫ Mailbox.Drain (mailbox_key sessionID agentID).

(** [None] while the wait goes on ([fuel] bounds its rounds). *)
Definition DrainMailboxFiltered (fuel : nat) (sessionID agentID : string) (wait : Duration)
    (from msgType : string) : prog H (option (list Mailbox.Entry)) :=
  ⟨the_presence⟩ Presence.Touch sessionID agentID None ;;
  let key := mailbox_key sessionID agentID in
  if (wait <=? 0) && bool_decide (from = "") && bool_decide (msgType = "") then
    es ← ⟪the_mailboxes⟫ Mailbox.Drain key; mret (Some es)
  else ⟪the_mailboxes⟫ Mailbox.DrainMatchingWait fuel key from msgType wait.

Definition errToRequired : string := "'to' is required".
Definition errNoAgent (to : string) : string :=
  "no agent " +:+ quote to +:+ " in this channel — they may be in a different channel; call list_agents to see current members".

(** [for _, a := range agents { if a.AgentID == to { known = a; found = true; break } }] *)
Fixpoint find_agent (to : string) (agents : list AgentInfo) : option AgentInfo :=
  match agents with
  | [] => None
  | a :: agents' => if bool_decide (info_AgentID a = to) then Some a else find_agent to agents'
  end.

Definition SendMessage (sessionID from to msgType : string) (payload : option RawMessage)
    : prog H (result unit) :=
  if bool_decide (to = "") then mret (Err errToRequired)
  else
    agents ← ⟨the_presence⟩ Presence.GetAgents sessionID;
    match find_agent to (default [] agents) with
    | None => mret (Err (errNoAgent to))
    | Some _ =>
        t ← nowP;
        env ← ⟨the_log⟩ recordEnvelope sessionID
                (mkEnvelope msgType "" sessionID from to payload 0 t);
        deliverToAgentMailbox sessionID to env ;;
        notifyWatchers sessionID env ;;
        mret (Ok tt)
    end.

Definition Broadcast (sessionID from msgType : string) (payload : option RawMessage)
    : prog H nat :=
  t ← nowP;
  env ← ⟨the_log⟩ recordEnvelope sessionID
          (mkEnvelope msgType "" sessionID from "*" payload 0 t);
  n ← deliverToSessionMailboxes sessionID env from;
  notifyWatchers sessionID env ;;
  mret n.

Definition errKeyRequired : string := "key is required".
Definition errKeyNotFound (key : string) : string := "key not found: " +:+ key.

Definition ScratchpadSet (sessionID agentID key : string) (value : option RawMessage)
    : prog H (result ScratchpadEntry) :=
  if bool_decide (key = "") then mret (Err errKeyRequired)
  else
    entry ← ⟨the_scratchpad⟩ Scratchpad.Set_ sessionID key value agentID;
    env ← event TypeScratchpadUpdate sessionID agentID (ScratchpadEntry_json entry);
    emitSystemEvent sessionID env agentID ;;
    mret (Ok entry).

Definition ScratchpadGet (sessionID key : string) : prog H (result ScratchpadEntry) :=
  found ← ⟨the_scratchpad⟩ Scratchpad.Get sessionID key;
  mret (match found with
        | None => Err (errKeyNotFound key)
        | Some entry => Ok entry
        end).

Definition ScratchpadDelete (sessionID agentID key : string) : prog H (result unit) :=
  ok ← ⟨the_scratchpad⟩ Scratchpad.Delete sessionID key;
  if negb ok then mret (Err (errKeyNotFound key))
  else
    env ← event TypeScratchpadUpdate sessionID agentID
            (strmap_json [("deleted", "true"); ("key", key)]);
    emitSystemEvent sessionID env agentID ;;
    mret (Ok tt).

Definition ScratchpadList (sessionID : string) : prog H (slice ScratchpadEntry) :=
  ⟨the_scratchpad⟩ Scratchpad.List_ sessionID.

Definition errNotLeader : string := "only the current leader can transfer leadership".
Definition errAgentNotFound (a : string) : string := "agent not found in session: " +:+ a.
Definition errTransferFailed : string := "leadership transfer failed".

Definition LeaderTransfer (sessionID fromAgent newLeaderID : string) : prog H (result unit) :=
  currentLeader ← ⟨the_leader⟩ Leader.GetLeader sessionID;
  if bool_decide (default "" currentLeader <> fromAgent) then mret (Err errNotLeader)
  else
    present ← ⟨the_presence⟩ Presence.IsPresent sessionID newLeaderID;
    if negb present then mret (Err (errAgentNotFound newLeaderID))
    else
      ok ← ⟨the_leader⟩ Leader.Transfer sessionID fromAgent newLeaderID;
      if negb ok then mret (Err errTransferFailed)
      else
        env ← event TypeLeaderInfo sessionID "server"
                (strmap_json [("leader_id", newLeaderID); ("transferred_by", fromAgent)]);
        emitSystemEvent sessionID env fromAgent ;;
        mret (Ok tt).

Definition GetFiles (sessionID : string) : prog H (slice Filestore.File) :=
  ⟨the_files⟩ Filestore.List_ sessionID.
Definition StoreFile (sessionID filename contentType uploadedBy : string) (data : list byte)
    : prog H (result Filestore.File) :=
  ⟨the_files⟩ Filestore.Store_ sessionID filename contentType uploadedBy data.
Definition GetFile (sessionID fileID : string) : prog H (option Filestore.File) :=
  ⟨the_files⟩ Filestore.Get sessionID fileID.
Definition DeleteFile (sessionID fileID : string) : prog H bool :=
  ⟨the_files⟩ Filestore.Delete sessionID fileID.
Definition GetSessionAgents (sessionID : string) : prog H (slice AgentInfo) :=
  ⟨the_presence⟩ Presence.GetAgents sessionID.

Definition GetHistory (sessionID : string) : prog H (list Envelope) :=
  ⟨the_log⟩ (gets (fun l => default [] (log_history l !! sessionID))).

(** The loop of [GetHistoryAfter]. *)
Fixpoint history_after (afterSeq limit : Z) (out l : list Envelope) : list Envelope :=
  match l with
  | [] => out
  | e :: l' =>
      let out' := if afterSeq <? Sequence e then out ++ [e] else out in
      if limit <=? Z.of_nat (length out') then out' else history_after afterSeq limit out' l'
  end.

Definition GetHistoryAfter (sessionID : string) (afterSeq limit : Z) : prog H (list Envelope) :=
  ⟨the_log⟩ (gets (fun l =>
    let limit' := if limit <=? 0 then Z.of_nat (log_max l) else limit in
    history_after afterSeq limit' [] (default [] (log_history l !! sessionID)))).

Definition GetScratchpad (sessionID : string) : prog H (slice ScratchpadEntry) :=
  ⟨the_scratchpad⟩ Scratchpad.List_ sessionID.

Definition HistorySnapshot : prog H (gmap string (list Envelope)) :=
  ⟨the_log⟩ (gets log_history).
Definition SeqSnapshot : prog H (gmap string Z) := ⟨the_log⟩ (gets log_seqNums).

(** [for sid, seq := range seqNums { if seq > h.seqNums[sid] { h.seqNums[sid] = seq } }] *)
Definition raise_seq (m : gmap string Z) (kv : string * Z) : gmap string Z :=
  if default 0 (m !! kv.1) <? kv.2 then <[kv.1 := kv.2]> m else m.

Definition RestoreState (hist : gmap string (list Envelope)) (seqs : gmap string Z)
    : prog H unit :=
  ⟨the_log⟩ (kvs ← range (map_to_list seqs);
             modify (fun l => mkLog (hist ∪ log_history l) (foldl raise_seq (log_seqNums l) kvs)
                                (log_max l))).

Definition GetLeader (sessionID : string) : prog H string :=
  id_ ← ⟨the_leader⟩ Leader.GetLeader sessionID; mret (default "" id_).

Definition CloseSession (sessionID : string) : prog H unit :=
  ⟨the_log⟩ (modify (fun l => mkLog (delete sessionID (log_history l))
                                (delete sessionID (log_seqNums l)) (log_max l))) ;;
  ⟨the_presence⟩ Presence.ClearSession sessionID ;;
  ⟨the_leader⟩ Leader.ClearSession sessionID ;;
  ⟨the_scratchpad⟩ Scratchpad.ClearSession sessionID ;;
  ⟨the_files⟩ Filestore.ClearSession sessionID ;;
  ⟨the_mailboxes⟩ Mailbox.DeleteSession sessionID.

(** The body of the janitor's loop for one session of the snapshot. *)
Definition reap_one (cutoff : Time) (sess : Session.Session) : prog H unit :=
  if cutoff <? Session.LastActive sess then mret tt
  else
    ok ← ⟨the_sessions⟩ Session.Delete (Session.ID sess);
    if negb ok then mret tt else CloseSession (Session.ID sess).

Definition reapStaleSessions (retention : Duration) : prog H unit :=
  t ← nowP;
  sessions ← ⟨the_sessions⟩ Session.Snapshot;
  for_each sessions (reap_one (t - retention)).

(** What the goroutine [StartJanitor] starts runs on every tick; [None] when it starts none. *)
Definition StartJanitor (retention : Duration) : option (prog H unit) :=
  if retention <=? 0 then None else Some (reapStaleSessions retention).
End Hub.

(** ** Specifications of the building blocks *)

(** [notified o evs o']: the fan-out, in state [o], was handed the events [evs] one after the
    other and is now in state [o']. *)
Inductive notified {N} `{!Notifier N} :
    option N -> list (string * Envelope) -> option N -> Prop :=
| notified_unset evs : notified None evs None
| notified_nil n : notified (Some n) [] (Some n)
| notified_cons n sid env evs e n1 e1 o :
    notify sid env n e = (tt, n1, e1) -> notified (Some n1) evs o ->
    notified (Some n) ((sid, env) :: evs) o.

(** A fan-out that keeps what it is given, to state what is emitted. *)
#[export] Instance Recorder : Notifier (list (string * Envelope)).
Proof.
  refine {| notify := fun sid env => modify (fun l => l ++ [(sid, env)]) |}.
  intros. by apply wpA_modify.
Defined.

Lemma notified_recorder l evs o :
  notified (Some l) evs o -> o = Some (l ++ evs).
Proof.
  intros Hn. remember (Some l) as ol eqn:Hl. revert l Hl.
  induction Hn as [|n|n sid env evs e n1 e1 o H1 _ IH]; intros l Hl; [done|..]; simplify_eq.
  - by rewrite app_nil_r.
  - injection H1 as <- <-. rewrite (IH _ eq_refl). by rewrite <- app_assoc.
Qed.

(** [fanout s keys env s']: [env] was appended once to the queue under each of [keys], each
    queue capped, and no other queue changed. *)
Record fanout (s : Mailbox.Store) (keys : list string) (env : Envelope) (s' : Mailbox.Store)
    : Prop := mkFanout {
  fan_in k : k ∈ keys -> exists en, Mailbox.entry_Envelope en = env /\
    Mailbox.queue s' k = cap (Mailbox.maxPer s) (Mailbox.queue s k ++ [en]);
  fan_out k : k ∉ keys -> Mailbox.queue s' k = Mailbox.queue s k;
  fan_max : Mailbox.maxPer s' = Mailbox.maxPer s;
  fan_wf : Mailbox.wf s';
}.

Lemma fanout_nil s env : Mailbox.wf s -> fanout s [] env s.
Proof. intros Hwf. split; set_solver. Qed.

Lemma fanout_cons s k keys env en s1 s' :
  k ∉ keys -> Mailbox.entry_Envelope en = env ->
  Mailbox.requeue s k (cap (Mailbox.maxPer s) (Mailbox.queue s k ++ [en])) s1 ->
  fanout s1 keys env s' -> fanout s (k :: keys) env s'.
Proof.
  intros Hk Hen (H1 & H2 & H3 & H4) [F1 F2 F3 F4]. split; [| |by rewrite F3|done].
  - intros k' [->|Hk']%elem_of_cons.
    + exists en. split; [done|]. by rewrite F2, H1.
    + destruct (F1 k' Hk') as (en' & ? & Hq). exists en'. split; [done|].
      rewrite Hq, H3, H2; [done|]. by intros ->.
  - intros k' [Hne Hk']%not_elem_of_cons. by rewrite F2, H2.
Qed.

Section HubSpec.
Context {N : Type} `{!Notifier N}.
Abbreviation H := (Hub N).
Implicit Types (h : H) (e : Env).

Lemma hub_notifyWatchers_wp sid env (Q : unit -> H -> Env -> Prop) h e :
  (forall o e', e ≼ e' -> notified (notifier h) [(sid, env)] o -> Q tt (put the_notifier o h) e') ->
  wp (notifyWatchers sid env) Q h e.
Proof.
  intros HQ. unfold notifyWatchers. wps. unfold wpA, notify_opt. simpl.
  destruct (notifier h) as [n|] eqn:En.
  - pose proof (notify_later sid env n e) as Hl. unfold wpA in Hl.
    destruct (notify sid env n e) as [[[] n'] e'] eqn:E. apply HQ; [done|].
    econstructor; [exact E|constructor].
  - apply HQ; [done|constructor].
Qed.

(** The log after one more recorded envelope, and after one that was only sequenced. *)
Definition recorded (sid : string) (env : Envelope) (l : Log) : Log :=
  mkLog (<[sid := cap (log_max l) (default [] (log_history l !! sid) ++
                                    [with_Sequence (bumped sid l) env])]> (log_history l))
        (<[sid := bumped sid l]> (log_seqNums l)) (log_max l).

Definition sequenced (sid : string) (l : Log) : Log :=
  mkLog (log_history l) (<[sid := bumped sid l]> (log_seqNums l)) (log_max l).

Lemma hub_recordEnvelope_wp sid env (Q : Envelope -> Log -> Env -> Prop) l e :
  Q (with_Sequence (bumped sid l) env) (recorded sid env l) e ->
  wpA (recordEnvelope sid env) Q l e.
Proof. intros HQ. unfold recordEnvelope. by wps. Qed.

Lemma hub_sequenceEnvelope_wp sid env (Q : Envelope -> Log -> Env -> Prop) l e :
  Q (with_Sequence (bumped sid l) env) (sequenced sid l) e ->
  wpA (sequenceEnvelope sid env) Q l e.
Proof. intros HQ. unfold sequenceEnvelope. by wps. Qed.

Lemma hub_event_wp ty sid from payload (Q : Envelope -> H -> Env -> Prop) h e :
  (forall e', e ≼ e' ->
     Q (mkEnvelope ty "" sid from "*" (Some payload) 0 (clock e')) h e') ->
  wp (event ty sid from payload) Q h e.
Proof. intros HQ. unfold event. wp_now e' He. by apply HQ. Qed.

(** The recipients of a fan-out: every listed agent but the excluded one. *)
Definition recipients (sid exclude : string) (infos : list AgentInfo) : list string :=
  (fun i => mailbox_key sid (info_AgentID i)) <$>
    filter (fun i => info_AgentID i <> exclude) infos.

Lemma hub_deliver_each_wp sid env exclude infos n (Q : nat -> H -> Env -> Prop) h e :
  Mailbox.wf (mailboxes h) -> NoDup (info_AgentID <$> infos) ->
  (forall mb e', e ≼ e' -> fanout (mailboxes h) (recipients sid exclude infos) env mb ->
     Q (n + length (recipients sid exclude infos))%nat (put the_mailboxes mb h) e') ->
  wp (deliver_each sid env exclude infos n) Q h e.
Proof.
  revert n h e Q. induction infos as [|i infos IH]; intros n h e Q Hwf Hnd HQ;
    cbn [deliver_each].
  - wps. specialize (HQ (mailboxes h) e). simpl in HQ. rewrite Nat.add_0_r in HQ.
    destruct h. apply HQ; [done|]. by apply fanout_nil.
  - rewrite fmap_cons in Hnd. apply NoDup_cons in Hnd as [Hi Hnd]. unfold recipients in HQ.
    rewrite filter_cons in HQ. case_bool_decide as Hex.
    + rewrite decide_True in HQ by done. rewrite fmap_cons in HQ. unfold deliverToAgentMailbox.
      wps. apply Mailbox.mailbox_Deliver_wp; [done|]. intros t mb e1 Ht en Hr _.
      apply IH; [by apply Hr|done|]. intros mb' e' He' Hf. simpl in *.
      rewrite Nat.add_succ_r in HQ. apply HQ; [clock|].
      eapply (fanout_cons _ _ _ _ en); [|done|exact Hr|exact Hf].
      unfold recipients. rewrite list_elem_of_fmap. intros (j & Hj & Hin).
      apply join_key_inj_r in Hj. apply list_elem_of_filter in Hin as [_ Hin].
      apply Hi. rewrite Hj. by apply list_elem_of_fmap_2.
    + rewrite (decide_False (P := info_AgentID i <> exclude)) in HQ by (intros Hne; by apply Hne).
      by apply IH.
Qed.

Lemma hub_deliverToSession_wp sid env exclude (Q : nat -> H -> Env -> Prop) h e :
  Presence.keyed (presence h) -> Mailbox.wf (mailboxes h) ->
  (forall infos mb e', e ≼ e' -> Presence.roster (presence h) sid e e' infos ->
     fanout (mailboxes h) (recipients sid exclude infos) env mb ->
     Q (length (recipients sid exclude infos)) (put the_mailboxes mb h) e') ->
  wp (deliverToSessionMailboxes sid env exclude) Q h e.
Proof.
  intros Hk Hwf HQ. unfold deliverToSessionMailboxes. wps.
  apply Presence.presence_GetAgents_wp. intros infos e1 He1 Hr.
  rewrite default_to_slice, put_get.
  apply hub_deliver_each_wp; [done|by eapply Presence.roster_members|].
  intros mb e' He' Hf. apply HQ; [by trans e1| |done].
  destruct Hr as (sts & Hp & HF). exists sts. split; [done|].
  eapply Forall2_impl; [exact HF|]. intros st i (? & ? & m & ? & ?). repeat split; auto.
  exists m. split; [clock|done].
Qed.
End HubSpec.
