(* ===== verification/HubDelivery.v ===== *)
(** * Delivery through the hub

    What [SendMessage], [Broadcast] and the event emitters of hub.go do to the mailboxes, the
    message log and the real-time fan-out, on every branch, and the order of the message log
    under every interleaving of the hub's methods. *)

From S2P Require Import Prelude Json Protocol Hub.
From S2P Require Leader Scratchpad Session Filestore Presence Mailbox.

#[local] Open Scope Z_scope.

(** The components' own invariants. *)
Record hub_wf {N} (h : Hub N) : Prop := mkHubWf {
  wf_presence : Presence.keyed (presence h);
  wf_mailboxes : Mailbox.wf (mailboxes h);
}.

(** [env] reached, once each, the mailboxes of the [n] members of the session other than
    [exclude], and no other mailbox. *)
Definition reached {N} (h : Hub N) (sid exclude : string) (env : Envelope) (n : nat)
    (mb : Mailbox.Store) : Prop :=
  exists keys, NoDup keys /\ length keys = n /\
    (forall k, k ∈ keys <-> exists a, Presence.member (presence h) sid a /\ a <> exclude /\
                                      k = mailbox_key sid a) /\
    fanout (mailboxes h) keys env mb.

Lemma recipients_members {N} (h : Hub N) sid exclude e e' infos :
  Presence.keyed (presence h) -> Presence.roster (presence h) sid e e' infos ->
  NoDup (recipients sid exclude infos) /\
  forall k, k ∈ recipients sid exclude infos <->
    exists a, Presence.member (presence h) sid a /\ a <> exclude /\ k = mailbox_key sid a.
Proof.
  intros Hk Hr. destruct (Presence.roster_members _ _ _ _ _ Hk Hr) as [Hnd Hmem].
  unfold recipients. split.
  - assert (NoDup ((mailbox_key sid ∘ info_AgentID) <$> infos)) as Hnd'.
    { rewrite list_fmap_compose. apply NoDup_fmap_2; [|done].
      intros a b. apply join_key_inj_r. }
    eapply sublist_NoDup; [exact Hnd'|]. apply sublist_fmap, sublist_filter.
  - intros k. rewrite list_elem_of_fmap. split.
    + intros (i & -> & [Hne Hi]%list_elem_of_filter). exists (info_AgentID i).
      split; [|done]. apply Hmem. by apply list_elem_of_fmap_2.
    + intros (a & Ha%Hmem & Hne & ->). apply list_elem_of_fmap in Ha as (i & -> & Hi).
      exists i. split; [done|]. by apply list_elem_of_filter.
Qed.

Lemma find_agent_Some a infos :
  a ∈ info_AgentID <$> infos <-> is_Some (find_agent a infos).
Proof.
  induction infos as [|i infos IH]; simpl; [by split; [set_solver|intros []]|].
  rewrite elem_of_cons, IH. case_bool_decide as Hi; [|naive_solver].
  split; [by eauto|by left].
Qed.

Section Delivery.
Context {N : Type} `{!Notifier N}.
Abbreviation H := (Hub N).
Implicit Types (h : H) (e : Env).

Lemma hub_deliver_reached_wp sid env exclude (Q : nat -> H -> Env -> Prop) h e :
  hub_wf h ->
  (forall n mb e', e ≼ e' -> reached h sid exclude env n mb ->
     Q n (put the_mailboxes mb h) e') ->
  wp (deliverToSessionMailboxes sid env exclude) Q h e.
Proof.
  intros [Hk Hwf] HQ. apply hub_deliverToSession_wp; [done..|]. intros infos mb e' He Hr Hf.
  apply HQ; [done|].
  destruct (recipients_members h sid exclude e e' infos Hk Hr) as [Hnd Hmem].
  by exists (recipients sid exclude infos).
Qed.

(** The hub after an event: its log, its mailboxes and its fan-out moved on. *)
Definition moved (l : Log) (mb : Mailbox.Store) (o : option N) h : H :=
  put the_notifier o (put the_mailboxes mb (put the_log l h)).

Lemma hub_emitAmbientEvent_wp sid env (Q : unit -> H -> Env -> Prop) h e :
  (forall o e', e ≼ e' ->
     notified (notifier h) [(sid, with_Sequence (bumped sid (get the_log h)) env)] o ->
     Q tt (moved (sequenced sid (get the_log h)) (mailboxes h) o h) e') ->
  wp (emitAmbientEvent sid env) Q h e.
Proof.
  intros HQ. unfold emitAmbientEvent. wps. apply hub_sequenceEnvelope_wp.
  wps. apply hub_notifyWatchers_wp. intros o e' He Hn. by apply HQ.
Qed.

Lemma hub_emitSystemEvent_wp sid env exclude (Q : unit -> H -> Env -> Prop) h e :
  hub_wf h ->
  (forall n mb o e', e ≼ e' ->
     let env' := with_Sequence (bumped sid (get the_log h)) env in
     reached h sid exclude env' n mb -> notified (notifier h) [(sid, env')] o ->
     Q tt (moved (sequenced sid (get the_log h)) mb o h) e') ->
  wp (emitSystemEvent sid env exclude) Q h e.
Proof.
  intros [Hk Hwf] HQ. unfold emitSystemEvent. wps. apply hub_sequenceEnvelope_wp.
  wps. apply hub_deliver_reached_wp; [done|]. intros n mb e1 He1 Hr.
  wps. apply hub_notifyWatchers_wp. intros o e' He Hn. eapply HQ; [by trans e1|exact Hr|done].
Qed.

Lemma hub_SendMessage_wp sid from to ty payload (Q : result unit -> H -> Env -> Prop) h e :
  hub_wf h -> to <> "" -> Presence.member (presence h) sid to ->
  (forall t mb o e', e ≼ e' -> clock e <= t <= clock e' ->
     let env := mkEnvelope ty "" sid from to payload 0 t in
     let env' := with_Sequence (bumped sid (get the_log h)) env in
     fanout (mailboxes h) [mailbox_key sid to] env' mb -> notified (notifier h) [(sid, env')] o ->
     Q (Ok tt) (moved (recorded sid env (get the_log h)) mb o h) e') ->
  wp (SendMessage sid from to ty payload) Q h e.
Proof.
  intros [Hk Hwf] Hto Hmem HQ. unfold SendMessage. rewrite bool_decide_eq_false_2 by done.
  wps. apply Presence.presence_GetAgents_wp. intros infos e1 He1 Hr.
  rewrite default_to_slice, put_get.
  destruct (Presence.roster_members _ _ _ _ _ Hk Hr) as [_ Hids].
  apply Hids in Hmem. apply find_agent_Some in Hmem. destruct Hmem as [i Hi]. rewrite Hi. wp_now e2 He2.
  apply hub_recordEnvelope_wp. unfold deliverToAgentMailbox. wps.
  apply Mailbox.mailbox_Deliver_wp; [done|]. intros t mb e3 Ht en Hrq _.
  wps. apply hub_notifyWatchers_wp. intros o e4 He4 Hn. wps.
  apply (HQ (clock e2)); [clock|clock| |done].
  eapply (fanout_cons _ _ _ _ en); [by apply not_elem_of_nil|done|exact Hrq|].
  apply fanout_nil. apply Hrq.
Qed.

(** C10: A direct message to any known member of the session, online or not, is accepted: it
    gets the session's next sequence number, is appended to the history (dropping the oldest
    beyond the bound), to the recipient's mailbox and to no other, is handed to the watchers
    exactly once, and nothing else in the hub changes. *)
Theorem send_delivers sid from to ty payload h e :
  hub_wf h -> to <> "" -> Presence.member (presence h) sid to ->
  wp (SendMessage sid from to ty payload) (fun r h' e' => r = Ok tt /\
    exists t mb o, clock e <= t <= clock e' /\
      let env := mkEnvelope ty "" sid from to payload 0 t in
      let env' := with_Sequence (bumped sid (get the_log h)) env in
      h' = moved (recorded sid env (get the_log h)) mb o h /\
      fanout (mailboxes h) [mailbox_key sid to] env' mb /\
      notified (notifier h) [(sid, env')] o) h e.
Proof.
  intros Hwf Hto Hmem. apply hub_SendMessage_wp; [done..|]. intros t mb o e' _ Ht env env' Hf Hn.
  split; [done|]. by exists t, mb, o.
Qed.

(** C33: A direct message without a recipient, or to an agent that is not a member of the
    session, is refused with the error that says so and leaves the hub exactly as it was: no
    sequence number is used, nothing is recorded, delivered or fanned out. *)
Theorem send_rejects sid from to ty payload h e :
  hub_wf h -> ~ Presence.member (presence h) sid to \/ to = "" ->
  wp (SendMessage sid from to ty payload) (fun r h' _ =>
    h' = h /\ r = Err (if decide (to = "") then errToRequired else errNoAgent to)) h e.
Proof.
  intros [Hk Hwf] Hto. unfold SendMessage. case_bool_decide as Ht; wps.
  { by rewrite decide_True. }
  apply Presence.presence_GetAgents_wp. intros infos e1 He1 Hr.
  rewrite default_to_slice, put_get.
  destruct (Presence.roster_members _ _ _ _ _ Hk Hr) as [_ Hids].
  destruct (find_agent to infos) as [i|] eqn:Hf; wps.
  - assert (Presence.member (presence h) sid to) as Hm; [|naive_solver].
    apply Hids, find_agent_Some. by rewrite Hf.
  - by rewrite decide_False.
Qed.

(** C11: A broadcast reaches, exactly once each, the mailboxes of all members of the session but
    the sender, online or not, and no other mailbox; it is recorded under the next sequence
    number, handed to the watchers once, and the count it returns is the number of mailboxes
    it reached. *)
Theorem broadcast_reaches_members sid from ty payload h e :
  hub_wf h ->
  wp (Broadcast sid from ty payload) (fun n h' e' =>
    exists t mb o, clock e <= t <= clock e' /\
      let env := mkEnvelope ty "" sid from "*" payload 0 t in
      let env' := with_Sequence (bumped sid (get the_log h)) env in
      h' = moved (recorded sid env (get the_log h)) mb o h /\
      reached h sid from env' n mb /\ notified (notifier h) [(sid, env')] o) h e.
Proof.
  intros [Hk Hwf]. unfold Broadcast. wp_now e1 He1. apply hub_recordEnvelope_wp.
  wps. apply hub_deliver_reached_wp; [done|]. intros n mb e2 He2 Hr.
  wps. apply hub_notifyWatchers_wp. intros o e3 He3 Hn. wps.
  exists (clock e1), mb, o. split; [clock|]. split; [done|]. by split.
Qed.

(** Setting a scratchpad key stores the value under the caller's name and announces it as
    one sequenced system event to every other member's mailbox and to the watchers; an empty
    key is refused and changes nothing. *)
Theorem scratchpad_set_announces sid aid key value h e :
  hub_wf h ->
  wp (ScratchpadSet sid aid key value) (fun r h' e' =>
    if decide (key = "") then r = Err errKeyRequired /\ h' = h
    else exists t t' n mb o, clock e <= t <= t' /\ t' <= clock e' /\
      let entry := mkScratchpadEntry key value aid t in
      let env := mkEnvelope TypeScratchpadUpdate "" sid aid "*"
                   (Some (ScratchpadEntry_json entry)) (bumped sid (get the_log h)) t' in
      r = Ok entry /\ reached h sid aid env n mb /\ notified (notifier h) [(sid, env)] o /\
      lookup2 sid key (Scratchpad.pads (scratchpad h')) = Some entry /\
      (forall s k, s <> sid \/ k <> key ->
         lookup2 s k (Scratchpad.pads (scratchpad h')) = lookup2 s k (Scratchpad.pads (scratchpad h))) /\
      h' = moved (sequenced sid (get the_log h)) mb o (put the_scratchpad (scratchpad h') h)) h e.
Proof.
  intros Hwf. unfold ScratchpadSet. case_bool_decide as Hkey; wps.
  { by rewrite decide_True. }
  unfold Scratchpad.Set_. wp_now e1 He1.
  apply hub_event_wp. intros e2 He2. wps.
  apply hub_emitSystemEvent_wp; [by destruct Hwf|]. intros n mb o e3 He3 env' Hr Hn. wps.
  rewrite decide_False by done. exists (clock e1), (clock e2), n, mb, o. split; [clock|]. split; [clock|]. split; [done|].
  split; [done|]. split; [done|]. split; [|split; [|done]].
  - simpl. by rewrite lookup2_insert2, decide_True.
  - intros s k Hne. simpl. rewrite lookup2_insert2, decide_False by naive_solver. done.
Qed.
End Delivery.
