(* ===== verification/HubOrder.v ===== *)
(** * The message log under interleavings

    Every method of the hub as a goroutine may run it, and the invariant of the message log
    that survives any scheduling of any number of them. *)

From Stdlib Require Import Sorting.Sorted.
From S2P Require Import Prelude Json Protocol Hub.
From S2P Require Leader Scratchpad Session Filestore Presence Mailbox.
Import (hints) Mailbox.

#[local] Open Scope Z_scope.

(** One session's log: at most [max] envelopes of this session, in strictly increasing
    sequence order, numbered from 1, none past the counter [c]. *)
Record session_log_ok (max : nat) (sid : string) (c : Z) (envs : list Envelope) : Prop :=
  mkSessionLogOk {
  slog_len : (length envs <= max)%nat;
  slog_sorted : StronglySorted Z.lt (Sequence <$> envs);
  slog_le : Forall (fun env => 0 < Sequence env <= c) envs;
  slog_sid : Forall (fun env => env_SessionID env = sid) envs;
}.

(** Every counter is between 0 and [b], every session's log is ordered below its counter. *)
Definition log_ok (b : Z) (l : Log) : Prop := forall sid,
  0 <= default 0 (log_seqNums l !! sid) <= b /\
  session_log_ok (log_max l) sid (default 0 (log_seqNums l !! sid))
    (default [] (log_history l !! sid)).


Lemma StronglySorted_snoc (l : list Z) x :
  StronglySorted Z.lt l -> Forall (fun y => y < x) l -> StronglySorted Z.lt (l ++ [x]).
Proof.
  induction 1 as [|y l _ IH Hy]; intros Hx; simpl; [by repeat constructor|].
  inversion Hx; subst. constructor; [by apply IH|]. apply Forall_app. split; [done|].
  by apply Forall_singleton.
Qed.

Lemma StronglySorted_drop n (l : list Z) : StronglySorted Z.lt l -> StronglySorted Z.lt (drop n l).
Proof.
  revert n. induction l as [|x l IH]; intros [|n] Hs; simpl; try done.
  apply IH. by inversion Hs.
Qed.

(** Appending an envelope numbered past the counter, and dropping the oldest, keeps order. *)
Lemma session_log_append max sid c envs env :
  session_log_ok max sid c envs -> 0 <= c -> env_SessionID env = sid ->
  session_log_ok max sid (c + 1) (cap max (envs ++ [with_Sequence (c + 1) env])).
Proof.
  intros [Hl Hs Hle Hsid] Hc Hen.
  assert (StronglySorted Z.lt (Sequence <$> envs ++ [with_Sequence (c + 1) env])) as Hs'.
  { rewrite fmap_app. apply StronglySorted_snoc; [done|]. apply Forall_fmap.
    eapply Forall_impl; [exact Hle|]. simpl. lia. }
  split.
  - rewrite length_cap. lia.
  - rewrite cap_drop, fmap_drop. by apply StronglySorted_drop.
  - apply Forall_forall. intros x Hx%elem_of_cap. apply elem_of_app in Hx as [Hx|Hx].
    + rewrite Forall_forall in Hle. specialize (Hle x Hx). simpl in Hle. lia.
    + apply list_elem_of_singleton in Hx as ->. simpl. lia.
  - apply Forall_forall. intros x Hx%elem_of_cap. apply elem_of_app in Hx as [Hx|Hx].
    + rewrite Forall_forall in Hsid. by apply Hsid.
    + by apply list_elem_of_singleton in Hx as ->.
Qed.

Lemma bumped_next b sid l :
  log_ok b l -> b < maxInt64 -> bumped sid l = default 0 (log_seqNums l !! sid) + 1.
Proof.
  intros Hok Hb. destruct (Hok sid) as [[H1 H2] _]. unfold bumped. apply int64_small.
  unfold maxInt64 in *. lia.
Qed.

Lemma log_ok_recorded b sid env l :
  log_ok b l -> b < maxInt64 -> env_SessionID env = sid -> log_ok (b + 1) (recorded sid env l).
Proof.
  intros Hok Hb Hen s. unfold recorded. simpl.
  rewrite (bumped_next b) by done. destruct (decide (sid = s)) as [<-|Hne].
  - rewrite !lookup_insert_eq. simpl. destruct (Hok sid) as [Hc Hs]. split; [lia|].
    apply session_log_append; [done|lia|done].
  - rewrite !lookup_insert_ne by done. destruct (Hok s) as [Hc Hs]. split; [lia|done].
Qed.

Lemma log_ok_sequenced b sid l :
  log_ok b l -> b < maxInt64 -> log_ok (b + 1) (sequenced sid l).
Proof.
  intros Hok Hb s. unfold sequenced. simpl. rewrite (bumped_next b) by done.
  destruct (decide (sid = s)) as [<-|Hne].
  - rewrite !lookup_insert_eq. simpl. destruct (Hok sid) as [Hc [Hl Hs Hle Hsid]].
    split; [lia|]. split; [done..| |done]. eapply Forall_impl; [exact Hle|]. simpl. lia.
  - rewrite !lookup_insert_ne by done. destruct (Hok s) as [Hc Hs]. split; [lia|done].
Qed.

Lemma log_ok_closed b sid l :
  log_ok b l -> 0 <= b ->
  log_ok b (mkLog (delete sid (log_history l)) (delete sid (log_seqNums l)) (log_max l)).
Proof.
  intros Hok Hb s. simpl. destruct (decide (sid = s)) as [<-|Hne].
  - rewrite !lookup_delete_eq. simpl. split; [lia|]. split; simpl; [lia|constructor..].
  - by rewrite !lookup_delete_ne.
Qed.

Lemma log_ok_mono b b' l : log_ok b l -> b <= b' -> log_ok b' l.
Proof. intros Hok Hb s. destruct (Hok s). split; [lia|done]. Qed.

(** ** What goroutines run *)
Section Order.
Context {N : Type} `{!Notifier N}.
Abbreviation H := (Hub N).

(** The requests, the sweep and, with [closing], what ends sessions. *)
Inductive hub_client (closing : bool) : prog H unit -> Prop :=
| c_Register sid aid caps : hub_client closing (Register sid aid caps ;; mret tt)
| c_RefreshPresence sid aid : hub_client closing (RefreshPresence sid aid)
| c_sweep : hub_client closing hub_sweep
| c_PeekMailbox sid aid : hub_client closing (PeekMailbox sid aid ;; mret tt)
| c_DrainMailbox sid aid : hub_client closing (DrainMailbox sid aid ;; mret tt)
| c_DrainFiltered fuel sid aid wait from ty :
    hub_client closing (DrainMailboxFiltered fuel sid aid wait from ty ;; mret tt)
| c_SendMessage sid from to ty payload :
    hub_client closing (SendMessage sid from to ty payload ;; mret tt)
| c_Broadcast sid from ty payload : hub_client closing (Broadcast sid from ty payload ;; mret tt)
| c_ScratchpadSet sid aid key v : hub_client closing (ScratchpadSet sid aid key v ;; mret tt)
| c_ScratchpadGet sid key : hub_client closing (ScratchpadGet sid key ;; mret tt)
| c_ScratchpadDelete sid aid key : hub_client closing (ScratchpadDelete sid aid key ;; mret tt)
| c_ScratchpadList sid : hub_client closing (ScratchpadList sid ;; mret tt)
| c_LeaderTransfer sid from to : hub_client closing (LeaderTransfer sid from to ;; mret tt)
| c_StoreFile sid fn ct by_ data : hub_client closing (StoreFile sid fn ct by_ data ;; mret tt)
| c_DeleteFile sid fid : hub_client closing (DeleteFile sid fid ;; mret tt)
| c_GetAgents sid : hub_client closing (GetSessionAgents sid ;; mret tt)
| c_GetLeader sid : hub_client closing (GetLeader sid ;; mret tt)
| c_GetScratchpad sid : hub_client closing (GetScratchpad sid ;; mret tt)
| c_GetFiles sid : hub_client closing (GetFiles sid ;; mret tt)
| c_GetFile sid fid : hub_client closing (GetFile sid fid ;; mret tt)
| c_GetHistory sid : hub_client closing (GetHistory sid ;; mret tt)
| c_GetHistoryAfter sid n lim : hub_client closing (GetHistoryAfter sid n lim ;; mret tt)
| c_CloseSession sid : closing = true -> hub_client closing (CloseSession sid)
| c_reap retention : closing = true -> hub_client closing (reapStaleSessions retention)
| c_session {A} (a : Atom Session.Store A) : hub_client closing (⟨the_sessions⟩ a ;; mret tt).

(** What one section may do to the log. *)
Inductive log_step (closing : bool) (l : Log) : Log -> Prop :=
| ls_same : log_step closing l l
| ls_record sid env : env_SessionID env = sid -> log_step closing l (recorded sid env l)
| ls_sequence sid : log_step closing l (sequenced sid l)
| ls_close sid : closing = true ->
    log_step closing l
      (mkLog (delete sid (log_history l)) (delete sid (log_seqNums l)) (log_max l)).

(** The envelope's number fits the field it is kept in. *)
Definition numbered (env : Envelope) : Prop := in_int64 (Sequence env).

(** What one section may do to the log and to the mailboxes. *)
Definition hub_step (closing : bool) (h h' : H) : Prop :=
  log_step closing (get the_log h) (get the_log h') /\
  Mailbox.mail_step numbered (mailboxes h) (mailboxes h').

Lemma hub_step_refl closing h : hub_step closing h h.
Proof. split; [constructor|apply Mailbox.mail_step_refl]. Qed.

Variable closing : bool.
Abbreviation R := (hub_step closing).

(** Sections on any other component. *)
Lemma guar_aside {S A} (L : Lens H S) (a : Atom S A) :
  (forall s h, get the_log (put L s h) = get the_log h /\ mailboxes (put L s h) = mailboxes h) ->
  guar R (⟨L⟩ a) (fun _ => True).
Proof.
  intros HL. apply guar_atomically. intros h e. unfold wpA. destruct (a (get L h) e) as [[x s'] e'].
  split; [|done]. destruct (HL s' h) as [E1 E2]. unfold hub_step. rewrite E1, E2. apply hub_step_refl.
Qed.

Lemma guar_mail {A} (p : prog Mailbox.Store A) (Q : A -> Prop) :
  guar (Mailbox.mail_step numbered) p Q -> guar R (⟪the_mailboxes⟫ p) Q.
Proof. apply guar_within. intros h s' Hs. split; [constructor|exact Hs]. Qed.

Lemma guar_mail_section {A} (a : Atom Mailbox.Store A) (Q : A -> Prop) :
  guar (Mailbox.mail_step numbered) (⟨lens_id⟩ a) Q -> guar R (⟨the_mailboxes⟩ a) Q.
Proof.
  intros Ha. apply guar_atomically. intros h e. specialize (Ha (mailboxes h) e).
  unfold wpA, zoom in *. cbn [get put lens_id the_mailboxes] in *.
  destruct (a (mailboxes h) e) as [[b s'] e']. destruct Ha as [Hs HQ].
  split; [|exact HQ]. split; [constructor|exact Hs].
Qed.

Lemma guar_hub_clock : guar R nowP (fun _ => True).
Proof. by apply guar_nowP; [apply hub_step_refl|]. Qed.

Lemma guar_log_read {A} (f : Log -> A) : guar R (⟨the_log⟩ (gets f)) (fun _ => True).
Proof. apply guar_atomically. intros h e. wps. rewrite put_get. split; [apply hub_step_refl|done]. Qed.

Lemma bumped_int64 sid l : in_int64 (bumped sid l).
Proof. apply int64_range. Qed.

Lemma guar_log_section {A} (a : Atom Log A) (Q : A -> Prop) :
  (forall l e, wpA a (fun b l' _ => log_step closing l l' /\ Q b) l e) -> guar R (⟨the_log⟩ a) Q.
Proof.
  intros Ha. apply guar_atomically. intros h e. eapply wpA_mono; [apply Ha|]. intros b l' e' [Hl HQ].
  split; [|done]. split; [by rewrite get_put|apply Mailbox.mail_step_refl].
Qed.

Lemma guar_record sid env :
  env_SessionID env = sid -> guar R (⟨the_log⟩ recordEnvelope sid env) numbered.
Proof.
  intros Hsid. apply guar_log_section. intros l e. apply hub_recordEnvelope_wp.
  split; [by constructor|apply bumped_int64].
Qed.

Lemma guar_sequence sid env : guar R (⟨the_log⟩ sequenceEnvelope sid env) numbered.
Proof.
  apply guar_log_section. intros l e. apply hub_sequenceEnvelope_wp.
  split; [constructor|apply bumped_int64].
Qed.

Lemma guar_deliver sid aid env :
  numbered env -> guar R (deliverToAgentMailbox sid aid env) (fun _ => True).
Proof. intros He. by apply guar_mail, Mailbox.guar_Deliver. Qed.

Lemma guar_drop_box sid aid :
  guar R (⟨the_mailboxes⟩ Mailbox.DeleteBox (mailbox_key sid aid)) (fun _ => True).
Proof. apply guar_mail_section, Mailbox.guar_DeleteBox. Qed.

(** Steps through a program's sections. *)
Ltac guar_step :=
  lazymatch goal with
  | |- guar _ (mbind _ (atomically the_log (recordEnvelope _ _))) _ =>
      eapply guar_bind; [by apply guar_record|intros ? ?]
  | |- guar _ (mbind _ (atomically the_log (sequenceEnvelope _ _))) _ =>
      eapply guar_bind; [apply guar_sequence|intros ? ?]
  | |- guar _ (mbind _ _) _ => apply guar_then
  | |- forall _, guar _ _ _ => intros ?
  | |- guar _ (atomically the_log (gets _)) _ => apply guar_log_read
  | |- guar _ (deliverToAgentMailbox _ _ _) _ => by apply guar_deliver
  | |- guar _ (atomically the_mailboxes (Mailbox.DeleteBox _)) _ => apply guar_drop_box
  | |- guar _ (atomically _ _) _ => by apply guar_aside
  | |- guar _ (within the_mailboxes _) _ => apply guar_mail; auto with go
  | |- guar _ nowP _ => apply guar_hub_clock
  | |- guar _ (mret _) _ => done
  | |- guar _ (if ?c then _ else _) _ => destruct c
  | |- guar _ (match ?o with Some _ => _ | None => _ end) _ => destruct o
  end.
Ltac hub_guar := repeat guar_step.

Lemma guar_deliver_each sid env ex infos n :
  numbered env -> guar R (deliver_each sid env ex infos n) (fun _ => True).
Proof.
  intros He. revert n. induction infos as [|i infos IH]; intros n; cbn [deliver_each]; [done|].
  case_bool_decide; [|done]. hub_guar. apply IH.
Qed.

Lemma guar_deliver_all sid env ex :
  numbered env -> guar R (deliverToSessionMailboxes sid env ex) (fun _ => True).
Proof. intros He. unfold deliverToSessionMailboxes. hub_guar. by apply guar_deliver_each. Qed.

Lemma guar_system sid env ex : guar R (emitSystemEvent sid env ex) (fun _ => True).
Proof.
  unfold emitSystemEvent, notifyWatchers. hub_guar. by apply guar_deliver_all.
Qed.

Lemma guar_ambient sid env : guar R (emitAmbientEvent sid env) (fun _ => True).
Proof. unfold emitAmbientEvent, notifyWatchers. hub_guar. Qed.

Lemma guar_event ty sid from payload :
  guar R (event ty sid from payload) (fun env => env_SessionID env = sid).
Proof. unfold event. hub_guar. Qed.

Lemma guar_CloseSession sid : closing = true -> guar R (CloseSession sid) (fun _ => True).
Proof.
  intros Hc. unfold CloseSession. apply guar_then.
  { apply guar_log_section. intros l e. wps. split; [by constructor|done]. }
  hub_guar. apply guar_mail_section, Mailbox.guar_DeleteSession.
Qed.

Lemma guar_sweep : guar R hub_sweep (fun _ => True).
Proof.
  unfold hub_sweep, Presence.sweep. apply guar_then; [by apply guar_aside|].
  intros [expired forgotten]. apply guar_then.
  - apply guar_for_each. intros st _. unfold onAgentWentOffline, event. hub_guar.
    apply guar_system.
  - intros _. apply guar_for_each. intros st _. unfold onForget, event. hub_guar.
    apply guar_ambient.
Qed.

Lemma guar_reap retention : closing = true -> guar R (reapStaleSessions retention) (fun _ => True).
Proof.
  intros Hc. unfold reapStaleSessions. hub_guar.
  apply guar_for_each. intros sess _. unfold reap_one. hub_guar. by apply guar_CloseSession.
Qed.

(** Every method, section by section. *)
Lemma hub_client_guar p : hub_client closing p -> guar R p (fun _ => True).
Proof.
  intros [];
    first [apply guar_sweep|by apply guar_CloseSession|by apply guar_reap|idtac];
    unfold Register, RefreshPresence, PeekMailbox, DrainMailbox, DrainMailboxFiltered, SendMessage,
    Broadcast, ScratchpadSet, ScratchpadGet, ScratchpadDelete, ScratchpadList, LeaderTransfer,
    StoreFile, DeleteFile, GetSessionAgents, GetLeader, GetScratchpad, GetFiles, GetFile, GetHistory,
    GetHistoryAfter, touch_activity, event,
    notifyWatchers; hub_guar;
    try apply guar_ambient; try apply guar_system; by apply guar_deliver_all.
Qed.

(** A method as a part of a larger program. *)
Lemma hub_method_guar {A} (p : prog H A) :
  hub_client closing (p ;; mret tt) -> guar R p (fun _ => True).
Proof. intros Hp. by eapply guar_drop, hub_client_guar. Qed.

(** ** The invariant of the log *)

(** [b] bounds the counters at the start; each section run since may have raised one by 1. *)
Definition log_inv (b : Z) (n : nat) (h : H) (_ : Env) : Prop :=
  0 <= b -> b + Z.of_nat n <= maxInt64 -> log_ok (b + Z.of_nat n) (get the_log h).

Lemma log_step_ok b l l' :
  log_ok b l -> 0 <= b < maxInt64 -> log_step closing l l' -> log_ok (b + 1) l'.
Proof.
  intros Hok [Hb0 Hb] [|sid env Hsid|sid|sid _].
  - eapply log_ok_mono; [done|lia].
  - by apply log_ok_recorded.
  - by apply log_ok_sequenced.
  - apply log_ok_closed; [|lia]. eapply log_ok_mono; [done|lia].
Qed.

Lemma log_inv_step b n h h' e e' : log_inv b n h e -> R h h' -> log_inv b (S n) h' e'.
Proof.
  intros HI [Hl _] H0 Hb. replace (b + Z.of_nat (S n)) with (b + Z.of_nat n + 1) by lia.
  eapply log_step_ok; [apply HI; lia|lia|exact Hl].
Qed.

Lemma hub_client_safe b p : hub_client closing p -> safe (log_inv b) p (fun _ => True).
Proof. intros Hp. eapply safe_of_guar; [|by apply hub_client_guar]. intros. by eapply log_inv_step. Qed.
End Order.

(** C7: Start from a hub whose logs are in order with counters at most [b], and let the runtime
    interleave any number of requests, sweeps and janitor runs, section by section. After
    fewer steps than it takes to overflow an int64 counter, every session's history holds only
    that session's envelopes, at most [maxHistory] of them, in strictly increasing sequence
    order, none numbered past the session's counter. *)
Theorem history_ordered_interleaved {N} `{!Notifier N} (b : Z) (m : nat) (h h' : Hub N) e e' ts ts' :
  0 <= b -> b + Z.of_nat m <= maxInt64 -> log_ok b (get the_log h) -> Forall (hub_client true) ts ->
  nsteps (pool_step (hub_client true)) m (mkPool h e ts) (mkPool h' e' ts') ->
  forall sid, session_log_ok (maxHistory h') sid (default 0 (seqNums h' !! sid))
                (default [] (history h' !! sid)).
Proof.
  intros Hb Hm Hok Hts Hrun sid.
  destruct (pool_invariant (log_inv b) (hub_client true) _ _ m 0
    (fun n w e HI => log_inv_step true b n w w e e HI (hub_step_refl true w))
    (hub_client_safe true b) Hrun) as [HI _].
  - intros _ _. by rewrite Z.add_0_r.
  - eapply Forall_impl; [exact Hts|]. apply hub_client_safe.
  - by apply (HI Hb ltac:(lia) sid).
Qed.
