(* ===== verification/HubMembers.v ===== *)
(** * Membership and leadership

    [Register], presence refreshes, the sweep with its callbacks, leadership transfers and the
    closing of sessions, run one after the other: whoever leads a session is a member of it
    whose presence has not lapsed. *)

From S2P Require Import Prelude Json Protocol Hub HubDelivery.
From S2P Require Leader Scratchpad Session Filestore Presence Mailbox.

#[local] Open Scope Z_scope.

(** What the tracker always satisfies when session IDs are plain. *)
Record members_ok (t : Presence.Tracker) (e : Env) : Prop := mkMembersOk {
  mem_keyed : Presence.keyed t;
  mem_plain k st : Presence.agents t !! k = Some st -> plain (Presence.SessionID st);
  mem_expired k st : Presence.agents t !! k = Some st -> Presence.Expired st = true ->
    Presence.ttl t <= clock e - Presence.LastSeen st;
}.

(** A member whose lapse the sweep has not seen. *)
Definition active (t : Presence.Tracker) (sid a : string) : Prop :=
  exists st, Presence.agents t !! Presence.agentKey sid a = Some st /\
    Presence.SessionID st = sid /\ Presence.AgentID st = a /\ Presence.Expired st = false.

(** Every leader is active, or is one of the lapsed agents [pending] still to be handled. *)
Definition led (t : Presence.Tracker) (l : Leader.Tracker) (pending : list (string * string))
    : Prop :=
  forall sid a, Leader.leaders l !! sid = Some a -> active t sid a \/ (sid, a) ∈ pending.

Definition hub_inv {N} (pending : list (string * string)) (h : Hub N) (e : Env) : Prop :=
  hub_wf h /\ members_ok (presence h) e /\ led (presence h) (leader h) pending.

Lemma members_ok_later t e e' : members_ok t e -> e ≼ e' -> members_ok t e'.
Proof. intros [Hk Hp Hx] He. split; [done..|]. intros k st Hst Hex. specialize (Hx k st Hst Hex). clock. Qed.

Lemma hub_inv_frame {N} pending (h h' : Hub N) e e' :
  hub_inv pending h e -> presence h' = presence h -> leader h' = leader h ->
  Mailbox.wf (mailboxes h') -> e ≼ e' -> hub_inv pending h' e'.
Proof.
  intros ([Hk Hwf] & Hm & Hl) Hp Hld Hwf' He. split; [split; [by rewrite Hp|done]|].
  split; [|by rewrite Hp, Hld]. rewrite Hp. by eapply members_ok_later.
Qed.

(** ** Touching *)
Lemma touched_state t e sid aid st :
  members_ok t e -> plain sid -> Presence.agents t !! Presence.agentKey sid aid = Some st ->
  Presence.SessionID st = sid /\ Presence.AgentID st = aid.
Proof.
  intros [Hk Hp _] Hsid Hst. pose proof (Hk _ _ Hst) as Hkey. pose proof (Hp _ _ Hst).
  apply join_key_inj in Hkey as [-> ->]; done.
Qed.

Lemma touched_lookup t e sid aid caps n k st' :
  members_ok t e -> plain sid ->
  Presence.agents (Presence.touched sid aid caps n t) !! k = Some st' ->
  (k = Presence.agentKey sid aid /\ Presence.SessionID st' = sid /\ Presence.AgentID st' = aid /\
   Presence.Expired st' = false) \/ Presence.agents t !! k = Some st'.
Proof.
  intros Hok Hsid. simpl. rewrite lookup_insert_Some. intros [[<- <-]|[_ ?]]; [left|by right].
  split; [done|]. simpl.
  destruct (Presence.agents t !! Presence.agentKey sid aid) as [st|] eqn:E; simpl; [|done].
  destruct (touched_state t e sid aid st) as [-> ->]; done.
Qed.

Lemma members_ok_touched t e e' sid aid caps :
  members_ok t e -> e ≼ e' -> plain sid ->
  members_ok (Presence.touched sid aid caps (clock e') t) e'.
Proof.
  intros Hok He Hsid. split.
  - apply Presence.keyed_touched, Hok.
  - intros k st Hst. destruct (touched_lookup t e _ _ _ _ _ _ Hok Hsid Hst) as [(_ & -> & _)|Hst'];
      [done|]. by eapply mem_plain.
  - intros k st Hst0 Hex.
    destruct (touched_lookup t e _ _ _ _ _ _ Hok Hsid Hst0) as [(_ & _ & _ & ?)|Hst]; [congruence|].
    pose proof (mem_expired _ _ Hok k st Hst Hex). simpl. clock.
Qed.

Lemma active_touched t e sid aid caps n s a :
  members_ok t e -> plain sid -> active t s a -> active (Presence.touched sid aid caps n t) s a.
Proof.
  intros Hok Hsid (st & Hst & Hs & Ha & Hx). unfold active.
  destruct (decide (Presence.agentKey s a = Presence.agentKey sid aid)) as [He|Hne].
  - rewrite He in *. destruct (touched_state t e sid aid st) as [H1 H2]; [done..|].
    simpl. rewrite lookup_insert_eq, Hst. eexists. split; [done|]. simpl. by subst.
  - rewrite Presence.lookup_touched_ne by done. by exists st.
Qed.

Lemma active_new t e sid aid caps n :
  members_ok t e -> plain sid -> active (Presence.touched sid aid caps n t) sid aid.
Proof.
  intros Hok Hsid. unfold active. simpl. rewrite lookup_insert_eq. eexists. split; [done|]. simpl.
  destruct (Presence.agents t !! Presence.agentKey sid aid) as [st|] eqn:E; simpl; [|done].
  destruct (touched_state t e sid aid st) as [-> ->]; done.
Qed.

(** ** Sweeping *)
Lemma members_ok_swept t e e' E F t' :
  members_ok t e -> e ≼ e' -> Presence.swept t e e' E F t' -> members_ok t' e'.
Proof.
  intros Hok He Hsw. destruct (Presence.swept_lookup _ _ _ _ _ _ Hsw) as (Hin & Hout & _).
  assert (forall k st', Presence.agents t' !! k = Some st' -> exists st v,
    Presence.agents t !! k = Some st /\ Presence.judged t e e' st v /\ st' = Presence.after st v) as Hfrom.
  { intros k st' Hst'. destruct (Presence.agents t !! k) as [st|] eqn:Hst.
    - destruct (Hin k st Hst) as (v & Hj & Hl & _). exists st, v. rewrite Hl in Hst'.
      destruct (v.2); [done|]. by simplify_eq.
    - rewrite (Hout k Hst) in Hst'. done. }
  assert (Presence.ttl t' = Presence.ttl t) as Httl by apply Hsw.
  split.
  - intros k st' (st & v & Hst & _ & ->)%Hfrom. apply (mem_keyed _ _ Hok) in Hst.
    by destruct v as [[] ?].
  - intros k st' (st & v & Hst & _ & ->)%Hfrom. apply (mem_plain _ _ Hok) in Hst.
    by destruct v as [[] ?].
  - intros k st' (st & [l g] & Hst & [Hj _] & ->)%Hfrom. rewrite Httl.
    pose proof (mem_expired _ _ Hok k st Hst) as Hpast. unfold Presence.after. simpl in *.
    destruct (Presence.Expired st) eqn:Hx; simpl in *.
    + subst l. intros _. specialize (Hpast eq_refl). clock.
    + destruct l; [|congruence]. intros _. destruct Hj as (n & Hn & Hb). simpl in *. symmetry in Hb.
      apply Z.ltb_ge in Hb. clock.
Qed.

Definition who (st : Presence.AgentState) : string * string :=
  (Presence.SessionID st, Presence.AgentID st).

Lemma led_swept t e e' E F t' l :
  Presence.swept t e e' E F t' -> led t l [] -> led t' l (who <$> E).
Proof.
  intros Hsw Hled sid a Hl. destruct (Hled sid a Hl) as [(st & Hst & Hs & Ha & Hx)|[]%not_elem_of_nil].
  destruct (Presence.swept_lookup _ _ _ _ _ _ Hsw) as (Hin & _).
  destruct (Hin _ _ Hst) as ([la g] & [_ Hj] & Hl' & HE & _). simpl in *. rewrite Hx in Hj. simpl in Hj.
  destruct la.
  - right. apply list_elem_of_fmap. exists (Presence.mark st). split; [|by apply HE].
    unfold who. simpl. by subst.
  - left. subst g. exists st. by rewrite Hl'.
Qed.

(** The replacement the sweep picks is active: an agent still within its TTL has not lapsed. *)
Lemma first_online_active t e e' sid infos :
  members_ok t e -> Presence.roster t sid e e' infos -> first_online infos <> "" ->
  active t sid (first_online infos).
Proof.
  intros Hok Hr Hne.
  assert (exists i, i ∈ infos /\ Online i = true /\ info_AgentID i = first_online infos) as (i & Hi & Ho & Hid).
  { clear Hr. induction infos as [|i infos IH]; simpl in *; [done|].
    destruct (Online i) eqn:Ho; [by exists i; split; [left|]|].
    destruct (IH Hne) as (j & ? & ? & ?). exists j. split; [by right|done]. }
  destruct (Presence.roster_elem _ _ _ _ _ _ Hr Hi) as (st & Hs & [k Hk] & Hid' & _ & n & Hn & Hb).
  exists st. rewrite <- Hid, Hid', <- Hs. pose proof (mem_keyed _ _ Hok k st Hk) as <-.
  repeat split; [done|]. destruct (Presence.Expired st) eqn:Hx; [|done].
  pose proof (mem_expired _ _ Hok k st Hk Hx). rewrite Ho in Hb. symmetry in Hb.
  apply Z.ltb_lt in Hb. lia.
Qed.

Lemma later_TouchActivity sid t : later (Session.TouchActivity sid t).
Proof. intros s e. by apply Session.session_TouchActivity_wp. Qed.
Lemma later_SessionDelete id_ : later (Session.Delete id_).
Proof. intros s e. by apply Session.session_Delete_wp. Qed.
Lemma later_ScratchpadDelete sid k : later (Scratchpad.Delete sid k).
Proof.
  intros s e. unfold wpA, Scratchpad.Delete.
  destruct (Scratchpad.pads s !! sid) as [pad|]; [|done]. by destruct (pad !! k).
Qed.
Lemma later_FileDelete sid k : later (Filestore.Delete sid k).
Proof.
  intros s e. unfold wpA, Filestore.Delete.
  destruct (Filestore.files s !! sid) as [m|]; [|done]. by destruct (m !! k).
Qed.
Lemma later_FileStore sid fn ct by_ data : later (Filestore.Store_ sid fn ct by_ data).
Proof.
  unfold Filestore.Store_, Filestore.generateID. apply later_bind; [auto with go|].
  intros []; auto 10 with go.
Qed.
Lemma later_notify {N} `{!Notifier N} sid env : later (S := option N) (notify_opt sid env).
Proof.
  intros [n|] e; unfold wpA, notify_opt; [|done].
  pose proof (notify_later sid env n e) as Hl. unfold wpA in Hl.
  by destruct (notify sid env n e) as [[[] ?] ?].
Qed.
#[local] Hint Resolve later_TouchActivity later_SessionDelete later_ScratchpadDelete
  later_FileDelete later_FileStore later_notify : go.

Section Members.
Context {N : Type} `{!Notifier N}.
Abbreviation H := (Hub N).
Abbreviation inv := (hub_inv (N := N)).
Implicit Types (h : H) (e : Env).

(** Sections on components the invariant does not mention. *)
Lemma keeps_aside {S A} pending (L : Lens H S) (a : Atom S A) :
  (forall s h, presence (put L s h) = presence h /\ leader (put L s h) = leader h /\
               mailboxes (put L s h) = mailboxes h) ->
  later a -> keeps (inv pending) (⟨L⟩ a).
Proof.
  intros HL Ha h e HI. wps. eapply wpA_mono; [apply Ha|]. intros x s' e' He. cbv beta in He.
  destruct (HL s' h) as (Hp & Hl & Hm). eapply hub_inv_frame; [done..| |done].
  rewrite Hm. apply HI.
Qed.

Lemma keeps_now pending : keeps (inv pending) nowP.
Proof. intros h e HI. apply wp_nowP. intros e' He. eapply hub_inv_frame; [done..| |done]. apply HI. Qed.

Lemma keeps_mail {A} pending (p : prog Mailbox.Store A) :
  (forall s e, Mailbox.wf s -> wp p (fun _ s' e' => Mailbox.wf s' /\ e ≼ e') s e) ->
  keeps (inv pending) (⟪the_mailboxes⟫ p).
Proof.
  intros Hp h e HI. wps. eapply wp_mono; [apply Hp, HI|]. intros x s' e' [Hwf He].
  by eapply hub_inv_frame.
Qed.

Lemma keeps_mail1 {A} pending (a : Atom Mailbox.Store A) :
  (forall s e, Mailbox.wf s -> wpA a (fun _ s' e' => Mailbox.wf s' /\ e ≼ e') s e) ->
  keeps (inv pending) (⟨the_mailboxes⟩ a).
Proof.
  intros Hp h e HI. wps. eapply wpA_mono; [apply Hp, HI|]. intros x s' e' [Hwf He].
  by eapply hub_inv_frame.
Qed.

Lemma mail_Deliver key env s e :
  Mailbox.wf s -> wp (Mailbox.Deliver key env) (fun _ s' e' => Mailbox.wf s' /\ e ≼ e') s e.
Proof.
  intros Hwf. apply Mailbox.mailbox_Deliver_wp; [done|]. intros t s' e' Ht en Hr _.
  split; [apply Hr|clock].
Qed.

(** Listings are reads. *)
Lemma keeps_GetAgents pending sid : keeps (inv pending) (⟨the_presence⟩ Presence.GetAgents sid).
Proof.
  intros h e HI. wps. apply Presence.presence_GetAgents_wp. intros infos e' He _.
  rewrite put_get. eapply hub_inv_frame; [done..| |done]. apply HI.
Qed.

Lemma keeps_presence_read {A} pending (f : Presence.Tracker -> A) :
  keeps (inv pending) (⟨the_presence⟩ (gets f)).
Proof. intros h e HI. wps. by rewrite put_get. Qed.

Lemma keeps_IsPresent pending sid a : keeps (inv pending) (⟨the_presence⟩ Presence.IsPresent sid a).
Proof.
  intros h e HI. wps. apply Presence.presence_IsPresent_wp.
  - intros _. by rewrite put_get.
  - intros st e' _ He. rewrite put_get. eapply hub_inv_frame; [done..| |done]. apply HI.
Qed.

Lemma keeps_Touch sid aid caps :
  plain sid -> keeps (inv []) (⟨the_presence⟩ Presence.Touch sid aid caps).
Proof.
  intros Hsid h e ([Hk Hwf] & Hm & Hl). wps. apply Presence.presence_Touch_wp. intros e' He.
  split; [split; [by apply Presence.keyed_touched|done]|]. split; simpl.
  - by eapply members_ok_touched.
  - intros s a Ha. left. destruct (Hl s a Ha) as [Hact|[]%not_elem_of_nil].
    by eapply active_touched.
Qed.

Lemma keeps_deliver_each pending sid env ex infos n :
  keeps (inv pending) (deliver_each sid env ex infos n).
Proof.
  revert n. induction infos as [|i infos IH]; intros n; cbn [deliver_each]; [apply keeps_ret|].
  case_bool_decide; [|done]. apply keeps_bind; [|done].
  apply keeps_mail. intros. by apply mail_Deliver.
Qed.

(** Steps through a program's sections, closing those the invariant does not depend on. *)
Ltac keeps_step :=
  lazymatch goal with
  | |- keeps _ (mbind _ _) => apply keeps_bind
  | |- forall _, keeps _ _ => intros ?
  | |- keeps _ (mret _) => apply keeps_ret
  | |- keeps _ nowP => apply keeps_now
  | |- keeps _ (atomically the_presence (Presence.GetAgents _)) => apply keeps_GetAgents
  | |- keeps _ (atomically the_presence (Presence.WasPresent _ _)) => apply keeps_presence_read
  | |- keeps _ (atomically the_presence (Presence.IsPresent _ _)) => apply keeps_IsPresent
  | |- keeps _ (atomically the_presence (Presence.Touch _ _ _)) => apply keeps_Touch; done
  | |- keeps _ (atomically _ _) => apply keeps_aside; [done|]
  | |- keeps _ (deliver_each _ _ _ _ _) => apply keeps_deliver_each
  | |- keeps _ (within the_mailboxes (Mailbox.Deliver _ _)) =>
      apply keeps_mail; intros; by apply mail_Deliver
  | |- keeps _ (if ?c then _ else _) => destruct c
  | |- keeps _ (match ?o with Some _ => _ | None => _ end) => destruct o
  | |- later _ => solve [auto with go]
  end.
Ltac hub_keeps := repeat keeps_step.

Lemma keeps_touch_activity pending sid : keeps (inv pending) (touch_activity sid).
Proof. unfold touch_activity. hub_keeps. Qed.

Lemma keeps_event pending ty sid from p : keeps (inv pending) (event ty sid from p).
Proof. unfold event. hub_keeps. Qed.

Lemma keeps_ambient pending sid env : keeps (inv pending) (emitAmbientEvent sid env).
Proof. unfold emitAmbientEvent, notifyWatchers, sequenceEnvelope. hub_keeps. Qed.

Lemma keeps_system pending sid env ex : keeps (inv pending) (emitSystemEvent sid env ex).
Proof.
  unfold emitSystemEvent, notifyWatchers, sequenceEnvelope, deliverToSessionMailboxes. hub_keeps.
Qed.

(** ** Registration *)

(** The events [Register] announces. *)
Definition presence_event (ty sid aid : string) (caps : slice string) (n : Z) (t : Time) : Envelope :=
  mkEnvelope ty "" sid "server" "*" (Some (AgentInfo_json (mkAgentInfo aid caps true))) n t.

(** What a registration does, by what the tracker knew of the agent. *)
Record registered (sid aid : string) (caps : slice string) h e (isNew : bool) h' e' : Prop :=
  mkRegistered {
  reg_later : e ≼ e';
  reg_presence : exists t, clock e <= t <= clock e' /\
    presence h' = Presence.touched sid aid caps t (presence h);
  reg_mailboxes : mailboxes h' = mailboxes h;
  reg_history : history h' = history h;
  reg_case :
    match Presence.agents (presence h) !! Presence.agentKey sid aid with
    | None => isNew = true /\
        leader h' = (if decide (Leader.leaders (leader h) !! sid = None)
                     then Leader.mkTracker (<[sid := aid]> (Leader.leaders (leader h)))
                     else leader h) /\
        exists t, notified (notifier h)
          [(sid, presence_event TypeAgentJoined sid aid caps (bumped sid (get the_log h)) t)]
          (notifier h')
    | Some st => isNew = false /\ leader h' = leader h /\
        exists live, Presence.live_between (presence h) e e' st live /\
          if live then notifier h' = notifier h /\ seqNums h' = seqNums h /\
                       sessionStore h' = sessionStore h
          else exists t, notified (notifier h)
            [(sid, presence_event TypeAgentReconnected sid aid caps (bumped sid (get the_log h)) t)]
            (notifier h')
    end;
}.

Lemma hub_touch_activity_wp sid (Q : unit -> H -> Env -> Prop) h e :
  (forall ss e', e ≼ e' -> Q tt (put the_sessions ss h) e') -> wp (touch_activity sid) Q h e.
Proof.
  intros HQ. unfold touch_activity. wp_now e1 He1. apply Session.session_TouchActivity_wp.
  - intros _. wps. by apply HQ.
  - intros sess _. wps. by apply HQ.
Qed.

Lemma hub_Register_wp sid aid caps h e :
  members_ok (presence h) e -> plain sid ->
  wp (Register sid aid caps) (fun isNew h' e' => registered sid aid caps h e isNew h' e') h e.
Proof.
  intros Hok Hsid. unfold Register. wps. apply Presence.presence_WasPresent_wp.
  intros known Hknown. rewrite put_get. wps.
  destruct (Presence.agents (presence h) !! Presence.agentKey sid aid) as [st|] eqn:Hst.
  - assert (known = true) as ->.
    { apply Hknown. exists st. split; [done|]. by eapply touched_state. }
    apply Presence.presence_IsPresent_wp; [simpl; congruence|].
    intros st' e1 Hst' He1. simpl in Hst'. simplify_eq. rewrite put_get. wps.
    apply Presence.presence_Touch_wp. intros e2 He2.
    rewrite bool_decide_eq_false_2 by (simpl; congruence).
    change (get the_presence h) with (presence h).
    destruct (clock e1 - Presence.LastSeen st <? Presence.ttl (presence h)) eqn:Hlive;
      cbn [andb negb]; wps.
    + split; [clock|exists (clock e2); split; [clock|done]|done|done|]. simpl. rewrite Hst.
      split; [done|]. split; [done|]. exists true. split; [|done].
      exists (clock e1). split; [clock|done].
    + apply hub_touch_activity_wp. intros ss e3 He3. wps. apply hub_event_wp. intros e4 He4.
      apply hub_emitAmbientEvent_wp. intros o e5 He5 Hn. wps.
      split; [clock|exists (clock e2); split; [clock|done]|done|done|]. simpl. rewrite Hst.
      split; [done|]. split; [done|]. exists false. split; [|by eexists].
      exists (clock e1). split; [clock|done].
  - assert (known = false) as ->.
    { destruct known; [|done]. destruct (proj1 Hknown eq_refl) as (st & ? & _). simpl in *. congruence. }
    apply Presence.presence_IsPresent_wp; [|simpl; congruence].
    intros _. rewrite put_get. wps. apply Presence.presence_Touch_wp. intros e2 He2.
    rewrite bool_decide_eq_true_2 by done. cbn [andb negb]. wps.
    apply hub_touch_activity_wp. intros ss e3 He3. wps. apply hub_event_wp. intros e4 He4.
    wps. apply hub_emitAmbientEvent_wp. intros o e5 He5 Hn. unfold Leader.GetLeader. wps.
    change (Leader.leaders (get the_leader _)) with (Leader.leaders (leader h)).
    destruct (Leader.leaders (leader h) !! sid) as [l|] eqn:Hl; unfold Leader.SetInitialLeader; wps.
    all: (split; [clock|exists (clock e2); split; [clock|done]|done|done|]; simpl; rewrite Hst;
          split; [done|]; split; [|by eexists]).
    + rewrite decide_False; [done|congruence].
    + by rewrite decide_True.
Qed.

Lemma keeps_Register sid aid caps : plain sid -> keeps (inv []) (Register sid aid caps).
Proof.
  intros Hsid h e (Hwf & Hok & Hl). eapply wp_mono; [by apply hub_Register_wp|].
  intros isNew h' e' [He (t & Ht & Hp) Hmb _ Hcase].
  assert (members_ok (presence h') e') as Hok'.
  { rewrite Hp. pose proof (members_ok_touched (presence h) e (mkEnv t [] [] [] []) sid aid caps
      Hok ltac:(clock) Hsid) as Hm. simpl in Hm. eapply members_ok_later; [exact Hm|clock]. }
  split; [split; [apply Hok'|rewrite Hmb; apply Hwf]|]. split; [done|].
  assert (forall s a, Leader.leaders (leader h) !! s = Some a -> active (presence h') s a) as Hold.
  { intros s a Ha. destruct (Hl s a Ha) as [Hact|[]%not_elem_of_nil]. rewrite Hp.
    by eapply active_touched. }
  intros s a Ha. left.
  destruct (Presence.agents (presence h) !! Presence.agentKey sid aid) as [st|].
  - destruct Hcase as (_ & Hld & _). rewrite Hld in Ha. by apply Hold.
  - destruct Hcase as (_ & Hld & _). rewrite Hld in Ha. case_decide; [|by apply Hold].
    simpl in Ha. apply lookup_insert_Some in Ha as [[<- <-]|[_ Ha]]; [|by apply Hold].
    rewrite Hp. by eapply active_new.
Qed.

(** ** The sweep and its callbacks *)

(** Handling one lapsed agent takes it off the pending list: its leadership, if it had it,
    moves to an active agent or is cleared. *)
Lemma offline_handled sid aid caps pending h e :
  inv ((sid, aid) :: pending) h e ->
  wp (onAgentWentOffline sid aid caps) (fun _ h' e' => inv pending h' e') h e.
Proof.
  intros ([Hk Hwf] & Hok & Hl). unfold onAgentWentOffline, Leader.GetLeader. wps. rewrite put_get.
  change (Leader.leaders (get the_leader h)) with (Leader.leaders (leader h)).
  assert (forall l' (Hother : forall s, s <> sid -> Leader.leaders l' !! s = Leader.leaders (leader h) !! s)
    (Hthis : forall a, Leader.leaders l' !! sid = Some a ->
       active (presence h) sid a \/ (sid, a) ∈ pending) e',
    e ≼ e' -> inv pending (put the_leader l' h) e') as Hset.
  { intros l' Hother Hthis e' He. split; [by split|]. split; [by eapply members_ok_later|].
    intros s a Ha. simpl in Ha. destruct (decide (s = sid)) as [->|Hne]; [by apply Hthis|].
    rewrite Hother in Ha by done. destruct (Hl s a Ha) as [Hact|Hin]; [by left|right].
    apply elem_of_cons in Hin as [Heq|Hin]; [by simplify_eq|done]. }
  case_bool_decide as Hlead; wps.
  - apply Presence.presence_GetAgents_wp. intros infos e1 He1 Hr.
    rewrite default_to_slice, put_get. case_bool_decide as Hne; wps.
    + pose proof (first_online_active _ _ _ _ _ Hok Hr Hne) as Hact.
      apply Leader.leader_Transfer_wp; [|done]. intros _. wps.
      eapply wp_mono; [apply (keeps_event pending); apply (Hset _); [..|done]; simpl|].
      * intros s Hs. by rewrite lookup_insert_ne.
      * intros a. rewrite lookup_insert_eq. intros [= <-]. by left.
      * intros env h2 e2 HI2. by apply keeps_system.
    + unfold Leader.ClearSession. wps. apply (Hset _); [..|done]; simpl.
      * intros s Hs. by rewrite lookup_delete_ne.
      * intros a. by rewrite lookup_delete_eq.
  - replace h with (put the_leader (leader h) h) by apply (put_get _ _ the_leader).
    apply Hset; [done| |done].
    intros a Ha. destruct (Hl sid a Ha) as [Hact|Hin]; [by left|right].
    apply elem_of_cons in Hin as [Heq|Hin]; [by simplify_eq|done].
Qed.

Lemma keeps_onForget sid aid caps : keeps (inv []) (onForget sid aid caps).
Proof.
  unfold onForget. apply keeps_bind; [apply keeps_event|]. intros env.
  apply keeps_bind; [apply keeps_ambient|]. intros _. apply keeps_mail1. intros s e Hwf.
  apply Mailbox.mailbox_DeleteBox_wp; [done|]. intros s' Hr _. split; [apply Hr|done].
Qed.

Lemma expired_handled E h e :
  inv (who <$> E) h e ->
  wp (for_each E (fun st => onAgentWentOffline (Presence.SessionID st) (Presence.AgentID st)
                              (Presence.Capabilities st)))
    (fun _ h' e' => inv [] h' e') h e.
Proof.
  revert h e. induction E as [|st E IH]; intros h e HI; cbn [for_each]; wps; [done|].
  eapply wp_mono; [by apply offline_handled|]. intros ? h' e' HI'. by apply IH.
Qed.

Lemma keeps_sweep : keeps (inv []) hub_sweep.
Proof.
  intros h e ([Hk Hwf] & Hok & Hl). unfold hub_sweep, Presence.sweep. wps.
  apply Presence.presence_sweep_locked_wp. intros E F t' e1 He1 Hsw. wps.
  eapply wp_mono; [apply expired_handled|].
  - pose proof (members_ok_swept _ _ _ _ _ _ Hok He1 Hsw) as Hok'.
    split; [split; [apply Hok'|done]|]. split; [done|]. by eapply led_swept.
  - intros ? h' e' HI. by apply (keeps_for_each (inv []) F); [intros st; apply keeps_onForget|].
Qed.

Lemma keeps_CloseSession sid : plain sid -> keeps (inv []) (CloseSession sid).
Proof.
  intros Hsid. unfold CloseSession. apply keeps_bind; [hub_keeps|]. intros _ h e HI.
  (* The roster and the leadership of the session go one after the other: in between its leader
     is the one agent without a roster entry. *)
  destruct HI as ([Hk Hwf] & Hok & Hl).
  unfold Presence.ClearSession, Leader.ClearSession, Scratchpad.ClearSession,
    Filestore.ClearSession. wps.
  apply Mailbox.mailbox_DeleteSession_wp; [done|]. intros mb Hwf' _ _ _.
  assert (forall k st, filter (fun '(_, state) => Presence.SessionID state <> sid)
            (Presence.agents (presence h)) !! k = Some st ->
          Presence.agents (presence h) !! k = Some st) as Hsub.
  { intros k st Hst. by apply map_lookup_filter_Some in Hst as [? _]. }
  assert (members_ok (Presence.set_agents
    (filter (fun '(_, state) => Presence.SessionID state <> sid)) (presence h)) e) as Hok'.
  { destruct Hok as [H1 H2 H3]. split; simpl.
    - intros k st Hst%Hsub. by apply H1.
    - intros k st Hst%Hsub. by eapply H2.
    - intros k st Hst%Hsub. by eapply H3. }
  split; [split; [apply Hok'|done]|]. split; [done|].
  intros s a Ha. simpl in Ha. apply lookup_delete_Some in Ha as [Hne Ha].
  destruct (Hl s a Ha) as [(st & Hst & Hs & Haid & Hx)|[]%not_elem_of_nil].
  left. exists st. split; [|done]. simpl. apply map_lookup_filter_Some. split; [done|]. congruence.
Qed.

(** ** Every request *)
Inductive plain_client : prog H unit -> Prop :=
| pc_Register sid aid caps : plain sid -> plain_client (Register sid aid caps ;; mret tt)
| pc_RefreshPresence sid aid : plain sid -> plain_client (RefreshPresence sid aid)
| pc_sweep : plain_client hub_sweep
| pc_PeekMailbox sid aid : plain sid -> plain_client (PeekMailbox sid aid ;; mret tt)
| pc_DrainMailbox sid aid : plain sid -> plain_client (DrainMailbox sid aid ;; mret tt)
| pc_SendMessage sid from to ty payload :
    plain_client (SendMessage sid from to ty payload ;; mret tt)
| pc_Broadcast sid from ty payload : plain_client (Broadcast sid from ty payload ;; mret tt)
| pc_ScratchpadSet sid aid key v : plain_client (ScratchpadSet sid aid key v ;; mret tt)
| pc_ScratchpadDelete sid aid key : plain_client (ScratchpadDelete sid aid key ;; mret tt)
| pc_LeaderTransfer sid from to : plain sid -> plain_client (LeaderTransfer sid from to ;; mret tt)
| pc_StoreFile sid fn ct by_ data : plain_client (StoreFile sid fn ct by_ data ;; mret tt)
| pc_DeleteFile sid fid : plain_client (DeleteFile sid fid ;; mret tt)
| pc_CloseSession sid : plain sid -> plain_client (CloseSession sid).

Lemma keeps_LeaderTransfer sid from to : plain sid -> keeps (inv []) (LeaderTransfer sid from to).
Proof.
  intros Hsid h e HI. unfold LeaderTransfer, Leader.GetLeader. wps. rewrite put_get.
  case_bool_decide; wps; [done|]. apply Presence.presence_IsPresent_wp.
  { intros _. cbn [negb]. wps. by rewrite put_get. }
  intros st e1 Hst He1. rewrite put_get.
  assert (forall e', e ≼ e' -> inv [] h e') as HIl.
  { intros e' He'. eapply hub_inv_frame; [done..| |done]. apply HI. }
  destruct (_ <? _) eqn:Hlive; cbn [negb]; wps; [|by apply HIl].
  change (get the_presence h) with (presence h) in *.
  apply Leader.leader_Transfer_wp; intros Hlead; cbn [negb]; wps; [|rewrite put_get; by apply HIl].
  eapply wp_mono; [apply (keeps_event [])|].
  - destruct HI as ([Hk Hwf] & Hok & Hl). split; [by split|].
    split; [by eapply members_ok_later|]. intros s a Ha. simpl in Ha. left.
    apply lookup_insert_Some in Ha as [[<- <-]|[Hne Ha]].
    + destruct (touched_state _ _ _ _ _ Hok Hsid Hst) as [Hs Hid]. exists st.
      repeat split; [done..|]. destruct (Presence.Expired st) eqn:Hx; [|done].
      pose proof (mem_expired _ _ Hok _ _ Hst Hx). apply Z.ltb_lt in Hlive. clock.
    + destruct (Hl s a Ha) as [Hact|[]%not_elem_of_nil]. done.
  - intros env h2 e2 HI2. wps. eapply wp_mono; [apply (keeps_system []), HI2|]. intros. by wps.
Qed.

Lemma plain_client_keeps p : plain_client p -> keeps (inv []) p.
Proof.
  intros []; unfold RefreshPresence, PeekMailbox, DrainMailbox, SendMessage, Broadcast,
    ScratchpadSet, ScratchpadDelete, StoreFile, DeleteFile, Scratchpad.Set_,
    recordEnvelope, notifyWatchers, deliverToAgentMailbox, deliverToSessionMailboxes; hub_keeps;
    try apply keeps_touch_activity; try apply keeps_event; try apply keeps_system.
  - by apply keeps_Register.
  - apply keeps_sweep.
  - apply keeps_mail. intros s e Hwf. by apply Mailbox.mailbox_Len_wp.
  - apply keeps_mail. intros s e Hwf. apply Mailbox.mailbox_Drain_wp; [done|].
    intros s' Hr _. split; [apply Hr|done].
  - by apply keeps_LeaderTransfer.
  - by apply keeps_CloseSession.
Qed.
End Members.

(** C8: Start from a hub where every session's leader is a member whose presence has not
    lapsed (a fresh hub is one), and run registrations, presence refreshes, sends, broadcasts,
    scratchpad and file writes, drains, transfers, sweeps and session closings one after the
    other, in any order, on session IDs without a slash. In every state reached, whoever is
    recorded as a session's leader is on that session's roster and not marked expired: a lapse
    always hands leadership to a live member or clears it. *)
Theorem leader_is_active {N} `{!Notifier N} (h h' : Hub N) e e' sid a :
  hub_inv [] h e -> runs plain_client h e h' e' ->
  Leader.leaders (leader h') !! sid = Some a -> active (presence h') sid a.
Proof.
  intros HI Hrun Ha.
  pose proof (runs_invariant (hub_inv []) _ _ _ _ _ plain_client_keeps Hrun HI) as (_ & _ & Hl).
  by destruct (Hl sid a Ha) as [?|[]%not_elem_of_nil].
Qed.

(** A registration never touches a mailbox or the message history: presence is announced
    to watchers only. With everything the hub emits recorded, a first registration emits
    exactly one agent_joined, makes the agent leader if the session has none and reports it as
    new; one from a member whose presence had lapsed emits exactly one agent_reconnected; one
    from a live member (a heartbeat) emits nothing. Each event carries the session's next
    sequence number. *)
Theorem register_announces sid aid caps (h : Hub (list (string * Envelope))) emitted e :
  members_ok (presence h) e -> plain sid -> notifier h = Some emitted ->
  wp (Register sid aid caps) (fun isNew h' e' =>
    mailboxes h' = mailboxes h /\ history h' = history h /\
    let n := bumped sid (get the_log h) in
    match Presence.agents (presence h) !! Presence.agentKey sid aid with
    | None => isNew = true /\
        Leader.leaders (leader h') !! sid =
          Some (default aid (Leader.leaders (leader h) !! sid)) /\
        exists t, notifier h' =
          Some (emitted ++ [(sid, presence_event TypeAgentJoined sid aid caps n t)])
    | Some st => isNew = false /\ leader h' = leader h /\
        ((exists at_, clock e <= at_ <= clock e' /\
            at_ - Presence.LastSeen st < Presence.ttl (presence h) /\ notifier h' = Some emitted) \/
         (exists at_ t, clock e <= at_ <= clock e' /\
            Presence.ttl (presence h) <= at_ - Presence.LastSeen st /\ notifier h' =
              Some (emitted ++ [(sid, presence_event TypeAgentReconnected sid aid caps n t)])))
    end) h e.
Proof.
  intros Hok Hsid Hn. eapply wp_mono; [by apply hub_Register_wp|].
  intros isNew h' e' [_ _ Hmb Hhi Hcase]. split; [done|]. split; [done|]. cbv zeta.
  destruct (Presence.agents (presence h) !! Presence.agentKey sid aid) as [st|].
  - destruct Hcase as (-> & Hl & live & (at_ & Hat & Hb) & Hev). split; [done|]. split; [done|].
    destruct live.
    + left. exists at_. symmetry in Hb. apply Z.ltb_lt in Hb. destruct Hev as [-> _]. auto.
    + right. destruct Hev as (t & Hev). exists at_, t. symmetry in Hb. apply Z.ltb_ge in Hb.
      rewrite Hn in Hev. apply notified_recorder in Hev. auto.
  - destruct Hcase as (-> & Hl & t & Hev). split; [done|]. split.
    + rewrite Hl. case_decide as Hd.
      * rewrite Hd. simpl. by rewrite lookup_insert_eq.
      * destruct (Leader.leaders (leader h) !! sid); done.
    + exists t. rewrite Hn in Hev. by apply notified_recorder in Hev.
Qed.

(** C39: Leadership changes hands on request exactly when the current leader asks for it and the
    new leader is present (seen less than the presence TTL ago): the transfer then happens and
    is announced to every other member and the watchers. A request by anyone else is refused as
    not from the leader, one for an agent that is unknown or was not seen within the TTL as
    agent not found, whoever the agent may be; a refusal changes nothing. (The one other
    refusal is that of a request in the name of the empty agent in a session without a leader,
    which no route sends.) *)
Theorem transfer_by_leader_only {N} `{!Notifier N} sid from to (h : Hub N) e :
  hub_wf h ->
  let leads := default "" (Leader.leaders (leader h) !! sid) = from in
  let seen := Presence.agents (presence h) !! Presence.agentKey sid to in
  let ttl := Presence.ttl (presence h) in
  wp (LeaderTransfer sid from to) (fun r h' e' =>
    match r with
    | Ok _ => Leader.leaders (leader h) !! sid = Some from /\
        (exists st at_, seen = Some st /\
           clock e <= at_ <= clock e' /\ at_ - Presence.LastSeen st < ttl) /\
        Leader.leaders (leader h') = <[sid := to]> (Leader.leaders (leader h)) /\
        exists n mb o t, let env := mkEnvelope TypeLeaderInfo "" sid "server" "*"
             (Some (strmap_json [("leader_id", to); ("transferred_by", from)]))
             (bumped sid (get the_log h)) t in
          reached h sid from env n mb /\ mailboxes h' = mb /\
          notified (notifier h) [(sid, env)] o /\ notifier h' = o
    | Err msg => h' = h /\
        ((~ leads /\ msg = errNotLeader) \/
         (leads /\ msg = errAgentNotFound to /\
            match seen with
            | None => True
            | Some st => exists at_, clock e <= at_ <= clock e' /\ ttl <= at_ - Presence.LastSeen st
            end) \/
         (Leader.leaders (leader h) !! sid = None /\ from = "" /\ msg = errTransferFailed))
    end) h e.
Proof.
  intros Hwf leads seen ttl. unfold LeaderTransfer, Leader.GetLeader. wps. rewrite put_get.
  change (get the_leader h) with (leader h).
  case_bool_decide as Hl; wps; [by eauto|].
  apply Presence.presence_IsPresent_wp.
  { intros Hnone. cbn [negb]. wps. rewrite put_get. split; [done|]. right; left. split; [exact Hl|].
    split; [done|]. subst seen. change (get the_presence h) with (presence h) in Hnone. by rewrite Hnone. }
  intros st e1 Hst He1. rewrite put_get. change (get the_presence h) with (presence h) in *.
  destruct (Z.ltb_spec (clock e1 - Presence.LastSeen st) (Presence.ttl (presence h)));
    cbn [negb]; wps.
  2: { split; [done|]. right; left. split; [exact Hl|]. split; [done|]. subst seen. rewrite Hst.
       exists (clock e1). split; [clock|done]. }
  apply Leader.leader_Transfer_wp; intros Hlead; cbn [negb]; wps.
  - apply hub_event_wp. intros e2 He2. wps. apply hub_emitSystemEvent_wp; [by destruct Hwf|].
    intros n mb o e3 He3 env' Hr Hn. wps. split; [done|]. split.
    { exists st, (clock e1). split; [done|]. split; [clock|done]. }
    split; [done|]. exists n, mb, o, (clock e2). split; [exact Hr|]. split; [done|]. by split.
  - rewrite put_get. split; [done|]. right. right.
    change (get the_leader h) with (leader h) in Hlead.
    destruct (Leader.leaders (leader h) !! sid) eqn:E; simpl in Hl; [|by subst].
    exfalso. apply Hlead. by f_equal.
Qed.

(** A heartbeat is not activity: while an agent keeps registering within its TTL, its
    session's record, last activity included, does not change, so the janitor's clock keeps
    running on a session whose agents only heartbeat. *)
Theorem heartbeat_not_activity {N} `{!Notifier N} sid aid caps st (h : Hub N) e :
  members_ok (presence h) e -> plain sid ->
  Presence.agents (presence h) !! Presence.agentKey sid aid = Some st ->
  wp (Register sid aid caps) (fun _ h' e' =>
    clock e' - Presence.LastSeen st < Presence.ttl (presence h) ->
    sessionStore h' = sessionStore h) h e.
Proof.
  intros Hok Hsid Hst. eapply wp_mono; [by apply hub_Register_wp|].
  intros isNew h' e' [_ _ _ _ Hcase] Hlive. rewrite Hst in Hcase.
  destruct Hcase as (_ & _ & live & (n & Hn & Hb) & Hev).
  destruct live; [apply Hev|]. symmetry in Hb. apply Z.ltb_ge in Hb. lia.
Qed.

(** An agent the server first hears of through any authenticated request is on the roster
    before it registers, so its registration is not a first one: it is reported as known, no
    join is emitted for it, and a session without a leader stays without one. *)
Theorem known_before_register {N} `{!Notifier N} sid aid caps (h : Hub N) e :
  members_ok (presence h) e -> plain sid ->
  Presence.agents (presence h) !! Presence.agentKey sid aid = None ->
  Leader.leaders (leader h) !! sid = None ->
  wp (RefreshPresence sid aid ;; Register sid aid caps) (fun isNew h' _ =>
    isNew = false /\ Leader.leaders (leader h') !! sid = None) h e.
Proof.
  intros Hok Hsid Hnew Hl. unfold RefreshPresence. wps.
  apply Presence.presence_Touch_wp. intros e1 He1. apply hub_touch_activity_wp.
  intros ss e2 He2. eapply wp_mono; [apply hub_Register_wp; [|done]|].
  - simpl. eapply members_ok_later; [by eapply members_ok_touched|done].
  - intros isNew h' e' [_ _ _ _ Hcase]. simpl in Hcase. rewrite lookup_insert_eq in Hcase.
    destruct Hcase as (-> & -> & _). done.
Qed.
