(* ===== verification/HubLifecycle.v ===== *)
(** * Sessions that end, histories that are read back

    [CloseSession], the janitor's [reapStaleSessions], [GetHistoryAfter] and the restoring of
    a snapshot, as hub.go does them. *)

From Stdlib Require Import Sorting.Sorted.
From S2P Require Import Prelude Json Protocol Hub HubDelivery HubOrder HubMembers.
From S2P Require Leader Scratchpad Session Filestore Presence Mailbox.

#[local] Open Scope Z_scope.

(** ** Everything the hub keeps for one session *)
Record same_session {N} (h h' : Hub N) (sid : string) : Prop := mkSameSession {
  same_history : history h' !! sid = history h !! sid;
  same_seq : seqNums h' !! sid = seqNums h !! sid;
  same_leader : Leader.leaders (leader h') !! sid = Leader.leaders (leader h) !! sid;
  same_pad : Scratchpad.pads (scratchpad h') !! sid = Scratchpad.pads (scratchpad h) !! sid;
  same_files : Filestore.files (files h') !! sid = Filestore.files (files h) !! sid;
  same_members a : Presence.agents (presence h') !! Presence.agentKey sid a =
                   Presence.agents (presence h) !! Presence.agentKey sid a;
  same_mail a : Mailbox.queue (mailboxes h') (mailbox_key sid a) =
                Mailbox.queue (mailboxes h) (mailbox_key sid a);
}.

Record no_session {N} (h : Hub N) (sid : string) : Prop := mkNoSession {
  no_history : history h !! sid = None;
  no_seq : seqNums h !! sid = None;
  no_leader : Leader.leaders (leader h) !! sid = None;
  no_pad : Scratchpad.pads (scratchpad h) !! sid = None;
  no_files : Filestore.files (files h) !! sid = None;
  no_members a : Presence.agents (presence h) !! Presence.agentKey sid a = None;
  no_mail a : Mailbox.queue (mailboxes h) (mailbox_key sid a) = [];
}.

Lemma same_session_trans {N} (h1 h2 h3 : Hub N) sid :
  same_session h1 h2 sid -> same_session h2 h3 sid -> same_session h1 h3 sid.
Proof. intros [] []. split; intros; etrans; eauto. Qed.

Lemma no_session_same {N} (h h' : Hub N) sid :
  no_session h sid -> same_session h h' sid -> no_session h' sid.
Proof. intros [] []. split; intros; etrans; eauto. Qed.

(** Closing one session run alone, as the lemmas below use it. *)
Record closed {N} (sid : string) (h h' : Hub N) : Prop := mkClosed {
  cl_gone : no_session h' sid;
  cl_rest sid' : plain sid' -> sid' <> sid -> same_session h h' sid';
  cl_sessions : sessionStore h' = sessionStore h;
  cl_notifier : notifier h' = notifier h;
  cl_wf : Mailbox.wf (mailboxes h');
}.

Section Lifecycle.
Context {N : Type} `{!Notifier N}.
Abbreviation H := (Hub N).
Implicit Types (h : H) (e : Env).

Lemma hub_CloseSession_wp sid (Q : unit -> H -> Env -> Prop) h e :
  Mailbox.wf (mailboxes h) -> members_ok (presence h) e -> plain sid ->
  (forall h', closed sid h h' -> members_ok (presence h') e -> Q tt h' e) ->
  wp (CloseSession sid) Q h e.
Proof.
  intros Hwf Hok Hsid HQ. unfold CloseSession, Presence.ClearSession, Leader.ClearSession,
    Scratchpad.ClearSession, Filestore.ClearSession. wps.
  apply Mailbox.mailbox_DeleteSession_wp; [done|]. intros mb Hwf' _ _ Hq.
  apply HQ.
  - split; [| |done|done|done].
    + split; simpl; try by rewrite lookup_delete_eq.
      * intros a. apply map_lookup_filter_None. right. intros st Hst Hne. apply Hne.
        by eapply touched_state.
      * intros a. rewrite Hq. unfold mailbox_key. by rewrite HasPrefix_join_self.
    + intros s Hs Hne. split; simpl; try by rewrite lookup_delete_ne.
      * intros a. destruct (Presence.agents (presence h) !! Presence.agentKey s a) as [st|] eqn:Hst.
        -- apply map_lookup_filter_Some. split; [done|].
           destruct (touched_state _ _ _ _ _ Hok Hs Hst) as [-> _]. done.
        -- apply map_lookup_filter_None. by left.
      * intros a. rewrite Hq. unfold mailbox_key.
        destruct (HasPrefix (join_key s a) (sid +:+ "/")) eqn:Hp; [|done].
        apply HasPrefix_join in Hp; [congruence|done..].
  - assert (forall k st, filter (fun '(_, state) => Presence.SessionID state <> sid)
              (Presence.agents (presence h)) !! k = Some st ->
            Presence.agents (presence h) !! k = Some st) as Hsub.
    { intros k st Hst. by apply map_lookup_filter_Some in Hst as [? _]. }
    destruct Hok as [H1 H2 H3]. split; simpl.
    + intros k st Hst%Hsub. by apply H1.
    + intros k st Hst%Hsub. by eapply H2.
    + intros k st Hst%Hsub. by eapply H3.
Qed.

(** The sessions of [l] the cutoff makes stale. *)
Definition stale (cutoff : Time) (l : list Session.Session) : list string :=
  Session.ID <$> filter (fun s => Session.LastActive s <= cutoff) l.

Lemma stale_app cutoff l s :
  stale cutoff (l ++ [s]) =
  stale cutoff l ++ (if decide (Session.LastActive s <= cutoff) then [Session.ID s] else []).
Proof.
  unfold stale. rewrite filter_app, fmap_app, filter_cons, filter_nil. by case_decide.
Qed.

(** The hub after the janitor has gone through the sessions [seen] of its snapshot. *)
Record reaped (cutoff : Time) h (seen : list Session.Session) h' (e' : Env) : Prop := mkReaped {
  rp_sessions sid : Session.sessions (sessionStore h') !! sid =
    if decide (sid ∈ stale cutoff seen) then None else Session.sessions (sessionStore h) !! sid;
  rp_gone sid : sid ∈ stale cutoff seen -> no_session h' sid;
  rp_rest sid : plain sid -> sid ∉ stale cutoff seen -> same_session h h' sid;
  rp_wf : Mailbox.wf (mailboxes h');
  rp_ok : members_ok (presence h') e';
}.

Lemma reap_one_wp cutoff h seen sess h1 e1 :
  reaped cutoff h seen h1 e1 -> Session.ID sess ∉ Session.ID <$> seen ->
  Session.sessions (sessionStore h) !! Session.ID sess = Some sess ->
  plain (Session.ID sess) -> Forall (fun s => plain (Session.ID s)) seen ->
  wp (reap_one cutoff sess) (fun _ h' e' => reaped cutoff h (seen ++ [sess]) h' e' /\ e1 ≼ e') h1 e1.
Proof.
  intros [Hs Hg Hr Hwf Hok] Hnew Hin Hp Hps. unfold reap_one.
  assert (Session.ID sess ∉ stale cutoff seen) as Hns.
  { unfold stale. intros (s & Hid & [_ Hse]%list_elem_of_filter)%list_elem_of_fmap.
    apply Hnew. rewrite Hid. by apply list_elem_of_fmap_2. }
  destruct (Z.ltb_spec cutoff (Session.LastActive sess)).
  { wps. split; [|done]. split; try done; rewrite stale_app, decide_False, app_nil_r by lia; done. }
  wps. apply Session.session_Delete_wp.
  { simpl. rewrite Hs, decide_False, Hin by done. done. }
  intros _. cbn [negb]. apply hub_CloseSession_wp; [done..|].
  intros h' [Hgone Hrest Hsess _ Hwf'] Hok'. split; [|done].
  split; [| | |done|done]; rewrite ?stale_app, decide_True by lia.
  - intros sid. rewrite Hsess. simpl. destruct (decide (sid = Session.ID sess)) as [->|Hne].
    + rewrite lookup_delete_eq, decide_True; [done|]. set_solver.
    + rewrite lookup_delete_ne, Hs by done.
      destruct (decide (sid ∈ stale cutoff seen)); [rewrite decide_True|rewrite decide_False];
        set_solver.
  - intros sid [Hsid|Hsid%list_elem_of_singleton]%elem_of_app; [|by subst].
    assert (plain sid) as Hpl.
    { unfold stale in Hsid. apply list_elem_of_fmap in Hsid as (s & -> & [_ Hse]%list_elem_of_filter).
      rewrite Forall_forall in Hps. by apply Hps. }
    eapply no_session_same; [by apply Hg|]. eapply same_session_trans; [|apply Hrest; [done|]].
    + by split.
    + intros ->. done.
  - intros sid Hpl Hnot. apply not_elem_of_app in Hnot as [Hn1 Hn2].
    rewrite list_elem_of_singleton in Hn2.
    eapply same_session_trans; [by apply Hr|].
    eapply same_session_trans; [|by apply Hrest]. by split.
Qed.
End Lifecycle.

(** C18: Closing a session erases everything the hub keeps for it (history, counter, leader,
    scratchpad, files, roster and every mailbox) and leaves every other session (with a plain
    ID) exactly as it was. *)
Theorem close_session_exact {N} `{!Notifier N} sid (h : Hub N) e :
  Mailbox.wf (mailboxes h) -> members_ok (presence h) e -> plain sid ->
  wp (CloseSession sid) (fun _ h' e' =>
    no_session h' sid /\ forall sid', plain sid' -> sid' <> sid -> same_session h h' sid') h e.
Proof.
  intros Hwf Hok Hsid. apply hub_CloseSession_wp; [done..|]. intros h' [] _. done.
Qed.

(** C17: One run of the janitor deletes exactly the sessions whose last activity is not after
    the retention cutoff, with everything the hub keeps for them, and leaves every other
    session's credentials and state exactly as they were. (For session IDs without a slash, as
    the server generates them: keys "session/agent" of two others could coincide.) *)
Theorem janitor_reaps_stale {N} `{!Notifier N} retention (h : Hub N) e :
  Mailbox.wf (mailboxes h) -> members_ok (presence h) e ->
  Session.keyed (sessionStore h) ->
  (forall sid s, Session.sessions (sessionStore h) !! sid = Some s -> plain sid) ->
  wp (reapStaleSessions retention) (fun _ h' e' =>
    exists cutoff, clock e - retention <= cutoff <= clock e' - retention /\
    forall sid, plain sid ->
      match Session.sessions (sessionStore h) !! sid with
      | Some s =>
          if decide (Session.LastActive s <= cutoff)
          then Session.sessions (sessionStore h') !! sid = None /\ no_session h' sid
          else Session.sessions (sessionStore h') !! sid = Some s /\ same_session h h' sid
      | None => Session.sessions (sessionStore h') !! sid = None /\ same_session h h' sid
      end) h e.
Proof.
  intros Hwf Hok Hkeyed Hplain. unfold reapStaleSessions. wp_now e1 He1.
  apply Session.session_Snapshot_wp. intros l e2 Hl He2. rewrite put_get.
  assert (forall s, s ∈ l -> Session.sessions (sessionStore h) !! Session.ID s = Some s) as Hin.
  { intros s Hs. by eapply keyed_values_elem. }
  assert (NoDup (Session.ID <$> l)) as Hnd by by eapply keyed_values_NoDup.
  eapply wp_mono; [apply (wp_for_each l _ (fun seen h' e' =>
    reaped (clock e1 - retention) h seen h' e' /\ e2 ≼ e'))|].
  - split; [|done]. split; [done|by intros sid []%not_elem_of_nil|done|done|].
    eapply members_ok_later; [done|clock].
  - intros seen s h1 e3 [rest ->] [HI He3].
    rewrite !fmap_app, <- app_assoc in Hnd. apply NoDup_app in Hnd as (_ & Hdis & _).
    eapply wp_mono; [eapply reap_one_wp; [exact HI|..]|].
    + intros Hid. apply (Hdis _ Hid). set_solver.
    + apply Hin. set_solver.
    + eapply Hplain, Hin. set_solver.
    + apply Forall_forall. intros s' Hs'. eapply Hplain, Hin. set_solver.
    + intros ? h2 e4 [HI' He4]. split; [done|]. by trans e3.
  - intros ? h' e' [[Hs Hg Hr _ _] He']. exists (clock e1 - retention). split; [clock|].
    assert (forall sid, sid ∈ stale (clock e1 - retention) l <->
      exists s, Session.sessions (sessionStore h) !! sid = Some s /\
                Session.LastActive s <= clock e1 - retention) as Hst.
    { intros sid. unfold stale. rewrite list_elem_of_fmap. split.
      - intros (s & -> & [Hle Hsl]%list_elem_of_filter). exists s. auto.
      - intros (s & Hsid & Hle). exists s. split; [symmetry; by apply Hkeyed|].
        apply list_elem_of_filter. split; [done|]. rewrite Hl. apply list_elem_of_fmap.
        exists (sid, s). by rewrite elem_of_map_to_list. }
    intros sid Hpl. rewrite Hs. specialize (Hst sid).
    destruct (Session.sessions (sessionStore h) !! sid) as [s|] eqn:Hsid.
    + destruct (decide (Session.LastActive s <= clock e1 - retention)).
      * rewrite decide_True; [|naive_solver]. split; [done|]. apply Hg. naive_solver.
      * rewrite decide_False; [|naive_solver]. split; [done|]. apply Hr; naive_solver.
    + rewrite decide_False; [|naive_solver]. split; [done|]. apply Hr; naive_solver.
Qed.

(** ** Reading the history *)
Lemma history_after_spec after limit out l :
  Z.of_nat (length out) < limit ->
  history_after after limit out l =
  out ++ take (Z.to_nat limit - length out) (filter (fun env => after < Sequence env) l).
Proof.
  revert out. induction l as [|env l IH]; intros out Hlen; simpl;
    [rewrite filter_nil, take_nil, app_nil_r; done|].
  rewrite filter_cons. destruct (Z.ltb_spec after (Sequence env)).
  - rewrite decide_True by done. rewrite length_app. simpl.
    replace (Z.to_nat limit - length out)%nat
      with (S (Z.to_nat limit - length out - 1)) by lia. rewrite firstn_cons.
    destruct (Z.leb_spec limit (Z.of_nat (length out + 1))).
    + replace (Z.to_nat limit - length out - 1)%nat with 0%nat by lia. by rewrite take_0.
    + rewrite IH by (rewrite length_app; simpl; lia). rewrite <- app_assoc, length_app. simpl.
      do 3 f_equal. lia.
  - rewrite decide_False by lia. destruct (Z.leb_spec limit (Z.of_nat (length out))); [lia|].
    by apply IH.
Qed.

(** A page of a list sorted by sequence number, and what comes after its last element. *)
Lemma page_then_rest after n (l : list Envelope) last_ :
  StronglySorted Z.lt (Sequence <$> l) ->
  last (take n (filter (fun env => after < Sequence env) l)) = Some last_ ->
  filter (fun env => after < Sequence env) l =
  take n (filter (fun env => after < Sequence env) l) ++
  filter (fun env => Sequence last_ < Sequence env) l.
Proof.
  intros Hs Hlast. revert n Hlast. induction l as [|env l IH]; intros n Hlast;
    [by rewrite filter_nil, take_nil in Hlast|].
  rewrite fmap_cons in Hs. inversion Hs as [|x xs Hs' Hx]; subst.
  rewrite !filter_cons in *. destruct (decide (after < Sequence env)) as [Ha|Ha].
  - destruct n as [|n]; [done|]. rewrite firstn_cons in *.
    (* the rest of the page, if any, is past [env] *)
    assert (filter (fun env0 => after < Sequence env0) l = l) as Hall.
    { apply filter_true. intros x Hx'. rewrite Forall_fmap, Forall_forall in Hx.
      specialize (Hx x Hx'). simpl in Hx. lia. }
    rewrite Hall in *.
    destruct (take n l) as [|p ps] eqn:Hp.
    + simpl in Hlast. simplify_eq. rewrite decide_False by lia. simpl. f_equal.
      symmetry. apply filter_true. intros x Hx'. rewrite Forall_fmap, Forall_forall in Hx.
      by apply Hx.
    + rewrite last_cons_cons in Hlast. rewrite <- Hp in *.
      assert (Sequence env < Sequence last_) as Hlt.
      { rewrite Forall_fmap, Forall_forall in Hx. apply Hx.
        apply last_Some_elem_of in Hlast. eapply subseteq_take; exact Hlast. }
      rewrite decide_False by lia. simpl. f_equal.
      specialize (IH Hs' n).  by apply IH.
  - assert (Sequence env <= Sequence last_) as Hle.
    { apply last_Some_elem_of in Hlast. apply subseteq_take, list_elem_of_filter in Hlast. lia. }
    rewrite (decide_False (P := Sequence last_ < Sequence env)) by lia. by apply IH.
Qed.

(** Reading a session's history after a sequence number returns, oldest first, the first
    [limit] recorded envelopes past it ([maxHistory] of them when the limit is not positive)
    and changes nothing; and when the log is in order, asking again after the last envelope of
    a page continues exactly where the page ended, so paging neither skips nor repeats. *)
Theorem history_pages {N} `{!Notifier N} sid after limit (h : Hub N) e :
  let n := if limit <=? 0 then maxHistory h else Z.to_nat limit in
  let past a := filter (fun env => a < Sequence env) (default [] (history h !! sid)) in
  (0 < n)%nat ->
  wp (GetHistoryAfter sid after limit) (fun page h' e' =>
    h' = h /\ e' = e /\ page = take n (past after) /\
    forall last_, StronglySorted Z.lt (Sequence <$> default [] (history h !! sid)) ->
      last page = Some last_ -> past after = page ++ past (Sequence last_)) h e.
Proof.
  intros n past Hn. unfold GetHistoryAfter. wps. rewrite put_get.
  split; [done|]. split; [done|]. cbn [get the_log log_max log_history].
  set (lim := if limit <=? 0 then Z.of_nat (maxHistory h) else limit).
  assert (Z.to_nat lim = n) as Hlim.
  { unfold lim, n. destruct (Z.leb_spec limit 0); lia. }
  assert (history_after after lim [] (default [] (history h !! sid)) = take n (past after)) as Heq.
  { rewrite history_after_spec by (simpl; lia). simpl. rewrite Hlim. f_equal. lia. }
  simpl. fold lim. rewrite Heq. split; [done|].
  intros last_ Hs Hlast. by apply page_then_rest.
Qed.

(** ** Restoring *)
Lemma raise_seq_lookup m kvs sid :
  NoDup kvs.*1 ->
  default 0 (foldl raise_seq m kvs !! sid) =
  match list_to_map (M := gmap string Z) kvs !! sid with
  | Some n => Z.max (default 0 (m !! sid)) n
  | None => default 0 (m !! sid)
  end.
Proof.
  revert m. induction kvs as [|[k n] kvs IH]; intros m Hnd; [done|].
  rewrite fmap_cons in Hnd. apply NoDup_cons in Hnd as [Hk Hnd]. simpl.
  rewrite IH by done. unfold raise_seq. simpl. destruct (decide (k = sid)) as [<-|Hne].
  - rewrite lookup_insert_eq, not_elem_of_list_to_map_1 by done.
    destruct (Z.ltb_spec (default 0 (m !! k)) n); [rewrite lookup_insert_eq; simpl|]; lia.
  - rewrite (lookup_insert_ne (list_to_map kvs)) by done.
    destruct (_ <? _); [|done]. by rewrite lookup_insert_ne.
Qed.

(** C36: Restoring a snapshot whose histories are in order below its counters into a freshly
    started hub gives back exactly those histories, in order, and exactly those counters (a
    session without one counts from zero), so the next sequence number of every session is one
    past its counter and past every number its clients may have seen. *)
Theorem restore_never_reuses {N} `{!Notifier N} hist seqs b (h : Hub N) e :
  history h = ∅ -> seqNums h = ∅ -> b < maxInt64 ->
  log_ok b (mkLog hist seqs (maxHistory h)) ->
  wp (RestoreState hist seqs) (fun _ h' _ =>
    history h' = hist /\ log_ok b (get the_log h') /\
    (forall sid, default 0 (seqNums h' !! sid) = default 0 (seqs !! sid)) /\
    (forall sid, bumped sid (get the_log h') = default 0 (seqs !! sid) + 1) /\
    forall sid env, env ∈ default [] (hist !! sid) ->
      Sequence env < bumped sid (get the_log h')) h e.
Proof.
  intros Hh Hs Hb Hok. unfold RestoreState. wps. apply wpA_range. intros kvs e' Hp He. wps.
  cbn [get the_log log_history log_seqNums log_max] in *. simpl. rewrite Hh, Hs.
  replace (hist ∪ ∅) with hist by (symmetry; apply map_union_empty).
  assert (forall sid, default 0 (foldl raise_seq ∅ kvs !! sid) = default 0 (seqs !! sid)) as Hseq.
  { intros sid. rewrite raise_seq_lookup by (rewrite Hp; apply NoDup_fst_map_to_list).
    assert (list_to_map kvs = seqs) as ->.
    { rewrite <- (list_to_map_to_list seqs). apply list_to_map_proper; [|done].
      rewrite Hp. apply NoDup_fst_map_to_list. }
    destruct (Hok sid) as [[H0 _] _]. simpl in *. rewrite lookup_empty.
    destruct (seqs !! sid); simpl in *; lia. }
  assert (log_ok b (mkLog hist (foldl raise_seq ∅ kvs) (maxHistory h))) as Hok'.
  { intros sid. simpl. rewrite Hseq. apply (Hok sid). }
  split; [done|]. split; [done|]. split; [exact Hseq|]. split.
  - intros sid. rewrite (bumped_next b _ _ Hok' Hb). simpl. by rewrite Hseq.
  - intros sid env Henv. rewrite (bumped_next b _ _ Hok' Hb). simpl. rewrite Hseq.
    destruct (Hok sid) as [_ [_ _ Hle _]]. simpl in *. rewrite Forall_forall in Hle.
    specialize (Hle env Henv). simpl in Hle. lia.
Qed.
