(* ===== verification/Watcher.v ===== *)
(** * internal/api/watcher.go: the real-time fan-out

    [Watcher] maps each session to the set of its subscribers' channels. A channel is shared
    between the fan-out and the stream that reads it, so channels are addresses into [chans];
    one that is unsubscribed stays there for whoever still holds it. [Notify] is the hub's
    [Notifier]: a send to a full channel is dropped, so it never blocks. *)

From S2P Require Import Prelude Protocol Hub.

Definition chan_cap : nat := 128.

Record Watcher := mkWatcher {
  subs : gmap string (gset nat);
  chans : list (list Envelope);
}.

Definition NewWatcher : Watcher := mkWatcher ∅ [].

Definition Subscribe (sessionID : string) : Atom Watcher nat :=
  ch ← gets (fun w => length (chans w));
  modify (fun w => mkWatcher (<[sessionID := {[ch]} ∪ default ∅ (subs w !! sessionID)]> (subs w))
                     (chans w ++ [[]])) ;;
  mret ch.

Definition Unsubscribe (sessionID : string) (ch : nat) : Atom Watcher unit :=
  modify (fun w =>
    match subs w !! sessionID with
    | None => w
    | Some s =>
        let s' := s ∖ {[ch]} in
        mkWatcher (if bool_decide (s' = ∅) then delete sessionID (subs w)
                   else <[sessionID := s']> (subs w)) (chans w)
    end).

Definition Count (sessionID : string) : Atom Watcher nat :=
  gets (fun w => size (default ∅ (subs w !! sessionID))).

(** [select { case ch <- env: default: }] *)
Definition offer (env : Envelope) (buf : list Envelope) : list Envelope :=
  if (length buf <? chan_cap)%nat then buf ++ [env] else buf.

Fixpoint offer_all (env : Envelope) (l : list nat) : Atom Watcher unit :=
  match l with
  | [] => mret tt
  | ch :: l' =>
      modify (fun w => mkWatcher (subs w) (alter (offer env) ch (chans w))) ;;
      offer_all env l'
  end.

Definition Notify (sessionID : string) (env : Envelope) : Atom Watcher unit :=
  s ← gets (fun w => default ∅ (subs w !! sessionID));
  l ← range (elements s);
  offer_all env l.

(** [env, ok := <-ch] for a stream whose channel is ready; [None] when nothing is buffered. *)
Definition recv (ch : nat) : Atom Watcher (option Envelope) := fun w e =>
  match chans w !! ch with
  | Some (env :: buf) => (Some env, mkWatcher (subs w) (<[ch := buf]> (chans w)), e)
  | _ => (None, w, e)
  end.

(** ** Specifications *)
Definition buffer (w : Watcher) (ch : nat) : list Envelope := default [] (chans w !! ch).
Definition subscribers (w : Watcher) (sid : string) : gset nat := default ∅ (subs w !! sid).

(** Channels exist, none overflows, each belongs to one session at most. *)
Record watcher_ok (w : Watcher) : Prop := mkWatcherOk {
  wok_addr sid ch : ch ∈ subscribers w sid -> ch < length (chans w);
  wok_cap ch : length (buffer w ch) <= chan_cap;
  wok_one s1 s2 ch : ch ∈ subscribers w s1 -> ch ∈ subscribers w s2 -> s1 = s2;
}.

Lemma offer_all_wp env l (Q : unit -> Watcher -> Env -> Prop) w e :
  NoDup l ->
  (forall w', subs w' = subs w -> length (chans w') = length (chans w) ->
     (forall ch, chans w' !! ch =
        if decide (ch ∈ l) then offer env <$> chans w !! ch else chans w !! ch) ->
     Q tt w' e) ->
  wpA (offer_all env l) Q w e.
Proof.
  revert w. induction l as [|c l IH]; intros w Hnd HQ; cbn [offer_all]; wps.
  - apply HQ; [done..|]. intros ch. by rewrite decide_False by set_solver.
  - apply NoDup_cons in Hnd as [Hc Hnd]. apply IH; [done|]. intros w' Hs Hl Hch. simpl in *.
    apply HQ; [done|by rewrite Hl, length_alter|]. intros ch. rewrite Hch.
    destruct (decide (ch = c)) as [->|Hne].
    + rewrite (decide_False (P := c ∈ l)), decide_True by set_solver.
      by rewrite list_lookup_alter_eq.
    + rewrite list_lookup_alter_ne by done.
      destruct (decide (ch ∈ l)); [rewrite decide_True|rewrite decide_False]; set_solver.
Qed.

Lemma watcher_Notify_wp sid env (Q : unit -> Watcher -> Env -> Prop) w e :
  (forall w' e', e ≼ e' -> subs w' = subs w -> length (chans w') = length (chans w) ->
     (forall ch, chans w' !! ch =
        if decide (ch ∈ subscribers w sid) then offer env <$> chans w !! ch else chans w !! ch) ->
     Q tt w' e') ->
  wpA (Notify sid env) Q w e.
Proof.
  intros HQ. unfold Notify. wps. apply wpA_range. intros l e' Hl He.
  apply offer_all_wp; [rewrite Hl; apply NoDup_elements|].
  intros w' Hs Hlen Hch. apply HQ; [done..|]. intros ch. rewrite Hch.
  assert (ch ∈ l <-> ch ∈ subscribers w sid) as Hiff by (rewrite Hl; apply elem_of_elements).
  destruct (decide (ch ∈ l)); [rewrite decide_True|rewrite decide_False]; tauto.
Qed.

(** The watcher is a fan-out for the hub. *)
#[export] Instance watcher_notifier : Notifier Watcher.
Proof.
  refine {| notify := Notify |}. intros sid env n e. by apply watcher_Notify_wp.
Defined.

Lemma length_offer env buf : length buf <= chan_cap -> length (offer env buf) <= chan_cap.
Proof.
  unfold offer. destruct (Nat.ltb_spec (length buf) chan_cap); [|done].
  rewrite length_app. simpl. lia.
Qed.

Lemma notify_ok sid env w e :
  watcher_ok w ->
  wpA (Notify sid env) (fun _ w' _ =>
    watcher_ok w' /\ subs w' = subs w /\
    forall ch, buffer w' ch =
      if decide (ch ∈ subscribers w sid /\ length (buffer w ch) < chan_cap)
      then buffer w ch ++ [env] else buffer w ch) w e.
Proof.
  intros [Ha Hc Ho]. apply watcher_Notify_wp. intros w' e' _ Hs Hl Hch.
  assert (forall ch, buffer w' ch =
      if decide (ch ∈ subscribers w sid /\ length (buffer w ch) < chan_cap)
      then buffer w ch ++ [env] else buffer w ch) as Hbuf.
  { intros ch. unfold buffer. rewrite Hch. destruct (decide (ch ∈ subscribers w sid)) as [Hin|Hout].
    - destruct (lookup_lt_is_Some_2 (chans w) ch) as [buf Hb]; [by eapply Ha|].
      rewrite Hb. simpl. unfold offer. destruct (Nat.ltb_spec (length buf) chan_cap).
      + by rewrite decide_True.
      + rewrite decide_False; [done|]. lia.
    - rewrite decide_False; [done|]. tauto. }
  split; [|by split]. split.
  - intros s ch. unfold subscribers. rewrite Hs, Hl. apply Ha.
  - intros ch. rewrite Hbuf. case_decide as Hd; [|apply Hc]. rewrite length_app. simpl. lia.
  - unfold subscribers. rewrite Hs. apply Ho.
Qed.

(** An event fanned out to a session is appended, once, to the buffer of every subscriber
    of that session that has room, dropped for one whose 128-slot buffer is full, and reaches
    no other channel; buffers stay within their capacity. *)
Theorem notify_fans_out sid env w e :
  watcher_ok w ->
  wpA (Notify sid env) (fun _ w' _ =>
    watcher_ok w' /\ subs w' = subs w /\
    forall ch, buffer w' ch =
      if decide (ch ∈ subscribers w sid /\ length (buffer w ch) < chan_cap)
      then buffer w ch ++ [env] else buffer w ch) w e.
Proof. apply notify_ok. Qed.

Lemma subscribe_ok sid w e :
  watcher_ok w ->
  wpA (Subscribe sid) (fun ch w' e' => e' = e /\ watcher_ok w' /\ buffer w' ch = [] /\
    (ch ∉ subscribers w sid) /\ subscribers w' sid = {[ch]} ∪ subscribers w sid /\
    (forall s, s <> sid -> subscribers w' s = subscribers w s) /\
    (forall c, c <> ch -> buffer w' c = buffer w c)) w e.
Proof.
  intros [Ha Hc Ho]. unfold Subscribe. wps. split; [done|].
  set (w' := mkWatcher _ _).
  assert (subscribers w' sid = {[length (chans w)]} ∪ subscribers w sid) as Hsid.
  { unfold subscribers at 1. simpl. by rewrite lookup_insert_eq. }
  assert (forall s, s <> sid -> subscribers w' s = subscribers w s) as Hother.
  { intros s Hs. unfold subscribers at 1. simpl. by rewrite lookup_insert_ne. }
  assert (buffer w' (length (chans w)) = []) as Hnew.
  { unfold buffer. simpl. by rewrite lookup_app_r, Nat.sub_diag. }
  assert (forall c, c <> length (chans w) -> buffer w' c = buffer w c) as Hold.
  { intros c Hc'. unfold buffer. simpl. destruct (decide (c < length (chans w))).
    - by rewrite lookup_app_l.
    - rewrite !lookup_ge_None_2; [done| |]; rewrite ?length_app; simpl; lia. }
  assert (forall s ch, ch ∈ subscribers w' s ->
    (s = sid /\ ch = length (chans w)) \/ ch ∈ subscribers w s) as Hin.
  { intros s ch. destruct (decide (s = sid)) as [->|Hne]; [rewrite Hsid|rewrite Hother by done];
      set_solver. }
  split; [split|].
  - intros s ch [[-> ->]|Hch%Ha]%Hin; simpl; rewrite length_app; simpl; lia.
  - intros ch. destruct (decide (ch = length (chans w))) as [->|Hne].
    + rewrite Hnew. simpl. lia.
    + rewrite Hold by done. apply Hc.
  - intros s1 s2 ch [[-> ->]|H1]%Hin [[-> E]|H2]%Hin; try done.
    + apply Ha in H2. lia.
    + subst. apply Ha in H1. lia.
    + by eapply Ho.
  - split; [done|]. split; [|done]. intros Hin'%Ha. lia.
Qed.

Lemma recv_ok ch w e :
  watcher_ok w ->
  wpA (recv ch) (fun r w' e' => e' = e /\
    watcher_ok w' /\ subs w' = subs w /\ r = head (buffer w ch) /\
    buffer w' ch = tail (buffer w ch) /\
    forall c, c <> ch -> buffer w' c = buffer w c) w e.
Proof.
  intros [Ha Hc Ho]. unfold wpA, recv, buffer.
  destruct (chans w !! ch) as [[|env buf]|] eqn:Hch; rewrite ?Hch; try done.
  simpl. rewrite list_lookup_insert_eq by by eapply lookup_lt_Some.
  split; [done|]. split; [|repeat split; [done..|]; intros c Hc'; by rewrite list_lookup_insert_ne].
  split; simpl; [|intros c|exact Ho].
  - intros sid c Hin. rewrite length_insert. by eapply Ha.
  - specialize (Hc c). unfold buffer in *. simpl. destruct (decide (c = ch)) as [->|Hne].
    + rewrite list_lookup_insert_eq by by eapply lookup_lt_Some. rewrite Hch in Hc. simpl in *. lia.
    + by rewrite list_lookup_insert_ne.
Qed.

Lemma unsubscribe_ok sid ch w e :
  watcher_ok w ->
  wpA (Unsubscribe sid ch) (fun _ w' e' => e' = e /\ watcher_ok w' /\ chans w' = chans w /\
    subscribers w' sid = subscribers w sid ∖ {[ch]} /\
    forall s, s <> sid -> subscribers w' s = subscribers w s) w e.
Proof.
  intros [Ha Hc Ho]. unfold Unsubscribe. wps.
  assert (exists w', w' = match subs w !! sid with
    | None => w
    | Some s => mkWatcher (if bool_decide (s ∖ {[ch]} = ∅) then delete sid (subs w)
                   else <[sid := s ∖ {[ch]}]> (subs w)) (chans w) end) as [w' Hw'] by eauto.
  rewrite <- Hw'.
  assert (chans w' = chans w /\ subscribers w' sid = subscribers w sid ∖ {[ch]} /\
    forall s, s <> sid -> subscribers w' s = subscribers w s) as (H1 & H2 & H3).
  { unfold subscribers. rewrite Hw'. destruct (subs w !! sid) as [s|] eqn:E; simpl.
    - split; [done|]. case_bool_decide as Hemp.
      + split; [by rewrite lookup_delete_eq, Hemp|]. intros s' Hs'. by rewrite lookup_delete_ne.
      + split; [by rewrite lookup_insert_eq|]. intros s' Hs'. by rewrite lookup_insert_ne.
    - rewrite E. split; [done|]. split; [simpl; set_solver|done]. }
  split; [done|]. split; [|done].
  assert (forall s c, c ∈ subscribers w' s -> c ∈ subscribers w s) as Hsub.
  { intros s c. destruct (decide (s = sid)) as [->|Hne]; [rewrite H2; set_solver|by rewrite H3]. }
  split.
  - intros s c Hin%Hsub. rewrite H1. eauto.
  - intros c. unfold buffer. rewrite H1. apply Hc.
  - intros s1 s2 c Hin1%Hsub Hin2%Hsub. eauto.
Qed.

(** ** A subscriber's view of any sequence of watcher operations *)
Inductive wop :=
  | WNotify (sessionID : string) (env : Envelope)
  | WRecv (ch : nat)
  | WSubscribe (sessionID : string)
  | WUnsubscribe (sessionID : string) (ch : nat).

(** Performs the operations in order; the result is what was received on channel [ch]. *)
Fixpoint play (ch : nat) (ops : list wop) : Atom Watcher (list Envelope) :=
  match ops with
  | [] => mret []
  | WNotify sid env :: ops' => Notify sid env ;; play ch ops'
  | WRecv c :: ops' =>
      r ← recv c;
      got ← play ch ops';
      mret ((if decide (c = ch) then option_list r else []) ++ got)
  | WSubscribe sid :: ops' => Subscribe sid ;; play ch ops'
  | WUnsubscribe sid c :: ops' => Unsubscribe sid c ;; play ch ops'
  end.

(** The events fanned out to session [sid]. *)
Definition fanned (sid : string) (ops : list wop) : list Envelope :=
  omap (fun o => match o with
                 | WNotify s env => if decide (s = sid) then Some env else None
                 | _ => None
                 end) ops.

(** What a channel has given and still holds, [out], against what was there and came in. *)
Definition fifo_of (out before came : list Envelope) : Prop :=
  out `sublist_of` before ++ came /\
  (length before + length came <= chan_cap -> out = before ++ came).

Lemma fifo_of_app r buf buf' out came1 came2 :
  fifo_of (r ++ buf') buf came1 -> fifo_of out buf' came2 ->
  fifo_of (r ++ out) buf (came1 ++ came2).
Proof.
  intros [Hs1 He1] [Hs2 He2]. split.
  - rewrite app_assoc. trans ((r ++ buf') ++ came2).
    + rewrite <- app_assoc. by apply sublist_app.
    + by apply sublist_app.
  - rewrite length_app. intros Hfit. rewrite app_assoc, <- He1 by lia.
    rewrite <- app_assoc, <- He2; [done|].
    assert (length (r ++ buf') = length (buf ++ came1)) as Hl by (rewrite He1; [done|lia]).
    rewrite !length_app in Hl. lia.
Qed.

Lemma fifo_of_refl buf : fifo_of buf buf [].
Proof. split; by rewrite app_nil_r. Qed.

Lemma play_fifo sid ch ops : forall w e,
  watcher_ok w -> ch ∈ subscribers w sid -> WUnsubscribe sid ch ∉ ops ->
  wpA (play ch ops) (fun got w' _ => watcher_ok w' /\
    fifo_of (got ++ buffer w' ch) (buffer w ch) (fanned sid ops)) w e.
Proof.
  induction ops as [|[s env|c|s|s c] ops IH]; intros w e Hok Hch Hun; cbn [play];
    rewrite ?not_elem_of_cons in Hun; wps.
  - split; [done|]. apply fifo_of_refl.
  - eapply wpA_mono; [by apply notify_ok|]. intros _ w' e' (Hok' & Hs & Hb).
    eapply wpA_mono; [apply IH; [done| |tauto]; unfold subscribers in *; by rewrite Hs|].
    intros got w'' _ [Hok'' Hf]. split; [done|].
    change (fanned sid (WNotify s env :: ops)) with
      (match (if decide (s = sid) then Some env else None) with
       | Some y => y :: fanned sid ops | None => fanned sid ops end).
    specialize (Hb ch). destruct (decide (s = sid)) as [->|Hne].
    + apply (fifo_of_app [] _ (buffer w' ch) _ [env]); [|done]. rewrite Hb. case_decide as Hd.
      * split; [done|]. done.
      * split; [apply sublist_inserts_r; done|]. simpl. intros ?. exfalso. apply Hd. split; [done|]. lia.
    + apply (fifo_of_app [] _ (buffer w' ch) _ []); [|done]. rewrite Hb, decide_False; [apply fifo_of_refl|].
      intros [Hin _]. apply Hne. by eapply (wok_one w Hok).
  - eapply wpA_mono; [by apply recv_ok|]. intros r w' e' (_ & Hok' & Hs & Hr & Ht & Ho). wps.
    eapply wpA_mono; [apply IH; [done| |tauto]; unfold subscribers in *; by rewrite Hs|].
    intros got w'' e'' [Hok'' Hf]. wps. split; [done|]. rewrite <- app_assoc.
    apply (fifo_of_app _ _ (buffer w' ch) _ []); [|done]. case_decide as Hc.
    + subst. rewrite Ht. destruct (buffer w ch); apply fifo_of_refl.
    + rewrite Ho by done. apply fifo_of_refl.
  - eapply wpA_mono; [by apply subscribe_ok|]. intros c w' e' (_ & Hok' & _ & Hnew & Hsid & Hs & Hb).
    assert (c <> ch) by (intros ->; destruct (decide (s = sid)) as [->|Hne]; [done|]; apply Hne;
      eapply (wok_one w'); [done| |rewrite Hs; [done|congruence]]; rewrite Hsid; set_solver).
    assert (ch ∈ subscribers w' sid).
    { destruct (decide (s = sid)) as [->|Hne]; [rewrite Hsid; set_solver|rewrite Hs; [done|congruence]]. }
    eapply wpA_mono; [apply IH; [done|done|tauto]|]. intros got w'' _ [Hok'' Hf].
    rewrite Hb in Hf by congruence. by split.
  - eapply wpA_mono; [by apply unsubscribe_ok|]. intros _ w' e' (_ & Hok' & Hcs & Hsid & Hs).
    assert (ch ∈ subscribers w' sid).
    { destruct (decide (s = sid)) as [->|Hne]; [rewrite Hsid|rewrite Hs; [done|congruence]].
      assert (c <> ch) by (intros ->; tauto). set_solver. }
    eapply wpA_mono; [apply IH; [done|done|tauto]|]. intros got w'' _ [Hok'' Hf].
    unfold buffer in Hf at 2. rewrite Hcs in Hf. by split.
Qed.

(** A stream reads its session's events in the order they were fanned out, whatever the
    fan-outs to other sessions, the other streams and the subscriptions in between: what it has
    received, followed by what its channel still buffers, is a subsequence of the events of its
    session, and all of them when they never exceed the channel's 128 slots. *)
Theorem subscriber_fifo sid ch ops w e :
  watcher_ok w -> ch ∈ subscribers w sid -> WUnsubscribe sid ch ∉ ops ->
  wpA (play ch ops) (fun got w' _ =>
    got ++ buffer w' ch `sublist_of` buffer w ch ++ fanned sid ops /\
    (length (buffer w ch) + length (fanned sid ops) <= chan_cap ->
       got ++ buffer w' ch = buffer w ch ++ fanned sid ops)) w e.
Proof.
  intros Hok Hch Hun. eapply wpA_mono; [by apply (play_fifo sid)|]. by intros got w' _ [_ Hf].
Qed.
