(* ===== verification/WatchToken.v ===== *)
(** * internal/api/watchtoken.go: short-lived tokens for the watch stream

    [watchTokenStore] is the map from token to session and expiry. The random bytes are read
    before the lock is taken; the clock is read under it. *)

From S2P Require Import Prelude.

#[local] Open Scope Z_scope.

Record watchToken := mkWatchToken { sessionID : string; expires : Time }.

Record watchTokenStore := mkStore {
  tokens : gmap string watchToken;
  ttl : Duration;
}.

Definition newWatchTokenStore (t : Duration) : watchTokenStore := mkStore ∅ t.

(** Under the lock: prune what has expired, add the new token. *)
Definition issue_locked (sid tok : string) : Atom watchTokenStore unit :=
  n ← now;
  modify (fun s =>
    mkStore (<[tok := mkWatchToken sid (n + ttl s)]>
               (filter (fun '(_, t) => ~ expires t < n) (tokens s))) (ttl s)).

Definition Issue (sid : string) : prog watchTokenStore string :=
  raw ← ⟨lens_id⟩ (rand_read 32);
  let tok := hex_encode raw in
  ⟨lens_id⟩ issue_locked sid tok ;;
  mret tok.

Definition Validate (token sid : string) : Atom watchTokenStore bool :=
  found ← gets (fun s => tokens s !! token);
  match found with
  | None => mret false
  | Some t =>
      if bool_decide (sessionID t = sid) then n ← now; mret (n <? expires t) else mret false
  end.

(** ** Specifications *)
Lemma token_Issue_wp sid (Q : string -> watchTokenStore -> Env -> Prop) s e :
  (forall raw n e', length raw = 32%nat -> clock e <= n <= clock e' ->
     Q (hex_encode raw)
       (mkStore (<[hex_encode raw := mkWatchToken sid (n + ttl s)]>
                   (filter (fun '(_, t) => ~ expires t < n) (tokens s))) (ttl s)) e') ->
  wp (Issue sid) Q s e.
Proof.
  intros HQ. unfold Issue. wps. apply wpA_rand. intros raw e1 Hlen He1. unfold issue_locked.
  wp_now e2 He2. apply HQ; [done|]. clock.
Qed.

(** A token just issued for a session is valid for that session as long as its lifetime
    has not passed, for no other session ever, and no longer afterwards; issuing it leaves
    every other token that has not expired exactly as it was and forgets those that have. *)
Theorem issued_token_scope sid s e :
  wp (Issue sid) (fun tok s' e1 => String.length tok = 64%nat /\
    (forall sid' e2, e1 ≼ e2 ->
       wpA (Validate tok sid') (fun b s2 e3 => s2 = s' /\
         (sid' <> sid -> b = false) /\
         (sid' = sid -> clock e3 < clock e + ttl s -> b = true) /\
         (clock e1 + ttl s <= clock e3 -> b = false)) s' e2) /\
    (forall tok' t, tok' <> tok -> tokens s' !! tok' = Some t -> tokens s !! tok' = Some t) /\
    (forall tok' t, tok' <> tok -> tokens s !! tok' = Some t -> clock e1 <= expires t ->
       tokens s' !! tok' = Some t)) s e.
Proof.
  apply token_Issue_wp. intros raw n e1 Hlen Hn. split; [|split; [|split]].
  - rewrite length_hex_encode. lia.
  - intros sid' e2 He2. unfold Validate. wps. cbn [tokens]. rewrite lookup_insert_eq. simpl.
    case_bool_decide as Hs.
    + wp_now e3 He3. split; [done|]. split; [done|]. split; intros; [apply Z.ltb_lt|apply Z.ltb_ge]; clock.
    + wps. split; [done|]. split; [done|]. split; [|done]. congruence.
  - intros tok' t Hne. simpl. rewrite lookup_insert_ne by done.
    by intros [? _]%map_lookup_filter_Some.
  - intros tok' t Hne Ht Hlive. simpl. rewrite lookup_insert_ne by done.
    apply map_lookup_filter_Some. split; [done|]. lia.
Qed.

(** Only tokens the store holds, for the very session they were issued for and before
    they expire, are accepted; validating changes nothing. *)
Theorem validate_sound token sid s e :
  wpA (Validate token sid) (fun b s' e' => s' = s /\
    (b = true -> exists t, tokens s !! token = Some t /\ sessionID t = sid /\
                           clock e' < expires t)) s e.
Proof.
  unfold Validate. wps. destruct (tokens s !! token) as [t|] eqn:Ht; [|by wps].
  case_bool_decide as Hs; [|by wps]. wp_now e' He. split; [done|].
  intros Hlt%Z.ltb_lt. eauto.
Qed.
