(* ===== verification/Persist.v ===== *)
(** * internal/persist: the durable snapshot

    [Snapshot] with the JSON it is written as and read back from, and [Flush] and [Load] over
    a file system that can lose what was not synced. [FS] is one directory of inodes: [dir] is
    the directory as processes see it, [older] the earlier versions a crash may fall back to,
    and an inode whose data was not synced may hold anything after a crash. System calls may
    fail, at the choice of the environment. A file's contents are the JSON value they spell,
    [None] if they spell none. *)

From Stdlib Require Import Strings.Byte.
From S2P Require Import Prelude Rfc3339 Json Protocol Payloads.
From S2P Require Session Mailbox.

#[local] Open Scope Z_scope.

Record Snapshot := mkSnapshot {
  Sessions : list Session.Session;
  Mailboxes : gmap string (list Mailbox.Entry);
  History : gmap string (list Envelope);
  SeqNums : gmap string Z;
  Scratchpad : gmap string (list ScratchpadEntry);
}.

(** ** Encoding *)
Definition Session_json (s : Session.Session) : json :=
  obj [fld "ID" (JStr (Session.ID s)); fld "Name" (JStr (Session.Name s));
       fld "PSK" (JStr (Session.PSK s)); fld "CreatedAt" (JTime (Session.CreatedAt s));
       fld "LastActive" (JTime (Session.LastActive s))].

Definition Entry_json (en : Mailbox.Entry) : json :=
  obj [fld "id" (JStr (Mailbox.ID en)); fld "envelope" (Envelope_json (Mailbox.entry_Envelope en));
       fld "received" (JTime (Mailbox.Received en))].

Definition Snapshot_json (s : Snapshot) : json :=
  obj [fld "sessions" (enc_slice Session_json (Sessions s));
       fld "mailboxes" (enc_map (enc_nil_slice Entry_json) (Mailboxes s));
       fld "history" (enc_map (enc_nil_slice Envelope_json) (History s));
       fld "seq_nums" (enc_map JInt (SeqNums s));
       fld "scratchpad" (enc_map (enc_slice ScratchpadEntry_json) (Scratchpad s))].

(** ** Decoding *)
Definition Session_of (j : json) : option Session.Session :=
  kvs ← body_fields j;
  id_ ← field_from dec_string "" "id" kvs;
  name ← field_from dec_string "" "name" kvs;
  psk ← field_from dec_string "" "psk" kvs;
  created ← field_from dec_time zeroTime "createdat" kvs;
  active ← field_from dec_time zeroTime "lastactive" kvs;
  Some (Session.mkSession id_ name psk created active).

Definition Entry_of (j : json) : option Mailbox.Entry :=
  kvs ← body_fields j;
  id_ ← field_from dec_string "" "id" kvs;
  env ← field_from (fun _ => Envelope_of) zeroEnvelope "envelope" kvs;
  t ← field_from dec_time zeroTime "received" kvs;
  Some (Mailbox.mkEntry id_ env t).

Definition Snapshot_of (j : json) : option Snapshot :=
  kvs ← body_fields j;
  sessions ← field_from (dec_slice Session_of) [] "sessions" kvs;
  boxes ← field_from (dec_map (dec_slice Entry_of [])) ∅ "mailboxes" kvs;
  history ← field_from (dec_map (dec_slice Envelope_of [])) ∅ "history" kvs;
  seqs ← field_from (dec_map (dec_int64 0)) ∅ "seq_nums" kvs;
  pads ← field_from (dec_map (dec_slice ScratchpadEntry_of [])) ∅ "scratchpad" kvs;
  Some (mkSnapshot sessions boxes history seqs pads).

(** ** The round trip *)

Definition settled (s : Snapshot) : Snapshot :=
  mkSnapshot (Sessions s) (Mailboxes s) (History s) (SeqNums s)
    ((fun l : list ScratchpadEntry => spelled_entry <$> l) <$> Scratchpad s).

(** Every number of the snapshot is an int64, as the program's types have it. *)
Record sized (s : Snapshot) : Prop := mkSized {
  sized_mail k l : Mailboxes s !! k = Some l ->
    Forall (fun en => in_int64 (Sequence (Mailbox.entry_Envelope en))) l;
  sized_history k l : History s !! k = Some l -> Forall (fun env => in_int64 (Sequence env)) l;
  sized_seq k z : SeqNums s !! k = Some z -> in_int64 z;
}.

Lemma Session_round s : Session_of (Session_json s) = Some s.
Proof.
  unfold Session_of, Session_json, obj. cbn [body_fields mbind option_bind].
  destruct s. read_field. cbn [mbind option_bind]. by repeat (read_field; cbn [mbind option_bind]).
Qed.

Lemma Entry_round en :
  in_int64 (Sequence (Mailbox.entry_Envelope en)) -> Entry_of (Entry_json en) = Some en.
Proof.
  intros Hz%Envelope_round. destruct en as [i env t]. cbn [Mailbox.entry_Envelope] in Hz.
  unfold Entry_of, Entry_json, obj. cbn [body_fields mbind option_bind
    Mailbox.ID Mailbox.entry_Envelope Mailbox.Received].
  by repeat (read_field; cbn [mbind option_bind]).
Qed.

Lemma fmap_id_map {A} (f : A -> A) (m : gmap string A) :
  (forall x, f x = x) -> f <$> m = m.
Proof. intros Hf. rewrite <- (map_fmap_id m) at 2. by apply map_fmap_ext. Qed.

Lemma list_id_fmap {A} (l : list A) : (fun x => x) <$> l = l.
Proof. by rewrite <- (list_fmap_id l) at 2. Qed.

(** Reading back a snapshot just as it was written gives the same sessions, mailboxes,
    histories and counters, and the same scratchpads up to a missing value, which comes back
    as the literal null it was written as. *)
Theorem snapshot_round_trip s : sized s -> Snapshot_of (Snapshot_json s) = Some (settled s).
Proof.
  intros [Hm Hh Hq]. destruct s as [ss mb hi sq sp]. cbn [Mailboxes History SeqNums] in *.
  assert (dec_slice Session_of [] (enc_slice Session_json ss) = Some ss) as H1.
  { rewrite (dec_enc_slice _ _ (fun x => x)), list_id_fmap; [done|].
    apply Forall_forall. intros. apply Session_round. }
  assert (dec_map (dec_slice Entry_of []) ∅ (enc_map (enc_nil_slice Entry_json) mb) = Some mb) as H2.
  { rewrite (dec_enc_map _ _ (fun x => x)), fmap_id_map; [done..|]. intros k l Hk.
    rewrite (dec_enc_nil_slice _ _ (fun x => x)), list_id_fmap; [done|].
    eapply Forall_impl; [by eapply Hm|]. intros en. apply Entry_round. }
  assert (dec_map (dec_slice Envelope_of []) ∅ (enc_map (enc_nil_slice Envelope_json) hi) = Some hi) as H3.
  { rewrite (dec_enc_map _ _ (fun x => x)), fmap_id_map; [done..|]. intros k l Hk.
    rewrite (dec_enc_nil_slice _ _ (fun x => x)), list_id_fmap; [done|].
    eapply Forall_impl; [by eapply Hh|]. intros env. apply Envelope_round. }
  assert (dec_map (dec_int64 0) ∅ (enc_map JInt sq) = Some sq) as H4.
  { rewrite (dec_enc_map _ _ (fun x => x)), fmap_id_map; [done..|]. intros k z Hk. simpl.
    rewrite bool_decide_eq_true_2; [done|]. by eapply Hq. }
  assert (dec_map (dec_slice ScratchpadEntry_of []) ∅ (enc_map (enc_slice ScratchpadEntry_json) sp)
          = Some ((fun l : list ScratchpadEntry => spelled_entry <$> l) <$> sp)) as H5.
  { rewrite (dec_enc_map _ _ (fun l : list ScratchpadEntry => spelled_entry <$> l)); [done|].
    intros k l _. apply dec_enc_slice. apply Forall_forall. intros. apply ScratchpadEntry_back. }
  unfold Snapshot_of, Snapshot_json, settled, obj.
  cbn [body_fields mbind option_bind Sessions Mailboxes History SeqNums Scratchpad].
  by repeat (read_field; cbn [mbind option_bind]).
Qed.

(** ** The file system *)
Record Inode := mkInode { data : option json; synced : bool }.

Record FS := mkFS {
  dir : gmap string nat;
  older : list (gmap string nat);
  inodes : list Inode;
}.

Definition stateFile : string := "state.json".

(** A change of the directory: the one before it may still be the one on disk. *)
Definition set_dir (f : gmap string nat -> gmap string nat) (fs : FS) : FS :=
  mkFS (f (dir fs)) (dir fs :: older fs) (inodes fs).

Definition set_inode (i : nat) (f : Inode -> Inode) (fs : FS) : FS :=
  mkFS (dir fs) (older fs) (alter f i (inodes fs)).

(** A new, empty file under [name]. *)
Definition created (name : string) (fs : FS) : FS :=
  set_dir (insert name (length (inodes fs)))
    (mkFS (dir fs) (older fs) (inodes fs ++ [mkInode None false])).

(** What [open(O_CREATE|O_EXCL)] answers. *)
Inductive opened := Opened (i : nat) | Exists_ | OpenFailed.

Definition open_excl (name : string) : Atom FS opened :=
  found ← gets (fun fs => dir fs !! name);
  match found with
  | Some _ => mret Exists_
  | None =>
      ok ← flip;
      if (ok : bool) then
        i ← gets (fun fs => length (inodes fs));
        modify (created name) ;;
        mret (Opened i)
      else mret OpenFailed
  end.

(** [os.CreateTemp(dir, "state-*.tmp")]: the star is a random 32-bit number in decimal, drawn
    again while the name is taken, 10000 times at most. *)
Definition temp_name (r : string) : string := "state-" +:+ r +:+ ".tmp".

Definition nextRandom (bs : list byte) : string :=
  itoa (foldr (fun b n => Z.of_N (Byte.to_N b) + 256 * n) 0 bs).

Fixpoint create_temp (tries : nat) : prog FS (option (string * nat)) :=
  match tries with
  | O => mret None
  | S tries' =>
      bs ← ⟨lens_id⟩ rand_read 4;
      let name := temp_name (nextRandom bs) in
      o ← ⟨lens_id⟩ open_excl name;
      match o with
      | Opened i => mret (Some (name, i))
      | Exists_ => create_temp tries'
      | OpenFailed => mret None
      end
  end.

Definition CreateTemp : prog FS (option (string * nat)) := create_temp (Z.to_nat 10000).

(** A write that fails may leave part of the data behind. *)
Definition Write (i : nat) (j : json) : Atom FS bool :=
  ok ← flip;
  modify (set_inode i (fun _ => mkInode (if (ok : bool) then Some j else None) false)) ;;
  mret ok.

Definition Sync (i : nat) : Atom FS bool :=
  ok ← flip;
  (if (ok : bool) then modify (set_inode i (fun n => mkInode (data n) true)) else mret tt) ;;
  mret ok.

Definition Close : Atom FS bool := flip.

Definition renamed (old new : string) (i : nat) (fs : FS) : FS :=
  set_dir (fun d => <[new := i]> (delete old d)) fs.

Definition Rename (old new : string) : Atom FS bool :=
  ok ← flip;
  found ← gets (fun fs => dir fs !! old);
  match found with
  | Some i => if (ok : bool) then modify (renamed old new i) ;; mret true else mret false
  | None => mret false
  end.

Definition Remove (name : string) : Atom FS unit := modify (set_dir (delete name)).

(** [json.Marshal] refuses a time whose year has more than four digits. *)
Definition year_ok (t : Time) : bool :=
  let y := (civil (t / 10 ^ 9 / 86400)).1.1 in (0 <=? y) && (y <=? 9999).

Fixpoint times_ok (j : json) : bool :=
  match j with
  | JTime t => year_ok t
  | JArr l => forallb times_ok l
  | JObj kvs => forallb (fun kv => times_ok kv.2) kvs
  | _ => true
  end.

Definition encode (snap : Snapshot) : option json :=
  let j := Snapshot_json snap in if times_ok j then Some j else None.

(** The part of [Flush] that has the temporary file open. *)
Definition write_out (tmp : string) (i : nat) (data : json) : prog FS (result unit) :=
  ok ← ⟨lens_id⟩ Write i data;
  if negb ok then
    ⟨lens_id⟩ Close ;; ⟨lens_id⟩ Remove tmp ;; mret (Err "write snapshot")
  else
    ok ← ⟨lens_id⟩ Sync i;
    if negb ok then
      ⟨lens_id⟩ Close ;; ⟨lens_id⟩ Remove tmp ;; mret (Err "sync snapshot")
    else
      ok ← ⟨lens_id⟩ Close;
      if negb ok then ⟨lens_id⟩ Remove tmp ;; mret (Err "close snapshot")
      else
        ok ← ⟨lens_id⟩ Rename tmp stateFile;
        if negb ok then ⟨lens_id⟩ Remove tmp ;; mret (Err "replace snapshot")
        else mret (Ok tt).

Definition Flush (snap : Snapshot) : prog FS (result unit) :=
  match encode snap with
  | None => mret (Err "encode snapshot")
  | Some data =>
      f ← CreateTemp;
      match f with
      | None => mret (Err "create temp file")
      | Some (tmp, i) => write_out tmp i data
      end
  end.

(** [Load]: the snapshot, when there is a state file that decodes. *)
Definition Load (fs : FS) : option Snapshot :=
  i ← dir fs !! stateFile;
  n ← inodes fs !! i;
  j ← data n;
  Snapshot_of j.

(** [New(dir)] makes the directory, or reports why it cannot. *)
Definition New : Atom FS (result unit) :=
  ok ← flip;
  mret (if (ok : bool) then Ok tt else Err "create data dir").

(** A crash: the directory is one of its versions, data that was not synced may be anything. *)
Record crash (fs fs' : FS) : Prop := mkCrash {
  crash_dir : dir fs' ∈ dir fs :: older fs;
  crash_older : older fs' = [];
  crash_inodes i n : inodes fs !! i = Some n -> synced n = true -> inodes fs' !! i = Some n;
}.

(** ** What the directory leads to *)

(** The state file of a directory: nothing or a synced inode, with what it decodes to. *)
Definition durable (fs : FS) (d : gmap string nat) (o : option Snapshot) : Prop :=
  match d !! stateFile with
  | None => o = None
  | Some i => exists n, inodes fs !! i = Some n /\ synced n = true /\
                        o = (data n ≫= Snapshot_of)
  end.

(** Every version of the directory leads to a state [P] allows. *)
Definition recoverable (P : option Snapshot -> Prop) (fs : FS) : Prop :=
  Forall (fun d => exists o, P o /\ durable fs d o) (dir fs :: older fs).

Lemma durable_load fs fs' o :
  durable fs (dir fs') o ->
  (forall i n, inodes fs !! i = Some n -> synced n = true -> inodes fs' !! i = Some n) ->
  Load fs' = o.
Proof.
  unfold durable, Load. destruct (dir fs' !! stateFile) as [i|]; [|done].
  intros (n & Hn & Hs & ->) Hi. simpl. by rewrite (Hi i n Hn Hs).
Qed.

Lemma recoverable_crash P fs fs' : recoverable P fs -> crash fs fs' -> P (Load fs').
Proof.
  unfold recoverable. rewrite Forall_forall. intros He [Hd _ Hi].
  destruct (He _ Hd) as (o & Ho & Hdur). by rewrite (durable_load fs fs' o).
Qed.

Lemma recoverable_load P fs : recoverable P fs -> P (Load fs).
Proof. inversion 1 as [|d ds (o & Ho & Hdur)]; subst. by rewrite (durable_load fs fs o). Qed.

Lemma recoverable_mono (P Q : option Snapshot -> Prop) fs :
  (forall o, P o -> Q o) -> recoverable P fs -> recoverable Q fs.
Proof. intros HPQ H. eapply Forall_impl; [exact H|]. intros d (o & Ho & Hd). eauto. Qed.

(** After a crash the disk is as recoverable as before, with no older versions left. *)
Lemma crash_recoverable P fs fs' : recoverable P fs -> crash fs fs' -> recoverable P fs'.
Proof.
  unfold recoverable. rewrite Forall_forall. intros He [Hd Ho Hi].
  destruct (He _ Hd) as (o & HP & Hdur). rewrite Ho. constructor; [|constructor].
  exists o. split; [done|]. unfold durable in *. destruct (dir fs' !! stateFile) as [j|]; [|done].
  destruct Hdur as (n & Hn & Hs & ->). eauto.
Qed.

(** The inode is no version's state file. *)
Definition apart (i : nat) (fs : FS) : Prop :=
  Forall (fun d => d !! stateFile <> Some i) (dir fs :: older fs).

Lemma temp_name_other r : temp_name r <> stateFile.
Proof. done. Qed.

Lemma fresh_apart P fs : recoverable P fs -> apart (length (inodes fs)) fs.
Proof.
  intros H. eapply Forall_impl; [exact H|]. intros d (o & _ & Hd) Hi. unfold durable in Hd.
  rewrite Hi in Hd. destruct Hd as (n & Hn & _). apply lookup_lt_Some in Hn. lia.
Qed.

Lemma recoverable_created P name fs :
  name <> stateFile -> recoverable P fs -> recoverable P (created name fs).
Proof.
  intros Hname H.
  assert (Forall (fun d => exists o, P o /\ durable (created name fs) d o) (dir fs :: older fs)) as Hk.
  { eapply Forall_impl; [exact H|]. intros d (o & Ho & Hd). exists o. split; [done|].
    unfold durable in *. destruct (d !! stateFile) as [j|]; [|done].
    destruct Hd as (n & Hn & Hs). exists n. split; [|done]. simpl. by apply lookup_app_l_Some. }
  apply Forall_cons. split; [|exact Hk]. apply Forall_cons in Hk as [(o & Ho & Hd) _].
  exists o. split; [done|]. unfold durable in *. simpl in *. by rewrite lookup_insert_ne.
Qed.

Lemma recoverable_set_inode P i f fs :
  apart i fs -> recoverable P fs -> recoverable P (set_inode i f fs).
Proof.
  unfold apart, recoverable. rewrite !Forall_forall. intros Ha H d Hd.
  destruct (H d Hd) as (o & Ho & Hdur). exists o. split; [done|]. specialize (Ha d Hd).
  unfold durable in *. destruct (d !! stateFile) as [j|]; [|done].
  destruct Hdur as (n & Hn & Hs). exists n. simpl. rewrite list_lookup_alter_ne by congruence.
  by split.
Qed.

Lemma recoverable_removed P name fs :
  name <> stateFile -> recoverable P fs -> recoverable P (set_dir (delete name) fs).
Proof.
  intros Hne H. apply Forall_cons. split; [|exact H]. apply Forall_cons in H as [(o & Ho & Hd) _].
  exists o. split; [done|]. unfold durable in *. simpl. by rewrite lookup_delete_ne.
Qed.

Lemma recoverable_renamed P name i j fs :
  P (Snapshot_of j) -> inodes fs !! i = Some (mkInode (Some j) true) -> recoverable P fs ->
  recoverable P (renamed name stateFile i fs).
Proof.
  intros HP Hi H. apply Forall_cons. split; [|exact H]. exists (Snapshot_of j). split; [done|].
  unfold durable. simpl. rewrite lookup_insert_eq. eauto.
Qed.

(** ** Temporary files *)

(** [tmp] is the name of the inode [i], which holds [n] and is no version's state file. *)
Record owns (tmp : string) (i : nat) (n : Inode) (fs : FS) : Prop := mkOwns {
  own_name : tmp <> stateFile;
  own_dir : dir fs !! tmp = Some i;
  own_inode : inodes fs !! i = Some n;
  own_apart : apart i fs;
}.

Lemma owns_created P tmp i n name fs :
  recoverable P fs -> dir fs !! name = None -> owns tmp i n fs -> owns tmp i n (created name fs).
Proof.
  intros H Hnone [Hn Hd Hi Ha]. split; [done|..].
  - simpl. rewrite lookup_insert_ne; [done|congruence].
  - simpl. by apply lookup_app_l_Some.
  - apply Forall_cons. split; [|exact Ha]. simpl.
    destruct (decide (name = stateFile)) as [->|Hne]; [|rewrite lookup_insert_ne by done; by inversion Ha].
    rewrite lookup_insert_eq. intros [= <-]. apply lookup_lt_Some in Hi. lia.
Qed.

Lemma owns_fresh P name fs :
  name <> stateFile -> recoverable P fs ->
  owns name (length (inodes fs)) (mkInode None false) (created name fs).
Proof.
  intros Hne H. pose proof (fresh_apart P fs H) as Ha. split; [done|..].
  - simpl. by rewrite lookup_insert_eq.
  - simpl. by rewrite lookup_app_r, Nat.sub_diag.
  - apply Forall_cons. split; [|exact Ha]. simpl. rewrite lookup_insert_ne by done.
    by inversion Ha.
Qed.

Lemma owns_set_inode tmp i n f fs : owns tmp i n fs -> owns tmp i (f n) (set_inode i f fs).
Proof. intros [Hn Hd Hi Ha]. split; try done. simpl. by rewrite list_lookup_alter_eq, Hi. Qed.

Lemma owns_set_inode_other tmp i n j f fs :
  j <> i -> owns tmp i n fs -> owns tmp i n (set_inode j f fs).
Proof. intros Hj [Hn Hd Hi Ha]. split; try done. simpl. by rewrite list_lookup_alter_ne. Qed.

Lemma owns_removed_other tmp i n tmp' j fs :
  dir fs !! tmp' = Some j -> j <> i -> tmp' <> stateFile -> owns tmp i n fs ->
  owns tmp i n (set_dir (delete tmp') fs).
Proof.
  intros Hj Hne Hs [Hname Hd Hi Ha]. split; [done|..|done|].
  - simpl. rewrite lookup_delete_ne; [done|congruence].
  - apply Forall_cons. split; [|exact Ha]. simpl. rewrite lookup_delete_ne by done. by inversion Ha.
Qed.

Lemma owns_renamed_other tmp i n tmp' j fs :
  dir fs !! tmp' = Some j -> j <> i -> owns tmp i n fs ->
  owns tmp i n (renamed tmp' stateFile j fs).
Proof.
  intros Hj Hne [Hname Hd Hi Ha]. split; [done|..|done|].
  - simpl. rewrite lookup_insert_ne, lookup_delete_ne; [done|congruence|done].
  - apply Forall_cons. split; [|exact Ha]. simpl. rewrite lookup_insert_eq. congruence.
Qed.

(** ** One flush, alone *)
Section Flush.
Context (snap : Snapshot) (old : option Snapshot).
Hypothesis (Hsized : sized snap).
Abbreviation new := (Some (settled snap)).
Abbreviation is_old := (fun o => o = old).
Abbreviation I := (recoverable (fun o => o = old \/ o = new)).

Definition outcome (r : result unit) (fs : FS) (_ : Env) : Prop :=
  Load fs = match r with Ok _ => new | Err _ => old end.

Lemma old_either fs : recoverable is_old fs -> I fs.
Proof. apply recoverable_mono. by left. Qed.

(** Giving up: the temporary file goes, the old state stays. *)
Lemma flush_giveup tmp i n msg fs e :
  recoverable is_old fs -> owns tmp i n fs ->
  always I (⟨lens_id⟩ Remove tmp ;; mret (Err msg)) outcome fs e.
Proof.
  intros H Ho. apply always_bind, always_section; [by apply old_either|]. unfold Remove. wps.
  assert (recoverable is_old (set_dir (delete tmp) fs)) as H' by (apply recoverable_removed; [by eapply own_name|done]).
  split; [by apply old_either|]. apply always_ret; [by apply old_either|].
  by apply (recoverable_load is_old).
Qed.

Lemma flush_close_giveup tmp i n msg fs e :
  recoverable is_old fs -> owns tmp i n fs ->
  always I (⟨lens_id⟩ Close ;; ⟨lens_id⟩ Remove tmp ;; mret (Err msg)) outcome fs e.
Proof.
  intros H Ho. apply always_bind, always_section; [by apply old_either|].
  apply wpA_flip. intros b e' _. split; [by apply old_either|]. by eapply flush_giveup.
Qed.

Lemma flush_rename tmp i fs e :
  recoverable is_old fs -> owns tmp i (mkInode (Some (Snapshot_json snap)) true) fs ->
  always I (ok ← ⟨lens_id⟩ Rename tmp stateFile;
            if negb ok then ⟨lens_id⟩ Remove tmp ;; mret (Err "replace snapshot")
            else mret (Ok tt)) outcome fs e.
Proof using Hsized.
  intros H Ho. apply always_bind, always_section; [by apply old_either|]. unfold Rename. wps.
  apply wpA_flip. intros b e' _. wps. rewrite (own_dir _ _ _ _ Ho). destruct b; wps.
  - assert (I (renamed tmp stateFile i fs)) as HI.
    { eapply recoverable_renamed; [|by apply (own_inode _ _ _ _ Ho)|by apply old_either].
      right. by apply snapshot_round_trip. }
    split; [done|]. cbn [negb]. apply always_ret; [done|].
    eapply (durable_load (renamed tmp stateFile i fs)); [|done]. unfold durable. simpl.
    rewrite lookup_insert_eq. eexists. split; [apply Ho|]. split; [done|]. simpl.
    by rewrite snapshot_round_trip.
  - split; [by apply old_either|]. cbn [negb]. by eapply flush_giveup.
Qed.

Lemma write_out_always tmp i n fs e :
  recoverable is_old fs -> owns tmp i n fs ->
  always I (write_out tmp i (Snapshot_json snap)) outcome fs e.
Proof using Hsized.
  intros H Ho. unfold write_out. apply always_bind, always_section; [by apply old_either|].
  unfold Write. wps. apply wpA_flip. intros ok1 e2 _. wps.
  set (f := fun _ : Inode => _). set (fs1 := set_inode i f fs).
  assert (recoverable is_old fs1) as H1 by (apply recoverable_set_inode; [apply Ho|done]).
  pose proof (owns_set_inode tmp i n f fs Ho) as Ho1.
  split; [by apply old_either|]. subst f. destruct ok1; cbn [negb]; [|by eapply flush_close_giveup].
  apply always_bind, always_section; [by apply old_either|]. unfold Sync. wps.
  apply wpA_flip. intros ok2 e3 _. wps. destruct ok2; wps; cbn [negb].
  2: { split; [by apply old_either|]. by eapply flush_close_giveup. }
  pose proof (owns_set_inode tmp i _ (fun n => mkInode (data n) true) fs1 Ho1) as Ho2.
  assert (recoverable is_old (set_inode i (fun n => mkInode (data n) true) fs1)) as H2
    by (apply recoverable_set_inode; [apply Ho1|done]).
  simpl in Ho2. split; [by apply old_either|].
  apply always_bind, always_section; [by apply old_either|].
  apply wpA_flip. intros ok3 e4 _. split; [by apply old_either|].
  destruct ok3; cbn [negb]; [|by eapply flush_giveup]. by eapply flush_rename.
Qed.

Lemma Flush_always fs e :
  recoverable is_old fs -> always I (Flush snap) outcome fs e.
Proof using Hsized.
  intros H. unfold Flush, encode. destruct (times_ok _);
    [|apply always_ret; [by apply old_either|by apply (recoverable_load is_old)]].
  apply always_bind. unfold CreateTemp. generalize (Z.to_nat 10000). intros tries. revert fs e H.
  induction tries as [|tries IH]; intros fs e H; cbn [create_temp].
  { apply always_ret; [by apply old_either|].
    apply always_ret; [by apply old_either|by apply (recoverable_load is_old)]. }
  apply always_bind, always_section; [by apply old_either|]. apply wpA_rand. intros bs e0 _ _.
  split; [by apply old_either|]. generalize (nextRandom bs). intros r.
  apply always_bind, always_section; [by apply old_either|]. unfold open_excl. wps.
  destruct (dir fs !! temp_name r) eqn:Hd; wps; [split; [by apply old_either|by apply IH]|].
  apply wpA_flip. intros [] e1 _; wps; (split; [|]).
  - by apply old_either, recoverable_created.
  - apply always_ret; [by apply old_either, recoverable_created|]. cbn beta iota.
    eapply write_out_always; [by apply recoverable_created|by eapply owns_fresh].
  - by apply old_either.
  - apply always_ret; [by apply old_either|].
    apply always_ret; [by apply old_either|by apply (recoverable_load is_old)].
Qed.
End Flush.

(** Flushing a snapshot replaces the stored state atomically. Whatever system call fails
    and wherever the process or the machine stops, loading afterwards gives the previous state
    or the new one, never a torn or empty one; a flush that reports success has stored the new
    state and one that reports an error has kept the old. *)
Theorem flush_atomic snap old fs e :
  sized snap -> recoverable (fun o => o = old) fs ->
  always (fun fs1 => forall fs2, crash fs1 fs2 ->
            Load fs2 = old \/ Load fs2 = Some (settled snap))
    (Flush snap)
    (fun r fs1 _ => Load fs1 = match r with Ok _ => Some (settled snap) | Err _ => old end) fs e.
Proof.
  intros Hsz Hold. pose proof (Flush_always snap old Hsz fs e Hold) as Hal.
  revert Hal. generalize (Flush snap) fs e. intros p.
  induction p as [r|B a k IH]; intros fs1 e1 [HI H];
    (split; [intros fs2; by apply (recoverable_crash _ fs1 fs2 HI)|]); [done|].
  eapply wpA_mono; [exact H|]. intros. by apply IH.
Qed.
