(* ===== verification/Flushing.v ===== *)
(** * internal/persist: flushes beside each other

    Any number of flushes may run at once: the flusher's (file Process), which [Stop] does not
    wait for, and the one at shutdown. [files_ok] is the invariant of the directory while each
    has a temporary file of its own, and [staged_Flush] the proof that a flush keeps it section
    by section, in whatever program it is part of. *)

From S2P Require Import Prelude Json Protocol Persist.

(** A temporary file a goroutine has open: its name, its inode and what that holds. *)
Abbreviation temp := (string * nat * Inode)%type.

Record files_ok (P : option Snapshot -> Prop) (ts : list (option temp)) (fs : FS) : Prop :=
  mkFilesOk {
  fo_rec : recoverable P fs;
  fo_own t tmp i n : ts !! t = Some (Some (tmp, i, n)) -> owns tmp i n fs;
  fo_inj t t' tmp tmp' i n n' : ts !! t = Some (Some (tmp, i, n)) ->
    ts !! t' = Some (Some (tmp', i, n')) -> t = t';
}.

Section Files.
Context (P : option Snapshot -> Prop).
Implicit Types (ts : list (option temp)) (fs : FS).

(** Goroutine [t] does one system call: its own file is the one it has now, the others keep
    theirs. *)
Lemma files_update ts fs fs' t x :
  files_ok P ts fs -> recoverable P fs' ->
  (forall t' tmp i n, t' <> t -> ts !! t' = Some (Some (tmp, i, n)) ->
     owns tmp i n fs' /\ forall tmp' i' n', x = Some (tmp', i', n') -> i' <> i) ->
  (forall tmp i n, x = Some (tmp, i, n) -> owns tmp i n fs') ->
  files_ok P (<[t := x]> ts) fs'.
Proof.
  intros [Hr Ho Hi] Hr' Hother Hx. split; [done|..].
  - intros t1 tmp i n. rewrite list_lookup_insert_Some. intros [(<- & E & _)|[Hne E]]; [by apply Hx|].
    by apply (Hother t1).
  - intros t1 t2 tmp tmp' i n n'. rewrite !list_lookup_insert_Some.
    intros [(<- & E & _)|[Hne E]] [(E0 & E' & _)|[Hne' E']]; try done.
    + destruct (Hother t2 _ _ _ (not_eq_sym Hne') E') as [_ Hx']. by destruct (Hx' _ _ _ E).
    + subst t2. destruct (Hother t1 _ _ _ (not_eq_sym Hne) E) as [_ Hx']. by destruct (Hx' _ _ _ E').
    + by eapply Hi.
Qed.

Lemma files_keep ts fs t x : files_ok P ts fs -> ts !! t = Some x -> files_ok P (<[t := x]> ts) fs.
Proof. intros H Ht. by rewrite list_insert_id. Qed.

Lemma files_created ts fs t name :
  files_ok P ts fs -> name <> stateFile -> dir fs !! name = None ->
  files_ok P (<[t := Some (name, length (inodes fs), mkInode None false)]> ts) (created name fs).
Proof.
  intros H Hname Hnone. pose proof (fo_rec _ _ _ H) as Hr.
  eapply files_update; [done|by apply recoverable_created|..].
  - intros t' tmp i n _ Ht'. pose proof (fo_own _ _ _ H _ _ _ _ Ht') as Ho.
    split; [by eapply owns_created|]. apply own_inode, lookup_lt_Some in Ho.
    intros ??? [= _ <- _]. lia.
  - intros tmp i n [= <- <- <-]. by eapply owns_fresh.
Qed.

Lemma files_set_inode ts fs t tmp i n f :
  files_ok P ts fs -> ts !! t = Some (Some (tmp, i, n)) ->
  files_ok P (<[t := Some (tmp, i, f n)]> ts) (set_inode i f fs).
Proof.
  intros H Ht. pose proof (fo_own _ _ _ H _ _ _ _ Ht) as Ho.
  eapply files_update; [done|apply recoverable_set_inode; [apply Ho|apply H]|..].
  - intros t' tmp' i' n' Hne Ht'. assert (i <> i') as Hi.
    { intros <-. apply Hne. by eapply fo_inj. }
    split; [apply owns_set_inode_other; [done|by eapply fo_own]|]. by intros ??? [= _ <- _].
  - intros ??? [= <- <- <-]. by apply owns_set_inode.
Qed.

Lemma files_removed ts fs t tmp i n :
  files_ok P ts fs -> ts !! t = Some (Some (tmp, i, n)) ->
  files_ok P (<[t := None]> ts) (set_dir (delete tmp) fs).
Proof.
  intros H Ht. pose proof (fo_own _ _ _ H _ _ _ _ Ht) as [Hn Hd _ _].
  eapply files_update; [done|apply recoverable_removed; [done|apply H]| |done].
  intros t' tmp' i' n' Hne Ht'. split; [|done]. eapply owns_removed_other; [done| |done|by eapply fo_own].
  intros <-. apply Hne. by eapply fo_inj.
Qed.

Lemma files_renamed ts fs t tmp i j :
  files_ok P ts fs -> ts !! t = Some (Some (tmp, i, mkInode (Some j) true)) -> P (Snapshot_of j) ->
  files_ok P (<[t := None]> ts) (renamed tmp stateFile i fs).
Proof.
  intros H Ht HP. pose proof (fo_own _ _ _ H _ _ _ _ Ht) as [Hn Hd Hi _].
  eapply files_update; [done|by eapply recoverable_renamed, H| |done].
  intros t' tmp' i' n' Hne Ht'. split; [|done]. eapply owns_renamed_other; [done| |by eapply fo_own].
  intros <-. apply Hne. by eapply fo_inj.
Qed.
End Files.

(** ** A flush inside any program

    [L] finds the file system in the world, [LG] the open file in a goroutine's stage, and [I]
    is an invariant of the program that [files_ok] is part of. *)
Section Staged.
Context {W G : Type} (lim : nat) (L : Lens W FS) (LG : Lens G (option temp))
  (P : option Snapshot -> Prop) (I : nat -> list G -> W -> Env -> Prop).
Hypothesis Hget : forall n g w e, I n g w e -> files_ok P (get LG <$> g) (get L w).
Hypothesis Hput : forall n g w e t ph x fs' e', n < lim -> I n g w e -> g !! t = Some ph ->
  files_ok P (<[t := x]> (get LG <$> g)) fs' ->
  I (1 + n) (<[t := put LG x ph]> g) (put L fs' w) e'.

(** The program of goroutine [t], with [x] open, and its stage otherwise [ph]. *)
Definition with_file {A} t ph (x : option temp) (p : prog FS A) (Q : A -> option temp -> Prop) :=
  staged lim I L t (put LG x ph) p (fun a ph' => exists x', ph' = put LG x' ph /\ Q a x').

Lemma with_file_ret {A} t ph x (a : A) (Q : A -> option temp -> Prop) :
  Q a x -> with_file t ph x (mret a) Q.
Proof. intros HQ. apply staged_ret. by exists x. Qed.

Lemma with_file_bind {A B} t ph x (p : prog FS A) (f : A -> prog FS B) Q R :
  with_file t ph x p Q -> (forall a x', Q a x' -> with_file t ph x' (f a) R) ->
  with_file t ph x (p ≫= f) R.
Proof.
  intros Hp Hf. eapply staged_bind; [exact Hp|]. intros a ph' (x' & -> & HQ). by apply Hf.
Qed.

Lemma with_file_call {A} t ph x (a : Atom FS A) (Q : A -> option temp -> Prop) :
  (forall ts fs e, files_ok P ts fs -> ts !! t = Some x ->
     wpA a (fun b fs' _ => exists x', files_ok P (<[t := x']> ts) fs' /\ Q b x') fs e) ->
  with_file t ph x (⟨lens_id⟩ a) Q.
Proof using Hget Hput.
  intros H. apply staged_section. intros n g w e Hn Hg HI. cbn [get put lens_id].
  eapply wpA_mono; [apply (H (get LG <$> g)); [by eapply Hget|]|].
  { rewrite list_lookup_fmap, Hg. simpl. by rewrite get_put. }
  intros b fs' e' (x' & Hok & HQ). exists (put LG x' ph). split; [|by exists x'].
  rewrite <- (put_put _ _ LG x' x ph). by eapply Hput.
Qed.

Lemma with_file_Close t ph x : with_file t ph x (⟨lens_id⟩ Close) (fun _ x' => x' = x).
Proof using Hget Hput.
  apply with_file_call. intros ts fs e H Ht. apply wpA_flip. intros b e' _. exists x.
  split; [by apply files_keep|done].
Qed.

Lemma with_file_giveup t ph tmp i n msg :
  with_file t ph (Some (tmp, i, n)) (⟨lens_id⟩ Remove tmp ;; mret (Err msg : result unit))
    (fun _ x => x = None).
Proof using Hget Hput.
  eapply with_file_bind; [|intros a x Hx; apply with_file_ret, Hx].
  apply with_file_call. intros ts fs e H Ht. unfold Remove. wps. exists None.
  split; [by eapply files_removed|done].
Qed.

Lemma with_file_close_giveup t ph tmp i n msg :
  with_file t ph (Some (tmp, i, n))
    (⟨lens_id⟩ Close ;; ⟨lens_id⟩ Remove tmp ;; mret (Err msg : result unit)) (fun _ x => x = None).
Proof using Hget Hput.
  eapply with_file_bind; [apply with_file_Close|]. intros b x ->. apply with_file_giveup.
Qed.

Lemma with_file_write_out t ph tmp i n j :
  P (Snapshot_of j) ->
  with_file t ph (Some (tmp, i, n)) (write_out tmp i j) (fun _ x => x = None).
Proof using Hget Hput.
  intros HP. unfold write_out.
  eapply (with_file_bind _ _ _ _ _ (fun ok x =>
    exists n', x = Some (tmp, i, n') /\ (ok = true -> data n' = Some j))).
  { apply with_file_call. intros ts fs e H Ht. unfold Write. wps. apply wpA_flip. intros ok e' _.
    wps. eexists. split; [eapply files_set_inode; done|]. eexists. split; [done|]. by intros ->. }
  intros ok x (n1 & -> & Hok1). destruct ok; cbn [negb]; [|apply with_file_close_giveup].
  eapply (with_file_bind _ _ _ _ _ (fun ok x =>
    exists n', x = Some (tmp, i, n') /\ (ok = true -> n' = mkInode (Some j) true))).
  { apply with_file_call. intros ts fs e H Ht. unfold Sync. wps. apply wpA_flip. intros ok e' _.
    wps. destruct ok; wps; eexists; (split; [|eexists; split; [done|]]).
    - by eapply (files_set_inode _ _ _ _ _ _ _ (fun n => mkInode (data n) true)).
    - intros _. by rewrite Hok1.
    - by apply files_keep.
    - done. }
  intros ok x (n2 & -> & Hok2). destruct ok; cbn [negb]; [|apply with_file_close_giveup].
  rewrite Hok2 by done. eapply with_file_bind; [apply with_file_Close|]. intros ok x ->.
  destruct ok; cbn [negb]; [|apply with_file_giveup].
  eapply (with_file_bind _ _ _ _ _ (fun ok x =>
    x = if ok : bool then None else Some (tmp, i, mkInode (Some j) true))).
  { apply with_file_call. intros ts fs e H Ht. unfold Rename. wps. apply wpA_flip. intros ok e' _.
    wps. rewrite (own_dir _ _ _ _ (fo_own _ _ _ H _ _ _ _ Ht)). destruct ok; wps.
    - exists None. split; [by eapply files_renamed|done].
    - eexists. split; [by apply files_keep|done]. }
  intros ok x ->. destruct ok; cbn [negb]; [by apply with_file_ret|apply with_file_giveup].
Qed.

Lemma with_file_CreateTemp t ph :
  with_file t ph None CreateTemp (fun o x =>
    match o with Some (tmp, i) => exists n, x = Some (tmp, i, n) | None => x = None end).
Proof using Hget Hput.
  unfold CreateTemp. generalize (Z.to_nat 10000). intros tries.
  induction tries as [|tries IH]; cbn [create_temp]; [by apply with_file_ret|].
  eapply (with_file_bind _ _ _ _ _ (fun _ x => x = None)).
  { apply with_file_call. intros ts fs e H Ht. apply wpA_rand. intros bs e' _ _. exists None.
    split; [by apply files_keep|done]. }
  intros bs x ->. generalize (nextRandom bs). intros r.
  eapply (with_file_bind _ _ _ _ _ (fun o x => match o with
    | Opened i => exists n, x = Some (temp_name r, i, n) | _ => x = None end)).
  { apply with_file_call. intros ts fs e H Ht. unfold open_excl. wps.
    destruct (dir fs !! temp_name r) eqn:Hd; wps; [exists None; split; [by apply files_keep|done]|].
    apply wpA_flip. intros [] e' _; wps; eexists.
    - split; [by apply files_created|by eexists].
    - split; [by apply files_keep|done]. }
  intros [i| |] x Hx; [by apply with_file_ret| |by apply with_file_ret]. by subst.
Qed.

(** A flush of a snapshot the directory may lead to, beside anything that keeps [I]. *)
Lemma staged_Flush t ph snap :
  get LG ph = None -> sized snap -> P (Some (settled snap)) ->
  staged lim I L t ph (Flush snap) (fun _ ph' => ph' = ph).
Proof using Hget Hput.
  intros Hph Hsz HP.
  assert (put LG None ph = ph) as Hid by (rewrite <- Hph; apply put_get).
  eapply staged_mono with (Q := fun _ ph' => exists x', ph' = put LG x' ph /\ x' = None);
    [|intros r ph' (x' & -> & ->); done].
  rewrite <- Hid at 1. change (with_file t ph None (Flush snap) (fun _ x => x = None)).
  unfold Flush, encode. destruct (times_ok _); [|by apply with_file_ret].
  eapply with_file_bind; [apply with_file_CreateTemp|].
  intros [[tmp i]|] x Hx; [|by apply with_file_ret]. destruct Hx as [n ->].
  apply with_file_write_out. by rewrite snapshot_round_trip.
Qed.
End Staged.

(** ** Flushes beside each other *)
Definition flush_start (snaps : list Snapshot) (p : prog FS unit) : Prop :=
  exists snap, snap ∈ snaps /\ p = (Flush snap ;; mret tt).

(** C14: Flushes may overlap. Let any number of goroutines flush any of the given snapshots at the
    same time, their system calls interleaved and failing in any way, and let the machine stop
    at any point: what loads, then and there or after the crash, is the state before or one of
    the snapshots, whole. *)
Theorem flushes_atomic snaps old fs e n P fs' :
  Forall sized snaps -> recoverable (fun o => o = old) fs ->
  nsteps (pool_step (flush_start snaps)) n (mkPool fs e []) P ->
  fs' = p_world P \/ crash (p_world P) fs' ->
  Load fs' = old \/ exists snap, snap ∈ snaps /\ Load fs' = Some (settled snap).
Proof.
  intros Hsz Hold Hrun Hfs'.
  set (Q := fun o => o = old \/ exists snap, snap ∈ snaps /\ o = Some (settled snap)).
  destruct (pool_staged n (fun _ ts fs _ => files_ok Q ts fs) (flush_start snaps) None
    (fun _ x => x = None) (mkPool fs e []) P n 0 []) as (ts & Hok & _); [| |exact Hrun|lia|..].
  - intros _ ts fs1 _ _ [Hr Ho Hi]. split; [done|..].
    + intros t tmp i m [Ht|[_ Ht%list_lookup_singleton_Some]]%lookup_app_Some; [by eapply Ho|].
      by destruct Ht.
    + intros t t' tmp tmp' i m m' [Ht|[_ Ht%list_lookup_singleton_Some]]%lookup_app_Some
        [Ht'|[_ Ht'%list_lookup_singleton_Some]]%lookup_app_Some;
        [by eapply Hi|by destruct Ht'|by destruct Ht|by destruct Ht].
  - intros t p (snap & Hin & ->).
    eapply (staged_bind _ _ _ _ _ _ _ (fun _ ph => ph = None)); [|intros r ph ->; by apply staged_ret].
    apply (staged_Flush n lens_id lens_id Q (fun _ ts fs _ => files_ok Q ts fs)).
    + intros _ g w _. by rewrite list_fmap_id.
    + intros _ g w _ t' ph x fs1 _ _ _ _. by rewrite list_fmap_id.
    + done.
    + rewrite Forall_forall in Hsz. by apply Hsz.
    + right. by exists snap.
  - split; [|done..]. eapply recoverable_mono; [|exact Hold]. by left.
  - split; [done|]. intros i p ph Hi. done.
  - destruct Hok as [Hr _ _]. destruct Hfs' as [->|Hcr];
      [by apply (recoverable_load Q)|by eapply (recoverable_crash Q)].
Qed.
