(* ===== verification/Api.v ===== *)
(** * internal/api/api.go: the HTTP handlers

    [Handler] is the struct of api.go. Its [sessionStore] is the hub's own store and its
    [watcher] is the fan-out the hub notifies, so both are reached through the hub. A request
    carries what the handlers read of it: the path values, the headers and query parameters,
    the body as the JSON value it spells ([None] when it spells none) and as bytes. A response
    is a status and a body; log lines are left out. A request a long poll keeps waiting has no
    response yet ([None]).

    Every handler is the program of the hub and store calls it makes, in order. *)

From S2P Require Import Prelude Json Protocol Hub Watcher WatchToken.
From S2P Require Session Filestore Mailbox Persist.

#[local] Open Scope Z_scope.

Definition maxUploadMemory : Z := 50 * 2 ^ 20.

Record Handler := mkHandler {
  hub : Hub Watcher;
  tokens : watchTokenStore;
  ssePingInterval : Duration;
  maxWatchersPerSession : nat;
}.

(** [New]: the hub notifies the watcher created here. *)
Definition New (h : Hub Watcher) : Handler :=
  mkHandler (put the_notifier (Some NewWatcher) h) (newWatchTokenStore hour) (15 * second) 64.

Definition the_hub : Lens Handler (Hub Watcher).
Proof.
  by refine (mkLens hub (fun x a => mkHandler x (tokens a) (ssePingInterval a)
    (maxWatchersPerSession a)) _ _ _); intros [].
Defined.
Definition the_tokens : Lens Handler watchTokenStore.
Proof.
  by refine (mkLens tokens (fun x a => mkHandler (hub a) x (ssePingInterval a)
    (maxWatchersPerSession a)) _ _ _); intros [].
Defined.
Definition the_store : Lens Handler Session.Store := lens_comp the_hub the_sessions.
Definition the_watcher : Lens Handler (option Watcher) := lens_comp the_hub the_notifier.

(** A section of the watcher. *)
Definition on_watcher {A} (dflt : A) (a : Atom Watcher A) : Atom (option Watcher) A := fun o e =>
  match o with
  | None => (dflt, None, e)
  | Some w => let '(x, w', e') := a w e in (x, Some w', e')
  end.

(** ** Requests and responses *)
Record Request := mkRequest {
  path_id : string;
  path_fileID : string;
  Authorization : string;
  X_Agent_ID : string;
  Content_Type : string;
  query : string -> string;
  body : option json;
  raw_body : option (list byte);
}.

Inductive payload :=
| Text (s : string)
| Json (j : json)
| File (headers : list (string * string)) (content : list byte)
| NoContent.

Record Response := mkResponse { status : Z; reply : payload }.

(** [http.Error], [writeJSON], [w.WriteHeader]. *)
Definition error (msg : string) (code : Z) : Response := mkResponse code (Text msg).
Definition writeJSON (code : Z) (v : json) : Response := mkResponse code (Json v).

Definition StatusOK : Z := 200.
Definition StatusCreated : Z := 201.
Definition StatusNoContent : Z := 204.
Definition StatusBadRequest : Z := 400.
Definition StatusUnauthorized : Z := 401.
Definition StatusNotFound : Z := 404.
Definition StatusRequestEntityTooLarge : Z := 413.
Definition StatusTooManyRequests : Z := 429.

Abbreviation answer := (prog Handler (option Response)).
Definition respond (r : Response) : answer := mret (Some r).

(** [strconv.ParseInt(s, 10, 64)] with the error dropped: 0 for what is not a decimal number,
    the nearest bound for one out of range. *)
Definition digit (c : ascii) : option Z :=
  let n := N_of_ascii c in
  if ((48 <=? n) && (n <=? 57))%N then Some (Z.of_N n - 48) else None.

Fixpoint digits (acc : Z) (s : string) : option Z :=
  match s with
  | EmptyString => Some acc
  | String c s' => match digit c with Some d => digits (10 * acc + d) s' | None => None end
  end.

Definition clamp64 (z : Z) : Z := Z.max (-2 ^ 63) (Z.min z maxInt64).

Definition ParseInt (s : string) : Z :=
  match s with
  | EmptyString => 0
  | String c s' =>
      let n := N_of_ascii c in
      let '(neg, ds) := if (n =? 45)%N then (true, s') else if (n =? 43)%N then (false, s')
                        else (false, s) in
      if bool_decide (ds = "") then 0
      else match digits 0 ds with
           | Some z => clamp64 (if (neg : bool) then - z else z)
           | None => 0
           end
  end.

(** ** Middleware *)

(** [psk := strings.TrimPrefix(authHeader, "Bearer ")]; [None] when the header is refused. *)
Definition bearer (r : Request) : option string :=
  let psk := TrimPrefix (Authorization r) "Bearer " in
  if bool_decide (psk = Authorization r) || bool_decide (psk = "") then None else Some psk.

Definition auth (next : Request -> string -> answer) (r : Request) : answer :=
  let sessionID := path_id r in
  if bool_decide (sessionID = "") then respond (error "session id required" StatusBadRequest)
  else
    match bearer r with
    | None => respond (error "Authorization: Bearer <psk> required" StatusUnauthorized)
    | Some psk =>
        let agentID := X_Agent_ID r in
        if bool_decide (agentID = "") then
          respond (error "X-Agent-ID header required" StatusUnauthorized)
        else
          sess ← ⟨the_store⟩ Session.ValidatePSK sessionID psk;
          match sess with
          | None => respond (error "invalid session or PSK" StatusUnauthorized)
          | Some _ =>
              ⟪the_hub⟫ RefreshPresence sessionID agentID ;;
              next r agentID
          end
    end.

(** The two ways onto the watch stream; [next] gets the session. *)
Definition authQuery {B} (refuse : Response -> prog Handler B) (next : string -> prog Handler B)
    (r : Request) : prog Handler B :=
  let sessionID := query r "session" in
  if bool_decide (sessionID = "") then
    refuse (error "session query parameter required" StatusUnauthorized)
  else
    let token := query r "token" in
    if bool_decide (token <> "") then
      ok ← ⟨the_tokens⟩ Validate token sessionID;
      if negb ok then refuse (error "invalid or expired watch token" StatusUnauthorized)
      else next sessionID
    else
      sess ← ⟨the_store⟩ Session.ValidatePSK sessionID (query r "psk");
      match sess with
      | None => refuse (error "invalid session or PSK" StatusUnauthorized)
      | Some _ => next sessionID
      end.

(** ** Sessions *)
Definition healthz (r : Request) : answer :=
  respond (writeJSON StatusOK (strmap_json [("status", "ok")])).

Definition createSession (r : Request) : answer :=
  match b ← body r; kvs ← body_fields b; string_field "name" kvs with
  | None => respond (error "invalid request body" StatusBadRequest)
  | Some name =>
      if bool_decide (name = "") then respond (error "name is required" StatusBadRequest)
      else
        sess ← ⟨the_store⟩ Session.Create name;
        respond (writeJSON StatusCreated
          (JObj [("created_at", JTime (Session.CreatedAt sess)); ("id", JStr (Session.ID sess));
                 ("name", JStr (Session.Name sess)); ("psk", JStr (Session.PSK sess))]))
  end.

Definition getSession (r : Request) : answer :=
  sess ← ⟨the_store⟩ Session.Get (path_id r);
  match sess with
  | None => respond (error "session not found" StatusNotFound)
  | Some sess =>
      agents ← ⟪the_hub⟫ GetSessionAgents (Session.ID sess);
      l ← ⟪the_hub⟫ GetLeader (Session.ID sess);
      respond (writeJSON StatusOK
        (JObj [("agent_count", JInt (Z.of_nat (length (default [] agents))));
               ("created_at", JTime (Session.CreatedAt sess)); ("id", JStr (Session.ID sess));
               ("leader_id", JStr l); ("name", JStr (Session.Name sess))]))
  end.

Definition deleteSession (r : Request) : answer :=
  ok ← ⟨the_store⟩ Session.Delete (path_id r);
  if negb ok then respond (error "session not found" StatusNotFound)
  else
    ⟪the_hub⟫ CloseSession (path_id r) ;;
    respond (mkResponse StatusNoContent NoContent).

(** A nil slice of agents marshals to [null]. *)
Definition agents_json (l : slice AgentInfo) : json :=
  match l with None => JNull | Some l => JArr (AgentInfo_json <$> l) end.

(** The register body: a decoding error is ignored, with what was decoded kept. *)
Definition register_caps (r : Request) : list string :=
  match body r with
  | Some (JObj kvs) => default [] (strings_field "capabilities" kvs)
  | _ => []
  end.

Definition registerAgent (r : Request) : answer :=
  let sessionID := path_id r in
  if bool_decide (sessionID = "") then respond (error "session id required" StatusBadRequest)
  else
    match bearer r with
    | None => respond (error "Authorization: Bearer <psk> required" StatusUnauthorized)
    | Some psk =>
        let agentID := X_Agent_ID r in
        if bool_decide (agentID = "") then
          respond (error "X-Agent-ID header required" StatusUnauthorized)
        else
          '(sess, _) ← ⟨the_store⟩ Session.GetOrCreate sessionID psk "";
          match sess with
          | None => respond (error "invalid PSK" StatusUnauthorized)
          | Some _ =>
              ⟪the_hub⟫ Register sessionID agentID (Some (register_caps r)) ;;
              l ← ⟪the_hub⟫ GetLeader sessionID;
              agents ← ⟪the_hub⟫ GetSessionAgents sessionID;
              tok ← ⟪the_tokens⟫ Issue sessionID;
              respond (writeJSON StatusOK
                (JObj [("agents", agents_json agents); ("leader_id", JStr l);
                       ("status", JStr "registered"); ("watch_token", JStr tok)]))
          end
    end.

(** ** Messages *)
Definition sendMessage (r : Request) (agentID : string) : answer :=
  match b ← body r; kvs ← body_fields b; to ← string_field "to" kvs;
        ty ← string_field "type" kvs; Some (to, ty, raw_field "payload" kvs) with
  | None => respond (error "invalid request body" StatusBadRequest)
  | Some (to, ty, p) =>
      if bool_decide (to = "") then respond (error "'to' is required" StatusBadRequest)
      else
        let msgType := if bool_decide (ty = "") then TypeMessage else ty in
        res ← ⟪the_hub⟫ SendMessage (path_id r) agentID to msgType p;
        match res with
        | Err msg => respond (error msg StatusBadRequest)
        | Ok _ => respond (writeJSON StatusOK (strmap_json [("status", "sent")]))
        end
  end.

Definition broadcastMessage (r : Request) (agentID : string) : answer :=
  match b ← body r; kvs ← body_fields b; ty ← string_field "type" kvs;
        Some (ty, raw_field "payload" kvs) with
  | None => respond (error "invalid request body" StatusBadRequest)
  | Some (ty, p) =>
      let msgType := if bool_decide (ty = "") then TypeBroadcast else ty in
      n ← ⟪the_hub⟫ Broadcast (path_id r) agentID msgType p;
      respond (writeJSON StatusOK
        (JObj [("recipients", JInt (Z.of_nat n)); ("status", JStr "sent")]))
  end.

(** The [wait] parameter in seconds, clamped to [0, 30]. *)
Definition wait_seconds (r : Request) : Z :=
  let w := ParseInt (query r "wait") in
  let w := if w <? 0 then 0 else w in
  if 30 <? w then 30 else w.

Definition drainMailbox (fuel : nat) (r : Request) (agentID : string) : answer :=
  let waitSec := wait_seconds r in
  let from := query r "from" in
  let msgType := query r "type" in
  let wait := if (0 <? waitSec) || bool_decide (from <> "") || bool_decide (msgType <> "")
              then waitSec * second else 0 in
  res ← ⟪the_hub⟫ DrainMailboxFiltered fuel (path_id r) agentID wait from msgType;
  match res with
  | None => mret None
  | Some entries =>
      respond (writeJSON StatusOK
        (JObj [("count", JInt (Z.of_nat (length entries)));
               ("messages", enc_slice Persist.Entry_json entries)]))
  end.

Definition peekMailbox (r : Request) (agentID : string) : answer :=
  n ← ⟪the_hub⟫ PeekMailbox (path_id r) agentID;
  respond (writeJSON StatusOK (JObj [("count", JInt (Z.of_nat n))])).

Definition listAgents (r : Request) (agentID : string) : answer :=
  agents ← ⟪the_hub⟫ GetSessionAgents (path_id r);
  respond (writeJSON StatusOK (agents_json (Some (default [] agents)))).

Definition getLeader (r : Request) (agentID : string) : answer :=
  l ← ⟪the_hub⟫ GetLeader (path_id r);
  respond (writeJSON StatusOK (strmap_json [("leader_id", l)])).

Definition transferLeader (r : Request) (agentID : string) : answer :=
  match b ← body r; kvs ← body_fields b; string_field "new_leader_id" kvs with
  | None => respond (error "invalid request body" StatusBadRequest)
  | Some to =>
      res ← ⟪the_hub⟫ LeaderTransfer (path_id r) agentID to;
      match res with
      | Err msg => respond (error msg StatusBadRequest)
      | Ok _ => respond (writeJSON StatusOK
                  (strmap_json [("leader_id", to); ("status", "transferred")]))
      end
  end.

Definition getHistory (r : Request) (agentID : string) : answer :=
  let afterSeq := ParseInt (query r "after_sequence") in
  let limit := ParseInt (query r "limit") in
  if (0 <? afterSeq) || (0 <? limit) then
    h ← ⟪the_hub⟫ GetHistoryAfter (path_id r) afterSeq limit;
    respond (writeJSON StatusOK (enc_slice Envelope_json h))
  else
    h ← ⟪the_hub⟫ GetHistory (path_id r);
    respond (writeJSON StatusOK (enc_slice Envelope_json h)).

(** ** Scratchpad *)
Definition getScratchpad (r : Request) (agentID : string) : answer :=
  es ← ⟪the_hub⟫ GetScratchpad (path_id r);
  respond (writeJSON StatusOK
    (match es with None => JNull | Some es => enc_slice ScratchpadEntry_json es end)).

Definition scratchpadSet (r : Request) (agentID : string) : answer :=
  match b ← body r; kvs ← body_fields b; key ← string_field "key" kvs;
        Some (key, raw_field "value" kvs) with
  | None => respond (error "invalid request body" StatusBadRequest)
  | Some (key, v) =>
      if bool_decide (key = "") then respond (error "key is required" StatusBadRequest)
      else
        res ← ⟪the_hub⟫ ScratchpadSet (path_id r) agentID key v;
        match res with
        | Err msg => respond (error msg StatusBadRequest)
        | Ok entry => respond (writeJSON StatusOK (ScratchpadEntry_json entry))
        end
  end.

(** The body of the two handlers that take a key. *)
Definition key_of (r : Request) : option string :=
  b ← body r; kvs ← body_fields b; string_field "key" kvs.

Definition scratchpadGet (r : Request) (agentID : string) : answer :=
  match key_of r with
  | None => respond (error "invalid request body" StatusBadRequest)
  | Some key =>
      if bool_decide (key = "") then respond (error "key is required" StatusBadRequest)
      else
        res ← ⟪the_hub⟫ ScratchpadGet (path_id r) key;
        match res with
        | Err msg => respond (error msg StatusNotFound)
        | Ok entry => respond (writeJSON StatusOK (ScratchpadEntry_json entry))
        end
  end.

Definition scratchpadDelete (r : Request) (agentID : string) : answer :=
  match key_of r with
  | None => respond (error "invalid request body" StatusBadRequest)
  | Some key =>
      if bool_decide (key = "") then respond (error "key is required" StatusBadRequest)
      else
        res ← ⟪the_hub⟫ ScratchpadDelete (path_id r) agentID key;
        match res with
        | Err msg => respond (error msg StatusNotFound)
        | Ok _ => respond (writeJSON StatusOK (strmap_json [("deleted", "true"); ("key", key)]))
        end
  end.

(** ** Files *)
Definition uploadFile (r : Request) (agentID : string) : answer :=
  match raw_body r with
  | None => respond (error "file too large or read error" StatusRequestEntityTooLarge)
  | Some data =>
      if maxUploadMemory <? Z.of_nat (length data) then
        respond (error "file too large or read error" StatusRequestEntityTooLarge)
      else
        let filename := if bool_decide (query r "filename" = "") then query r "name"
                        else query r "filename" in
        let filename := if bool_decide (filename = "") then "unnamed" else filename in
        let contentType := if bool_decide (Content_Type r = "") then "application/octet-stream"
                           else Content_Type r in
        res ← ⟪the_hub⟫ StoreFile (path_id r) filename contentType agentID data;
        match res with
        | Err msg => respond (error msg StatusRequestEntityTooLarge)
        | Ok f => respond (writeJSON StatusCreated
            (JObj [("content_type", JStr (Filestore.ContentType f));
                   ("file_id", JStr (Filestore.ID f)); ("file_name", JStr (Filestore.Name f));
                   ("sha256", JStr (Filestore.Sha256 f)); ("size", JInt (Filestore.Size f));
                   ("uploaded_at", JTime (Filestore.UploadedAt f));
                   ("uploaded_by", JStr (Filestore.UploadedBy f))]))
        end
  end.

(** [File] has no struct tags; the entries [List] returns carry no data, which marshals to
    [null]. *)
Definition File_json (f : Filestore.File) : json :=
  obj [fld "ID" (JStr (Filestore.ID f)); fld "Name" (JStr (Filestore.Name f));
       fld "ContentType" (JStr (Filestore.ContentType f)); fld "Size" (JInt (Filestore.Size f));
       fld "Sha256" (JStr (Filestore.Sha256 f)); fld "Data" JNull;
       fld "UploadedBy" (JStr (Filestore.UploadedBy f));
       fld "UploadedAt" (JTime (Filestore.UploadedAt f))].

Definition listFiles (r : Request) (agentID : string) : answer :=
  fs ← ⟪the_hub⟫ GetFiles (path_id r);
  respond (writeJSON StatusOK
    (match fs with None => JNull | Some fs => enc_slice File_json fs end)).

Definition downloadFile (r : Request) (agentID : string) : answer :=
  f ← ⟪the_hub⟫ GetFile (path_id r) (path_fileID r);
  match f with
  | None => respond (error "file not found" StatusNotFound)
  | Some f => respond (mkResponse StatusOK
      (File [("Content-Type", Filestore.ContentType f);
             ("Content-Disposition", "attachment; filename=" +:+ String (ascii_of_N 34)
                (Filestore.Name f +:+ String (ascii_of_N 34) ""));
             ("Content-Length", itoa (Filestore.Size f));
             ("X-Content-SHA256", Filestore.Sha256 f)] (Filestore.Data f)))
  end.

Definition deleteFile (r : Request) (agentID : string) : answer :=
  ok ← ⟪the_hub⟫ DeleteFile (path_id r) (path_fileID r);
  if negb ok then respond (error "file not found" StatusNotFound)
  else respond (mkResponse StatusNoContent NoContent).

(** ** The routing table *)
Inductive route :=
| POST_sessions | GET_session | DELETE_session | GET_healthz | POST_register
| POST_messages | POST_broadcast | GET_mailbox | GET_mailbox_peek | GET_agents | GET_leader
| POST_leader_transfer | GET_history | GET_scratchpad | POST_scratchpad_set
| POST_scratchpad_get | POST_scratchpad_delete | POST_files | GET_files | GET_file | DELETE_file.

Definition pattern (rt : route) : string :=
  match rt with
  | POST_sessions => "POST /sessions"
  | GET_session => "GET /sessions/{id}"
  | DELETE_session => "DELETE /sessions/{id}"
  | GET_healthz => "GET /healthz"
  | POST_register => "POST /sessions/{id}/register"
  | POST_messages => "POST /sessions/{id}/messages"
  | POST_broadcast => "POST /sessions/{id}/broadcast"
  | GET_mailbox => "GET /sessions/{id}/mailbox"
  | GET_mailbox_peek => "GET /sessions/{id}/mailbox/peek"
  | GET_agents => "GET /sessions/{id}/agents"
  | GET_leader => "GET /sessions/{id}/leader"
  | POST_leader_transfer => "POST /sessions/{id}/leader/transfer"
  | GET_history => "GET /sessions/{id}/history"
  | GET_scratchpad => "GET /sessions/{id}/scratchpad"
  | POST_scratchpad_set => "POST /sessions/{id}/scratchpad/set"
  | POST_scratchpad_get => "POST /sessions/{id}/scratchpad/get"
  | POST_scratchpad_delete => "POST /sessions/{id}/scratchpad/delete"
  | POST_files => "POST /sessions/{id}/files"
  | GET_files => "GET /sessions/{id}/files"
  | GET_file => "GET /sessions/{id}/files/{fileID}"
  | DELETE_file => "DELETE /sessions/{id}/files/{fileID}"
  end.

(** [RegisterRoutes]; [GET /watch] is [watch] below. *)
Definition serve (fuel : nat) (rt : route) : Request -> answer :=
  match rt with
  | POST_sessions => createSession
  | GET_session => getSession
  | DELETE_session => deleteSession
  | GET_healthz => healthz
  | POST_register => registerAgent
  | POST_messages => auth sendMessage
  | POST_broadcast => auth broadcastMessage
  | GET_mailbox => auth (drainMailbox fuel)
  | GET_mailbox_peek => auth peekMailbox
  | GET_agents => auth listAgents
  | GET_leader => auth getLeader
  | POST_leader_transfer => auth transferLeader
  | GET_history => auth getHistory
  | GET_scratchpad => auth getScratchpad
  | POST_scratchpad_set => auth scratchpadSet
  | POST_scratchpad_get => auth scratchpadGet
  | POST_scratchpad_delete => auth scratchpadDelete
  | POST_files => auth uploadFile
  | GET_files => auth listFiles
  | GET_file => auth downloadFile
  | DELETE_file => auth deleteFile
  end.

(** ** The watch stream *)
Inductive frame :=
| Retry (ms : Z)
| Connected (session : string) (time : Time)
| HistoryEvent (env : Envelope)
| MessageEvent (env : Envelope)
| Ping.

(** What [handleSSE] has done when it enters its loop: refused, or subscribed the channel and
    written the first frames. *)
Inductive sse :=
| Refused (r : Response)
| Streaming (ch : nat) (written : list frame).

Definition handleSSE (sessionID : string) : prog Handler sse :=
  n ← ⟨the_watcher⟩ (on_watcher 0%nat (Count sessionID));
  max ← ⟨lens_id⟩ (gets maxWatchersPerSession);
  if (max <=? n)%nat then
    mret (Refused (error "too many watchers for session" StatusTooManyRequests))
  else
    t ← nowP;
    ch ← ⟨the_watcher⟩ (on_watcher 0%nat (Subscribe sessionID));
    history ← ⟪the_hub⟫ GetHistory sessionID;
    mret (Streaming ch ([Retry 3000; Connected sessionID t] ++ (HistoryEvent <$> history))).

Definition watch (r : Request) : prog Handler sse :=
  authQuery (fun resp => mret (Refused resp)) handleSSE r.

(** The loop of the stream, [fuel] rounds of its [select]: the request ends, the ping timer
    fires, or a buffered event is written. *)
Fixpoint sse_loop (fuel : nat) (sessionID : string) (ch : nat) (written : list frame)
    : prog Handler (list frame) :=
  match fuel with
  | O => mret written
  | S fuel' =>
      done ← ⟨lens_id⟩ flip;
      if (done : bool) then
        ⟨the_watcher⟩ (on_watcher tt (Unsubscribe sessionID ch)) ;; mret written
      else
        ping ← ⟨lens_id⟩ flip;
        if (ping : bool) then sse_loop fuel' sessionID ch (written ++ [Ping])
        else
          env ← ⟨the_watcher⟩ (on_watcher None (recv ch));
          match env with
          | None => sse_loop fuel' sessionID ch written
          | Some env => sse_loop fuel' sessionID ch (written ++ [MessageEvent env])
          end
  end.
