(* ===== verification/ApiOrder.v ===== *)
(** * Any request, section by section

    What a request may do to the hub's log and mailboxes between two locks, for every route of
    [RegisterRoutes] and for the watch stream: the guarantee the whole server's invariants rest
    on. Only [DELETE /sessions/{id}] ends a session. *)

From S2P Require Import Prelude Json Protocol Hub HubDelivery HubOrder Watcher WatchToken Api.
From S2P Require Session Filestore Mailbox Persist.

#[local] Open Scope Z_scope.

Section ApiGuar.
Context (closing : bool).

Definition api_step (a a' : Handler) : Prop := hub_step closing (hub a) (hub a').
Abbreviation R := api_step.

Lemma api_step_refl a : R a a.
Proof. apply hub_step_refl. Qed.

Lemma guar_hub {A} (p : prog (Hub Watcher) A) :
  hub_client closing (p ;; mret tt) -> guar R (⟪the_hub⟫ p) (fun _ => True).
Proof. intros Hp. eapply guar_within; [|by apply hub_method_guar]. done. Qed.

(** Sections beside the log and the mailboxes: on the session store, the watcher, the tokens. *)
Lemma guar_beside {S A} (L : Lens Handler S) (a : Atom S A) :
  (forall s h, R h (put L s h)) -> guar R (⟨L⟩ a) (fun _ => True).
Proof.
  intros HL. apply guar_atomically. intros h e. unfold wpA. destruct (a (get L h) e) as [[x s'] e'].
  split; [apply HL|done].
Qed.

Lemma guar_store {A} (a : Atom Session.Store A) : guar R (⟨the_store⟩ a) (fun _ => True).
Proof. apply guar_beside. intros s h. split; [constructor|apply Mailbox.mail_step_refl]. Qed.

Lemma guar_watcher {A} (a : Atom (option Watcher) A) : guar R (⟨the_watcher⟩ a) (fun _ => True).
Proof. apply guar_beside. intros s h. split; [constructor|apply Mailbox.mail_step_refl]. Qed.

Lemma guar_token {A} (a : Atom watchTokenStore A) : guar R (⟨the_tokens⟩ a) (fun _ => True).
Proof. apply guar_beside. intros s h. split; [constructor|apply Mailbox.mail_step_refl]. Qed.

Lemma guar_tokens {A} (p : prog watchTokenStore A) : guar R (⟪the_tokens⟫ p) (fun _ => True).
Proof.
  eapply (guar_within _ (fun _ _ => True)); [|by apply guar_any].
  intros h s _. split; [constructor|apply Mailbox.mail_step_refl].
Qed.

Lemma guar_api_clock : guar R nowP (fun _ => True).
Proof. apply guar_nowP; [apply api_step_refl|done]. Qed.

Lemma guar_gets {A} (f : Handler -> A) : guar R (⟨lens_id⟩ (gets f)) (fun _ => True).
Proof. apply guar_atomically. intros h e. wps. split; [apply api_step_refl|done]. Qed.

Lemma guar_flip : guar R (⟨lens_id⟩ flip) (fun _ => True).
Proof. apply guar_atomically. intros h e. apply wpA_flip. split; [apply api_step_refl|done]. Qed.

(** Steps through a handler's sections. *)
Ltac api_step :=
  lazymatch goal with
  | |- guar _ (mbind _ _) _ => apply guar_then
  | |- forall _, guar _ _ _ => intros ?
  | |- guar _ (within the_tokens _) _ => apply guar_tokens
  | |- guar _ (atomically the_store _) _ => apply guar_store
  | |- guar _ (atomically the_watcher _) _ => apply guar_watcher
  | |- guar _ (atomically the_tokens _) _ => apply guar_token
  | |- guar _ (atomically lens_id flip) _ => apply guar_flip
  | |- guar _ (atomically lens_id (gets _)) _ => apply guar_gets
  | |- guar _ nowP _ => apply guar_api_clock
  | |- guar _ (mret _) _ => done
  | |- guar _ (respond _) _ => done
  | |- guar _ (let '(_, _) := ?p in _) _ => destruct p
  | |- guar _ (if ?c then _ else _) _ => destruct c
  | |- guar _ (match ?o with Some _ => _ | None => _ end) _ => destruct o as [?|]
  | |- guar _ (match ?r with Ok _ => _ | Err _ => _ end) _ => destruct r
  | |- guar _ (within the_hub _) _ => by apply guar_hub; constructor
  end.
Ltac api_guar := repeat api_step.

Lemma guar_refresh sid aid : guar R (⟪the_hub⟫ RefreshPresence sid aid) (fun _ => True).
Proof. eapply guar_within; [|apply hub_client_guar, (c_RefreshPresence closing)]. done. Qed.

Lemma guar_auth next r :
  (forall agentID, guar R (next r agentID) (fun _ => True)) -> guar R (auth next r) (fun _ => True).
Proof.
  intros Hn. unfold auth. cbv zeta. case_bool_decide; [done|]. destruct (bearer r); [|done].
  case_bool_decide; [done|]. apply guar_then; [apply guar_store|]. intros [sess|]; [|done].
  apply guar_then; [apply guar_refresh|]. intros _. apply Hn.
Qed.

(** Every route of the server. *)
Lemma serve_guar fuel rt r :
  (rt = DELETE_session -> closing = true) -> guar R (serve fuel rt r) (fun _ => True).
Proof.
  intros Hdel. destruct rt; cbn [serve]; try (apply guar_auth; intros agentID);
    unfold createSession, getSession, healthz, registerAgent, sendMessage, broadcastMessage,
      drainMailbox, peekMailbox, listAgents, getLeader, transferLeader, getHistory, getScratchpad,
      scratchpadSet, scratchpadGet, scratchpadDelete, uploadFile, listFiles, downloadFile,
      deleteFile; cbv zeta; api_guar.
  unfold deleteSession. apply guar_then; [apply guar_store|]. intros [|]; cbn [negb]; [|done].
  apply guar_then; [|done]. eapply guar_within; [|by apply hub_client_guar, c_CloseSession, Hdel].
  done.
Qed.

Lemma sse_loop_guar fuel sid ch fs : guar R (sse_loop fuel sid ch fs) (fun _ => True).
Proof.
  revert fs. induction fuel as [|fuel IH]; intros fs; cbn [sse_loop]; [done|]. api_guar; apply IH.
Qed.

(** The watch stream, from the request to its end. *)
Definition watch_stream (fuel : nat) (r : Request) : prog Handler unit :=
  s ← watch r;
  match s with
  | Refused _ => mret tt
  | Streaming ch written => sse_loop fuel (query r "session") ch written ;; mret tt
  end.

Lemma watch_guar fuel r : guar R (watch_stream fuel r) (fun _ => True).
Proof.
  unfold watch_stream, watch, authQuery, handleSSE. cbv zeta. apply guar_then; [api_guar|].
  intros [resp|ch written]; [done|]. apply guar_then; [apply sse_loop_guar|done].
Qed.
End ApiGuar.
