(* ===== verification/ApiAuth.v ===== *)
(** * Who may do what

    The credentials behind every route of api.go: what the middleware lets through, which
    routes can create, replace or remove a session's key, and what the watch stream asks. *)

From S2P Require Import Prelude Json Protocol Hub HubDelivery Watcher WatchToken Api.
From S2P Require Leader Scratchpad Session Filestore Presence Mailbox.

#[local] Open Scope Z_scope.

Implicit Types (a : Handler) (e : Env) (r : Request).

(** The session store of a handler, and the key each session has. *)
Definition store a : Session.Store := sessionStore (hub a).
Definition creds (s : Session.Store) : gmap string string := Session.PSK <$> Session.sessions s.

(** The request carries the session's key and names an agent. *)
Definition authorized a r : Prop :=
  path_id r <> "" /\ X_Agent_ID r <> "" /\
  exists psk, bearer r = Some psk /\ creds (store a) !! path_id r = Some psk.

Lemma ValidatePSK_creds sid psk (Q : option Session.Session -> Session.Store -> Env -> Prop) s e :
  (forall sess, creds s !! sid = Some psk -> Session.sessions s !! sid = Some sess -> Q (Some sess) s e) ->
  (creds s !! sid <> Some psk -> Q None s e) ->
  wpA (Session.ValidatePSK sid psk) Q s e.
Proof.
  intros HS HN. unfold Session.ValidatePSK. wps. unfold creds in *. rewrite lookup_fmap in *.
  destruct (Session.sessions s !! sid) as [sess|]; simpl in *; [|by apply HN].
  case_bool_decide as Hp; [apply HN; congruence|].
  apply HS; [|done]. f_equal. by destruct (decide (Session.PSK sess = psk)).
Qed.

(** C13: Behind the middleware nothing happens without the key: a request that does not carry
    the exact key of an existing session and an agent name is answered 400 or 401 and leaves
    the whole server, presence and activity included, exactly as it was. *)
Theorem auth_gate next r a e :
  ~ authorized a r ->
  wp (auth next r) (fun resp a' e' => a' = a /\ e' = e /\
    exists msg code, resp = Some (error msg code) /\
      (code = StatusBadRequest \/ code = StatusUnauthorized)) a e.
Proof.
  intros Hno. unfold auth, authorized in *.
  case_bool_decide as Hid; [unfold respond; wps; eauto 10|].
  destruct (bearer r) as [psk|] eqn:Hb; [|unfold respond; wps; eauto 10].
  case_bool_decide as Hag; [unfold respond; wps; eauto 10|].
  wps. apply ValidatePSK_creds.
  - intros sess Hc _. destruct Hno. eauto.
  - intros _. rewrite put_get. unfold respond. wps. eauto 10.
Qed.

(** A request that carries the key is let through, after its agent's presence and its
    session's activity have been refreshed, with the agent it names. *)
Theorem auth_admits next r a e (Q : option Response -> Handler -> Env -> Prop) :
  authorized a r ->
  wp (⟪the_hub⟫ RefreshPresence (path_id r) (X_Agent_ID r) ;; next r (X_Agent_ID r)) Q a e ->
  wp (auth next r) Q a e.
Proof.
  intros (Hid & Hag & psk & Hb & Hc) Hnext. unfold auth.
  rewrite bool_decide_eq_false_2, Hb, bool_decide_eq_false_2 by done.
  wps. apply ValidatePSK_creds; [|done]. intros sess _ _. by rewrite put_get.
Qed.

(** ** Credentials *)
Section Creds.
Context (c : gmap string string).

Definition hub_creds (h : Hub Watcher) (_ : Env) : Prop := creds (sessionStore h) = c.
Definition api_creds (x : Handler) (_ : Env) : Prop := creds (store x) = c.

Lemma keeps_other {S A} (L : Lens (Hub Watcher) S) (at_ : Atom S A) :
  (forall s h, sessionStore (put L s h) = sessionStore h) -> keeps hub_creds (⟨L⟩ at_).
Proof.
  intros HL h e Hc. wps. unfold wpA. destruct (at_ (get L h) e) as [[x s'] e'].
  unfold hub_creds. by rewrite HL.
Qed.

Lemma keeps_other_within {S A} (L : Lens (Hub Watcher) S) (p : prog S A) :
  (forall s h, sessionStore (put L s h) = sessionStore h) -> keeps hub_creds (⟪L⟫ p).
Proof.
  intros HL. induction p as [x|B b k IH]; intros h e Hc; [by apply wp_ret|].
  apply wp_act, wpA_zoom. unfold wpA. destruct (b (get L h) e) as [[x s'] e'].
  apply IH. unfold hub_creds. by rewrite HL.
Qed.

Lemma keeps_clock : keeps (W := Hub Watcher) hub_creds nowP.
Proof. intros h e Hc. by apply wp_nowP. Qed.

Lemma creds_TouchActivity sid t :
  keeps hub_creds (⟨the_sessions⟩ Session.TouchActivity sid t).
Proof.
  intros h e Hc. wps. apply Session.session_TouchActivity_wp; [by rewrite put_get|].
  intros sess Hs. change (get the_sessions h) with (sessionStore h) in Hs. unfold hub_creds in *. rewrite <- Hc. simpl. unfold creds. simpl.
  rewrite fmap_insert. simpl. apply insert_id. by rewrite lookup_fmap, Hs.
Qed.

Ltac creds_step :=
  lazymatch goal with
  | |- keeps _ (mbind _ _) => apply keeps_bind
  | |- forall _, keeps _ _ => intros ?
  | |- keeps _ (mret _) => apply keeps_ret
  | |- keeps _ nowP => apply keeps_clock
  | |- keeps _ (atomically the_sessions (Session.TouchActivity _ _)) => apply creds_TouchActivity
  | |- keeps _ (atomically _ _) => by apply keeps_other
  | |- keeps _ (within _ _) => by apply keeps_other_within
  | |- keeps _ (if ?b then _ else _) => destruct b
  | |- keeps _ (match ?o with Some _ => _ | None => _ end) => destruct o
  end.
Ltac keep_creds := repeat creds_step.

Lemma creds_touch_activity sid : keeps hub_creds (touch_activity sid).
Proof. unfold touch_activity. keep_creds. Qed.
Lemma creds_RefreshPresence sid aid : keeps hub_creds (RefreshPresence sid aid).
Proof. unfold RefreshPresence. keep_creds. apply creds_touch_activity. Qed.
Lemma creds_deliver_each sid env ex l n : keeps hub_creds (deliver_each sid env ex l n).
Proof.
  revert n. induction l as [|i l IH]; intros n; cbn [deliver_each]; [apply keeps_ret|].
  case_bool_decide; [|done]. unfold deliverToAgentMailbox. keep_creds. apply IH.
Qed.
Lemma creds_system sid env ex : keeps hub_creds (emitSystemEvent sid env ex).
Proof.
  unfold emitSystemEvent, deliverToSessionMailboxes, notifyWatchers. keep_creds.
  apply creds_deliver_each.
Qed.
Lemma creds_ambient sid env : keeps hub_creds (emitAmbientEvent sid env).
Proof. unfold emitAmbientEvent, notifyWatchers. keep_creds. Qed.

Lemma creds_Register sid aid caps : keeps hub_creds (Register sid aid caps).
Proof.
  unfold Register, event. keep_creds; try apply creds_ambient; apply creds_touch_activity.
Qed.

Lemma creds_CloseSession sid : keeps hub_creds (CloseSession sid).
Proof. unfold CloseSession. keep_creds. Qed.

(** A call into the hub, seen from the handler. *)
Lemma keeps_hub {A} (p : prog (Hub Watcher) A) : keeps hub_creds p -> keeps api_creds (⟪the_hub⟫ p).
Proof. intros Hp x e Hc. wps. eapply wp_mono; [by apply (Hp (hub x) e)|]. done. Qed.

Lemma keeps_tokens {A} (p : prog watchTokenStore A) : keeps api_creds (⟪the_tokens⟫ p).
Proof.
  induction p as [x|B b k IH]; intros h e Hc; [by apply wp_ret|].
  apply wp_act, wpA_zoom. unfold wpA. destruct (b (get the_tokens h) e) as [[x s'] e'].
  by apply IH.
Qed.

Lemma keeps_store_read {B} (f : Session.Store -> B) : keeps api_creds (⟨the_store⟩ (gets f)).
Proof. intros x e Hc. wps. by rewrite put_get. Qed.

Lemma auth_keeps next : (forall r ag, keeps api_creds (next r ag)) -> forall r, keeps api_creds (auth next r).
Proof.
  intros Hn r. unfold auth, respond. case_bool_decide; [apply keeps_ret|].
  destruct (bearer r); [|apply keeps_ret]. case_bool_decide; [apply keeps_ret|].
  apply keeps_bind; [apply keeps_store_read|]. intros [?|]; [|apply keeps_ret].
  apply keeps_bind; [apply keeps_hub, creds_RefreshPresence|]. intros _. apply Hn.
Qed.

Ltac api_step :=
  lazymatch goal with
  | |- keeps _ (mbind _ _) => apply keeps_bind
  | |- forall _, keeps _ _ => intros ?
  | |- keeps _ (mret _) => apply keeps_ret
  | |- keeps _ (respond _) => apply keeps_ret
  | |- keeps _ (atomically the_store (Session.Get _)) => apply keeps_store_read
  | |- keeps _ (within the_hub _) => apply keeps_hub
  | |- keeps _ (if ?b then _ else _) => destruct b
  | |- keeps _ (match ?o with Some _ => _ | None => _ end) => destruct o
  | |- keeps _ (match ?o with Ok _ => _ | Err _ => _ end) => destruct o
  | |- keeps _ (match ?o with (_, _) => _ end) => destruct o
  end.

(** The routes that manage sessions. *)
Definition manages (rt : route) : bool :=
  match rt with POST_sessions | DELETE_session | POST_register => true | _ => false end.

Lemma serve_creds fuel rt r : manages rt = false -> keeps api_creds (serve fuel rt r).
Proof.
  destruct rt; simpl; try done; intros _; try (apply auth_keeps; intros r' ag);
    unfold getSession, healthz, sendMessage, broadcastMessage, drainMailbox, peekMailbox,
      listAgents, getLeader, transferLeader, getHistory, getScratchpad, scratchpadSet,
      scratchpadGet, scratchpadDelete, uploadFile, listFiles, downloadFile, deleteFile;
    repeat api_step;
    unfold GetSessionAgents, GetLeader, SendMessage, Broadcast, DrainMailboxFiltered, PeekMailbox,
      LeaderTransfer, GetHistoryAfter, GetHistory, GetScratchpad, ScratchpadSet, ScratchpadGet,
      ScratchpadDelete, StoreFile, GetFiles, GetFile, DeleteFile, notifyWatchers, event,
      deliverToAgentMailbox, deliverToSessionMailboxes;
    keep_creds; try apply creds_deliver_each; try apply creds_system.
Qed.
End Creds.

Lemma api_creds_refl a e : api_creds (creds (store a)) a e.
Proof. done. Qed.

Lemma GetOrCreate_creds sid psk name (Q : option Session.Session * bool -> Session.Store -> Env -> Prop) s e :
  (forall k, creds s !! sid = Some k -> k <> psk -> Q (None, false) s e) ->
  (forall sess b s' e', (creds s !! sid = Some psk /\ creds s' = creds s) \/
     (creds s !! sid = None /\ creds s' = <[sid := psk]> (creds s)) -> Q (Some sess, b) s' e') ->
  wpA (Session.GetOrCreate sid psk name) Q s e.
Proof.
  intros Hbad Hok. apply Session.session_GetOrCreate_wp.
  - intros sess Hs Hp. apply (Hbad (Session.PSK sess)); [|done].
    unfold creds. by rewrite lookup_fmap, Hs.
  - intros sess Hs Hp. apply Hok. left. unfold creds. by rewrite lookup_fmap, Hs, <- Hp.
  - intros e' Hs He. apply Hok. right. unfold creds. simpl.
    by rewrite lookup_fmap, Hs, fmap_insert.
Qed.

(** The rest of a registration, once the session is there, touches no credentials. *)
Lemma register_rest_creds c sid aid caps :
  keeps (api_creds c)
    (⟪the_hub⟫ Register sid aid caps ;;
     l ← ⟪the_hub⟫ GetLeader sid;
     agents ← ⟪the_hub⟫ GetSessionAgents sid;
     tok ← ⟪the_tokens⟫ Issue sid;
     respond (writeJSON StatusOK
       (JObj [("agents", agents_json agents); ("leader_id", JStr l);
              ("status", JStr "registered"); ("watch_token", JStr tok)]))).
Proof.
  apply keeps_bind; [apply keeps_hub, creds_Register|]. intros _.
  apply keeps_bind; [apply keeps_hub; unfold GetLeader; apply keeps_bind;
    [by apply keeps_other|intros; apply keeps_ret]|]. intros l.
  apply keeps_bind; [by apply keeps_hub, keeps_other|]. intros agents.
  apply keeps_bind; [apply keeps_tokens|]. intros tok. apply keeps_ret.
Qed.

(** What a request to create a session asks to call it; empty when the body spells no name. *)
Definition session_name r : string :=
  default "" (b ← body r; kvs ← body_fields b; string_field "name" kvs).

(** The three routes that manage sessions, each with all it does to the table. *)
Lemma create_creds r (c : gmap string string) a e :
  c = creds (store a) ->
  wp (createSession r) (fun out a' e' =>
    if decide (session_name r = "")
    then creds (store a') = c /\ exists msg, out = Some (error msg StatusBadRequest)
    else creds (store a') = <[Session.new_ID e := Session.new_PSK e]> c /\ entropy e' = drop 48 (entropy e) /\
      plain (Session.new_ID e) /\ String.length (Session.new_ID e) = 32%nat /\
      String.length (Session.new_PSK e) = 64%nat /\
      exists t, clock e <= t <= clock e' /\ out = Some (writeJSON StatusCreated
        (JObj [("created_at", JTime t); ("id", JStr (Session.new_ID e));
               ("name", JStr (session_name r)); ("psk", JStr (Session.new_PSK e))]))) a e.
Proof.
  intros ->. unfold createSession, respond, session_name.
  destruct (_ ≫= _) as [nm|]; cbn [default from_option]; unfold id.
  2: { wps. rewrite decide_True by done. eauto. }
  destruct (decide (nm = "")) as [Hn|Hn].
  { rewrite bool_decide_eq_true_2 by done. wps. eauto. }
  rewrite bool_decide_eq_false_2 by done. wps.
  apply Session.session_Create_random. intros t e' Ht Hb. wps.
  split; [unfold store, creds; simpl; by rewrite fmap_insert|]. split; [done|].
  split; [apply hex_encode_plain|]. unfold Session.new_ID, Session.new_PSK.
  rewrite !length_hex_encode, !length_drawn. split; [done|]. split; [done|]. by exists t.
Qed.

Lemma delete_creds r (c : gmap string string) a e :
  c = creds (store a) ->
  wp (deleteSession r) (fun _ a' _ => creds (store a') = delete (path_id r) c) a e.
Proof.
  intros ->. unfold deleteSession, respond. wps. apply Session.session_Delete_wp.
  - intros Hn. rewrite put_get. cbn [negb]. wps. rewrite delete_id; [done|].
    change (get the_store a) with (store a) in Hn. unfold creds. by rewrite lookup_fmap, Hn.
  - intros _. cbn [negb]. wps.
    eapply wp_mono; [apply (creds_CloseSession (delete (path_id r) (creds (store a))))|].
    + unfold hub_creds, creds. simpl. by rewrite fmap_delete.
    + intros ? h' e' Hc. wps. exact Hc.
Qed.

Lemma register_creds r (c : gmap string string) a e :
  c = creds (store a) ->
  wp (registerAgent r) (fun _ a' _ =>
    match bearer r with
    | Some psk =>
        if decide (path_id r <> "" /\ X_Agent_ID r <> "" /\ c !! path_id r = None)
        then creds (store a') = <[path_id r := psk]> c else creds (store a') = c
    | None => creds (store a') = c
    end) a e.
Proof.
  intros ->. unfold registerAgent, respond. case_bool_decide as Hp.
  { wps. destruct (bearer r); [|done]. by rewrite decide_False by tauto. }
  destruct (bearer r) as [psk|]; [|by wps]. case_bool_decide as Hx; wps.
  { by rewrite decide_False by tauto. }
  apply GetOrCreate_creds.
  - intros k Hk _. rewrite put_get. wps. rewrite decide_False; [done|].
    change (get the_store a) with (store a) in Hk. intros (_ & _ & Hn). congruence.
  - intros sess b s' e' Hcase.
    eapply wp_mono; [apply (register_rest_creds (creds s')); done|].
    intros x a' e1 Hc. unfold api_creds in Hc. change (get the_store a) with (store a) in Hcase.
    destruct Hcase as [[Hk Heq]|[Hn Heq]]; rewrite Hc, Heq.
    + rewrite decide_False; [done|]. intros (_ & _ & Hn). congruence.
    + by rewrite decide_True.
Qed.

(** C12: What each route does to the table of sessions and keys, exactly. Creating a named session
    enters the ID spelled by the next sixteen random bytes (128 bits, 32 hex digits) with the key
    spelled by the thirty-two after them (256 bits), draws these forty-eight bytes so that no
    later session is made of any of them, and answers with that ID and key; without a name it
    is refused. (The source does not look whether the drawn ID is taken, so with the same
    sixteen bytes drawn twice the entry is replaced.) Deleting removes that session and no
    other. A registration that carries a key and an agent ID enters the requested session with
    that key when, and only when, no such session exists: a session in place keeps its key.
    Every other request leaves the table exactly as it was. *)
Theorem credentials_by_route fuel rt r a e :
  let c := creds (store a) in
  wp (serve fuel rt r) (fun out a' e' =>
    let c' := creds (store a') in
    match rt with
    | POST_sessions =>
        if decide (session_name r = "")
        then c' = c /\ exists msg, out = Some (error msg StatusBadRequest)
        else c' = <[Session.new_ID e := Session.new_PSK e]> c /\ entropy e' = drop 48 (entropy e) /\
          plain (Session.new_ID e) /\ String.length (Session.new_ID e) = 32%nat /\
          String.length (Session.new_PSK e) = 64%nat /\
          exists t, clock e <= t <= clock e' /\ out = Some (writeJSON StatusCreated
            (JObj [("created_at", JTime t); ("id", JStr (Session.new_ID e));
                   ("name", JStr (session_name r)); ("psk", JStr (Session.new_PSK e))]))
    | DELETE_session => c' = delete (path_id r) c
    | POST_register =>
        match bearer r with
        | Some psk =>
            if decide (path_id r <> "" /\ X_Agent_ID r <> "" /\ c !! path_id r = None)
            then c' = <[path_id r := psk]> c else c' = c
        | None => c' = c
        end
    | _ => c' = c
    end) a e.
Proof.
  intros c. destruct (manages rt) eqn:Hm.
  2: { eapply wp_mono; [apply (serve_creds c fuel rt r Hm a e); done|].
       intros x a' e' Hc. unfold api_creds in Hc. by destruct rt. }
  destruct rt; try done; cbn [serve].
  - by apply create_creds.
  - by apply delete_creds.
  - by apply register_creds.
Qed.

(** A session that exists cannot be taken over by registering: without its exact key the
    request is refused and the server is exactly as it was. *)
Theorem register_no_takeover r k a e :
  creds (store a) !! path_id r = Some k -> bearer r <> Some k ->
  wp (registerAgent r) (fun resp a' e' => a' = a /\ e' = e /\
    exists msg code, resp = Some (error msg code) /\
      (code = StatusBadRequest \/ code = StatusUnauthorized)) a e.
Proof.
  intros Hk Hb. unfold registerAgent, respond. case_bool_decide; [wps; eauto 10|].
  destruct (bearer r) as [psk|]; [|wps; eauto 10]. case_bool_decide; [wps; eauto 10|].
  wps. unfold Session.GetOrCreate. wps.
  unfold creds, store in Hk. rewrite lookup_fmap in Hk.
  change (get the_store a) with (sessionStore (hub a)).
  destruct (Session.sessions (sessionStore (hub a)) !! path_id r) as [sess|] eqn:Hs; [|done].
  simpl in Hk. rewrite bool_decide_eq_true_2 by congruence. wps.
  change (sessionStore (hub a)) with (get the_store a). rewrite put_get. eauto 10.
Qed.

(** C38: The watch stream opens only for a request that names a session and carries a token
    issued for that very session that has not expired, or the session's own key. *)
Theorem watch_gate r a e :
  wp (watch r) (fun out _ _ =>
    (exists resp, out = Refused resp) \/
    query r "session" <> "" /\
    ((exists t, WatchToken.tokens (tokens a) !! query r "token" = Some t /\
                sessionID t = query r "session" /\ clock e < expires t) \/
     creds (store a) !! query r "session" = Some (query r "psk"))) a e.
Proof.
  unfold watch, authQuery. case_bool_decide as Hs; [wps; eauto|].
  assert (forall w e' (P : Prop), P -> wp (handleSSE (query r "session"))
    (fun out _ _ => (exists resp, out = Refused resp) \/ query r "session" <> "" /\ P) w e') as Hopen.
  { intros w e' P HP. unfold wp, wpA. destruct (run _ _ _) as [[x s'] e'']. by right. }
  case_bool_decide as Ht.
  - wps. unfold Validate. wps.
    destruct (WatchToken.tokens (get the_tokens a) !! query r "token") as [t|] eqn:Htok;
      [|wps; cbn [negb]; wps; eauto].
    case_bool_decide as Hsid; [|wps; cbn [negb]; wps; eauto].
    wp_now e1 He1. destruct (Z.ltb_spec (clock e1) (expires t)); cbn [negb]; wps; [|eauto].
    apply Hopen. left. exists t. split; [done|]. split; [done|]. clock.
  - wps. apply ValidatePSK_creds.
    + intros sess Hc _. apply Hopen. by right.
    + intros _. wps. eauto.
Qed.
