(* ===== verification/ApiStream.v ===== *)
(** * Waiting and watching

    The long poll behind [GET /mailbox] and the stream behind [GET /watch], as api.go serves
    them. *)

From S2P Require Import Prelude Json Protocol Hub HubDelivery Watcher WatchToken Api.
From S2P Require Session Filestore Presence Mailbox Persist.

#[local] Open Scope Z_scope.

Implicit Types (a : Handler) (e : Env) (r : Request).

Lemma wait_seconds_range r : 0 <= wait_seconds r <= 30.
Proof.
  unfold wait_seconds. destruct (Z.ltb_spec (ParseInt (query r "wait")) 0);
    destruct (Z.ltb_spec 30 0); destruct (Z.ltb_spec 30 (ParseInt (query r "wait"))); lia.
Qed.

(** Rounds that are enough for any wait a request can ask for. *)
Definition poll_fuel : nat := Mailbox.wait_rounds (30 * second).

Lemma wait_rounds_mono w w' : w <= w' -> (Mailbox.wait_rounds w <= Mailbox.wait_rounds w')%nat.
Proof.
  intros Hw. unfold Mailbox.wait_rounds.
  pose proof (Z.div_le_mono w w' Mailbox.mailboxPollTick ltac:(done) Hw). lia.
Qed.

(** The reply to a drain: the entries and their number. *)
Definition drain_reply (entries : list Mailbox.Entry) : Response :=
  writeJSON StatusOK (JObj [("count", JInt (Z.of_nat (length entries)));
                            ("messages", enc_slice Persist.Entry_json entries)]).

(** How long a request that found [matched] took: none of it waiting when there was mail. *)
Definition poll_time r (matched : list Mailbox.Entry) e e' : Prop :=
  if decide (matched = [])
  then clock e + wait_seconds r * second <= clock e' /\ spends (wait_seconds r * second) 4 e e'
  else spends 0 2 e e'.

(** An undisturbed mailbox request: what it takes and answers. *)
Lemma api_drainMailbox_wp fuel r ag (Q : option Response -> Handler -> Env -> Prop) a e :
  Mailbox.wf (mailboxes (hub a)) -> (poll_fuel <= fuel)%nat ->
  let box := mailbox_key (path_id r) ag in
  let pass en := Mailbox.matchesEnvelope (Mailbox.entry_Envelope en) (query r "from") (query r "type") in
  let q := Mailbox.queue (mailboxes (hub a)) box in
  (forall t mb e', e ≼ e' ->
     Mailbox.requeue (mailboxes (hub a)) box (filter (fun en => pass en = false) q) mb ->
     poll_time r (filter (fun en => pass en = true) q) e e' ->
     Q (Some (drain_reply (filter (fun en => pass en = true) q)))
       (put the_hub (put the_mailboxes mb (put the_presence
          (Presence.touched (path_id r) ag None t (presence (hub a))) (hub a))) a) e') ->
  wp (drainMailbox fuel r ag) Q a e.
Proof.
  intros Hwf Hfuel box pass q HQ. unfold drainMailbox, DrainMailboxFiltered. wps.
  apply Presence.presence_Touch_spends. intros e1 Hs1. pose proof Hs1 as [He1 _].
  pose proof (wait_seconds_range r) as Hw.
  set (wait := if (0 <? wait_seconds r) || bool_decide (query r "from" <> "") ||
                  bool_decide (query r "type" <> "") then wait_seconds r * second else 0).
  assert (0 <= wait <= 30 * second) as Hwait.
  { subst wait. unfold second. destruct (_ || _); lia. }
  assert (query r "from" = "" -> query r "type" = "" -> wait <= 0 -> wait_seconds r = 0) as Hnow.
  { intros Hf Ht Hle. subst wait. destruct (Z.ltb_spec 0 (wait_seconds r)); [|lia].
    cbn [orb] in Hle. unfold second in Hle. lia. }
  destruct ((wait <=? 0) && bool_decide (query r "from" = "") && bool_decide (query r "type" = "")) eqn:Hfast.
  - apply andb_true_iff in Hfast as [[Hle%Z.leb_le Hfrom%bool_decide_eq_true]%andb_true_iff Hty%bool_decide_eq_true].
    assert (forall en, pass en = true) as Hpass.
    { intros en. unfold pass, Mailbox.matchesEnvelope. by rewrite Hfrom, Hty. }
    wps. apply Mailbox.mailbox_Drain_wp; [done|]. intros s' Hs' _. unfold respond. wps.
    assert (filter (fun en => pass en = true) q = q) as HqT by (apply filter_true; auto).
    assert (filter (fun en => pass en = false) q = []) as HqF.
    { apply filter_none. intros en _. by rewrite Hpass. }
    rewrite HqT, HqF in HQ. apply (HQ (clock e1)); [done..|]. unfold poll_time. case_decide.
    + assert (wait_seconds r = 0) as -> by (apply Hnow; [done..|exact Hle]). split; [clock|].
      eapply spends_le; [| |exact Hs1]; lia.
    + eapply spends_le; [| |exact Hs1]; lia.
  - wps. apply Mailbox.mailbox_DrainMatchingWait_wp; [done| |].
    + etrans; [|exact Hfuel]. apply wait_rounds_mono. lia.
    + intros s' e' matched Hs' He' Hd Hsp. unfold respond. wps.
      apply (HQ (clock e1)); [clock|exact Hs'|]. unfold poll_time. fold q pass. subst matched.
      assert (wait = wait_seconds r * second) as Hsec.
      { subst wait. destruct (Z.ltb_spec 0 (wait_seconds r)); [done|].
        destruct (_ || _); [done|]. unfold second. lia. }
      assert (filter (fun en => pass en = true) q = [] -> clock e1 + wait <= clock e') as Hd' by exact Hd.
      assert (if decide (filter (fun en => pass en = true) q = [])
              then spends (Z.max 0 wait) 3 e1 e' else spends 0 1 e1 e') as Hsp' by exact Hsp.
      destruct (decide (filter (fun en => pass en = true) q = [])) as [Hm|Hm].
      * split; [specialize (Hd' Hm); clock|].
        eapply spends_le; [| |eapply spends_trans; [exact Hs1|exact Hsp']]; lia.
      * eapply spends_le; [| |eapply spends_trans; [exact Hs1|exact Hsp']]; lia.
Qed.

(** C34: Whatever the request asks for (a missing, huge, negative or malformed wait included),
    an undisturbed mailbox request is answered: with exactly the queued messages that pass its
    filters, oldest first, which leave the mailbox, while all others stay in it. It waits only
    when nothing passed: with such mail queued it reads the clock twice and sleeps nowhere;
    without, it is answered not before the wait it asked for, which counts as at most thirty
    seconds, and, on a machine whose clock readings are at most [slack] apart, not later than
    four times [slack] after it. *)
Theorem drain_answers fuel r ag a e :
  Mailbox.wf (mailboxes (hub a)) -> (poll_fuel <= fuel)%nat ->
  let box := mailbox_key (path_id r) ag in
  let pass en := Mailbox.matchesEnvelope (Mailbox.entry_Envelope en) (query r "from") (query r "type") in
  let q := Mailbox.queue (mailboxes (hub a)) box in
  let matched := filter (fun en => pass en = true) q in
  wp (drainMailbox fuel r ag) (fun resp a' e' =>
    resp = Some (drain_reply matched) /\
    Mailbox.queue (mailboxes (hub a')) box = filter (fun en => pass en = false) q /\
    (forall k, k <> box -> Mailbox.queue (mailboxes (hub a')) k = Mailbox.queue (mailboxes (hub a)) k) /\
    0 <= wait_seconds r <= 30 /\
    if decide (matched = [])
    then clock e + wait_seconds r * second <= clock e' /\ spends (wait_seconds r * second) 4 e e'
    else spends 0 2 e e') a e.
Proof.
  intros Hwf Hfuel box pass q matched. apply api_drainMailbox_wp; [done..|].
  intros t mb e' _ (H1 & H2 & _) Ht. split; [done|]. split; [exact H1|]. split; [exact H2|].
  split; [apply wait_seconds_range|exact Ht].
Qed.

(** ** The stream *)
Lemma on_watcher_wp {A} (d : A) (at_ : Atom Watcher A) (Q : A -> option Watcher -> Env -> Prop) w e :
  wpA at_ (fun x w' e' => Q x (Some w') e') w e -> wpA (on_watcher d at_) Q (Some w) e.
Proof. unfold wpA, on_watcher. by destruct (at_ w e) as [[x w'] e']. Qed.

Lemma handleSSE_wp sid w (Q : sse -> Handler -> Env -> Prop) a e :
  notifier (hub a) = Some w -> watcher_ok w ->
  ((maxWatchersPerSession a <= size (subscribers w sid))%nat ->
     Q (Refused (error "too many watchers for session" StatusTooManyRequests)) a e) ->
  (forall ch t w' e', (size (subscribers w sid) < maxWatchersPerSession a)%nat ->
     e ≼ e' -> clock e <= t <= clock e' -> (ch ∉ subscribers w sid) ->
     watcher_ok w' -> buffer w' ch = [] -> subscribers w' sid = {[ch]} ∪ subscribers w sid ->
     (forall s, s <> sid -> subscribers w' s = subscribers w s) ->
     Q (Streaming ch ([Retry 3000; Connected sid t] ++ (HistoryEvent <$> default [] (history (hub a) !! sid))))
       (put the_watcher (Some w') a) e') ->
  wp (handleSSE sid) Q a e.
Proof.
  intros Hw Hok Hfull HQ. unfold handleSSE. wps.
  assert (get the_watcher a = Some w) as Hg by done. rewrite Hg.
  apply on_watcher_wp. unfold Count. wps. rewrite <- Hg, put_get. wps.
  destruct (Nat.leb_spec (maxWatchersPerSession a) (size (default ∅ (subs w !! sid)))); [wps; by apply Hfull|].
  wp_now e1 He1. rewrite Hg. apply on_watcher_wp.
  eapply wpA_mono; [by apply subscribe_ok|].
  intros ch w' e2 (-> & Hok' & Hb & Hnew & Hsub & Hoth & _). unfold GetHistory. wps.
  rewrite put_get. by apply (HQ ch (clock e1)).
Qed.

(** ** The loop of the stream *)

(** The messages among the frames. *)
Definition messages (fs : list frame) : list Envelope :=
  omap (fun f => match f with MessageEvent env => Some env | _ => None end) fs.

Definition live_frame (f : frame) : Prop :=
  match f with MessageEvent _ | Ping => True | _ => False end.

(** However the loop ends, what it wrote and what its channel still buffers is what was
    buffered when it began, in order. *)
Lemma sse_loop_wp fuel sid ch : forall written w (Q : list frame -> Handler -> Env -> Prop) a e,
  notifier (hub a) = Some w -> watcher_ok w ->
  (forall out w' e', e ≼ e' -> Forall live_frame out -> messages out ++ buffer w' ch = buffer w ch ->
     watcher_ok w' -> Q (written ++ out) (put the_watcher (Some w') a) e') ->
  wp (sse_loop fuel sid ch written) Q a e.
Proof.
  induction fuel as [|fuel IH]; intros written w Q a e Hw Hok HQ; cbn [sse_loop];
    (assert (get the_watcher a = Some w) as Hg by done);
    (assert (put the_watcher (Some w) a = a) as Hp by (by rewrite <- Hg, put_get)).
  - wps. specialize (HQ [] w e). rewrite app_nil_r, Hp in HQ. by apply HQ.
  - wps. apply wpA_flip. intros fin e1 He1. destruct fin; wps.
    { rewrite Hg. apply on_watcher_wp. eapply wpA_mono; [by apply unsubscribe_ok|].
      intros _ w' e2 (-> & Hok' & Hcs & _). wps. rewrite <- (app_nil_r written).
      apply HQ; [done..| |done]. unfold buffer. by rewrite Hcs. }
    apply wpA_flip. intros ping e2 He2. destruct ping; wps.
    { apply (IH _ w); [done..|]. intros out w' e3 He3 Hl Hm Hok'. rewrite <- app_assoc.
      apply HQ; [clock|by constructor|done|done]. }
    rewrite Hg. apply on_watcher_wp. eapply wpA_mono; [by apply recv_ok|].
    intros r w1 e3 (-> & Hok1 & _ & -> & Ht & _). wps.
    assert (forall w', put the_watcher (Some w') (put the_watcher (Some w1) a) = put the_watcher (Some w') a) as Hpp
      by (intros; by rewrite put_put).
    destruct (buffer w ch) as [|env buf] eqn:Hb; cbn [head tail] in *.
    + apply (IH _ w1); [done..|]. rewrite Ht. intros out w' e4 He4 Hl Hm Hok'. rewrite Hpp.
      apply HQ; [clock|done..].
    + apply (IH _ w1); [done..|]. rewrite Ht. intros out w' e4 He4 Hl Hm Hok'. rewrite Hpp, <- app_assoc.
      apply HQ; [clock|by constructor| |done].
      change (messages ([MessageEvent env] ++ out)) with (env :: messages out). cbn [app]. by rewrite Hm.
Qed.
