(* ===== verification/ApiOpen.v ===== *)
(** * Opening a watch stream beside senders

    [handleSSE] up to its loop, interleaved section by section with a goroutine that sends
    messages and broadcasts to the session: what the stream replays from the history and what it
    finds buffered in its channel leave no gap. *)

From S2P Require Import Prelude Json Protocol Hub Watcher WatchToken Api ApiStream.
From S2P Require Presence Mailbox.

#[local] Open Scope Z_scope.

Implicit Types (a : Handler) (e : Env).

(** ** The sender *)
Inductive sending :=
| Direct (from to ty : string) (payload : option RawMessage)
| ToAll (from ty : string) (payload : option RawMessage).

(** One send, and whether it was accepted. *)
Definition send (sid : string) (m : sending) : prog (Hub Watcher) bool :=
  match m with
  | Direct from to ty p =>
      r ← SendMessage sid from to ty p;
      mret (match r with Ok _ => true | Err _ => false end)
  | ToAll from ty p => Broadcast sid from ty p ;; mret true
  end.

(** One after the other: those that were accepted. *)
Fixpoint send_all (sid : string) (ms : list sending) : prog (Hub Watcher) (list sending) :=
  match ms with
  | [] => mret []
  | m :: ms' =>
      ok ← send sid m;
      rest ← send_all sid ms';
      mret (if (ok : bool) then m :: rest else rest)
  end.

(** The envelope of a send. *)
Definition is_of (sid : string) (m : sending) (env : Envelope) : Prop :=
  exists n t, env = match m with
                    | Direct from to ty p => mkEnvelope ty "" sid from to p n t
                    | ToAll from ty p => mkEnvelope ty "" sid from "*" p n t
                    end.

(** ** What both keep *)

(** The stream before it subscribed; with its channel, subscribed when [j] envelopes had been
    fanned out; with the history it read when [i] had been recorded. The sender with what it has
    recorded so far and how many of these it has fanned out. *)
Inductive Stage :=
| Unopened
| Opened (ch j : nat)
| Replayed (ch j i : nat) (hist : list Envelope)
| Posting (sent : list Envelope) (told : nat).

Section Opening.
Context (sid : string) (old : list Envelope) (max limit : nat) (subs0 : gset nat).

(** The channel holds what was fanned out since [j]. *)
Definition catches (ch j : nat) (sent : list Envelope) (told : nat) (wt : Watcher) : Prop :=
  (ch ∉ subs0) /\ subscribers wt sid = {[ch]} ∪ subs0 /\ (j <= told)%nat /\
  buffer wt ch = take chan_cap (drop j (take told sent)).

Definition stream_ok (st : Stage) (sent : list Envelope) (told : nat) (wt : Watcher) : Prop :=
  match st with
  | Unopened => subscribers wt sid = subs0
  | Opened ch j => catches ch j sent told wt
  | Replayed ch j i hist => catches ch j sent told wt /\ (j <= i <= length sent)%nat /\
      hist = cap max (old ++ take i sent)
  | Posting _ _ => False
  end.

Record open_ok (g : list Stage) a e : Prop := mkOpenOk {
  oo : exists st sent told wt, g = [st; Posting sent told] /\
    default [] (history (hub a) !! sid) = cap max (old ++ sent) /\ maxHistory (hub a) = max /\
    maxWatchersPerSession a = limit /\ notifier (hub a) = Some wt /\ watcher_ok wt /\
    (told <= length sent <= S told)%nat /\ stream_ok st sent told wt;
}.

(** A section of the hub that concerns neither its history nor its watchers. *)
Definition apart (h h' : Hub Watcher) : Prop :=
  history h' = history h /\ maxHistory h' = maxHistory h /\ notifier h' = notifier h.

Lemma open_apart g a h' e e' : open_ok g a e -> apart (hub a) h' -> open_ok g (put the_hub h' a) e'.
Proof.
  intros [(st & sent & told & wt & H1 & H2 & H3 & H4 & H5 & H6)] (Ha & Hb & Hc). split.
  exists st, sent, told, wt. cbn [hub put the_hub maxWatchersPerSession]. rewrite Ha, Hb, Hc. tauto.
Qed.

Lemma open_env g a e e' : open_ok g a e -> open_ok g a e'.
Proof. by intros [H]. Qed.

Abbreviation stays := (staged 1 (fun _ => open_ok)).

(** *** The sender's sections *)
Lemma post_apart {A} ph (p : prog (Hub Watcher) A) :
  guar apart p (fun _ => True) -> stays the_hub 1 ph p (fun _ st => st = ph).
Proof.
  intros Hp. eapply staged_mono; [eapply staged_of_guar; [|exact Hp]|by intros x st [_ ->]].
  intros n g a e h' e' _ HI Hh. by eapply open_apart.
Qed.

Lemma apart_presence {A} (at_ : Atom Presence.Tracker A) : guar apart (⟨the_presence⟩ at_) (fun _ => True).
Proof. apply guar_atomically. intros h e. unfold wpA. by destruct (at_ (get the_presence h) e) as [[x s'] e']. Qed.

Lemma apart_mail {A} (p : prog Mailbox.Store A) : guar apart (⟪the_mailboxes⟫ p) (fun _ => True).
Proof. eapply (guar_within _ (fun _ _ => True)); [done|by apply guar_any]. Qed.

Lemma apart_now : guar apart nowP (fun _ => True).
Proof. by apply guar_nowP. Qed.

Lemma apart_deliver_each env x agents n : guar apart (deliver_each sid env x agents n) (fun _ => True).
Proof.
  revert n. induction agents as [|ag agents IH]; intros n; cbn [deliver_each]; [done|].
  destruct (bool_decide _); [|apply IH]. apply guar_then; [apply apart_mail|]. intros _. apply IH.
Qed.

Lemma post_record sent env : stays the_hub 1 (Posting sent (length sent))
  (⟨the_log⟩ recordEnvelope sid env)
  (fun env' st => env' = with_Sequence (Sequence env') env /\ st = Posting (sent ++ [env']) (length sent)).
Proof.
  apply staged_section. intros n g a e _ Hg [(st & sent' & told & wt & -> & Hh & Hm & Hl & Hw & Hok & Ht & Hst)].
  cbn in Hg. injection Hg as -> ->. unfold recordEnvelope. wps.
  eexists. split; [|split; [|reflexivity]].
  2: { by destruct env. }
  split. exists st, (sent ++ [with_Sequence (bumped sid (get the_log (hub a))) env]), (length sent), wt.
  cbn [list_insert insert hub put the_hub the_log history maxHistory notifier maxWatchersPerSession log_history log_max get].
  split; [done|]. split.
  { rewrite lookup_insert_eq. set (x := with_Sequence _ _).
    etrans; [exact (f_equal (fun l => cap (maxHistory (hub a)) (l ++ [x])) Hh)|].
    rewrite Hm, (app_assoc old). apply cap_app. }
  split; [done|]. split; [done|]. split; [done|]. split; [done|]. split; [rewrite length_app; simpl; lia|].
  destruct st as [|ch j|ch j i hist|? ?]; cbn [stream_ok] in *; [done|..|done]; unfold catches in *.
  - rewrite take_app_le by lia. done.
  - rewrite length_app, !take_app_le by lia. destruct Hst as (Hc & Hi & ->). split; [done|]. split; [lia|done].
Qed.

Lemma offer_take env buf : offer env (take chan_cap buf) = take chan_cap (buf ++ [env]).
Proof.
  unfold offer. rewrite length_take. destruct (Nat.ltb_spec (chan_cap `min` length buf) chan_cap).
  - rewrite !take_ge; [done|rewrite length_app; simpl; lia|lia].
  - rewrite take_app_le by lia. done.
Qed.

Lemma catches_told ch j sent env wt wt' :
  catches ch j (sent ++ [env]) (length sent) wt -> subs wt' = subs wt ->
  buffer wt' ch = offer env (buffer wt ch) ->
  catches ch j (sent ++ [env]) (S (length sent)) wt'.
Proof.
  intros (Hn & Hs & Hj & Hb) Hsub Hb'. unfold catches. rewrite Hb', Hb, offer_take.
  unfold subscribers in *. rewrite Hsub. split; [done|]. split; [done|]. split; [lia|]. f_equal.
  rewrite take_app_le, firstn_all, (take_ge (sent ++ [env])) by (rewrite ?length_app; simpl; lia).
  by rewrite drop_app_le.
Qed.

Lemma post_notify sent env : stays the_hub 1 (Posting (sent ++ [env]) (length sent))
  (notifyWatchers sid env) (fun _ st => st = Posting (sent ++ [env]) (length (sent ++ [env]))).
Proof.
  apply staged_section. intros n g a e _ Hg [(st & sent' & told & wt & -> & Hh & Hm & Hl & Hw & Hok & Ht & Hst)].
  cbn in Hg. injection Hg as -> ->. change (get the_notifier (get the_hub a)) with (notifier (hub a)). rewrite Hw.
  pose proof (notify_ok sid env wt e Hok) as Hn. unfold wpA in Hn |- *. unfold notify_opt. cbn [notify watcher_notifier].
  destruct (Notify sid env wt e) as [[[] wt'] e'] eqn:Hrun. destruct Hn as (Hok' & Hsub & Hbuf).
  eexists. split; [|reflexivity]. split. exists st, (sent ++ [env]), (length (sent ++ [env])), wt'.
  cbn [list_insert insert hub put the_hub the_notifier history maxHistory notifier maxWatchersPerSession].
  split; [done|]. split; [done|]. split; [done|]. split; [done|]. split; [done|]. split; [done|]. split; [lia|].
  assert (forall ch j, catches ch j (sent ++ [env]) (length sent) wt ->
    catches ch j (sent ++ [env]) (length (sent ++ [env])) wt') as Hcatch.
  { intros ch j Hc. rewrite length_app, Nat.add_comm. apply (catches_told _ _ _ _ wt); [done..|].
    destruct Hc as (_ & Hs & _ & _). rewrite Hbuf. unfold offer.
    assert (ch ∈ subscribers wt sid) by (rewrite Hs; set_solver).
    destruct (Nat.ltb_spec (length (buffer wt ch)) chan_cap); [by rewrite decide_True|rewrite decide_False by lia; done]. }
  destruct st as [|ch j|ch j i hist|? ?]; cbn [stream_ok] in *; [|by apply Hcatch| |done].
  - unfold subscribers in *. by rewrite Hsub.
  - destruct Hst as (Hc & Hi & Hhist). split; [by apply Hcatch|done].
Qed.

(** Recorded, handed to the mailboxes, fanned out. *)
Lemma post_envelope {A B} sent env (mail : Envelope -> prog (Hub Watcher) A) (ok : A -> B) :
  (forall env', guar apart (mail env') (fun _ => True)) ->
  stays the_hub 1 (Posting sent (length sent))
    (env' ← ⟨the_log⟩ recordEnvelope sid env;
     x ← mail env';
     notifyWatchers sid env' ;;
     mret (ok x))
    (fun y st => exists x n, y = ok x /\
       st = Posting (sent ++ [with_Sequence n env]) (length (sent ++ [with_Sequence n env]))).
Proof.
  intros Hmail. eapply staged_bind; [apply post_record|]. intros env' st [Henv ->].
  eapply staged_bind; [by apply post_apart|]. intros x st ->.
  eapply staged_bind; [apply post_notify|]. intros _ st ->. apply staged_ret.
  exists x, (Sequence env'). by rewrite <- Henv.
Qed.

(** One send: refused, or one envelope more. *)
Lemma send_staged m sent : stays the_hub 1 (Posting sent (length sent)) (send sid m)
  (fun ok st => if (ok : bool) then exists env, is_of sid m env /\
                   st = Posting (sent ++ [env]) (length (sent ++ [env]))
                else st = Posting sent (length sent)).
Proof.
  destruct m as [from to ty p|from ty p]; cbn [send].
  - unfold SendMessage. destruct (bool_decide (to = "")); [done|].
    eapply staged_bind with (Q := fun r st => match r with
      | Ok _ => exists env, is_of sid (Direct from to ty p) env /\
          st = Posting (sent ++ [env]) (length (sent ++ [env]))
      | Err _ => st = Posting sent (length sent) end); [|by intros [x|x] st H].
    eapply staged_bind; [apply post_apart, apart_presence|]. intros agents st ->.
    destruct (find_agent to (default [] agents)); [|done].
    eapply staged_bind; [apply post_apart, apart_now|]. intros t st ->.
    eapply staged_mono; [apply (post_envelope _ _ (fun env => deliverToAgentMailbox sid to env) (fun _ => Ok tt))|].
    { intros env'. apply apart_mail. }
    intros y st (_ & n & -> & ->). eexists. split; [|reflexivity]. by exists n, t.
  - unfold Broadcast.
    eapply staged_bind with (Q := fun _ st => exists env, is_of sid (ToAll from ty p) env /\
      st = Posting (sent ++ [env]) (length (sent ++ [env]))); [|by intros x st H].
    eapply staged_bind; [apply post_apart, apart_now|]. intros t st ->.
    eapply staged_mono; [apply (post_envelope _ _ (fun env => deliverToSessionMailboxes sid env from) id)|].
    { intros env'. apply guar_then; [apply apart_presence|]. intros agents. apply apart_deliver_each. }
    intros y st (_ & n & _ & ->). cbn. eexists. split; [|reflexivity]. by exists n, t.
Qed.

Lemma send_all_staged ms : forall sent,
  stays the_hub 1 (Posting sent (length sent)) (send_all sid ms)
    (fun accepted st => exists new, Forall2 (is_of sid) accepted new /\
       st = Posting (sent ++ new) (length (sent ++ new))).
Proof.
  induction ms as [|m ms IH]; intros sent; cbn [send_all].
  - apply staged_ret. exists []. by rewrite app_nil_r.
  - eapply staged_bind; [apply send_staged|]. intros ok st Hok. destruct ok.
    + destruct Hok as (env & Hm & ->). eapply staged_bind; [apply IH|]. intros rest st (new & Hnew & ->).
      apply staged_ret. exists (env :: new). rewrite <- app_assoc. split; [by constructor|done].
    + subst st. eapply staged_bind; [apply IH|]. intros rest st (new & Hnew & ->).
      apply staged_ret. by exists new.
Qed.

(** *** The stream's sections *)
Definition opened (out : sse) (st : Stage) : Prop :=
  if decide (limit <= size subs0)%nat then
    out = Refused (error "too many watchers for session" StatusTooManyRequests) /\ st = Unopened
  else exists ch t j i hist, st = Replayed ch j i hist /\
    out = Streaming ch ([Retry 3000; Connected sid t] ++ (HistoryEvent <$> hist)).

Lemma open_count : stays lens_id 0 Unopened (⟨the_watcher⟩ (on_watcher 0%nat (Count sid)))
  (fun n st => n = size subs0 /\ st = Unopened).
Proof.
  apply staged_section. intros n g a e _ Hg HI. pose proof HI as [(st & sent & told & wt & -> & H)].
  destruct H as (_ & _ & _ & Hw & _ & _ & Hst). cbn in Hg. injection Hg as ->.
  change (get the_watcher (get lens_id a)) with (notifier (hub a)). rewrite Hw.
  apply on_watcher_wp. unfold Count. wps. exists Unopened. rewrite <- Hw.
  change (notifier (hub a)) with (get the_watcher a). cbn [get put lens_id]. rewrite put_get.
  split; [exact HI|]. split; [|done]. by rewrite <- Hst.
Qed.

Lemma open_subscribe : stays lens_id 0 Unopened (⟨the_watcher⟩ (on_watcher 0%nat (Subscribe sid)))
  (fun ch st => exists j, st = Opened ch j).
Proof.
  apply staged_section. intros n g a e _ Hg [(st & sent & told & wt & -> & Hh & Hm & Hl & Hw & Hok & Ht & Hst)].
  cbn in Hg. injection Hg as ->.
  change (get the_watcher (get lens_id a)) with (notifier (hub a)). rewrite Hw. apply on_watcher_wp.
  eapply wpA_mono; [by apply subscribe_ok|]. intros ch w' e' (_ & Hok' & Hb & Hnew & Hsub & _).
  cbn [stream_ok] in Hst. rewrite Hst in Hnew, Hsub. exists (Opened ch told). split; [|by exists told].
  split. exists (Opened ch told), sent, told, w'.
  split; [done|]. split; [done|]. split; [done|]. split; [done|]. split; [done|]. split; [done|]. split; [done|].
  split; [done|]. split; [done|]. split; [done|]. rewrite Hb. by rewrite drop_ge by (rewrite length_take; lia).
Qed.

Lemma open_replay ch j : stays lens_id 0 (Opened ch j) (⟪the_hub⟫ GetHistory sid)
  (fun hist st => exists i, st = Replayed ch j i hist).
Proof.
  apply staged_within, staged_section.
  intros n g a e _ Hg HI. pose proof HI as [(st & sent & told & wt & -> & Hh & Hm & Hl & Hw & Hok & Ht & Hst)].
  cbn in Hg. injection Hg as ->. wps. eexists. split; [|by exists (length sent)].
  rewrite !put_get. split. eexists _, sent, told, wt. split; [reflexivity|].
  split; [done|]. split; [done|]. split; [done|]. split; [done|]. split; [done|]. split; [done|].
  cbn [stream_ok] in *. split; [done|]. split; [destruct Hst as (_ & _ & ? & _); lia|].
  by rewrite take_ge by lia.
Qed.

Lemma handleSSE_staged : stays lens_id 0 Unopened (handleSSE sid) opened.
Proof.
  unfold handleSSE. eapply staged_bind; [apply open_count|]. intros n st [-> ->].
  eapply staged_bind with (Q := fun m st => m = limit /\ st = Unopened).
  { apply staged_section. intros n g a e _ Hg HI. wps. exists Unopened. cbn [get put lens_id]. rewrite list_insert_id by done.
    split; [done|]. by destruct HI as [(? & ? & ? & ? & _ & _ & _ & <- & _)]. }
  intros m st [-> ->]. destruct (Nat.leb_spec limit (size subs0)).
  { apply staged_ret. unfold opened. by rewrite decide_True. }
  eapply staged_bind with (Q := fun _ st => st = Unopened).
  { apply staged_read; [by intros; eapply open_env|]. intros n g a e _ _. by apply wpA_now. }
  intros t st ->. eapply staged_bind; [apply open_subscribe|]. intros ch st (j & ->).
  eapply staged_bind; [apply open_replay|]. intros hist st (i & ->).
  apply staged_ret. unfold opened. rewrite decide_False by lia. by exists ch, t, j, i, hist.
Qed.
End Opening.

(** C37: Opening the stream of a session with fewer than the maximum of watchers subscribes a
    new, empty channel and answers with the reconnection advice, the connected event and the
    recorded history, in order and whole; with the maximum reached it is refused with 429 and
    nothing changes. Beside a goroutine that sends and broadcasts to the session, however the
    sections of the two interleave, no message falls between the history and the channel: the
    history ends with the first [i] of the messages sent, and the channel buffers those from the
    [j]-th on, [j <= i], up to its capacity. *)
Theorem stream_opens sid w a e :
  notifier (hub a) = Some w -> watcher_ok w ->
  let old := default [] (history (hub a) !! sid) in
  let full := (maxWatchersPerSession a <= size (subscribers w sid))%nat in
  let refused := Refused (error "too many watchers for session" StatusTooManyRequests) in
  let replay t hist := [Retry 3000; Connected sid t] ++ (HistoryEvent <$> hist) in
  wp (handleSSE sid) (fun out a' e' =>
    if decide full then out = refused /\ a' = a
    else exists ch t w', out = Streaming ch (replay t old) /\ clock e <= t <= clock e' /\
      (ch ∉ subscribers w sid) /\ notifier (hub a') = Some w' /\ watcher_ok w' /\
      buffer w' ch = [] /\ subscribers w' sid = {[ch]} ∪ subscribers w sid /\
      (forall s, s <> sid -> subscribers w' s = subscribers w s) /\
      a' = put the_watcher (Some w') a) a e /\
  forall schedule ms, (length old <= maxHistory (hub a))%nat ->
  wp (weave schedule (handleSSE sid) (⟪the_hub⟫ send_all sid ms)) (fun r a' _ =>
    let '(out, accepted) := r in
    exists sent, Forall2 (is_of sid) accepted sent /\
      default [] (history (hub a') !! sid) = cap (maxHistory (hub a)) (old ++ sent) /\
      if decide full then out = refused
      else exists ch t i j w', out = Streaming ch (replay t (cap (maxHistory (hub a)) (old ++ take i sent))) /\
        (ch ∉ subscribers w sid) /\ notifier (hub a') = Some w' /\ watcher_ok w' /\
        subscribers w' sid = {[ch]} ∪ subscribers w sid /\
        (j <= i <= length sent)%nat /\ buffer w' ch = take chan_cap (drop j sent)) a e.
Proof.
  intros Hw Hok old full refused replay. split.
  - apply (handleSSE_wp sid w); [done..| |].
    + intros Hfull. by rewrite decide_True.
    + intros ch t w' e' Hroom He Ht Hch Hok' Hb Hsub Hoth. rewrite decide_False by (unfold full; lia).
      by exists ch, t, w'.
  - intros schedule ms Hlen. set (max := maxHistory (hub a)) in *.
    eapply wp_mono; [apply (weave_staged
      (open_ok sid old max (maxWatchersPerSession a) (subscribers w sid)) schedule _ _
      (opened sid (maxWatchersPerSession a) (subscribers w sid))
      (fun accepted st => exists sent, Forall2 (is_of sid) accepted sent /\ st = Posting sent (length sent))
      Unopened (Posting [] 0))|].
    + apply handleSSE_staged.
    + apply staged_within. apply (send_all_staged sid old max _ _ ms []).
    + split. exists Unopened, [], 0%nat, w. rewrite app_nil_r, cap_small by done.
      repeat (split; [done|]). split; [simpl; lia|done].
    + intros [out accepted] a' e' (st & st' & [HI] & Hopen & sent & Hacc & ->). cbn [fst snd] in *.
      destruct HI as (st1 & sent1 & told & w' & Heq & Hh & _ & _ & Hw' & Hok' & _ & Hst).
      injection Heq as <- <- <-. exists sent. split; [done|]. split; [done|].
      unfold opened in Hopen. fold full in Hopen. destruct (decide full) as [Hf|Hf]; [by destruct Hopen|].
      destruct Hopen as (ch & t & j & i & hist & -> & ->).
      destruct Hst as ((Hnew & Hsub & _ & Hb) & Hij & ->).
      rewrite firstn_all in Hb. exists ch, t, i, j, w'. done.
Qed.
