(* ===== verification/Server.v ===== *)
(** * cmd/server/main.go: putting the parts together

    The server's initial state, the snapshot the flusher takes ([getSnapshot]) and the
    restoring of one at startup ([restoreState]): what a restart keeps. *)

From S2P Require Import Prelude Json Protocol Hub HubDelivery HubOrder HubMembers HubLifecycle.
From S2P Require Leader Scratchpad Session Filestore Presence Mailbox Persist.

#[local] Open Scope Z_scope.

Definition maxFileSize : Z := 50 * 2 ^ 20.
Definition presenceTTL : Duration := 60 * second.
Definition mailboxMax : Z := 1000.
Definition stateFlushInterval : Duration := 5 * second.

(** The hub [main] builds. *)
Definition boot {N} (debugLog : bool) : Hub N :=
  New (mkDeps Session.NewStore Leader.NewTracker Scratchpad.NewStore
         (Filestore.NewStore maxFileSize) (Presence.NewTracker presenceTTL)
         (Mailbox.NewStore mailboxMax)) [WithDebugLog debugLog].

Section Server.
Context {N : Type}.
Abbreviation H := (Hub N).

Definition getSnapshot : prog H Persist.Snapshot :=
  sessions ← ⟨the_sessions⟩ Session.Snapshot;
  boxes ← ⟪the_mailboxes⟫ Mailbox.Snapshot;
  hist ← HistorySnapshot;
  seqs ← SeqSnapshot;
  pads ← ⟨the_scratchpad⟩ Scratchpad.Snapshot;
  mret (Persist.mkSnapshot sessions boxes hist seqs pads).

Definition restoreState (snap : Persist.Snapshot) : prog H unit :=
  ⟨the_sessions⟩ Session.Restore (Persist.Sessions snap) ;;
  ⟨the_mailboxes⟩ Mailbox.Restore (Persist.Mailboxes snap) ;;
  RestoreState (Persist.History snap) (Persist.SeqNums snap) ;;
  ⟨the_scratchpad⟩ Scratchpad.Restore (Persist.Scratchpad snap).

(** One tick of the flusher, and the final flush: take a snapshot and write it. *)
Definition flush_once : prog (H * Persist.FS) (result unit) :=
  snap ← ⟪lens_fst⟫ getSnapshot;
  ⟪lens_snd⟫ Persist.Flush snap.

(** Startup with a data directory: restore what [Load] finds. *)
Definition startup (fs : Persist.FS) : prog H unit :=
  match Persist.Load fs with
  | Some snap => restoreState snap
  | None => mret tt
  end.
End Server.

Lemma boot_ok {N} debug (e : Env) : hub_inv [] (boot debug : Hub N) e.
Proof.
  split; [split|split].
  - by intros k st.
  - apply Mailbox.NewStore_wf.
  - split; by intros k st.
  - by intros sid a.
Qed.

(** ** Snapshots *)

(** What a snapshot of the pads holds: every pad's entries, in some order. *)
Definition pads_listed (pads : gmap string (gmap string ScratchpadEntry))
    (out : gmap string (list ScratchpadEntry)) : Prop :=
  forall sid, match pads !! sid, out !! sid with
              | Some pad, Some l => l ≡ₚ (map_to_list pad).*2
              | None, None => True
              | _, _ => False
              end.

Lemma snapshot_pads_wp l (Q : gmap string (list ScratchpadEntry) -> Scratchpad.Store -> Env -> Prop) s e :
  NoDup l.*1 ->
  (forall out e', pads_listed (list_to_map l) out -> e ≼ e' -> Q out s e') ->
  wpA (Scratchpad.snapshot_pads l) Q s e.
Proof.
  revert e Q. induction l as [|[sid pad] l IH]; intros e Q Hnd HQ; cbn [Scratchpad.snapshot_pads].
  - wps. apply HQ; [|done]. intros k. simpl. by rewrite !lookup_empty.
  - rewrite fmap_cons in Hnd. apply NoDup_cons in Hnd as [Hk Hnd].
    wps. apply wpA_range. intros kvs e1 Hp He1. wps. apply IH; [done|]. intros out e2 Hout He2. wps.
    apply HQ; [|by trans e1]. intros k. simpl. specialize (Hout k).
    destruct (decide (k = sid)) as [->|Hne].
    + rewrite !lookup_insert_eq. by rewrite Hp.
    + by rewrite !lookup_insert_ne.
Qed.

Lemma scratchpad_Snapshot_wp (Q : gmap string (list ScratchpadEntry) -> Scratchpad.Store -> Env -> Prop) s e :
  (forall out e', pads_listed (Scratchpad.pads s) out -> e ≼ e' -> Q out s e') ->
  wpA Scratchpad.Snapshot Q s e.
Proof.
  intros HQ. unfold Scratchpad.Snapshot. wps. apply wpA_range. intros l e1 Hp He1.
  assert (NoDup l.*1) as Hnd by (rewrite Hp; apply NoDup_fst_map_to_list).
  apply snapshot_pads_wp; [done|]. intros out e2 Hout He2. apply HQ; [|by trans e1].
  assert (list_to_map l = Scratchpad.pads s) as Hl.
  { rewrite <- (list_to_map_to_list (Scratchpad.pads s)). by apply list_to_map_proper. }
  by rewrite Hl in Hout.
Qed.

(** A consistent snapshot of a hub nothing else is running on. *)
Record snapshotted {N} (h : Hub N) (snap : Persist.Snapshot) : Prop := mkSnapshotted {
  sn_sessions : Persist.Sessions snap ≡ₚ (map_to_list (Session.sessions (sessionStore h))).*2;
  sn_mail k : default [] (Persist.Mailboxes snap !! k) = Mailbox.queue (mailboxes h) k;
  sn_history : Persist.History snap = history h;
  sn_seq : Persist.SeqNums snap = seqNums h;
  sn_pads : pads_listed (Scratchpad.pads (scratchpad h)) (Persist.Scratchpad snap);
}.

Lemma getSnapshot_wp {N} (h : Hub N) (Q : Persist.Snapshot -> Hub N -> Env -> Prop) e :
  (forall snap e', snapshotted h snap -> e ≼ e' -> Q snap h e') -> wp getSnapshot Q h e.
Proof.
  intros HQ. unfold getSnapshot, HistorySnapshot, SeqSnapshot. wps.
  apply Session.session_Snapshot_wp. intros ss e1 Hss He1. rewrite put_get. wps.
  apply Mailbox.mailbox_Snapshot_wp. intros e2 He2. rewrite put_get. wps. rewrite put_get. wps.
  rewrite put_get. wps. apply scratchpad_Snapshot_wp. intros pads e3 Hpads He3. rewrite put_get. wps.
  apply HQ; [|clock]. split; simpl; try done.
  intros k. rewrite lookup_fmap. unfold Mailbox.queue. simpl.
  by destruct (Mailbox.boxes (mailboxes h) !! k).
Qed.

(** Re-indexing decoded entries decodes the pad. *)
Lemma pad_of_settled (pad : gmap string ScratchpadEntry) l :
  keyed_by Key pad -> l ≡ₚ (map_to_list pad).*2 ->
  Scratchpad.pad_of (Payloads.spelled_entry <$> l) = Payloads.spelled_entry <$> pad.
Proof.
  intros Hk Hl. apply index_by_values.
  - intros k x. rewrite lookup_fmap. intros (y & Hy & ->)%fmap_Some. simpl. by apply Hk.
  - rewrite Hl, map_to_list_fmap, <- !list_fmap_compose.
    erewrite list_fmap_ext; [done|]. by intros ? [].
Qed.

Lemma snapshotted_sized {N} (h : Hub N) b snap :
  b < maxInt64 -> log_ok b (get the_log h) ->
  (forall k, Forall (fun en => in_int64 (Sequence (Mailbox.entry_Envelope en)))
               (Mailbox.queue (mailboxes h) k)) ->
  snapshotted h snap -> Persist.sized snap.
Proof.
  intros Hb Hok Hmail [_ Hmb Hhi Hsq _]. unfold maxInt64 in *. split.
  - intros k l Hk. specialize (Hmb k). rewrite Hk in Hmb. simpl in Hmb. rewrite Hmb. apply Hmail.
  - intros sid l Hl. rewrite Hhi in Hl. destruct (Hok sid) as [Hc [_ _ Hle _]]. simpl in *.
    rewrite Hl in Hle. simpl in Hle. eapply Forall_impl; [exact Hle|].
    unfold in_int64, maxInt64. simpl. lia.
  - intros sid z Hz. rewrite Hsq in Hz. destruct (Hok sid) as [Hc _]. simpl in *.
    rewrite Hz in Hc. simpl in Hc. unfold in_int64, maxInt64. lia.
Qed.

(** The state of [h] that a restart keeps, in the restarted [h2]. *)
Record restored {N} (h h2 : Hub N) : Prop := mkRestored {
  rs_sessions : sessionStore h2 = sessionStore h;
  rs_mail k : Mailbox.queue (mailboxes h2) k = Mailbox.queue (mailboxes h) k;
  rs_history : history h2 = history h;
  rs_seq sid : default 0 (seqNums h2 !! sid) = default 0 (seqNums h !! sid);
  rs_pads : Scratchpad.pads (scratchpad h2) =
    (fun pad : gmap string ScratchpadEntry => Payloads.spelled_entry <$> pad) <$>
      Scratchpad.pads (scratchpad h);
  rs_presence : presence h2 = Presence.NewTracker presenceTTL;
  rs_leader : leader h2 = Leader.NewTracker;
}.

Lemma restoreState_wp {N} debug (h : Hub N) snap e b :
  Session.keyed (sessionStore h) -> Scratchpad.keyed (scratchpad h) -> log_ok b (get the_log h) ->
  snapshotted h snap ->
  wp (restoreState (Persist.settled snap)) (fun _ h2 _ => restored h h2) (boot debug) e.
Proof.
  intros Hkeyed Hpk Hok [Hss Hmb Hhi Hsq Hpads].
  unfold restoreState, Session.Restore, RestoreState, Scratchpad.Restore. wps.
  apply Mailbox.mailbox_Restore_wp; [apply Mailbox.NewStore_wf|].
  intros mb e2 _ _ _ He2 _ Hq. wps. apply wpA_range. intros kvs e3 Hp He3. wps.
  split; simpl; [| | | | |done|done].
  - rewrite (index_by_values _ (Session.sessions (sessionStore h)));
      [by destruct (sessionStore h)|done|done].
  - intros k. by rewrite Hq.
  - rewrite Hhi. apply map_union_empty.
  - intros sid. rewrite raise_seq_lookup by (rewrite Hp; apply NoDup_fst_map_to_list).
    assert (list_to_map kvs = Persist.SeqNums snap) as ->.
    { rewrite <- (list_to_map_to_list (Persist.SeqNums snap)).
      apply list_to_map_proper; [rewrite Hp; apply NoDup_fst_map_to_list|done]. }
    rewrite Hsq, lookup_empty. destruct (Hok sid) as [[H0 _] _]. simpl in *.
    destruct (seqNums h !! sid); simpl in *; lia.
  - apply map_eq. intros sid. rewrite !lookup_fmap. specialize (Hpads sid).
    destruct (Scratchpad.pads (scratchpad h) !! sid) as [pad|] eqn:Hpad,
      (Persist.Scratchpad snap !! sid) as [l|]; try done. simpl. f_equal.
    apply pad_of_settled; [by eapply Hpk|done].
Qed.

(** C15: A restart loses nothing it promises to keep. Flush the server's state to the data
    directory: if the flush reports success, a server started on that directory has the same
    sessions with their keys and activity, the same queue for every mailbox, the same history
    and sequence counters and the same scratchpads (a missing value becomes null), and starts
    with nobody present and no leader; if it reports an error, the directory still loads what
    it loaded before. Flushing changes nothing in the running server. *)
Theorem restart_restores {N} debug (h : Hub N) fs old e b :
  Session.keyed (sessionStore h) -> Scratchpad.keyed (scratchpad h) ->
  b < maxInt64 -> log_ok b (get the_log h) ->
  (forall k, Forall (fun en => in_int64 (Sequence (Mailbox.entry_Envelope en)))
               (Mailbox.queue (mailboxes h) k)) ->
  Persist.recoverable (fun o => o = old) fs ->
  wp flush_once (fun r w e1 => w.1 = h /\
    match r with
    | Ok _ => wp (startup w.2) (fun _ h2 _ => restored h h2) (boot debug) e1
    | Err _ => Persist.Load w.2 = old
    end) (h, fs) e.
Proof.
  intros Hkeyed Hpk Hb Hok Hmail Hold. unfold flush_once. wps.
  apply getSnapshot_wp. intros snap e1 Hsn He1. wps.
  assert (Persist.sized snap) as Hsz by by apply (snapshotted_sized h b).
  eapply wp_mono; [eapply always_wp; by apply (Persist.Flush_always snap old)|].
  intros r fs' e2 Hout. split; [done|]. unfold Persist.outcome in Hout. simpl.
  destruct r; [|done]. unfold startup. rewrite Hout. by eapply restoreState_wp.
Qed.
