(* ===== verification/Process.v ===== *)
(** * cmd/server/main.go: the process

    What [main] reads from its environment, what it starts, and how it ends. [Process] is the
    state of the process with the data directory; [goroutine] are the programs that run beside
    each other once it serves: requests, watch streams, the presence sweep, the janitor, the
    flusher, and [main] waiting for a signal. [startup_process] runs before any of them acts:
    the listener is not open yet, and the tickers' first ticks are seconds away. *)

From Stdlib Require Import Strings.Ascii.
From S2P Require Import Prelude Json JsonText GoAny Protocol Hub HubDelivery.
From S2P Require Import HubOrder HubLifecycle Watcher WatchToken Flushing Api ApiOrder.
From S2P Require Import Server.
From S2P Require Leader Scratchpad Session Filestore Presence Mailbox Persist.

#[local] Open Scope Z_scope.

(** ** Configuration *)

(** [leadingInt]: the digits as a number, an error when it passes 2^63. *)
Fixpoint leadingInt (x : Z) (s : string) : option (Z * string) :=
  match s with
  | String c s' =>
      if is_digit c then
        if 2 ^ 63 / 10 <? x then None
        else
          let x' := x * 10 + (Z.of_N (N_of_ascii c) - 48) in
          if 2 ^ 63 <? x' then None else leadingInt x' s'
      else Some (x, s)
  | EmptyString => Some (x, s)
  end.

(** [leadingFraction]: the digits that fit, with the power of ten they are a fraction of. *)
Fixpoint leadingFraction (x scale : Z) (overflow : bool) (s : string) : Z * Z * string :=
  match s with
  | String c s' =>
      if is_digit c then
        if overflow then leadingFraction x scale true s'
        else if (2 ^ 63 - 1) / 10 <? x then leadingFraction x scale true s'
        else
          let y := x * 10 + (Z.of_N (N_of_ascii c) - 48) in
          if 2 ^ 63 <? y then leadingFraction x scale true s'
          else leadingFraction y (scale * 10) false s'
      else (x, scale, s)
  | EmptyString => (x, scale, s)
  end.

(** The letters up to the next digit or dot. *)
Fixpoint unit_name (s : string) : string * string :=
  match s with
  | String c s' =>
      if is_digit c || bool_decide (c = "."%char) then ("", s)
      else let '(u, r) := unit_name s' in (String c u, r)
  | EmptyString => ("", s)
  end.

Definition unitMap (u : string) : option Z :=
  if bool_decide (u = "ns") then Some 1
  else if bool_decide (u = "us") || bool_decide (u = "µs") || bool_decide (u = "μs") then Some 1000
  else if bool_decide (u = "ms") then Some millisecond
  else if bool_decide (u = "s") then Some second
  else if bool_decide (u = "m") then Some (60 * second)
  else if bool_decide (u = "h") then Some hour
  else None.

(** [uint64(float64(f) * (float64(unit) / scale))], [scale] a power of ten a float64 holds. *)
Definition fraction_of (f unit_ scale : Z) : Z :=
  match float_of_ratio unit_ scale, float_of_ratio f 1 with
  | Some q, Some g =>
      let '(n1, d1) := float_ratio q in
      let '(n2, d2) := float_ratio g in
      default 0 (float_trunc <$> float_of_ratio (n1 * n2) (d1 * d2))
  | _, _ => 0
  end.

(** One number with its unit. *)
Definition duration_term (s : string) : option (Z * string) :=
  '(v, s1) ← leadingInt 0 s;
  let pre := negb (String.length s =? String.length s1)%nat in
  let '(f, scale, s2, post) :=
    match expect "." s1 with
    | Some t => let '(f, scale, s2) := leadingFraction 0 1 false t in
                (f, scale, s2, negb (String.length t =? String.length s2)%nat)
    | None => (0, 1, s1, false)
    end in
  if negb (pre || post) then None
  else
    let '(u, s3) := unit_name s2 in
    if bool_decide (u = "") then None
    else
      unit_ ← unitMap u;
      if 2 ^ 63 / unit_ <? v then None
      else
        let v' := v * unit_ + (if 0 <? f then fraction_of f unit_ scale else 0) in
        if 2 ^ 63 <? v' then None else Some (v', s3).

Fixpoint duration_terms (fuel : nat) (d : Z) (s : string) : option Z :=
  match fuel with
  | O => None
  | S fuel' =>
      match s with
      | EmptyString => Some d
      | String _ _ =>
          '(v, s') ← duration_term s;
          if 2 ^ 63 <? d + v then None else duration_terms fuel' (d + v) s'
      end
  end.

(** [time.ParseDuration]; every term takes at least two characters. *)
Definition ParseDuration (s : string) : option Duration :=
  let '(neg, s) := match expect "-" s, expect "+" s with
                   | Some t, _ => (true, t)
                   | None, Some t => (false, t)
                   | None, None => (false, s)
                   end in
  if bool_decide (s = "0") then Some 0
  else if bool_decide (s = "") then None
  else
    d ← duration_terms (S (String.length s)) 0 s;
    if (neg : bool) then Some (- d) else if maxInt64 <? d then None else Some d.

Example parse_720h : ParseDuration "720h" = Some (30 * 24 * hour).
Proof. vm_compute. reflexivity. Qed.
Example parse_mixed : ParseDuration "-1h15m30.5s" = Some (- (4530 * second + 500 * millisecond)).
Proof. vm_compute. reflexivity. Qed.
Example parse_30d : ParseDuration "30d" = None.
Proof. vm_compute. reflexivity. Qed.
Example parse_zero : ParseDuration "0" = Some 0.
Proof. vm_compute. reflexivity. Qed.

Record Config := mkConfig {
  port : string;
  debug : bool;
  retention : Duration;
  dataDir : string;
}.

(** What [main] makes of its environment variables; a bad retention is logged. *)
Definition configure (getenv : string -> string) : Config :=
  let p := getenv "PORT" in
  let d := getenv "AGENTCHAT_DEBUG" in
  let v := getenv "AGENTCHAT_CHANNEL_RETENTION" in
  mkConfig
    (if bool_decide (p = "") then "8080" else p)
    (bool_decide (d = "true") || bool_decide (d = "1"))
    (if bool_decide (v = "") then 30 * 24 * hour else default (30 * 24 * hour) (ParseDuration v))
    (getenv "AGENTCHAT_DATA").

(** ** The process *)
Record Process := mkProcess {
  handler : Handler;
  disk : Persist.FS;
  persistent : bool;
  serving : bool;
  sweep_stopped : bool;
  flusher_stopped : bool;
  exited : option Z;
}.

Definition the_handler : Lens Process Handler.
Proof.
  by refine (mkLens handler (fun x p => mkProcess x (disk p) (persistent p) (serving p)
    (sweep_stopped p) (flusher_stopped p) (exited p)) _ _ _); intros [].
Defined.
Definition the_disk : Lens Process Persist.FS.
Proof.
  by refine (mkLens disk (fun x p => mkProcess (handler p) x (persistent p) (serving p)
    (sweep_stopped p) (flusher_stopped p) (exited p)) _ _ _); intros [].
Defined.
Definition the_process_hub : Lens Process (Hub Watcher) := lens_comp the_handler the_hub.

(** The variables of [main] that change: the flags and the channels it closes. *)
Definition set_persistent (p : Process) : Process :=
  mkProcess (handler p) (disk p) true (serving p) (sweep_stopped p) (flusher_stopped p) (exited p).
Definition set_serving (b : bool) (p : Process) : Process :=
  mkProcess (handler p) (disk p) (persistent p) b (sweep_stopped p) (flusher_stopped p) (exited p).

(** [Tracker.Stop] and [Flusher.Stop]: the channel the loop selects on is closed. *)
Definition stop_sweep (p : Process) : Process :=
  mkProcess (handler p) (disk p) (persistent p) (serving p) true (flusher_stopped p) (exited p).
Definition stop_flusher (p : Process) : Process :=
  mkProcess (handler p) (disk p) (persistent p) (serving p) (sweep_stopped p) true (exited p).
Definition exit (code : Z) (p : Process) : Process :=
  mkProcess (handler p) (disk p) (persistent p) (serving p) (sweep_stopped p) (flusher_stopped p)
    (Some code).

(** The process before [main] has done anything but build the hub and the handlers. *)
Definition new_process (cfg : Config) (fs : Persist.FS) : Process :=
  mkProcess (Api.New (boot (debug cfg))) fs false false false false None.

Definition set (f : Process -> Process) : prog Process unit := ⟨lens_id⟩ (modify f).

(** [Load]: a file that cannot be read counts as none. *)
Definition load : Atom Persist.FS (option Persist.Snapshot) :=
  ok ← flip;
  if (ok : bool) then gets Persist.Load else mret None.

(** From the environment to [ListenAndServe]. *)
Definition startup_process (cfg : Config) : prog Process unit :=
  (if bool_decide (dataDir cfg <> "") then
     r ← ⟨the_disk⟩ Persist.New;
     match r with
     | Err _ => mret tt
     | Ok _ =>
         found ← ⟨the_disk⟩ load;
         match found with
         | Some snap => ⟪the_process_hub⟫ restoreState snap
         | None => mret tt
         end ;;
         set set_persistent
     end
   else mret tt) ;;
  set (set_serving true).

(** *** What runs beside each other *)

(** A connection: the listener takes it only while the server serves. *)
Definition request (fuel : nat) (rt : route) (r : Request) : prog Process unit :=
  ok ← ⟨lens_id⟩ (gets serving);
  if (ok : bool) then ⟪the_handler⟫ serve fuel rt r ;; mret tt else mret tt.

Definition stream (fuel : nat) (r : Request) : prog Process unit :=
  ok ← ⟨lens_id⟩ (gets serving);
  if (ok : bool) then ⟪the_handler⟫ watch_stream fuel r else mret tt.

(** The goroutine of [StartSweep], every [sweepInterval]. *)
Definition sweeper (fuel : nat) : prog Process unit :=
  run_ticker fuel sweep_stopped (15 * second) (⟪the_process_hub⟫ hub_sweep) ;; mret tt.

(** The goroutine of [StartJanitor], every six hours, as long as the process lives. *)
Definition janitor (fuel : nat) (cfg : Config) : prog Process unit :=
  match StartJanitor (retention cfg) with
  | None => mret tt
  | Some body => run_ticker fuel (fun _ => false) (6 * hour) (⟪the_process_hub⟫ body) ;; mret tt
  end.

(** [s.Flush(getSnapshot())] *)
Definition flush_now : prog Process (result unit) :=
  snap ← ⟪the_process_hub⟫ getSnapshot;
  ⟪the_disk⟫ Persist.Flush snap.

(** The goroutine of [StartFlusher]. *)
Definition flusher (fuel : nat) : prog Process unit :=
  p ← ⟨lens_id⟩ (gets persistent);
  if (p : bool) then
    run_ticker fuel flusher_stopped stateFlushInterval (flush_now ;; mret tt) ;; mret tt
  else mret tt.

(** The [select] of [main] and what follows it: a serving error exits at once, a signal stops
    the sweep and the listener, waits for [srv.Shutdown], and flushes a last time. [Shutdown]
    returns when no request is left or after ten seconds, so requests may still be running. *)
Definition main_wait : prog Process unit :=
  signalled ← ⟨lens_id⟩ flip;
  if (signalled : bool) then
    set stop_sweep ;;
    set (set_serving false) ;;
    nowP ;;
    p ← ⟨lens_id⟩ (gets persistent);
    (if (p : bool) then set stop_flusher ;; flush_now ;; mret tt else mret tt) ;;
    set (exit 0)
  else set (exit 1).

(** The goroutines of the process; with [closing], also those that end sessions. *)
Inductive goroutine (closing : bool) : prog Process unit -> Prop :=
| go_request fuel rt r :
    (rt = DELETE_session -> closing = true) -> goroutine closing (request fuel rt r)
| go_stream fuel r : goroutine closing (stream fuel r)
| go_sweeper fuel : goroutine closing (sweeper fuel)
| go_janitor fuel cfg : closing = true -> goroutine closing (janitor fuel cfg)
| go_flusher fuel : goroutine closing (flusher fuel)
| go_main : goroutine closing main_wait.

(** ** What a snapshot taken while others run is worth *)

(** [B] bounds the counters. Without [closing], every message of the snapshot's history is
    covered by the snapshot's counter, although the two are read one after the other. *)
Record snap_ok (closing : bool) (B : Z) (s : Persist.Snapshot) : Prop := mkSnapOk {
  so_mail k l : Persist.Mailboxes s !! k = Some l ->
    (length l <= Z.to_nat mailboxMax)%nat /\
    Forall (fun en => in_int64 (Sequence (Mailbox.entry_Envelope en))) l;
  so_history sid l : Persist.History s !! sid = Some l ->
    session_log_ok defaultMaxHistory sid B l;
  so_seq sid z : Persist.SeqNums s !! sid = Some z -> 0 <= z <= B;
  so_below sid l : closing = false -> Persist.History s !! sid = Some l ->
    Forall (fun env => Sequence env <= default 0 (Persist.SeqNums s !! sid)) l;
}.

(** What the data directory may lead to: nothing, or such a snapshot. *)
Definition state_ok (closing : bool) (B : Z) (o : option Persist.Snapshot) : Prop :=
  match o with None => True | Some s => snap_ok closing B s end.

Lemma snap_ok_sized closing B s : 0 <= B <= maxInt64 -> snap_ok closing B s -> Persist.sized s.
Proof.
  intros HB [Hm Hh Hs _]. unfold maxInt64 in *. split.
  - intros k l Hk. by apply (Hm k l).
  - intros sid l Hl. eapply Forall_impl; [apply (slog_le _ _ _ _ (Hh sid l Hl))|].
    unfold in_int64, maxInt64. simpl. lia.
  - intros sid z Hz. specialize (Hs sid z Hz). unfold in_int64, maxInt64. lia.
Qed.

Lemma session_log_mono max sid c c' l :
  c <= c' -> session_log_ok max sid c l -> session_log_ok max sid c' l.
Proof.
  intros Hc [H1 H2 H3 H4]. split; [done..| |done]. eapply Forall_impl; [exact H3|]. simpl. lia.
Qed.

Lemma state_ok_mono closing B B' o : B <= B' -> state_ok closing B o -> state_ok closing B' o.
Proof.
  intros HB. destruct o as [s|]; [|done]. intros [Hm Hh Hs Hb]. split; [done|..|done].
  - intros sid l Hl. eapply session_log_mono; [done|by apply Hh].
  - intros sid z Hz. specialize (Hs sid z Hz). lia.
Qed.

(** What a hub must be for the rest to hold, the counters bounded by [c]. *)
Record hub_ok (c : Z) (h : Hub Watcher) : Prop := mkHubOk {
  ho_log : log_ok c (get the_log h);
  ho_max : maxHistory h = defaultMaxHistory;
  ho_mail : Mailbox.mail_ok numbered (mailboxes h);
  ho_per : Mailbox.maxPer (mailboxes h) = Z.to_nat mailboxMax;
}.

Lemma log_step_max closing l l' : log_step closing l l' -> log_max l' = log_max l.
Proof. by intros []. Qed.

Lemma hub_step_ok closing c h h' :
  0 <= c < maxInt64 -> hub_ok c h -> hub_step closing h h' -> hub_ok (c + 1) h'.
Proof.
  intros Hc [Hl Hm Hb Hp] [Hlog [Hper Hmail]]. split.
  - by eapply log_step_ok.
  - apply log_step_max in Hlog. simpl in Hlog. by rewrite Hlog.
  - by apply Hmail.
  - by rewrite Hper.
Qed.

(** What a mailbox may hold. *)
Definition box_ok (es : list Mailbox.Entry) : Prop :=
  (length es <= Z.to_nat mailboxMax)%nat /\
  Forall (fun en => in_int64 (Sequence (Mailbox.entry_Envelope en))) es.

Lemma entries_ok c h i : hub_ok c h -> box_ok (Mailbox.entries_at i (mailboxes h)).
Proof.
  intros [_ _ (Hwf & Hbd & HE) Hper]. unfold Mailbox.entries_at.
  destruct (Mailbox.heap (mailboxes h) !! i) as [bx|] eqn:Hi; [|split; simpl; [lia|constructor]].
  split.
  - rewrite <- Hper. erewrite <- Mailbox.wf_max by done. by apply (Hbd i).
  - apply Forall_forall. intros en. by apply (HE i bx).
Qed.

(** Counters never go back while no session ends. *)
Lemma log_step_counters c l l' sid :
  log_ok c l -> 0 <= c < maxInt64 -> log_step false l l' ->
  default 0 (log_seqNums l !! sid) <= default 0 (log_seqNums l' !! sid).
Proof.
  intros Hok [Hc0 Hc] [|sid' env _|sid'|]; try done; simpl; rewrite (bumped_next c) by done;
    (destruct (decide (sid = sid')) as [->|Hne];
      [rewrite lookup_insert_eq; simpl; lia|by rewrite lookup_insert_ne by done]).
Qed.

(** ** The invariant of the running process *)

Lemma staged_inside {W G T S A} lim (I : nat -> list G -> W -> Env -> Prop) (M : Lens W T)
    (L : Lens T S) i ph (p : prog S A) (Q : A -> G -> Prop) :
  staged lim I (lens_comp M L) i ph p Q -> staged lim I M i ph (⟪L⟫ p) Q.
Proof.
  revert ph. induction p as [a|X a k IH]; simpl; intros ph Hp; [done|].
  intros n g w e Hn Hg HI. apply wpA_zoom. eapply wpA_mono; [by apply (Hp n g)|].
  intros x s' e' (ph' & HI' & Hk). exists ph'. auto.
Qed.

(** A goroutine between the two reads of a snapshot holds the history it has read; one that is
    flushing has a temporary file open. *)
Abbreviation Stage := (option (gmap string (list Envelope)) * option temp)%type.

Section Invariant.
Context (closing : bool) (b B : Z) (lim : nat).
Hypothesis (Hb : 0 <= b) (HB : b + Z.of_nat lim <= B) (Hmax : B <= maxInt64).

Definition read_ok (h : Hub Watcher) (hist : gmap string (list Envelope)) : Prop :=
  forall sid l, hist !! sid = Some l -> session_log_ok defaultMaxHistory sid B l /\
    (closing = false -> Forall (fun env => Sequence env <= default 0 (seqNums h !! sid)) l).

Record process_ok (n : nat) (g : list Stage) (w : Process) (e : Env) : Prop := mkProcessOk {
  po_hub : hub_ok (b + Z.of_nat n) (hub (handler w));
  po_files : files_ok (state_ok closing B) (g.*2) (disk w);
  po_read t hist x : g !! t = Some (Some hist, x) -> read_ok (hub (handler w)) hist;
}.

Lemma read_ok_step c h h' hist :
  hub_ok c h -> 0 <= c < maxInt64 -> hub_step closing h h' -> read_ok h hist -> read_ok h' hist.
Proof.
  intros Hok Hc [Hl _] Hr sid l Hs. destruct (Hr sid l Hs) as [H1 H2]. split; [done|].
  intros Hcl. eapply Forall_impl; [by apply H2|]. cbv beta. intros env Hle.
  rewrite Hcl in Hl. pose proof (log_step_counters c _ _ sid (ho_log _ _ Hok) Hc Hl) as Hge.
  simpl in Hge. lia.
Qed.

(** What any section does that is not part of a flush. *)
Definition process_step (w w' : Process) : Prop :=
  hub_step closing (hub (handler w)) (hub (handler w')) /\ disk w' = disk w.

Lemma process_ok_step n g w w' e e' :
  (n < lim)%nat -> process_ok n g w e -> process_step w w' -> process_ok (1 + n) g w' e'.
Proof using Hb HB Hmax.
  intros Hn [Hh Hf Hr] [Hs Hd]. split.
  - replace (b + Z.of_nat (1 + n)) with (b + Z.of_nat n + 1) by lia.
    eapply hub_step_ok; [lia|done|exact Hs].
  - by rewrite Hd.
  - intros t hist x Ht. eapply read_ok_step; [exact Hh|lia|exact Hs|by eapply Hr].
Qed.

Lemma process_step_refl w : process_step w w.
Proof. split; [apply hub_step_refl|done]. Qed.

Lemma process_ok_idle n g w e e' : (n < lim)%nat -> process_ok n g w e -> process_ok (1 + n) g w e'.
Proof using Hb HB Hmax. intros Hn H. eapply process_ok_step; [done..|apply process_step_refl]. Qed.

(** A change of one goroutine's stage. *)
Lemma process_ok_stage n g w e e' t hist x x0 :
  (n < lim)%nat -> process_ok n g w e -> g !! t = Some (x0, x) ->
  (forall h, hist = Some h -> read_ok (hub (handler w)) h) ->
  process_ok (1 + n) (<[t := (hist, x)]> g) w e'.
Proof using Hb HB Hmax.
  intros Hn H Ht Hh. apply (process_ok_idle _ _ _ _ e') in H as [H1 H2 H3]; [|done].
  split; [done|..].
  - rewrite list_fmap_insert. simpl. rewrite list_insert_id; [done|].
    by rewrite list_lookup_fmap, Ht.
  - intros t' hist' x'. rewrite list_lookup_insert_Some. intros [(<- & E & _)|[_ E]]; [|by eapply H3].
    apply Hh. by injection E.
Qed.

(** *** The goroutines that do not flush *)
Lemma guar_process {A} (p : prog Handler A) :
  guar (api_step closing) p (fun _ => True) ->
  guar process_step (⟪the_handler⟫ p) (fun _ => True).
Proof. apply guar_within. intros w s' Hs. by split. Qed.

Lemma guar_process_hub {A} (p : prog (Hub Watcher) A) (Q : A -> Prop) :
  guar (hub_step closing) p Q -> guar process_step (⟪the_process_hub⟫ p) Q.
Proof. apply guar_within. intros w s' Hs. by split. Qed.

Lemma guar_flags f (Q : unit -> Prop) :
  (forall p, handler (f p) = handler p /\ disk (f p) = disk p) -> Q tt ->
  guar process_step (set f) Q.
Proof.
  intros Hf HQ. apply guar_atomically. intros w e. wps. split; [|done].
  destruct (Hf w) as [E1 E2]. unfold process_step. rewrite E1, E2. apply process_step_refl.
Qed.

Lemma guar_flag {A} (f : Process -> A) : guar process_step (⟨lens_id⟩ (gets f)) (fun _ => True).
Proof. apply guar_atomically. intros w e. wps. split; [apply process_step_refl|done]. Qed.

Lemma request_guar fuel rt r :
  (rt = DELETE_session -> closing = true) -> guar process_step (request fuel rt r) (fun _ => True).
Proof.
  intros Hd. apply guar_then; [apply guar_flag|]. intros [|]; [|done].
  apply guar_then; [|done]. by apply guar_process, serve_guar.
Qed.

Lemma stream_guar fuel r : guar process_step (stream fuel r) (fun _ => True).
Proof.
  apply guar_then; [apply guar_flag|]. intros [|]; [|done]. apply guar_process, watch_guar.
Qed.

Lemma sweeper_guar fuel : guar process_step (sweeper fuel) (fun _ => True).
Proof.
  apply guar_then; [|done]. apply guar_ticker; [apply process_step_refl|].
  apply guar_process_hub, guar_sweep.
Qed.

Lemma janitor_guar fuel cfg : closing = true -> guar process_step (janitor fuel cfg) (fun _ => True).
Proof.
  intros Hc. unfold janitor, StartJanitor. destruct (_ <=? 0); [done|].
  apply guar_then; [|done]. apply guar_ticker; [apply process_step_refl|].
  by apply guar_process_hub, guar_reap.
Qed.

Abbreviation stage_of := (fun x => (None, x) : Stage).
Abbreviation here := (staged lim process_ok).

Lemma staged_plain {A} t ph (p : prog Process A) :
  guar process_step p (fun _ => True) -> here lens_id t ph p (fun _ ph' => ph' = ph).
Proof using Hb HB Hmax.
  intros Hp. eapply staged_mono; [eapply staged_of_guar; [|exact Hp]|by intros a ph' [_ ?]].
  intros n g w e s' e' Hn H HR. by eapply process_ok_step.
Qed.

(** *** Taking a snapshot *)

(** A section of a component of the hub that only reads. *)
Lemma staged_hub_read {S A} t ph (L : Lens (Hub Watcher) S) (a : Atom S A)
    (Q : Hub Watcher -> A -> Prop) :
  (forall h e, hub_ok B h -> wpA a (fun x s' _ => s' = get L h /\ Q h x) (get L h) e) ->
  here the_process_hub t ph (⟨L⟩ a) (fun x ph' => (exists h, hub_ok B h /\ Q h x) /\ ph' = ph).
Proof using Hb HB Hmax.
  intros Ha. apply staged_section. intros n g w e Hn Ht H.
  assert (hub_ok B (hub (handler w))) as HhB.
  { destruct H as [[Hl ? ? ?] _ _]. split; [|done..]. eapply log_ok_mono; [exact Hl|lia]. }
  eapply wpA_mono; [by apply Ha|]. intros x s' e' [-> HQ]. exists ph.
  rewrite !put_get, list_insert_id by done.
  split; [by eapply process_ok_idle|]. split; [|done]. by eexists.
Qed.

(** The reads of the boxes, one after the other. *)
Lemma staged_boxes t ph l :
  here (lens_comp the_process_hub the_mailboxes) t ph (Mailbox.snapshot_boxes l)
    (fun out ph' => (forall k es, out !! k = Some es -> box_ok es) /\ ph' = ph).
Proof using Hb HB Hmax.
  induction l as [|[key i] l IH]; cbn [Mailbox.snapshot_boxes].
  { apply staged_ret. split; [|done]. intros k es Hk. by rewrite lookup_empty in Hk. }
  eapply (staged_bind _ _ _ _ _ _ _ (fun es ph' => box_ok es /\ ph' = ph)).
  { apply staged_section. intros n g w e Hn Ht H. cbn [get put lens_id]. apply wpA_gets.
    exists ph. rewrite put_get, list_insert_id by done. split; [by eapply process_ok_idle|].
    split; [|done]. by eapply (entries_ok _ (hub (handler w))), po_hub. }
  intros es ph' [Hes ->]. eapply staged_bind; [exact IH|]. intros out ph' [Hout ->].
  apply staged_ret. split; [|done]. intros k es'. rewrite lookup_insert_Some.
  intros [[_ <-]|[_ Hk]]; [done|by eapply Hout].
Qed.

Lemma staged_mail_snapshot t ph :
  here the_process_hub t ph (⟪the_mailboxes⟫ Mailbox.Snapshot)
    (fun out ph' => (forall k es, out !! k = Some es -> box_ok es) /\ ph' = ph).
Proof using Hb HB Hmax.
  apply staged_inside. unfold Mailbox.Snapshot.
  eapply (staged_bind _ _ _ _ _ _ _ (fun _ ph' => ph' = ph)); [|intros l ph' ->; apply staged_boxes].
  apply staged_section. intros n g w e Hn Ht H. cbn [get put lens_id]. apply wpA_bind, wpA_gets.
  apply wpA_range. intros kvs e' _ _. exists ph. rewrite put_get, list_insert_id by done.
  split; [by eapply process_ok_idle|done].
Qed.

(** The two reads of the log. *)
Lemma staged_history t x :
  here the_process_hub t (None, x) HistorySnapshot (fun hist ph' => ph' = (Some hist, x)).
Proof using Hb HB Hmax.
  apply staged_section. intros n g w e Hn Ht H. apply wpA_gets.
  exists (Some (history (hub (handler w))), x). split; [|done]. rewrite put_get, put_get.
  eapply process_ok_stage; [done..|]. intros h [= <-] sid l Hl.
  pose proof (ho_log _ _ (po_hub _ _ _ _ H) sid) as [Hc Hs]. simpl in Hc, Hs. rewrite Hl in Hs.
  rewrite (ho_max _ _ (po_hub _ _ _ _ H)) in Hs. simpl in Hs. split.
  - eapply session_log_mono; [|exact Hs]. lia.
  - intros _. eapply Forall_impl; [apply Hs|]. simpl. lia.
Qed.

Lemma staged_seqs t hist x :
  here the_process_hub t (Some hist, x) SeqSnapshot (fun seqs ph' => ph' = (None, x) /\
    (forall sid z, seqs !! sid = Some z -> 0 <= z <= B) /\
    forall sid l, hist !! sid = Some l -> session_log_ok defaultMaxHistory sid B l /\
      (closing = false -> Forall (fun env => Sequence env <= default 0 (seqs !! sid)) l)).
Proof using Hb HB Hmax.
  apply staged_section. intros n g w e Hn Ht H. apply wpA_gets. exists (None, x).
  rewrite put_get, put_get. split; [by eapply process_ok_stage|]. split; [done|]. split.
  - intros sid z Hz. destruct (ho_log _ _ (po_hub _ _ _ _ H) sid) as [Hc _]. simpl in Hc, Hz.
    rewrite Hz in Hc. simpl in Hc. lia.
  - exact (po_read _ _ _ _ H _ _ _ Ht).
Qed.

Lemma staged_aside {S A} t ph (L : Lens (Hub Watcher) S) (a : Atom S A) :
  (forall s h, get the_log (put L s h) = get the_log h /\ mailboxes (put L s h) = mailboxes h) ->
  here the_process_hub t ph (⟨L⟩ a) (fun _ ph' => ph' = ph).
Proof using Hb HB Hmax.
  intros HL. eapply staged_mono; [eapply (staged_of_guar _ _ _ (hub_step closing))|].
  - intros n g w e s' e' Hn H HR. eapply process_ok_step; [done..|]. by split.
  - by apply (guar_aside closing).
  - by intros ? ? [_ ?].
Qed.

(** A snapshot taken while anything else runs. *)
Lemma staged_snapshot t x :
  here lens_id t (None, x) (⟪the_process_hub⟫ getSnapshot)
    (fun snap ph' => snap_ok closing B snap /\ ph' = (None, x)).
Proof using Hb HB Hmax.
  apply staged_within. unfold getSnapshot.
  eapply staged_bind; [by apply staged_aside|]. intros ss ph ->.
  eapply staged_bind; [apply staged_mail_snapshot|]. intros boxes ph [Hboxes ->].
  eapply staged_bind; [apply staged_history|]. intros hist ph ->.
  eapply staged_bind; [apply staged_seqs|]. intros seqs ph (-> & Hseqs & Hhist).
  eapply staged_bind; [by apply staged_aside|]. intros pads ph ->.
  apply staged_ret. split; [|done]. split; simpl.
  - exact Hboxes.
  - intros sid l Hl. by apply Hhist.
  - exact Hseqs.
  - intros sid l Hc Hl. by apply Hhist.
Qed.

(** ** A flush while anything else runs *)
Lemma staged_flush t :
  here lens_id t (None, None) flush_now (fun _ ph' => ph' = (None, None)).
Proof using Hb HB Hmax.
  eapply staged_bind; [apply staged_snapshot|]. intros snap ph [Hsnap ->].
  apply staged_within.
  apply (staged_Flush lim the_disk lens_snd (state_ok closing B) process_ok).
  - intros n g w e H. apply H.
  - intros n g w e t' [hs x0] x fs' e' Hn H Ht Hf. destruct H as [H1 H2 H3].
    split.
    + destruct H1 as [Hl ? ? ?]. split; [|done..].
      eapply log_ok_mono; [exact Hl|lia].
    + simpl. by rewrite list_fmap_insert.
    + intros t1 hist x1. rewrite list_lookup_insert_Some. intros [(<- & E & _)|[_ E]].
      * injection E as -> ->. by eapply H3.
      * by eapply H3.
  - done.
  - apply (snap_ok_sized closing B); [lia|done].
  - destruct Hsnap as [? ? ? ?]. by split.
Qed.

Lemma goroutine_staged t p :
  goroutine closing p -> here lens_id t (None, None) p (fun _ ph' => ph' = (None, None)).
Proof using Hb HB Hmax.
  intros [fuel rt r Hd|fuel r|fuel|fuel cfg Hc|fuel|].
  - by apply staged_plain, request_guar.
  - apply staged_plain, stream_guar.
  - apply staged_plain, sweeper_guar.
  - by apply staged_plain, janitor_guar.
  - unfold flusher. eapply staged_bind; [apply staged_plain, guar_flag|]. intros [|] ph ->; [|done].
    eapply staged_bind; [apply staged_ticker|].
    + intros. by eapply process_ok_idle.
    + eapply staged_bind; [apply staged_flush|]. by intros r ph ->.
    + by intros r ph ->.
  - unfold main_wait.
    eapply staged_bind; [apply staged_plain|].
    { apply guar_atomically. intros w e. apply wpA_flip. split; [apply process_step_refl|done]. }
    intros [|] ph ->; [|by apply staged_plain, guar_flags].
    eapply staged_bind; [by apply staged_plain, guar_flags|]. intros _ ph ->.
    eapply staged_bind; [by apply staged_plain, guar_flags|]. intros _ ph ->.
    eapply staged_bind; [by apply staged_plain, guar_nowP; [apply process_step_refl|]|]. intros now ph ->.
    eapply staged_bind; [apply staged_plain, guar_flag|]. intros pers ph ->.
    eapply (staged_bind _ _ _ _ _ _ _ (fun _ ph' => ph' = (None, None)));
      [|intros u ph ->; by apply staged_plain, guar_flags].
    destruct pers; [|done]. eapply staged_bind; [by apply staged_plain, guar_flags|]. intros _ ph ->.
    eapply staged_bind; [apply staged_flush|]. by intros r ph ->.
Qed.
End Invariant.

(** ** One life of the process *)

(** The process is ready to serve: its logs are in order with counters at most [b], and so is
    everything its data directory may lead to. *)
Record ready (closing : bool) (b : Z) (w : Process) : Prop := mkReady {
  rd_hub : hub_ok b (hub (handler w));
  rd_disk : Persist.recoverable (state_ok closing b) (disk w);
}.

Lemma process_runs closing b w e n P :
  0 <= b -> b + Z.of_nat n <= maxInt64 -> ready closing b w ->
  nsteps (pool_step (goroutine closing)) n (mkPool w e []) P ->
  ready closing (b + Z.of_nat n) (p_world P).
Proof.
  intros Hb Hn [Hh Hd] Hrun.
  destruct (pool_staged n (process_ok closing b (b + Z.of_nat n)) (goroutine closing) (None, None)
    (fun _ ph => ph = (None, None)) (mkPool w e []) P n 0 []) as (g & H & _); [| |exact Hrun|lia|..].
  - intros n0 g w1 e1 Hn0 H.
    apply (process_ok_idle closing b _ n Hb (Z.le_refl _) Hn _ _ _ _ e1 Hn0) in H as [H1 H2 H3].
    split; [exact H1|..].
    + rewrite fmap_app. destruct H2 as [Hr Ho Hi]. split; [exact Hr|..].
      * intros t tmp i m [Ht|[_ Ht%list_lookup_singleton_Some]]%lookup_app_Some;
          [by eapply Ho|by destruct Ht].
      * intros t t' tmp tmp' i m m' [Ht|[_ Ht%list_lookup_singleton_Some]]%lookup_app_Some
          [Ht'|[_ Ht'%list_lookup_singleton_Some]]%lookup_app_Some;
          [by eapply Hi|by destruct Ht'|by destruct Ht|by destruct Ht].
    + intros t hist x [Ht|[_ Ht%list_lookup_singleton_Some]]%lookup_app_Some;
        [by eapply H3|by destruct Ht].
  - intros t p Hp. apply goroutine_staged; [lia..|done].
  - split; [|split; [|done..]|done].
    + replace (b + Z.of_nat 0) with b by lia. exact Hh.
    + eapply Persist.recoverable_mono; [|exact Hd]. intros o. apply state_ok_mono. lia.
  - split; [done|]. intros i p ph Hi. done.
  - destruct H as [H1 [H2 _ _] _]. rewrite Nat.add_0_r in H1. by split.
Qed.

Lemma hub_ok_bounds c h :
  hub_ok c h ->
  (forall sid, session_log_ok defaultMaxHistory sid (default 0 (seqNums h !! sid))
                 (default [] (history h !! sid))) /\
  forall k, (length (Mailbox.queue (mailboxes h) k) <= Z.to_nat mailboxMax)%nat.
Proof.
  intros Hok. split.
  - intros sid. destruct (ho_log _ _ Hok sid) as [_ H]. simpl in H. by rewrite (ho_max _ _ Hok) in H.
  - intros k. unfold Mailbox.queue. destruct (Mailbox.boxes (mailboxes h) !! k) as [i|]; [|simpl; lia].
    by eapply (entries_ok c h i).
Qed.

(** C5: While the server runs, however the runtime interleaves any number of requests on any
    route, watch streams, presence sweeps, janitor runs, flushes, and the shutdown: every
    session's history stays in strictly increasing order below its counter and within its
    bound, no mailbox outgrows its bound, and if the machine stops at that moment, or the
    process ends, what is on disk is nothing or one whole snapshot, with every history in order
    and every mailbox within bounds; when no session was being ended meanwhile, its counters
    also cover its histories, although they were read at different times. *)
Theorem process_sound closing b w e n P fs' :
  0 <= b -> b + Z.of_nat n <= maxInt64 -> ready closing b w ->
  nsteps (pool_step (goroutine closing)) n (mkPool w e []) P ->
  fs' = disk (p_world P) \/ Persist.crash (disk (p_world P)) fs' ->
  let h := hub (handler (p_world P)) in
  (forall sid, session_log_ok defaultMaxHistory sid (default 0 (seqNums h !! sid))
                 (default [] (history h !! sid))) /\
  (forall k, (length (Mailbox.queue (mailboxes h) k) <= Z.to_nat mailboxMax)%nat) /\
  state_ok closing (b + Z.of_nat n) (Persist.Load fs').
Proof.
  intros Hb Hn Hrd Hrun Hfs h.
  pose proof (process_runs _ _ _ _ _ _ Hb Hn Hrd Hrun) as [Hh Hd].
  destruct (hub_ok_bounds _ _ Hh) as [H1 H2]. split; [exact H1|]. split; [exact H2|].
  destruct Hfs as [->|Hcr]; [by apply Persist.recoverable_load|by eapply Persist.recoverable_crash].
Qed.

(** ** Restarting *)

Lemma restore_mail_ok E bs (Q : unit -> Mailbox.Store -> Env -> Prop) s e :
  Mailbox.mail_ok E s ->
  (forall k es, bs !! k = Some es -> (length es <= Mailbox.maxPer s)%nat /\
     Forall (fun en => E (Mailbox.entry_Envelope en)) es) ->
  (forall s' e', Mailbox.mail_ok E s' -> Mailbox.maxPer s' = Mailbox.maxPer s -> Q tt s' e') ->
  wpA (Mailbox.Restore bs) Q s e.
Proof.
  intros Hok Hbs HQ. unfold Mailbox.Restore. wps. apply wpA_range. intros kvs e' Hkvs _.
  assert (forall k es, (k, es) ∈ kvs -> (length es <= Mailbox.maxPer s)%nat /\
    Forall (fun en => E (Mailbox.entry_Envelope en)) es) as Hall.
  { intros k es Hin. rewrite Hkvs, elem_of_map_to_list in Hin. by eapply Hbs. }
  set (s0 := Mailbox.set_boxes (fun _ => ∅) s).
  assert (Mailbox.mail_ok E s0) as Hok0.
  { destruct Hok as ([Ha Hi Hm Hp] & Hbd & HE). split; [|by split]. split; simpl; try done; set_solver. }
  assert (Mailbox.maxPer s0 = Mailbox.maxPer s) as Hp0 by done.
  clearbody s0. clear Hok Hkvs. revert s0 Hok0 Hp0.
  induction kvs as [|[k es] kvs IH]; intros s0 Hok0 Hp0; cbn [Mailbox.restore_boxes].
  { apply wpA_ret. by apply HQ. }
  wps. apply IH; [| |exact Hp0].
  - intros k' es' Hin. apply (Hall k' es'). by right.
  - destruct Hok0 as (Hwf & Hbd & HE). destruct (Hall k es) as [Hlen HEs]; [left|].
    split; [by apply Mailbox.wf_add_box|]. split.
    + intros i bx [Hi|[_ Hi]]%lookup_app_Some; [by eapply Hbd|].
      apply list_lookup_singleton_Some in Hi as [_ <-]. simpl. by rewrite Hp0.
    + intros i bx en [Hi|[_ Hi]]%lookup_app_Some; [by eapply HE|].
      apply list_lookup_singleton_Some in Hi as [_ <-]. rewrite Forall_forall in HEs. apply HEs.
Qed.

Lemma raise_seq_covers b hist seqs kvs :
  0 <= b -> kvs ≡ₚ map_to_list seqs ->
  (forall sid z, seqs !! sid = Some z -> 0 <= z <= b) ->
  (forall sid l, hist !! sid = Some l -> session_log_ok defaultMaxHistory sid b l /\
     Forall (fun env => Sequence env <= default 0 (seqs !! sid)) l) ->
  log_ok b (mkLog (hist ∪ ∅) (foldl raise_seq ∅ kvs) defaultMaxHistory).
Proof.
  intros Hb Hkvs Hseqs Hhist sid. cbn [log_seqNums log_history log_max].
  assert (NoDup kvs.*1) as Hnd by (rewrite Hkvs; apply NoDup_fst_map_to_list).
  assert (list_to_map kvs = seqs) as Hmap.
  { rewrite <- (list_to_map_to_list seqs). by apply list_to_map_proper. }
  assert (default 0 (foldl raise_seq ∅ kvs !! sid) = default 0 (seqs !! sid)) as ->.
  { rewrite raise_seq_lookup, Hmap, lookup_empty by done. destruct (seqs !! sid) as [z|] eqn:E; [|done].
    specialize (Hseqs sid z E). simpl. lia. }
  rewrite map_union_empty.
  assert (0 <= default 0 (seqs !! sid) <= b) as Hz.
  { destruct (seqs !! sid) as [z|] eqn:E; [|simpl; lia]. by apply (Hseqs sid). }
  split; [done|].
  destruct (hist !! sid) as [l|] eqn:El; [|split; simpl; [lia|constructor..]].
  destruct (Hhist sid l El) as [[H1 H2 H3 H4] H5]. split; try done.
  simpl. rewrite Forall_forall in *. intros env Hin. specialize (H3 env Hin). specialize (H5 env Hin).
  lia.
Qed.

Lemma boot_hub_ok debug :
  hub_ok 0 (put the_notifier (Some NewWatcher) (boot debug : Hub Watcher)).
Proof.
  split; try done.
  - intros sid. simpl. rewrite !lookup_empty. split; [simpl; lia|].
    split; simpl; [lia|constructor..].
  - split; [apply Mailbox.NewStore_wf|]. by split; intros i.
Qed.

Lemma restore_ready debug b snap e :
  0 <= b -> snap_ok false b snap ->
  wp (restoreState snap) (fun _ h _ => hub_ok b h)
    (put the_notifier (Some NewWatcher) (boot debug : Hub Watcher)) e.
Proof.
  intros Hb [Hm Hh Hs Hbelow]. unfold restoreState, Session.Restore, RestoreState, Scratchpad.Restore.
  wps. apply (restore_mail_ok numbered).
  { split; [apply Mailbox.NewStore_wf|]. by split; intros i. }
  { intros k es Hk. by apply Hm in Hk. }
  intros mb e2 Hmb Hper. wps. apply wpA_range. intros kvs e3 Hkvs _. wps.
  split; [|done|exact Hmb|exact Hper]. simpl.
  apply (raise_seq_covers b _ (Persist.SeqNums snap)); [done..|]. intros sid l Hl.
  split; [by apply Hh|by apply Hbelow].
Qed.

(** Whatever a directory leads to, a process started on it is ready. *)
Lemma startup_ready cfg b fs e :
  0 <= b -> Persist.recoverable (state_ok false b) fs ->
  wp (startup_process cfg) (fun _ w _ => ready false b w) (new_process cfg fs) e.
Proof.
  intros Hb Hfs. assert (hub_ok b (hub (handler (new_process cfg fs)))) as Hboot.
  { destruct (boot_hub_ok (debug cfg)) as [Hl ? ? ?]. split; [|done..].
    eapply log_ok_mono; [exact Hl|lia]. }
  unfold startup_process, set. case_bool_decide; wps; [|by split].
  unfold Persist.New. wps. apply wpA_flip. intros [] e1 _; cbv iota; wps; [|by split].
  unfold load. wps. apply wpA_flip. intros [] e2 _; cbv iota; wps; [|by split].
  rewrite !put_get. change (get the_disk (new_process cfg fs)) with fs.
  destruct (Persist.Load fs) as [snap|] eqn:Hload; wps; [|by split].
  eapply wp_mono; [apply (restore_ready (debug cfg) b snap)|]; [done| |].
  - apply (Persist.recoverable_load (state_ok false b)) in Hfs. by rewrite Hload in Hfs.
  - intros u h e3 Hh. wps. by split.
Qed.

(** One life after another on the same directory: a process starts, runs for some steps of its
    goroutines, and dies with the directory as it is or as the machine's crash left it. No
    session is ended. [n] counts the steps of all lives. *)
Inductive lives : nat -> Persist.FS -> Persist.FS -> Prop :=
| lives_none fs : lives 0 fs fs
| lives_next m n cfg fs fs1 fs2 e w e1 P :
    lives m fs fs1 ->
    run (startup_process cfg) (new_process cfg fs1) e = (tt, w, e1) ->
    nsteps (pool_step (goroutine false)) n (mkPool w e1 []) P ->
    fs2 = disk (p_world P) \/ Persist.crash (disk (p_world P)) fs2 ->
    lives (m + n) fs fs2.

Lemma started_ready cfg b fs e w e1 :
  0 <= b -> Persist.recoverable (state_ok false b) fs ->
  run (startup_process cfg) (new_process cfg fs) e = (tt, w, e1) -> ready false b w.
Proof.
  intros Hb Hfs Hrun. pose proof (startup_ready cfg b fs e Hb Hfs) as H.
  unfold wp, wpA in H. by rewrite Hrun in H.
Qed.

Lemma lives_recoverable n fs fs' :
  lives n fs fs' -> Z.of_nat n <= maxInt64 -> Persist.recoverable (state_ok false 0) fs ->
  Persist.recoverable (state_ok false (Z.of_nat n)) fs'.
Proof.
  induction 1 as [fs|m n cfg fs fs1 fs2 e w e1 P _ IH Hrun Hsteps Hfs2]; intros Hn Hfs; [done|].
  assert (ready false (Z.of_nat m) w) as Hw by (apply (started_ready cfg _ fs1 e _ e1); [lia|apply IH; [lia|done]|done]).
  apply (process_runs false (Z.of_nat m)) in Hsteps as [_ Hd]; [|lia..|exact Hw].
  rewrite Nat2Z.inj_add. destruct Hfs2 as [->|Hcr]; [done|by eapply Persist.crash_recoverable].
Qed.

(** C4: The server survives its crashes. Start it on an empty data directory, let it run in any
    interleaving, stop it anywhere (mid-flush, mid-request, with the machine losing what was
    not synced), start it again on what is left, and so on any number of times, with any
    configuration, as long as no session is ended: in every state of every life each session's
    messages are numbered in strictly increasing order, none past the session's counter, so
    that no number is used twice in a history, and every mailbox and history keeps its bound. *)
Theorem server_survives n m cfg fs e w e1 P :
  lives n (Persist.mkFS ∅ [] []) fs ->
  run (startup_process cfg) (new_process cfg fs) e = (tt, w, e1) ->
  nsteps (pool_step (goroutine false)) m (mkPool w e1 []) P ->
  Z.of_nat (n + m) <= maxInt64 ->
  let h := hub (handler (p_world P)) in
  (forall sid, session_log_ok defaultMaxHistory sid (default 0 (seqNums h !! sid))
                 (default [] (history h !! sid))) /\
  forall k, (length (Mailbox.queue (mailboxes h) k) <= Z.to_nat mailboxMax)%nat.
Proof.
  intros Hlives Hrun Hsteps Hn.
  assert (Persist.recoverable (state_ok false (Z.of_nat n)) fs) as Hfs.
  { eapply lives_recoverable; [exact Hlives|lia|]. constructor; [|constructor]. by exists None. }
  assert (ready false (Z.of_nat n) w) as Hw by (apply (started_ready cfg _ fs e _ e1); [lia|done..]).
  apply (process_runs false (Z.of_nat n)) in Hsteps as [Hh _]; [|lia..|exact Hw].
  by eapply hub_ok_bounds.
Qed.
