(* ===== verification/Http.v ===== *)
(** * The HTTP client interface

    What the bridge and the CLI ask of [net/http]: [Do] sends a request and returns the
    response, or an error when the transport fails (an URL that [http.NewRequest] refuses is
    such an error too). The network is a state of its own; its instances are the server itself
    (file Net) and a script of outcomes ([Script], for the theorems that hold for any peer and
    for their witnesses). Bodies are the text on the wire. *)

From S2P Require Import Prelude Json JsonText.

#[local] Open Scope Z_scope.

Record HttpRequest := mkHttpRequest {
  h_method : string;
  h_url : string;
  h_auth : string;
  h_agent : string;
  h_ctype : string;
  h_body : option string;
}.

(** [h_text] is what [io.ReadAll] of the body returns. *)
Record HttpResponse := mkHttpResponse {
  h_status : Z;
  h_header : list (string * string);
  h_text : result string;
}.

(** [resp.Header.Get]. *)
Fixpoint header_get (name : string) (hs : list (string * string)) : string :=
  match hs with
  | [] => ""
  | (k, v) :: hs' => if bool_decide (lower k = lower name) then v else header_get name hs'
  end.

(** A stream ([GET /watch]): the status, what each read returns with the time since the one
    before, and the end: how long after the last read, and the error unless it is the end of
    the body. *)
Record HttpStream := mkHttpStream {
  s_status : Z;
  s_reads : list (Duration * string);
  s_end : Duration;
  s_error : option string;
}.

Class HttpClient (N : Type) := {
  Do : HttpRequest -> prog N (result HttpResponse);
  Open : HttpRequest -> prog N (result HttpStream);
}.

(** What every network promises: a request only lets time pass. *)
Class HttpClock (N : Type) `{!HttpClient N} : Prop := {
  Do_forward r : forward (Do r);
  Open_forward r : forward (Open r);
}.
#[export] Hint Resolve Do_forward Open_forward : go.

(** [json.NewDecoder(body).Decode] of a value: what follows it is ignored. *)
Definition decode_first (s : string) : option json := fst <$> read_value (S (2 * String.length s)) s.

Definition http_text (t : result string) : string := match t with Ok s => s | Err _ => "" end.

(** ** A scripted network

    The responses and streams it will give, in order, and the requests it has seen. *)
Record Script := mkScript {
  replies : list (result HttpResponse);
  streams : list (result HttpStream);
  seen : list HttpRequest;
}.

Definition next_reply (r : HttpRequest) : Atom Script (result HttpResponse) := fun s e =>
  match replies s with
  | [] => (Err "connection refused", mkScript [] (streams s) (seen s ++ [r]), e)
  | x :: xs => (x, mkScript xs (streams s) (seen s ++ [r]), e)
  end.
Definition next_stream (r : HttpRequest) : Atom Script (result HttpStream) := fun s e =>
  match streams s with
  | [] => (Err "connection refused", mkScript (replies s) [] (seen s ++ [r]), e)
  | x :: xs => (x, mkScript (replies s) xs (seen s ++ [r]), e)
  end.

#[export] Instance script_client : HttpClient Script := {
  Do r := ⟨lens_id⟩ next_reply r;
  Open r := ⟨lens_id⟩ next_stream r;
}.

#[export] Instance script_clock : HttpClock Script.
Proof.
  split; intros r; apply forward_atomically; intros s e; unfold wpA.
  - unfold next_reply. by destruct (replies s).
  - unfold next_stream. by destruct (streams s).
Qed.

Lemma script_Do_wp req x rest (Q : result HttpResponse -> Script -> Env -> Prop) s e :
  replies s = x :: rest -> Q x (mkScript rest (streams s) (seen s ++ [req])) e -> wp (Do req) Q s e.
Proof. intros Hr HQ. apply wp_atomically. unfold wpA, next_reply. cbn [get lens_id]. by rewrite Hr. Qed.
