(* ===== verification/Signal.v ===== *)
(** * internal/signal: wake-up signals over a Unix socket

    The peer (the host agent that listens on the socket) is a script: whether each dial and
    each write succeeds and what each read returns; [received] collects the signals it got.
    Every call is one section: the deadlines of the connection bound it. *)

From S2P Require Import Prelude Json JsonText GoAny.

#[local] Open Scope Z_scope.

Record Signal := mkSignal {
  Source : string;
  Action : string;
  Timestamp : Z;
  Channel : string;
  ChatID : string;
  Metadata : list (string * json);
}.

(** [json.Marshal]; the keys of the metadata literals below are in sorted order. *)
Definition Signal_json (s : Signal) : json :=
  obj [fld "source" (JStr (Source s)); fld "action" (JStr (Action s));
       fld_int "timestamp" (Timestamp s); fld_str "channel" (Channel s);
       fld_str "chat_id" (ChatID s);
       match Metadata s with [] => None | m => fld "metadata" (JObj m) end].

(** ** The peer *)
Inductive read_outcome :=
| Data (s : string)
| Timeout_
| Eof
| Broken (msg : string).

Record Peer := mkPeer {
  dials : list bool;
  writes : list bool;
  reads : list read_outcome;
  received : list json;
}.

Definition dial : Atom Peer bool := fun p e =>
  match dials p with
  | [] => (false, p, e)
  | b :: bs => (b, mkPeer bs (writes p) (reads p) (received p), e)
  end.
Definition write (j : json) : Atom Peer bool := fun p e =>
  match writes p with
  | true :: bs => (true, mkPeer (dials p) bs (reads p) (received p ++ [j]), e)
  | false :: bs => (false, mkPeer (dials p) bs (reads p) (received p), e)
  | [] => (false, p, e)
  end.
Definition read : Atom Peer read_outcome := fun p e =>
  match reads p with
  | [] => (Timeout_, p, e)
  | r :: rs => (r, mkPeer (dials p) (writes p) rs (received p), e)
  end.

(** [json.Unmarshal] into a [map[string]string]; null is the nil map. *)
Definition string_map (j : json) : option (list (string * string)) :=
  match j with
  | JNull => Some []
  | JObj kvs => make_map <$> mapM (fun '(k, v) => match v with
                                     | JStr s => Some (k, s)
                                     | JNull => Some (k, "")
                                     | _ => None
                                     end) kvs
  | _ => None
  end.

(** The rest of [SendToSocket] once connected: write the signal and read the reply. A read
    that times out means the signal was sent; a reply that is no map of strings is returned
    raw. *)
Definition transmit (sig : Signal) : prog Peer (result (list (string * string))) :=
  ok ← ⟨lens_id⟩ write (Signal_json sig);
  if negb ok then mret (Err "failed to write")
  else
    r ← ⟨lens_id⟩ read;
    match r with
    | Timeout_ => mret (Ok [("status", "sent")])
    | Eof => mret (Err "failed to read response: EOF")
    | Broken msg => mret (Err ("failed to read response: " +:+ msg))
    | Data s =>
        let buf := String.substring 0 1024 s in
        match Unmarshal buf ≫= string_map with
        | Some resp => mret (Ok resp)
        | None => mret (Ok [("raw", buf); ("status", "sent")])
        end
    end.

(** The signal as it is sent: with the time of sending when it carries none. *)
Definition stamped (t : Time) (sig : Signal) : Signal :=
  mkSignal (Source sig) (Action sig) (if bool_decide (Timestamp sig = 0) then t / millisecond
                                      else Timestamp sig) (Channel sig) (ChatID sig) (Metadata sig).

Definition SendToSocket (socketPath : string) (sig : Signal)
    : prog Peer (result (list (string * string))) :=
  ok ← ⟨lens_id⟩ dial;
  if negb ok then mret (Err ("failed to connect to " +:+ socketPath))
  else if bool_decide (Timestamp sig = 0) then t ← nowP; transmit (stamped t sig)
  else transmit sig.

(** [WaitForSocket], [fuel] rounds of its loop; [None] when it is still waiting. [cancelled]
    tells whether the context is done at the head of a round. *)
Fixpoint WaitForSocket (fuel : nat) (interval : Duration) : prog Peer (option (result unit)) :=
  let interval := if bool_decide (interval = 0) then 2 * second else interval in
  match fuel with
  | O => mret None
  | S fuel' =>
      cancelled ← ⟨lens_id⟩ flip;
      if (cancelled : bool) then mret (Some (Err "context canceled"))
      else
        ok ← ⟨lens_id⟩ dial;
        if (ok : bool) then mret (Some (Ok tt))
        else
          t ← nowP;
          ⟨lens_id⟩ sleep_until (t + interval) ;;
          WaitForSocket fuel' interval
  end.

(** [ReadAll], [fuel] reads of its loop: what was read, and the error that ended it. *)
Fixpoint ReadAll (fuel : nat) (acc : string) : prog Peer (option (string * option string)) :=
  match fuel with
  | O => mret None
  | S fuel' =>
      r ← ⟨lens_id⟩ read;
      match r with
      | Data s => if bool_decide (s = "") then mret (Some (acc, None)) else ReadAll fuel' (acc +:+ s)
      | Eof | Timeout_ => mret (Some (acc, None))
      | Broken msg => mret (Some (acc, Some msg))
      end
  end.

(** ** Specifications *)
Implicit Types (p : Peer) (e : Env).

(** [SendToSocket] delivers at most one signal, the one it was given with a timestamp. When it
    reports success the host has received it; when the dial or the write failed, nothing was
    delivered. Only when the host accepts the signal and then fails to answer can an error be
    reported for a signal that arrived. *)
Definition sent_ok (before after : list json) (j : json)
    (r : result (list (string * string))) : Prop :=
  (after = before /\ (exists msg, r = Err msg)) \/ after = before ++ [j].

Lemma transmit_wp sig (Q : result (list (string * string)) -> Peer -> Env -> Prop) p e :
  (forall r p', sent_ok (received p) (received p') (Signal_json sig) r -> Q r p' e) ->
  wp (transmit sig) Q p e.
Proof.
  intros HQ. unfold transmit. wps. unfold wpA at 1, write.
  destruct (writes p) as [|[] ws]; cbn [negb]; wps; try by (apply HQ; left; eauto).
  assert (forall r rs, Q r (mkPeer (dials p) ws rs (received p ++ [Signal_json sig])) e) as Hok.
  { intros r rs. apply HQ. by right. }
  unfold wpA at 1, read. simpl reads.
  destruct (reads p) as [|[s| | |msg] rs]; wps; try apply Hok.
  destruct (Unmarshal _ ≫= _); wps; apply Hok.
Qed.

Lemma SendToSocket_wp path sig (Q : result (list (string * string)) -> Peer -> Env -> Prop) p e :
  (forall r p' e' t, e ≼ e' -> clock e <= t <= clock e' ->
     sent_ok (received p) (received p') (Signal_json (stamped t sig)) r -> Q r p' e') ->
  wp (SendToSocket path sig) Q p e.
Proof.
  intros HQ. unfold SendToSocket. wps. unfold wpA at 1, dial.
  assert (forall p1 msg, received p1 = received p -> Q (Err msg) p1 e) as Hfail.
  { intros p1 msg Hr. apply (HQ _ _ _ (clock e)); [done|clock|left; eauto]. }
  destruct (dials p) as [|[] ds]; cbn [negb]; wps; try by apply Hfail.
  case_bool_decide as Ht.
  - wp_now e1 He1. apply transmit_wp. intros r p' Hs. by apply (HQ _ _ _ (clock e1)); [|clock|].
  - apply transmit_wp. intros r p' Hs. apply (HQ _ _ _ (clock e)); [done|clock|].
    unfold stamped. rewrite bool_decide_eq_false_2 by done. by destruct sig.
Qed.

(** Enough reads return everything up to the first end, time-out or error, in order. *)
Fixpoint chunks (rs : list read_outcome) : string :=
  match rs with
  | Data s :: rs' => if bool_decide (s = "") then "" else s +:+ chunks rs'
  | _ => ""
  end.

Lemma ReadAll_wp fuel acc p e :
  (length (reads p) < fuel)%nat ->
  wp (ReadAll fuel acc) (fun out p' e' => e' = e /\ received p' = received p /\
    exists err, out = Some (acc +:+ chunks (reads p), err)) p e.
Proof.
  revert acc p. induction fuel as [|fuel IH]; intros acc p Hf; [lia|]. cbn [ReadAll]. wps.
  unfold wpA at 1, read. destruct (reads p) as [|r rs] eqn:Hr; wps;
    [rewrite str_app_nil; by eauto|].
  destruct r as [s| | |msg]; cbn [chunks]; wps; try (rewrite str_app_nil; by eauto).
  case_bool_decide; wps; [rewrite str_app_nil; by eauto|].
  eapply wp_mono; [apply IH; simpl in *; lia|]. cbn [reads received].
  intros out p' e' (-> & Hrc & err & ->). rewrite string_app_assoc. eauto.
Qed.
