(* ===== verification/Mcp.v ===== *)
(** * internal/mcp: the JSON-RPC server the bridge runs over its standard streams

    [Server] is the registered tools with their handlers, fixed once it runs; [Io] is what its
    mutex guards: the declared signals and the lines written. The world is the state [S] the
    handlers work on, which holds the origin of the last tool call, beside the [Io]: a handler
    cannot write a response. Each request is a goroutine of its own. *)

From S2P Require Import Prelude Json JsonText GoAny Lines.

#[local] Open Scope Z_scope.

Definition ProtocolVersion : string := "2024-11-05".

Record jsonRPCRequest := mkRequest {
  ID : json;
  Method : string;
  Params : option RawMessage;
}.

Record rpcError := mkError { Code : Z; Message : string }.

Record jsonRPCResponse := mkResponse {
  resp_ID : json;
  Result : option RawMessage;
  Error : option rpcError;
}.

Definition rpcError_json (e : rpcError) : json :=
  obj [fld "code" (JInt (Code e)); fld "message" (JStr (Message e))].

(** A present result is written even when it is empty. *)
Definition jsonRPCResponse_json (r : jsonRPCResponse) : json :=
  obj [fld "jsonrpc" (JStr "2.0"); fld "id" (resp_ID r); fld_raw "result" (Result r);
       fld_raw "error" (rpcError_json <$> Error r)].

Record Tool := mkTool { Name : string; Description : string; InputSchema : json }.

Definition Tool_json (t : Tool) : json :=
  obj [fld "name" (JStr (Name t)); fld "description" (JStr (Description t));
       fld "inputSchema" (InputSchema t)].

Record SignalAction := mkSignalAction {
  sa_Name : string;
  sa_Description : string;
  sa_Response : string;
  Silent : bool;
}.

Definition SignalAction_json (s : SignalAction) : json :=
  obj [fld "name" (JStr (sa_Name s)); fld_str "description" (sa_Description s);
       fld_str "response" (sa_Response s); if Silent s then fld "silent" (JBool true) else None].

Definition ToolHandler (S : Type) : Type := args -> prog S (result string).

Record Server (S : Type) := mkServer {
  name : string;
  version : string;
  tools : list Tool;
  handlers : gmap string (ToolHandler S);
}.
Arguments mkServer {S} _ _ _ _.
Arguments name {S} _.
Arguments version {S} _.
Arguments tools {S} _.
Arguments handlers {S} _.

Record Io := mkIo {
  signals : list SignalAction;
  written : list jsonRPCResponse;
}.

Definition NewServer {S} (name version : string) : Server S := mkServer name version [] ∅.

(** The later of two handlers with one name is the one called; both stay listed. *)
Definition RegisterTool {S} (tool : Tool) (handler : ToolHandler S) (s : Server S) : Server S :=
  mkServer (name s) (version s) (tools s ++ [tool]) (<[Name tool := handler]> (handlers s)).

Definition RegisterSignal (sa : SignalAction) : Atom Io unit :=
  modify (fun io => mkIo (signals io ++ [sa]) (written io)).

(** The text on the output stream. *)
Definition output (io : Io) : string :=
  unlines ((fun r => Marshal (jsonRPCResponse_json r)) <$> written io).

Section Mcp.
Context {S : Type} (the_origin : Lens S (string * string)).
Abbreviation W := (S * Io)%type.
Definition the_io : Lens W Io := lens_snd.
Definition the_state : Lens W S := lens_fst.

Definition Origin : prog S (string * string) := ⟨the_origin⟩ gets id.

Definition write (v : jsonRPCResponse) : prog W unit :=
  ⟨the_io⟩ modify (fun io => mkIo (signals io) (written io ++ [v])).

Definition sendResult (id_ : json) (res : json) : prog W unit :=
  write (mkResponse id_ (Some res) None).
Definition sendError (id_ : json) (code : Z) (message : string) : prog W unit :=
  write (mkResponse id_ None (Some (mkError code message))).

(** The parameters of a tool call, as the anonymous struct decodes them: a name, arguments that
    may be nil, and the origin when there is one; [None] is a decoding error. *)
Definition dec_args (acc : args) (j : json) : option args :=
  match j with
  | JNull => Some []
  | JObj kvs => if floats_ok j then
                  Some (foldl (fun m kv => insert_key kv.1 (into_any kv.2) m) acc kvs)
                else None
  | _ => None
  end.
Definition dec_meta (acc : option (string * string)) (j : json) : option (option (string * string)) :=
  let '(ch0, id0) := default ("", "") acc in
  match j with
  | JNull => Some None
  | JObj kvs =>
      ch ← string_field_from ch0 "channel" kvs; cid ← string_field_from id0 "chat_id" kvs;
      Some (Some (ch, cid))
  | _ => None
  end.

Definition call_params (p : option RawMessage)
    : option (string * args * option (string * string)) :=
  kvs ← p ≫= body_fields;
  nm ← string_field "name" kvs; a ← field_from dec_args [] "arguments" kvs;
  m ← field_from dec_meta None "_meta" kvs;
  Some (nm, a, m).

Definition handler_of (s : Server S) (nm : string) : option (ToolHandler S) := handlers s !! nm.

Definition handleRequest (s : Server S) (req : jsonRPCRequest) : prog W unit :=
  if bool_decide (Method req = "initialize") then
    sigs ← ⟨the_io⟩ gets signals;
    sendResult (ID req) (obj
      [fld "capabilities" (JObj [("tools", JObj [])]);
       fld "protocolVersion" (JStr ProtocolVersion);
       fld "serverInfo" (JObj [("name", JStr (name s)); ("version", JStr (version s))]);
       match sigs with
       | [] => None
       | _ => fld "signals" (JObj [("actions", JArr (SignalAction_json <$> sigs))])
       end])
  else if bool_decide (Method req = "notifications/initialized") then mret tt
  else if bool_decide (Method req = "ping") then sendResult (ID req) (JObj [])
  else if bool_decide (Method req = "tools/list") then
    sendResult (ID req) (JObj [("tools", JArr (Tool_json <$> tools s))])
  else if bool_decide (Method req = "tools/call") then
    match call_params (Params req) with
    | None => sendError (ID req) (-32602) "invalid params"
    | Some (nm, arguments, meta) =>
        match meta with
        | Some o => ⟨lens_comp the_state the_origin⟩ modify (fun _ => o)
        | None => mret tt
        end ;;
        match handler_of s nm with
        | None => sendError (ID req) (-32601) ("unknown tool: " +:+ nm)
        | Some handler =>
            res ← ⟪the_state⟫ handler arguments;
            match res with
            | Err msg => sendError (ID req) (-32000) msg
            | Ok text => sendResult (ID req)
                (JObj [("content", JArr [JObj [("text", JStr text); ("type", JStr "text")]])])
            end
        end
    end
  else sendError (ID req) (-32601) ("method not found: " +:+ Method req).

(** *** [RunWith] *)
Definition scanner_max : Z := 1024 * 1024.
Definition shutdownGrace : Duration := 2 * second.

(** What a line asks for: nothing when it is empty, spells no request, or is a notification. *)
Definition request_of (line : string) : option jsonRPCRequest :=
  if bool_decide (line = "") then None
  else
    kvs ← Unmarshal line ≫= body_fields;
    _ ← string_field "jsonrpc" kvs; m ← string_field "method" kvs;
    match raw_field "id" kvs with
    | None | Some JNull => None
    | Some id_ => Some (mkRequest id_ m (raw_field "params" kvs))
    end.

(** ** One answer per request, under every interleaving

    [owes ids p]: whatever the other goroutines do, [p] will write responses to exactly the
    requests [ids] (up to order), and no section of it takes back a response. *)
Fixpoint owes {A} (ids : list json) (p : prog W A) : Prop :=
  match p with
  | Ret _ => ids = []
  | Act a k => forall w e, wpA a (fun b w' _ => exists rs ids',
      written w'.2 = written w.2 ++ rs /\ ids ≡ₚ (resp_ID <$> rs) ++ ids' /\ owes ids' (k b)) w e
  end.

Lemma owes_bind {A B} ids (p : prog W A) (f : A -> prog W B) :
  owes [] p -> (forall x, owes ids (f x)) -> owes ids (p ≫= f).
Proof.
  unfold mbind, prog_bind. intros Hp Hf. enough (forall i, owes i p -> i = [] ->
    owes ids (prog_bind_ f p)) by eauto.
  clear Hp. induction p as [x|C a k IH]; intros i Hp Hi; simpl in *; [auto|]. subst.
  intros w e. eapply wpA_mono; [by apply Hp|]. intros b w' e' (rs & ids' & Hw & Hi & Hk). simpl in *.
  apply Permutation_nil_l in Hi. symmetry in Hi. apply app_eq_nil in Hi as [->%fmap_nil_inv ->].
  exists [], ids. split; [done|]. split; [done|]. by eapply IH.
Qed.

(** Programs of the handlers' state write nothing. *)
Lemma owes_state {A} (p : prog S A) : owes [] (⟪the_state⟫ p).
Proof.
  induction p as [x|B a k IH]; simpl; [done|]. intros [x io] e. unfold wpA, zoom. simpl.
  destruct (a x e) as [[b x'] e']. exists [], []. by rewrite app_nil_r.
Qed.

Lemma owes_write r : owes [resp_ID r] (write r).
Proof.
  intros [x io] e. apply wpA_zoom, wpA_modify. exists [r], []. by rewrite app_nil_r.
Qed.

(** The IDs a request will be answered under. *)
Definition answered (req : jsonRPCRequest) : list json :=
  if bool_decide (Method req = "notifications/initialized") then [] else [ID req].

Lemma handleRequest_owes s req : owes (answered req) (handleRequest s req).
Proof.
  destruct (decide (Method req = "notifications/initialized")) as [Hn|Hn].
  { unfold handleRequest, answered. rewrite Hn. done. }
  assert (answered req = [ID req]) as -> by (unfold answered; by rewrite bool_decide_eq_false_2).
  unfold handleRequest, sendResult, sendError. case_bool_decide.
  { apply owes_bind; [|intros; apply owes_write].
    intros [x io] e. apply wpA_zoom, wpA_gets. exists [], []. by rewrite app_nil_r. }
  rewrite (bool_decide_eq_false_2 (Method req = "notifications/initialized")) by done.
  case_bool_decide; [apply owes_write|].
  case_bool_decide; [apply owes_write|]. case_bool_decide; [|apply owes_write].
  destruct (call_params (Params req)) as [[[nm a] meta]|]; [|apply owes_write].
  apply owes_bind.
  { destruct meta as [o|]; [|done]. intros [x io] e. apply wpA_zoom, wpA_modify.
    exists [], []. by rewrite app_nil_r. }
  intros _. destruct (handler_of s nm) as [h|]; [|apply owes_write].
  apply owes_bind; [apply owes_state|]. intros [text|msg]; apply owes_write.
Qed.

(** ** What a line asks for *)
(** A request as a host writes it. *)
Definition jsonRPCRequest_json (req : jsonRPCRequest) : json :=
  obj [fld "jsonrpc" (JStr "2.0"); fld "id" (ID req); fld "method" (JStr (Method req));
       fld_raw "params" (Params req)].

Lemma request_of_text req :
  spellable (ID req) -> (forall p, Params req = Some p -> spellable p) -> ID req <> JNull ->
  request_of (Marshal (jsonRPCRequest_json req)) =
  Some (mkRequest (retyped (ID req)) (Method req) (retyped <$> Params req)).
Proof.
  intros Hid Hp Hn. unfold request_of. rewrite bool_decide_eq_false_2 by done.
  rewrite Unmarshal_Marshal.
  - destruct req as [id_ m [p|]]; cbn -[retyped]; simpl in Hn; by destruct id_.
  - destruct req as [id_ m [p|]]; cbn; constructor; repeat (constructor; simpl; auto).
Qed.

(** A request a host may send: JSON throughout, an ID, a method that is answered. *)
Definition sendable (req : jsonRPCRequest) : Prop :=
  spellable (ID req) /\ (forall p, Params req = Some p -> spellable p) /\ ID req <> JNull /\
  Z.of_nat (String.length (Marshal (jsonRPCRequest_json req))) < scanner_max.

Definition received_as (req : jsonRPCRequest) : jsonRPCRequest :=
  mkRequest (retyped (ID req)) (Method req) (retyped <$> Params req).

Lemma spellable_request req :
  spellable (ID req) -> (forall p, Params req = Some p -> spellable p) -> spellable (jsonRPCRequest_json req).
Proof.
  intros Hi Hp. apply spellable_obj. repeat constructor; [done|]. destruct (Params req); simpl; auto.
Qed.

(** What a request is answered with, when it cannot be served. *)
Definition refusal (s : Server S) (req : jsonRPCRequest) : option (Z * string) :=
  let m := Method req in
  if bool_decide (m ∈ ["initialize"; "notifications/initialized"; "ping"; "tools/list"]) then None
  else if bool_decide (m = "tools/call") then
    match call_params (Params req) with
    | None => Some (-32602, "invalid params")
    | Some (nm, _, _) => if bool_decide (handler_of s nm = None)
                         then Some (-32601, "unknown tool: " +:+ nm) else None
    end
  else Some (-32601, "method not found: " +:+ m).

(** C30: The errors of the protocol: a method the server does not have and a tool nobody registered
    get -32601, parameters that do not decode -32602, and a tool that fails -32000 with the
    tool's message, each under the id of the request; a tool that succeeds gets its text as the
    one content item of a result. A request that is refused changes no tool state but the
    recorded origin. *)
Theorem mcp_errors s req x io e :
  match refusal s req with
  | Some (code, msg) =>
      wp (handleRequest s req) (fun _ w' _ =>
        written w'.2 = written io ++ [mkResponse (ID req) None (Some (mkError code msg))] /\
        exists o, w'.1 = put the_origin o x) (x, io) e
  | None => Method req = "tools/call" -> exists nm arguments meta handler,
      call_params (Params req) = Some (nm, arguments, meta) /\ handler_of s nm = Some handler /\
      forall res x' e', run (handler arguments) (match meta with Some o => put the_origin o x | None => x end) e = (res, x', e') ->
      wp (handleRequest s req) (fun _ w' e2 => w'.1 = x' /\ e2 = e' /\
        written w'.2 = written io ++ [match res with
          | Err msg => mkResponse (ID req) None (Some (mkError (-32000) msg))
          | Ok text => mkResponse (ID req) (Some (JObj [("content",
                         JArr [JObj [("text", JStr text); ("type", JStr "text")]])])) None
          end]) (x, io) e
  end.
Proof.
  unfold refusal, handleRequest, sendError, sendResult. destruct (decide (Method req = "tools/call")) as [Hm|Hm].
  - assert (Method req ∉ ["initialize"; "notifications/initialized"; "ping"; "tools/list"]) as Hin
      by (rewrite Hm, !elem_of_cons, elem_of_nil; naive_solver).
    rewrite (bool_decide_eq_false_2 (Method req ∈ _)), (bool_decide_eq_true_2 (Method req = "tools/call")) by done.
    rewrite !elem_of_cons in Hin.
    rewrite (bool_decide_eq_false_2 (Method req = "initialize")),
      (bool_decide_eq_false_2 (Method req = "notifications/initialized")),
      (bool_decide_eq_false_2 (Method req = "ping")), (bool_decide_eq_false_2 (Method req = "tools/list")) by tauto.
    destruct (call_params (Params req)) as [[[nm a] meta]|] eqn:Hp; cbv beta iota.
    + case_bool_decide as Hh.
      * rewrite Hh. destruct meta as [o|]; wps; (split; [done|]); [by exists o|].
        exists (get the_origin x). by rewrite put_get.
      * intros _. destruct (handler_of s nm) as [h|] eqn:Hn; [|done]. exists nm, a, meta, h.
        split; [done|]. split; [done|]. intros res x' e' Hrun.
        assert (forall y, run (h a) y e = (res, x', e') ->
          wp (⟪the_state⟫ h a ≫= (fun res : result string => match res with
              | Ok text => write (mkResponse (ID req) (Some (JObj [("content",
                             JArr [JObj [("text", JStr text); ("type", JStr "text")]])])) None)
              | Err msg => write (mkResponse (ID req) None (Some (mkError (-32000) msg)))
              end))
            (fun _ w' e2 => w'.1 = x' /\ e2 = e' /\ written w'.2 = written io ++ [match res with
              | Ok text => mkResponse (ID req) (Some (JObj [("content",
                             JArr [JObj [("text", JStr text); ("type", JStr "text")]])])) None
              | Err msg => mkResponse (ID req) None (Some (mkError (-32000) msg))
              end]) (y, io) e) as Hcall.
        { intros y Hy. wps. unfold wp at 1, wpA at 1. change (get the_state (y, io)) with y. rewrite Hy. destruct res; by wps. }
        apply wp_bind. destruct meta as [o|].
        -- apply wp_atomically, wpA_modify. exact (Hcall _ Hrun).
        -- apply wp_ret. exact (Hcall _ Hrun).
    + wps. split; [done|]. exists (get the_origin x). by rewrite put_get.
  - rewrite (bool_decide_eq_false_2 (Method req = "tools/call")) by done.
    case_bool_decide as Hin; [by intros|]. rewrite !elem_of_cons in Hin.
    rewrite !bool_decide_eq_false_2 by tauto. wps. split; [done|]. exists (get the_origin x). by rewrite put_get.
Qed.
End Mcp.
