(* ===== verification/McpRun.v ===== *)
(** * internal/mcp: [RunWith] and the goroutines it starts

    The reading loop as it runs: it counts a request in the wait group, starts a goroutine for
    it and reads on; at the end of the input it waits for the goroutines, at most for
    [shutdownGrace]. A goroutine that was started has its request in [started] until the
    runtime first schedules it ([worker]); [inFlight] is the wait group's counter. The requests'
    handlers are [Mcp.handleRequest]. *)

From S2P Require Import Prelude Json JsonText GoAny Lines Mcp.

#[local] Open Scope Z_scope.

(** How [RunWith] returned: with an error, with [done] closed, or after the grace period. *)
Inductive outcome := Failed (msg : string) | AllDone | GraceOver.

Record Run := mkRun {
  started : list jsonRPCRequest;
  inFlight : nat;
  ended : option outcome;
}.

Definition newRun : Run := mkRun [] 0 None.

Section Run.
Context {S : Type} (the_origin : Lens S (string * string)).
Abbreviation M := (S * Io)%type.
Abbreviation W := (M * Run)%type.

Definition the_mcp : Lens W M := lens_fst.
Definition the_run : Lens W Run := lens_snd.

Definition Add : Atom Run unit :=
  modify (fun r => mkRun (started r) (Datatypes.S (inFlight r)) (ended r)).
Definition Done : Atom Run unit :=
  modify (fun r => mkRun (started r) (pred (inFlight r)) (ended r)).
Definition go_ (req : jsonRPCRequest) : Atom Run unit :=
  modify (fun r => mkRun (started r ++ [req]) (inFlight r) (ended r)).
Definition return_ (o : outcome) : Atom Run unit :=
  modify (fun r => mkRun (started r) (inFlight r) (Some o)).

(** The loop over the lines of the input. *)
Fixpoint scan_loop (lines : list string) (too_long : bool) : prog W (result unit) :=
  done ← ⟨lens_id⟩ flip;
  if (done : bool) then mret (Err "context canceled")
  else
    match lines with
    | [] => mret (if too_long then Err "bufio.Scanner: token too long" else Ok tt)
    | line :: lines' =>
        match request_of line with
        | Some req => ⟨the_run⟩ Add ;; ⟨the_run⟩ go_ req
        | None => mret tt
        end ;;
        scan_loop lines' too_long
    end.

(** [select] on [done], which closes once the counter is zero, and the timer; then [RunWith]
    returns. [false] while neither is ready. *)
Definition select_done (until : Time) : Atom Run bool :=
  n ← gets inFlight;
  c ← now;
  if until <=? c then
    coin ← flip;
    return_ (if (coin : bool) && (n =? 0)%nat then AllDone else GraceOver) ;; mret true
  else if (n =? 0)%nat then return_ AllDone ;; mret true
  else mret false.

(** The wait at the end, looked at [fuel] times. *)
Fixpoint await_handlers (fuel : nat) (until : Time) : prog W unit :=
  match fuel with
  | O => mret tt
  | Datatypes.S fuel' =>
      over ← ⟨the_run⟩ select_done until;
      if (over : bool) then mret tt else await_handlers fuel' until
  end.

Definition RunWith (fuel : nat) (input : string) : prog W unit :=
  let '(lines, too_long) := scan scanner_max input in
  r ← scan_loop lines too_long;
  match r with
  | Err msg => ⟨the_run⟩ return_ (Failed msg)
  | Ok _ => t ← nowP; await_handlers fuel (t + shutdownGrace)
  end.

(** A started goroutine is scheduled for the first time. *)
Definition take_started (i : nat) : Atom Run (option jsonRPCRequest) := fun r e =>
  match started r !! i with
  | Some req => (Some req, mkRun (delete i (started r)) (inFlight r) (ended r), e)
  | None => (None, r, e)
  end.

Definition worker (s : Server S) (i : nat) : prog W unit :=
  req ← ⟨the_run⟩ take_started i;
  match req with
  | None => mret tt
  | Some req => ⟪the_mcp⟫ handleRequest the_origin s req ;; ⟨the_run⟩ Done
  end.

Definition goroutine (s : Server S) (p : prog W unit) : Prop := exists i, p = worker s i.
End Run.

(** ** What the goroutines owe *)

(** The stage of a goroutine: [RunWith] with the requests it has started goroutines for (between
    them, with one counted and not started yet, or over), a worker with the ids it still owes,
    or one that has nothing in hand. *)
Inductive phase := Scanning | Counted | Over.
Inductive Stage :=
| Reading (sent : list jsonRPCRequest) (ph : phase)
| Working (ids : list json)
| Idle.

Definition owed (st : Stage) : list json := match st with Working ids => ids | _ => [] end.
Definition busy (st : Stage) : list unit := match st with Working _ => [tt] | _ => [] end.

Section Answers.
Context {S : Type} (the_origin : Lens S (string * string)) (s : Server S).
Context (reqs : list jsonRPCRequest) (w0 : list jsonRPCResponse).
Abbreviation M := (S * Io)%type.
Abbreviation W := (M * Run)%type.
Implicit Types (w : W) (e : Env) (g : list Stage).

(** [sent] has been started so far; what they are to be answered with is written, still to be
    written by a goroutine at work, or by one that was not scheduled yet. *)
Record run_ok (n : nat) g w e : Prop := mkRunOk {
  ro_main : exists sent ph rs, g !! 0%nat = Some (Reading sent ph) /\ sent `prefix_of` reqs /\
    written w.1.2 = w0 ++ rs /\
    mjoin (answered <$> sent) ≡ₚ
      (resp_ID <$> rs) ++ mjoin (answered <$> started w.2) ++ (g ≫= owed) /\
    inFlight w.2 = (length (started w.2) + length (g ≫= busy) + (if ph is Counted then 1 else 0))%nat /\
    (ph <> Over -> ended w.2 = None) /\
    (ended w.2 = Some AllDone -> sent = reqs /\ inFlight w.2 = 0%nat);
}.

Lemma run_ok_same n n' g w w' e e' :
  written w'.1.2 = written w.1.2 -> w'.2 = w.2 -> run_ok n g w e -> run_ok n' g w' e'.
Proof. intros Hw Hr [H]. split. by rewrite Hw, Hr. Qed.

(** One goroutine moves on; the others keep what they hold. *)
Lemma stages_move g i x y : g !! i = Some x ->
  (g ≫= owed ≡ₚ owed x ++ (delete i g ≫= owed)) /\ (<[i := y]> g ≫= owed ≡ₚ owed y ++ (delete i g ≫= owed)) /\
  length (g ≫= busy) = (length (busy x) + length (delete i g ≫= busy))%nat /\
  length (<[i := y]> g ≫= busy) = (length (busy y) + length (delete i g ≫= busy))%nat.
Proof.
  intros Hi. split; [by apply bind_split|]. split; [by eapply bind_insert|].
  split; rewrite <- length_app; apply Permutation_length; [by apply bind_split|by eapply bind_insert].
Qed.

Definition reading (st : Stage) : Prop := exists sent ph, st = Reading sent ph.

Lemma main_elsewhere g i x y st :
  g !! 0%nat = Some st -> reading st -> g !! i = Some x -> ~ reading x -> <[i := y]> g !! 0%nat = Some st.
Proof. intros H0 Hr Hi Hx. rewrite list_lookup_insert_ne; [done|]. intros ->. by simplify_eq. Qed.

Ltac not_reading := by intros (? & ? & ?).

Context (lim : nat).

(** A worker writes what it owes. *)
Lemma staged_owes {A} i ids (p : prog M A) :
  owes ids p -> staged lim run_ok (the_mcp (S := S)) i (Working ids) p (fun _ st => st = Working []).
Proof.
  revert ids. induction p as [x|B a k IH]; cbn [owes staged]; intros ids Hp; [by subst|].
  intros n g w e _ Hg [(sent & mph & rs & H0 & Hpre & Hw & Hperm & Hcnt & Hov & Hend)].
  eapply wpA_mono; [apply Hp|]. intros b w' e' (rs' & ids' & Hw' & Hids & Hk).
  exists (Working ids'). split; [|by apply IH]. split. exists sent, mph, (rs ++ rs').
  destruct (stages_move g i (Working ids) (Working ids') Hg) as (Ho & Ho' & Hb & Hb').
  split; [apply (main_elsewhere _ _ _ _ _ H0 ltac:(by do 2 eexists) Hg); not_reading|].
  split; [done|]. cbn [put the_mcp lens_fst fst snd get] in *. split; [by rewrite Hw', Hw, app_assoc|].
  split; [|split; [rewrite Hb'; rewrite Hb in Hcnt; exact Hcnt|by split]].
  rewrite Hperm, Ho, Ho', fmap_app. cbn [owed]. rewrite Hids. solve_Permutation.
Qed.

Lemma run_section {A} i st (a : Atom Run A) (P : A -> Stage -> Prop) :
  (forall n g x r e, g !! i = Some st -> run_ok n g (x, r) e ->
     wpA a (fun b r' e' => exists st', run_ok (1 + n) (<[i := st']> g) (x, r') e' /\ P b st') r e) ->
  staged lim run_ok lens_id i st (⟨the_run⟩ a) P.
Proof.
  intros H. apply (staged_section lim run_ok lens_id). intros n g [x r] e _ Hg HI.
  by apply (H n g x r e).
Qed.

Lemma worker_staged j i : staged lim run_ok lens_id i Idle (worker the_origin s j) (fun _ st => st = Idle).
Proof.
  unfold worker. eapply (staged_bind _ _ lens_id _ _ _ _
    (fun req st => match req with None => st = Idle | Some r => st = Working (answered r) end)).
  - apply run_section. intros n g x r e Hg [(sent & mph & rs & H0 & Hpre & Hw & Hperm & Hcnt & Hov & Hend)].
    unfold take_started, wpA. destruct (started r !! j) as [req|] eqn:Hj.
    + exists (Working (answered req)). split; [|done]. split. exists sent, mph, rs. cbn [fst snd] in *.
      destruct (stages_move g i Idle (Working (answered req)) Hg) as (Ho & Ho' & Hb & Hb').
      split; [apply (main_elsewhere _ _ _ _ _ H0 ltac:(by do 2 eexists) Hg); not_reading|].
      split; [done|]. split; [done|]. cbn [started inFlight ended]. split; [|split; [|by split]].
      * rewrite Hperm, Ho, Ho'. cbn [owed].
        rewrite (fmap_Permutation answered _ _ (delete_Permutation (started r) j req Hj)).
        cbn [fmap list_fmap mjoin list_join]. solve_Permutation.
      * rewrite Hb'. rewrite Hb in Hcnt. cbn [busy length] in *.
        pose proof (Permutation_length (delete_Permutation (started r) j req Hj)) as Hl. simpl in Hl. lia.
    + exists Idle. split; [|done]. rewrite list_insert_id by done.
      by split; exists sent, mph, rs.
  - intros [req|] st ->; [|done]. eapply staged_bind.
    + apply (staged_within lim run_ok (the_mcp (S := S))), staged_owes, handleRequest_owes.
    + intros _ st ->. apply run_section. intros n g x r e Hg [(sent & mph & rs & H0 & Hpre & Hw & Hperm & Hcnt & Hov & Hend)].
      unfold Done. wps. exists Idle. split; [|done]. split. exists sent, mph, rs. cbn [fst snd] in *.
      destruct (stages_move g i (Working []) Idle Hg) as (Ho & Ho' & Hb & Hb').
      split; [apply (main_elsewhere _ _ _ _ _ H0 ltac:(by do 2 eexists) Hg); not_reading|].
      split; [done|]. split; [done|]. cbn [started inFlight ended].
      rewrite Hb' . rewrite Hb in Hcnt. cbn [busy length] in *. split; [by rewrite Hperm, Ho, Ho'|].
      split; [lia|]. split; [done|]. intros Hd. destruct (Hend Hd) as [? ?]. split; [done|lia].
Qed.

Lemma staged_env {A} st (a : Atom W A) (P : A -> Prop) :
  (forall w e, wpA a (fun b w' _ => w' = w /\ P b) w e) ->
  staged lim run_ok lens_id 0 st (⟨lens_id⟩ a) (fun b st' => P b /\ st' = st).
Proof.
  intros H. apply (staged_section lim run_ok lens_id). intros n g w e _ Hg HI. cbn [get put lens_id].
  eapply wpA_mono; [apply H|]. intros b w' e' [-> Hb]. exists st. rewrite list_insert_id by done.
  split; [|done]. by eapply run_ok_same.
Qed.

(** A section of [RunWith] itself. *)
Lemma reading_section {A} sent ph (a : Atom Run A) (P : A -> Stage -> Prop) :
  ph <> Over ->
  (forall (x : M) g r e rs, sent `prefix_of` reqs -> written x.2 = w0 ++ rs ->
     mjoin (answered <$> sent) ≡ₚ (resp_ID <$> rs) ++ mjoin (answered <$> started r) ++ (g ≫= owed) ->
     inFlight r = (length (started r) + length (g ≫= busy) + (if ph is Counted then 1 else 0))%nat ->
     ended r = None ->
     wpA a (fun b r' _ => exists sent' ph', P b (Reading sent' ph') /\ sent' `prefix_of` reqs /\
       mjoin (answered <$> sent') ≡ₚ (resp_ID <$> rs) ++ mjoin (answered <$> started r') ++ (g ≫= owed) /\
       inFlight r' = (length (started r') + length (g ≫= busy) + (if ph' is Counted then 1 else 0))%nat /\
       (ph' <> Over -> ended r' = None) /\
       (ended r' = Some AllDone -> sent' = reqs /\ inFlight r' = 0%nat)) r e) ->
  staged lim run_ok lens_id 0 (Reading sent ph) (⟨the_run⟩ a) P.
Proof.
  intros Hph H. apply run_section. intros n g x r e Hg [(sent0 & ph0 & rs & H0 & Hpre & Hw & Hperm & Hcnt & Hov & Hend)].
  rewrite Hg in H0. simplify_eq. cbn [fst snd] in *.
  eapply wpA_mono; [by apply (H x g r e rs); auto|]. intros b r' e' (sent' & ph' & HP & Hpre' & Hperm' & Hcnt' & Hov' & Hend').
  exists (Reading sent' ph'). split; [|done]. split. exists sent', ph', rs.
  destruct (stages_move g 0%nat _ (Reading sent' ph') Hg) as (Ho & Ho' & Hb & Hb').
  cbn [owed busy length app Nat.add] in *. cbn [fst snd].
  split; [by apply list_lookup_insert_eq; eapply lookup_lt_Some|]. split; [done|]. split; [done|].
  split; [by rewrite Ho', <- Ho|]. split; [by rewrite Hb', <- Hb|]. by split.
Qed.

Lemma scan_staged lines too_long sent : reqs = sent ++ omap request_of lines ->
  staged lim run_ok lens_id 0 (Reading sent Scanning) (scan_loop lines too_long)
    (fun r st => exists sent', st = Reading sent' Scanning /\ (r = Ok tt -> sent' = reqs)).
Proof.
  revert sent. induction lines as [|line lines IH]; intros sent Hreqs; cbn [scan_loop].
  - eapply staged_bind; [apply (staged_env _ _ (fun _ => True)); intros w e; by apply wpA_flip|].
    intros [] st [_ ->]; exists sent; (split; [done|]); [done|]. intros _. by rewrite Hreqs, app_nil_r.
  - eapply staged_bind; [apply (staged_env _ _ (fun _ => True)); intros w e; by apply wpA_flip|].
    intros [] st [_ ->]; [by exists sent|]. cbn [omap list_omap] in Hreqs.
    destruct (request_of line) as [req|]; [|by apply IH].
    assert (reqs = (sent ++ [req]) ++ omap request_of lines) as Hreqs' by (by rewrite <- app_assoc).
    apply (staged_bind _ _ lens_id _ _ _ _ (fun _ st => st = Reading (sent ++ [req]) Scanning)).
    + eapply (staged_bind _ _ lens_id _ _ _ _ (fun _ st => st = Reading sent Counted)).
      * apply reading_section; [done|]. intros x g r e rs Hpre Hw Hperm Hcnt Hno. unfold Add. wps.
        exists sent, Counted. cbn [started inFlight ended]. split; [done|]. split; [by eexists|].
        split; [done|]. split; [simpl; lia|]. split; [done|]. by rewrite Hno.
      * intros _ st ->. apply reading_section; [done|]. intros x g r e rs Hpre Hw Hperm Hcnt Hno. unfold go_. wps.
        exists (sent ++ [req]), Scanning. cbn [started inFlight ended]. split; [done|].
        split; [by eexists|]. rewrite !fmap_app, !join_app, length_app.
        split; [|split; [simpl; lia|split; [done|by rewrite Hno]]].
        rewrite Hperm. cbn [fmap list_fmap mjoin list_join]. rewrite app_nil_r. solve_Permutation.
    + intros _ st ->. by apply IH.
Qed.

Lemma await_staged fuel until :
  staged lim run_ok lens_id 0 (Reading reqs Scanning) (await_handlers fuel until)
    (fun _ st => exists ph, st = Reading reqs ph).
Proof.
  induction fuel as [|fuel IH]; cbn [await_handlers]; [by eexists|].
  apply (staged_bind _ _ lens_id _ _ _ _ (fun over st => st = Reading reqs (if over : bool then Over else Scanning))).
  - apply reading_section; [done|]. intros x g r e rs Hpre Hw Hperm Hcnt Hno. unfold select_done, return_. wps.
    assert (forall (o : outcome), (o = AllDone -> inFlight r = 0%nat) ->
      exists sent' ph', Reading sent' ph' = Reading reqs Over /\ sent' `prefix_of` reqs /\
       mjoin (answered <$> sent') ≡ₚ (resp_ID <$> rs) ++ mjoin (answered <$> started r) ++ (g ≫= owed) /\
       inFlight r = (length (started r) + length (g ≫= busy) + (if ph' is Counted then 1 else 0))%nat /\
       (ph' <> Over -> Some o = None) /\ (Some o = Some AllDone -> sent' = reqs /\ inFlight r = 0%nat)) as Hover.
    { intros o Ho. exists reqs, Over. split; [done|]. split; [done|]. split; [done|]. split; [done|].
      split; [done|]. intros [= ->]. split; [done|by apply Ho]. }
    wp_now e1 He1. case_match; wps.
    + apply wpA_flip. intros coin e2 _. wps. cbn [started inFlight ended].
      apply Hover. destruct coin, (Nat.eqb_spec (inFlight r) 0); done.
    + destruct (Nat.eqb_spec (inFlight r) 0); wps; cbn [started inFlight ended]; [by apply Hover|].
      exists reqs, Scanning. split; [done|]. split; [done|]. split; [done|]. split; [done|].
      split; [done|]. by rewrite Hno.
  - intros [] st ->; [by exists Over|apply IH].
Qed.

Lemma RunWith_staged fuel input :
  reqs = omap request_of (scan scanner_max input).1 ->
  staged lim run_ok lens_id 0 (Reading [] Scanning) (RunWith fuel input) (fun _ st => reading st).
Proof.
  intros Hreqs. unfold RunWith. destruct (scan scanner_max input) as [lines too_long].
  eapply staged_bind; [by apply scan_staged|]. intros [[]|msg] st (sent & -> & Hall).
  - rewrite Hall by done. eapply staged_bind.
    + apply (staged_read lim run_ok lens_id _ _ now (fun _ st => st = Reading reqs Scanning)).
      * intros n g w e e' _. by apply run_ok_same.
      * intros n g w e _ _. by apply wpA_now.
    + intros t st ->. eapply staged_mono; [apply await_staged|]. intros _ st [ph ->]. by do 2 eexists.
  - apply reading_section; [done|]. intros x g r e rs Hpre Hw Hperm Hcnt Hno. unfold return_. wps.
    exists sent, Over. cbn [started inFlight ended]. split; [by do 2 eexists|].
    by repeat split.
Qed.


Lemma not_busy g : length (g ≫= busy) = 0%nat -> g ≫= owed = [].
Proof.
  induction g as [|st g IH]; [done|]. change ((st :: g) ≫= busy) with (busy st ++ (g ≫= busy)).
  change ((st :: g) ≫= owed) with (owed st ++ (g ≫= owed)). rewrite length_app.
  destruct st; simpl; [apply IH|lia|apply IH].
Qed.

Lemma run_steps fuel input x io e n P :
  reqs = omap request_of (scan scanner_max input).1 -> w0 = written io -> lim = n ->
  nsteps (pool_step (goroutine the_origin s)) n (mkPool (x, io, newRun) e [RunWith fuel input]) P ->
  exists g, run_ok n g (p_world P) (p_env P) /\
    all_staged lim run_ok (p_threads P) (fun _ st => st = Idle \/ reading st) g.
Proof.
  intros Hreqs Hw0 Hlim Hn.
  destruct (pool_staged lim run_ok (goroutine the_origin s) Idle (fun _ st => st = Idle \/ reading st)
    (mkPool (x, io, newRun) e [RunWith fuel input]) P n 0 [Reading [] Scanning]) as (g & HI & Hts); [| |exact Hn|lia| | |].
  - intros m g w e' _ [(sent & ph & rs & H0 & Hpre & Hw & Hperm & Hcnt & Hrest)].
    split. exists sent, ph, rs. rewrite !bind_app, length_app. cbn. rewrite app_nil_r, Nat.add_0_r.
    split; [by apply lookup_app_l_Some|]. by repeat split; try apply Hrest.
  - intros i p [j ->]. eapply staged_mono; [apply worker_staged|]. by left.
  - split. exists [], Scanning, []. cbn. rewrite app_nil_r. repeat split; try done. apply prefix_nil.
  - split; [done|]. intros [|i] p ph Hp Hph; [|done]. injection Hp as <-. injection Hph as <-.
    eapply staged_mono; [by apply RunWith_staged|]. by right.
  - exists g. by rewrite Nat.add_0_r in HI.
Qed.

End Answers.

(** C20: The server answers what it is asked while it runs, once. In any interleaving of the reading
    loop and the goroutines it starts, the responses written are under the ids of the requests
    read so far, which are the input's in order, each that expects an answer answered at most
    once and nothing else written; when every goroutine has run to its end, exactly once. When
    the input has ended and the server returns because its goroutines are done, and not because
    its two seconds of grace are over, every request of the input has been answered. *)
Theorem run_answers_once {S} (the_origin : Lens S (string * string)) (s : Server S) fuel input x io e n P :
  let reqs := omap request_of (scan scanner_max input).1 in
  nsteps (pool_step (goroutine the_origin s)) n (mkPool (x, io, newRun) e [RunWith fuel input]) P ->
  exists rs sent left, written (p_world P).1.2 = written io ++ rs /\ sent `prefix_of` reqs /\
    mjoin (answered <$> sent) ≡ₚ (resp_ID <$> rs) ++ left /\
    (Forall (fun p => p = Ret tt) (p_threads P) -> started (p_world P).2 = [] -> left = []) /\
    (ended (p_world P).2 = Some AllDone -> sent = reqs /\ left = []).
Proof.
  intros reqs Hn.
  destruct (run_steps the_origin s reqs (written io) n fuel input x io e n P eq_refl eq_refl eq_refl Hn)
    as (g & [(sent & ph & rs & H0 & Hpre & Hw & Hperm & Hcnt & _ & Hend)] & Hts).
  exists rs, sent, (mjoin (answered <$> started (p_world P).2) ++ (g ≫= owed)).
  split; [done|]. split; [done|]. split; [done|]. split.
  - intros Hall ->. cbn [fmap list_fmap mjoin list_join app]. apply not_busy.
    pose proof (all_staged_finished _ _ _ _ _ Hts Hall) as Hq. clear -Hq.
    induction Hq as [|st g [->|(? & ? & ->)] _ IH]; [done|exact IH|exact IH].
  - intros Ha. destruct (Hend Ha) as [-> Hz]. split; [done|]. rewrite Hz in Hcnt.
    assert (started (p_world P).2 = []) as -> by (apply nil_length_inv; lia).
    cbn [fmap list_fmap mjoin list_join app]. apply not_busy. lia.
Qed.

(** ** What the loop dispatches *)

(** A line of the input: a request, or one that asks for nothing (an empty line, text that is no
    request, a notification). *)
Inductive input_line := Asks (req : jsonRPCRequest) | Noise (text : string).

Definition line_text (l : input_line) : string :=
  match l with Asks req => Marshal (jsonRPCRequest_json req) | Noise text => text end.
Definition asked_by (l : input_line) : option jsonRPCRequest :=
  match l with Asks req => Some req | Noise _ => None end.
Definition readable_line (l : input_line) : Prop :=
  match l with
  | Asks req => sendable req
  | Noise text => one_line text = true /\ Z.of_nat (String.length text) < scanner_max /\ request_of text = None
  end.

Lemma readable_fits ls : Forall readable_line ls ->
  Forall (fun l => one_line l = true /\ Z.of_nat (String.length l) < scanner_max) (line_text <$> ls).
Proof.
  intros H. apply Forall_fmap. eapply Forall_impl; [exact H|]. intros [req|text]; cbn [readable_line line_text]; [|by intros (H1 & H2 & _)].
  intros (Hi & Hp & Hn & Hl). split; [by apply one_line_Marshal, spellable_request|done].
Qed.

Lemma readable_asks ls : Forall readable_line ls ->
  omap request_of (line_text <$> ls) = received_as <$> omap asked_by ls.
Proof.
  induction 1 as [|[req|text] ls Hl _ IH]; [done|..]; cbn [fmap list_fmap omap list_omap line_text asked_by].
  - destruct Hl as (Hi & Hp & Hn & _). rewrite request_of_text by done. cbn [fmap list_fmap]. by f_equal.
  - destruct Hl as (_ & _ & ->). exact IH.
Qed.

Section Dispatch.
Context {S : Type}.
Abbreviation W := ((S * Io) * Run)%type.
Implicit Types (w : W) (e : Env).

(** [w'] is [w] with goroutines for [reqs] started. *)
Definition dispatched (reqs : list jsonRPCRequest) w w' : Prop :=
  w'.1 = w.1 /\ started w'.2 = started w.2 ++ reqs /\ inFlight w'.2 = (inFlight w.2 + length reqs)%nat.

Lemma scan_loop_wp lines long w e cs :
  coins e = replicate (Datatypes.S (length lines)) false ++ cs ->
  wp (scan_loop (S := S) lines long) (fun r w' _ =>
    dispatched (omap request_of lines) w w' /\ ended w'.2 = ended w.2 /\
    r = if long then Err "bufio.Scanner: token too long" else Ok tt) w e.
Proof.
  revert w e. induction lines as [|l lines IH]; intros w e Hc; cbn [scan_loop]; wps;
    unfold wpA at 1, flip; rewrite Hc; cbn [replicate length app]; wps.
  { unfold dispatched. cbn [omap list_omap length]. rewrite app_nil_r. split_and!; [done..|lia|done|done]. }
  cbn [omap list_omap]. destruct (request_of l) as [req|]; [|wps; by apply IH].
  destruct w as [m r]. unfold Add, go_. wps. cbn [get put the_run lens_snd fst snd].
  eapply wp_mono; [by apply IH|]. intros x w' e' ((H1 & H2 & H3) & H4 & H5).
  unfold dispatched. cbn [started inFlight ended fst snd length] in *. rewrite H2, H3, <- app_assoc.
  split_and!; [done..|lia|done|done].
Qed.

Lemma await_handlers_wp fuel until w e :
  wp (await_handlers (S := S) fuel until) (fun _ w' _ => dispatched [] w w' /\
    (ended w'.2 = ended w.2 \/ (ended w'.2 = Some AllDone /\ inFlight w.2 = 0%nat) \/
     ended w'.2 = Some GraceOver)) w e.
Proof.
  assert (forall w, dispatched [] w w) as Hrefl.
  { intros w1. unfold dispatched. rewrite app_nil_r. split_and!; [done..|cbn; lia]. }
  assert (forall w o, dispatched [] w (w.1, mkRun (started w.2) (inFlight w.2) (Some o))) as Hend.
  { intros w1 o. unfold dispatched. cbn. rewrite app_nil_r. split_and!; [done..|lia]. }
  revert e. induction fuel as [|fuel IH]; intros e; cbn [await_handlers]; wps.
  { split; [apply Hrefl|by left]. }
  destruct w as [m r]. unfold select_done, return_. wps. apply wpA_now. intros e1 _.
  case_match; wps.
  - apply wpA_flip. intros coin e2 _. wps. cbn [get put the_run lens_snd fst snd]. split; [apply Hend|].
    cbn [ended snd]. destruct coin, (Nat.eqb_spec (inFlight r) 0); cbn [andb]; auto.
  - cbn [get the_run lens_snd snd]. destruct (Nat.eqb_spec (inFlight r) 0); wps; cbn [get put the_run lens_snd fst snd].
    + split; [apply (Hend (m, r) AllDone)|]. cbn [ended snd]. auto.
    + apply IH.
Qed.

(** C31: What the host writes on standard input, in whatever pieces it arrives and whatever stands
    between its requests (empty lines, lines that spell no request, notifications), is
    dispatched request for request, in order, one request per line, with its id, method and
    parameters as they were sent: while the context is not done the reading loop counts each of
    them in the wait group and starts a goroutine for it, and nothing else; the end of the
    input ends the loop without an error. *)
Theorem mcp_requests_read fuel ls chunks w e cs :
  Forall readable_line ls ->
  concat_str chunks = unlines (line_text <$> ls) ->
  coins e = replicate (Datatypes.S (length ls)) false ++ cs ->
  scan_chunks scanner_max "" chunks = scan scanner_max (concat_str chunks) /\
  wp (RunWith (S := S) fuel (concat_str chunks)) (fun _ w' _ =>
    w'.1 = w.1 /\
    started w'.2 = started w.2 ++ (received_as <$> omap asked_by ls) /\
    inFlight w'.2 = (inFlight w.2 + length (omap asked_by ls))%nat /\
    (ended w'.2 = ended w.2 \/ (ended w'.2 = Some AllDone /\ inFlight w'.2 = 0%nat) \/
     ended w'.2 = Some GraceOver)) w e.
Proof.
  intros Hs Hc Hcoins. split; [by apply scan_chunks_scan|]. unfold RunWith. rewrite Hc.
  rewrite scan_unlines by by apply readable_fits. wps.
  eapply wp_mono; [apply (scan_loop_wp _ _ _ _ cs); by rewrite length_fmap|].
  intros r w1 e1 ((H1 & H2 & H3) & H4 & ->). rewrite readable_asks in H2, H3 by done. rewrite length_fmap in H3.
  wp_now e2 He2. eapply wp_mono; [apply await_handlers_wp|].
  intros _ w' e' ((H5 & H6 & H7) & H8). rewrite app_nil_r in H6. cbn [length] in H7.
  rewrite H5, H6, H7, H1, H2, H3. split_and!; [done..|lia|].
  destruct H8 as [-> |[[-> H8]| -> ]]; [by left|right; left; split; [done|lia]|by right; right].
Qed.
End Dispatch.

