(* ===== verification/Bridge.v ===== *)
(** * cmd/agentchat-mcp-bridge/main.go: the bridge's connection to the server

    [Config] is what the environment fixes, [State] what the bridge's mutex and the package's
    atomics guard: the registration, the watch token, the wake-up channel and the watermark.
    The world of a bridge is that state, the origin the MCP server records, a network any
    [HttpClient] models and the signal socket's peer.

    A request runs between sections, so other goroutines of the bridge may run meanwhile. The
    source holds the bridge's mutex across the registration request; the model lets other
    sections in there, which only adds interleavings. *)

From Stdlib Require Import Strings.Ascii.
From S2P Require Import Prelude Json JsonText GoAny Encoding Lines Http Signal Protocol.
From S2P Require Filestore.

#[local] Open Scope Z_scope.

Record Config := mkConfig {
  httpBase : string;
  sessionID : string;
  psk : string;
  agentID : string;
  capabilities : slice string;
  debugLog : bool;
  signalSocketPath : string;
  mcpID : string;
}.

Record pendingSignalInfo := mkPending {
  TriggerType : string;
  FromAgent : string;
  p_Sequence : Z;
}.

Record State := mkState {
  initialized : bool;
  watchToken : string;
  signalCh : bool;
  lastSeq : Z;
  lastConnectSignal : Time;
  pendingSignal : option pendingSignalInfo;
}.

(** The bridge as it starts. *)
Definition newState : State := mkState false "" false 0 0 None.

(** ** Configuration: [main]'s reading of its environment *)
Fixpoint firstNonEmpty (vals : list string) : string :=
  match vals with
  | [] => ""
  | v :: vals' => if bool_decide (v <> "") then v else firstNonEmpty vals'
  end.

Definition envOrDefault (env : string -> string) (key def : string) : string :=
  if bool_decide (env key = "") then def else env key.

(** [None]: the process exits. *)
Definition requireEnv (env : string -> string) (key : string) : option string :=
  if bool_decide (env key = "") then None else Some (env key).

Definition normalizeURL (serverURL : string) : string :=
  let b := TrimSuffix (TrimSuffix serverURL "/") "/ws" in
  if HasPrefix b "wss://" then "https://" +:+ TrimPrefix b "wss://"
  else if HasPrefix b "ws://" then "http://" +:+ TrimPrefix b "ws://"
  else b.

Definition configure (env : string -> string) : option Config :=
  serverURL ← requireEnv env "AGENTCHAT_URL";
  sid ← requireEnv env "AGENTCHAT_SESSION_ID";
  key ← requireEnv env "AGENTCHAT_PSK";
  aid ← requireEnv env "AGENTCHAT_AGENT_ID";
  let capsStr := envOrDefault env "AGENTCHAT_CAPABILITIES" "" in
  let debugStr := envOrDefault env "AGENTCHAT_DEBUG" "" in
  let debug := bool_decide (lower debugStr = "true") || bool_decide (debugStr = "1") in
  let sock := firstNonEmpty ((fun k => envOrDefault env k "") <$>
    ["JOIST_SIGNAL_SOCKET"; "GINO_SIGNAL_SOCKET"; "PICOBOT_SIGNAL_SOCKET"; "AGENTCHAT_SIGNAL_SOCKET"]) in
  let mcp := firstNonEmpty ((fun k => envOrDefault env k "") <$> ["JOIST_MCP_ID"; "GINO_MCP_ID"]) in
  let caps := if bool_decide (capsStr = "") then None
              else Some (TrimSpace <$> Split ","%char capsStr) in
  Some (mkConfig (normalizeURL serverURL) sid key aid caps debug sock mcp).

(** ** The world *)
Record World (N : Type) := mkWorld {
  st : State;
  origin : string * string;
  net : N;
  peer : Peer;
}.
Arguments mkWorld {N} _ _ _ _.
Arguments st {N} _.
Arguments origin {N} _.
Arguments net {N} _.
Arguments peer {N} _.

Ltac world_lens f g := refine (mkLens f g _ _ _); [done|by intros []|done].

Definition the_st {N} : Lens (World N) State.
Proof. world_lens (@st N) (fun x (w : World N) => @mkWorld N x (origin w) (net w) (peer w)). Defined.
Definition the_origin {N} : Lens (World N) (string * string).
Proof. world_lens (@origin N) (fun x (w : World N) => @mkWorld N (st w) x (net w) (peer w)). Defined.
Definition the_net {N} : Lens (World N) N.
Proof. world_lens (@net N) (fun x (w : World N) => @mkWorld N (st w) (origin w) x (peer w)). Defined.
Definition the_peer {N} : Lens (World N) Peer.
Proof. world_lens (@peer N) (fun x (w : World N) => @mkWorld N (st w) (origin w) (net w) x). Defined.

Definition with_registration (init : bool) (tok : string) (s : State) : State :=
  mkState init tok (signalCh s) (lastSeq s) (lastConnectSignal s) (pendingSignal s).
Definition with_lastSeq (n : Z) (s : State) : State :=
  mkState (initialized s) (watchToken s) (signalCh s) n (lastConnectSignal s) (pendingSignal s).
Definition with_pending (p : option pendingSignalInfo) (s : State) : State :=
  mkState (initialized s) (watchToken s) (signalCh s) (lastSeq s) (lastConnectSignal s) p.
Definition with_signalCh (b : bool) (s : State) : State :=
  mkState (initialized s) (watchToken s) b (lastSeq s) (lastConnectSignal s) (pendingSignal s).
Definition with_connectSignal (t : Time) (s : State) : State :=
  mkState (initialized s) (watchToken s) (signalCh s) (lastSeq s) t (pendingSignal s).

Definition StatusOK : Z := 200.
Definition StatusCreated : Z := 201.
Definition StatusUnauthorized : Z := 401.
Definition StatusForbidden : Z := 403.

Section Bridge.
Context {N : Type} `{!HttpClient N} (b : Config).
Abbreviation W := (World N).

(** ** Requests *)
Definition doRequestNow (method path : string) (body : option string)
    : prog W (result HttpResponse) :=
  ⟪the_net⟫ Do (mkHttpRequest method (httpBase b +:+ path) ("Bearer " +:+ psk b) (agentID b)
                  (match body with Some _ => "application/json" | None => "" end) body).

Definition register_body : string :=
  Marshal (JObj [("capabilities", match capabilities b with
                                  | None => JNull
                                  | Some l => JArr (JStr <$> l)
                                  end)]).

Definition session_path (rest : string) : string := "/sessions/" +:+ sessionID b +:+ rest.

(** The watch token of a registration's reply; a reply that does not decode gives none. *)
Definition reply_token (t : result string) : string :=
  match decode_first (http_text t) ≫= body_fields with
  | Some kvs => default "" (string_field "watch_token" kvs)
  | None => ""
  end.

Definition status_text (code : Z) (body : result string) : string :=
  "(" +:+ itoa code +:+ "): " +:+ http_text body.

Definition ensureInit : prog W (result unit) :=
  init ← ⟨the_st⟩ gets initialized;
  if (init : bool) then mret (Ok tt)
  else
    resp ← doRequestNow "POST" (session_path "/register") (Some register_body);
    match resp with
    | Err msg => mret (Err ("register failed: " +:+ msg))
    | Ok r =>
        if bool_decide (h_status r <> StatusOK)
        then mret (Err ("register failed " +:+ status_text (h_status r) (h_text r)))
        else
          ⟨the_st⟩ modify (with_registration true (reply_token (h_text r))) ;;
          mret (Ok tt)
    end.

Definition getWatchToken : prog W string := ⟨the_st⟩ gets watchToken.

Definition setWatchToken (token : string) : prog W unit :=
  if bool_decide (token = "") then mret tt
  else ⟨the_st⟩ modify (fun s => with_registration (initialized s) token s).

Definition invalidateRegistration : prog W unit := ⟨the_st⟩ modify (with_registration false "").

Definition doRequest (method path : string) (body : option string)
    : prog W (result HttpResponse) :=
  init ← ensureInit;
  match init with
  | Err msg => mret (Err msg)
  | Ok _ =>
      resp ← doRequestNow method path body;
      match resp with
      | Err msg => invalidateRegistration ;; mret (Err msg)
      | Ok r => mret (Ok r)
      end
  end.

(** [json.Unmarshal] into an [any] with the error ignored: nil when nothing was spelled. *)
Definition any_of (text : string) : json :=
  match Unmarshal text with Some j => into_any j | None => JNull end.

(** A nil payload sends no body. *)
Definition doJSON (method path : string) (payload : option json) : prog W (result json) :=
  resp ← doRequest method path (Marshal <$> payload);
  match resp with
  | Err msg => mret (Err msg)
  | Ok r =>
      match h_text r with
      | Err msg => mret (Err ("read response: " +:+ msg))
      | Ok text =>
          (if bool_decide (h_status r = StatusUnauthorized \/ h_status r = StatusForbidden)
           then invalidateRegistration else mret tt) ;;
          if 400 <=? h_status r
          then mret (Err ("server error " +:+ status_text (h_status r) (Ok text)))
          else mret (Ok (any_of text))
      end
  end.

(** ** Receiving *)
Definition isBroadcast (to : string) : bool := bool_decide (to = "" \/ to = "*").

Definition tagDelivery (m : args) : string :=
  let to_of (x : args) := as_string (index x "to") in
  let env_to := as_map (index m "envelope") ≫= to_of in
  if bool_decide (isBroadcast <$> env_to = Some true) then "broadcast"
  else if bool_decide (isBroadcast <$> to_of m = Some true) then "broadcast"
  else "direct".

Definition tagMessage (m : args) : args :=
  let m := insert_key "_source" (JStr "mailbox") m in
  insert_key "_delivery" (JStr (tagDelivery m)) m.

Definition tagMessages (msgs : list args) : list args := tagMessage <$> msgs.

(** The maps among the messages of a reply. *)
Definition reply_messages (res : json) : list args :=
  match as_map res ≫= (fun m => as_slice (index m "messages")) with
  | Some raw => omap as_map raw
  | None => []
  end.

Definition mailbox_path (wait : Duration) (from msgType : string) : string :=
  session_path ("/mailbox?wait=" +:+ itoa (Z.quot wait second)) +:+
  (if bool_decide (from = "") then "" else "&from=" +:+ QueryEscape from) +:+
  (if bool_decide (msgType = "") then "" else "&type=" +:+ QueryEscape msgType).

Definition pollMailbox (wait : Duration) (from msgType : string) : prog W (result (list args)) :=
  res ← doJSON "GET" (mailbox_path wait from msgType) None;
  match res with
  | Err msg => mret (Err ("fetch mailbox: " +:+ msg))
  | Ok j => mret (Ok (tagMessages (reply_messages j)))
  end.

Definition peekMailbox : prog W (result Z) :=
  res ← doJSON "GET" (session_path "/mailbox/peek") None;
  match res with
  | Err msg => mret (Err msg)
  | Ok j =>
      match as_map j with
      | None => mret (Err "unexpected peek response shape")
      | Some m => mret (Ok (match as_float (index m "count") with
                            | Some f => float_to_int64 f
                            | None => 0
                            end))
      end
  end.

(** [getPendingSignalInfo] (watcher.go): take the pending metadata. *)
Definition getPendingSignalInfo : prog W (option pendingSignalInfo) :=
  ⟨the_st⟩ (p ← gets pendingSignal; modify (with_pending None) ;; mret p).

(** The mark on the message that triggered the last wake-up. *)
Definition mark_trigger (info : pendingSignalInfo) (m : args) : args :=
  match as_map (index m "envelope") ≫= (fun env => as_float (index env "sequence")) with
  | Some f => if bool_decide (float_to_int64 f = p_Sequence info)
              then insert_key "_signal_trigger" (JBool true) m else m
  | None => m
  end.

Definition mark_triggers (info : option pendingSignalInfo) (msgs : list args) : list args :=
  match info with Some i => mark_trigger i <$> msgs | None => msgs end.

Definition drainAll : prog W (result (list args)) :=
  msgs ← pollMailbox 0 "" "";
  match msgs with
  | Err msg => mret (Err msg)
  | Ok msgs =>
      info ← getPendingSignalInfo;
      mret (Ok (mark_triggers info msgs))
  end.

(** ** Identity *)
Definition signalSource : string := if bool_decide (mcpID b <> "") then mcpID b else "agentchat".
Definition originTarget : prog W (string * string) := ⟨the_origin⟩ gets id.
End Bridge.

(** ** Arguments of tool calls *)
Definition sha256Hex (bs : list byte) : string := Filestore.sha256Hex bs.

(** [None] is no error. *)
Definition verifyContent (data : list byte) (expectedSize : Z) (expectedSha : string)
    : option string :=
  if (0 <? expectedSize) && bool_decide (Z.of_nat (length data) <> expectedSize) then
    Some ("content appears truncated or padded: decoded " +:+ itoa (Z.of_nat (length data)) +:+
          " bytes but expected_size is " +:+ itoa expectedSize +:+
          " — re-send the complete content_base64")
  else if bool_decide (expectedSha <> "" /\ lower (sha256Hex data) <> lower expectedSha) then
    Some ("content_sha256 mismatch: decoded content hashes to " +:+ sha256Hex data +:+
          ", expected " +:+ expectedSha +:+
          " — the base64 was altered or truncated before reaching the bridge")
  else None.

(** [requireString] also returns the arguments, whose payload it may have changed. *)
Definition requireString (a : args) (key tool : string) : result string * args :=
  let v := index a key in
  match s ← as_string v; if bool_decide (s <> "") then Some s else None with
  | Some s => (Ok s, a)
  | None =>
      match as_map (index a "payload") ≫= (fun pm =>
              pv ← as_string (index pm key);
              if bool_decide (pv <> "") then Some (pm, pv) else None) with
      | Some (pm, pv) => (Ok pv, insert_key "payload" (JObj (delete_key key pm)) a)
      | None =>
          let raw := match v with JNull => "absent" | _ => Marshal v end in
          (Err (key +:+ " is required (tool " +:+ tool +:+ " received args [" +:+ Join a.*1 " " +:+
                "] with " +:+ key +:+ "=" +:+ raw +:+
                ") — 'to' and similar addresses are top-level arguments, not fields inside payload"),
           a)
      end
  end.

Definition maybeString (v : json) : string :=
  match v with JNull => "" | _ => match as_string v with Some s => s | None => format_v v end end.
Definition stringifyArg (v : json) : string :=
  match v with JNull => "" | _ => match as_string v with Some s => s | None => format_v v end end.
