(* ===== verification/BridgeTools.v ===== *)
(** * cmd/agentchat-mcp-bridge/main.go: the tools

    [registerTools]: each tool with its description, its input schema and its handler, over
    any network. A schema is the JSON the tool list shows, its keys in sorted order. *)

From Stdlib Require Import Strings.Ascii.
From S2P Require Import Prelude Json JsonText GoAny Encoding Lines Http Signal Protocol Mcp Bridge.

#[local] Open Scope Z_scope.

(** ** Input schemas *)
Definition prop (type_ description : string) : json :=
  JObj [("description", JStr description); ("type", JStr type_)].
Definition any_prop (description : string) : json := JObj [("description", JStr description)].

Definition schema (props : list (string * json)) (required : list string) : json :=
  obj [fld "properties" (JObj (make_map props));
       match required with [] => None | _ => fld "required" (JArr (JStr <$> required)) end;
       fld "type" (JStr "object")].
Definition empty : json := schema [] [].

Section Tools.
Context {N : Type} `{!HttpClient N} (b : Config).
Abbreviation W := (World N).
Abbreviation tool := (Tool * ToolHandler W)%type.

Definition fail {A} (msg : string) : prog W (result A) := mret (Err msg).

(** Send a payload map; what the server answers is only checked for errors. *)
Definition post (path : string) (payload : json) (reply : string) : prog W (result string) :=
  res ← doJSON b "POST" (session_path b path) (Some payload);
  match res with Err msg => fail msg | Ok _ => mret (Ok reply) end.

(** A request whose answer is handed on as JSON text. *)
Definition ask (method path : string) (payload : option json) : prog W (result string) :=
  res ← doJSON b method path payload;
  match res with Err msg => fail msg | Ok j => mret (Ok (Marshal j)) end.

(** ** Messages *)
Definition send_message : tool :=
  (mkTool "send_message"
     "Send a direct message to another agent in the session. Arguments: 'to' is a TOP-LEVEL argument (sibling of payload, never inside it); 'payload' is the message object. The remote agent may take time to process and respond; when the reply arrives you will be woken via a check_messages signal — call receive_messages then."
     (schema [("to", prop "string" "Target agent ID"); ("payload", prop "object" "Message payload")]
        ["to"; "payload"]),
   fun a =>
     let '(to, a) := requireString a "to" "send_message" in
     match to with
     | Err msg => fail msg
     | Ok to => post "/messages" (JObj [("payload", index a "payload"); ("to", JStr to);
                                        ("type", JStr "message")]) "sent"
     end).

Definition broadcast : tool :=
  (mkTool "broadcast"
     "Broadcast a message to all agents in the session. Remote agents may take time to respond; use receive_messages to collect replies."
     (schema [("payload", prop "object" "Message payload")] ["payload"]),
   fun a => post "/broadcast" (JObj [("payload", index a "payload"); ("type", JStr "broadcast")]) "sent").

Definition receive_messages : tool :=
  (mkTool "receive_messages"
     "Return all queued incoming messages (direct messages, broadcasts, task messages, notifications) since the last call. Returns immediately with whatever is available. New mail also triggers a check_messages signal when wake-up signals are active."
     empty,
   fun _ =>
     msgs ← drainAll b;
     match msgs with
     | Err msg => fail msg
     | Ok msgs => mret (Ok (Marshal (JArr (JObj <$> msgs))))
     end).

Definition list_agents : tool :=
  (mkTool "list_agents" "List all agents currently connected to the session" empty,
   fun _ => ask "GET" (session_path b "/agents") None).

Definition get_leader : tool :=
  (mkTool "get_leader" "Get the current leader agent ID for the session" empty,
   fun _ => ask "GET" (session_path b "/leader") None).

Definition transfer_leadership : tool :=
  (mkTool "transfer_leadership"
     "Transfer session leadership to another agent (only current leader can do this)"
     (schema [("new_leader_id", prop "string" "Agent ID to transfer leadership to")] ["new_leader_id"]),
   fun a =>
     let '(to, a) := requireString a "new_leader_id" "transfer_leadership" in
     match to with
     | Err msg => fail msg
     | Ok newLeader => post "/leader/transfer" (JObj [("new_leader_id", JStr newLeader)])
                         ("leadership transferred to " +:+ newLeader)
     end).

(** ** Scratchpad *)
Definition scratchpad_set : tool :=
  (mkTool "scratchpad_set"
     "Set a key-value pair in the shared session scratchpad. Other agents are notified of the change."
     (schema [("key", prop "string" "Key name"); ("value", any_prop "Value to store (any JSON type)")]
        ["key"; "value"]),
   fun a =>
     let key := stringifyArg (index a "key") in
     if bool_decide (key = "") then fail "key is required"
     else ask "POST" (session_path b "/scratchpad/set")
            (Some (JObj [("key", JStr key); ("value", index a "value")]))).

(** The two tools that take a key. *)
Definition with_key (path : string) (a : args) : prog W (result string) :=
  let key := stringifyArg (index a "key") in
  if bool_decide (key = "") then fail "key is required"
  else ask "POST" (session_path b path) (Some (JObj [("key", JStr key)])).

Definition scratchpad_get : tool :=
  (mkTool "scratchpad_get" "Get a value from the shared session scratchpad by key"
     (schema [("key", prop "string" "Key name")] ["key"]),
   with_key "/scratchpad/get").

Definition scratchpad_delete : tool :=
  (mkTool "scratchpad_delete" "Delete a key from the shared session scratchpad"
     (schema [("key", prop "string" "Key name")] ["key"]),
   with_key "/scratchpad/delete").

Definition scratchpad_list : tool :=
  (mkTool "scratchpad_list" "List all key-value entries in the shared session scratchpad" empty,
   fun _ => ask "GET" (session_path b "/scratchpad") None).

(** ** Tasks *)

(** A task message: the task's fields, sent as a payload of type [ty]. *)
Definition send_task (ty : string) (fields : args -> list (string * json)) (a : args)
    : prog W (result string) :=
  let '(to, a) := requireString a "to" ty in
  match to with
  | Err msg => fail msg
  | Ok to => post "/messages" (JObj [("payload", JObj (fields a)); ("to", JStr to);
                                     ("type", JStr ty)]) "sent"
  end.

Definition task_assign : tool :=
  (mkTool "task_assign"
     "Assign a task to another agent in the session. The remote agent may take minutes to complete the task; the reply arrives via a check_messages wake-up — call receive_messages then."
     (schema [("to", prop "string" "Target agent ID"); ("task_id", prop "string" "Unique task identifier");
              ("description", prop "string" "Task description");
              ("parameters", any_prop "Optional task parameters (any JSON)")]
        ["to"; "task_id"; "description"]),
   send_task "task_assign" (fun a =>
     [("description", index a "description"); ("parameters", index a "parameters");
      ("task_id", index a "task_id")])).

Definition task_status : tool :=
  (mkTool "task_status" "Update the status of a task and notify the relevant agent."
     (schema [("to", prop "string" "Target agent ID"); ("task_id", prop "string" "Task identifier");
              ("status", prop "string" "Status (e.g. in_progress, completed, failed)");
              ("detail", prop "string" "Optional detail about the status")]
        ["to"; "task_id"; "status"]),
   send_task "task_status" (fun a =>
     [("detail", index a "detail"); ("status", index a "status"); ("task_id", index a "task_id")])).

Definition task_result : tool :=
  (mkTool "task_result" "Return the result of a completed task to the requesting agent."
     (schema [("to", prop "string" "Target agent ID"); ("task_id", prop "string" "Task identifier");
              ("result", any_prop "Task result (any JSON)")]
        ["to"; "task_id"; "result"]),
   send_task "task_result" (fun a =>
     [("result", index a "result"); ("task_id", index a "task_id")])).

(** ** History *)

(** A positive number argument as a query parameter. *)
Definition number_param (a : args) (key : string) : list string :=
  match as_float (index a key) with
  | Some f => if 0 <? f.1 then [key +:+ "=" +:+ itoa (float_to_int64 f)] else []
  | None => []
  end.

Definition request_history : tool :=
  (mkTool "request_history"
     "Request message history from the session, optionally after a given sequence number for catch-up"
     (schema [("after_sequence", prop "integer" "Only return messages after this sequence number");
              ("limit", prop "integer" "Maximum messages to return (default 100)")] []),
   fun a =>
     let params := number_param a "after_sequence" ++ number_param a "limit" in
     let path := session_path b "/history" in
     ask "GET" (match params with [] => path | _ => path +:+ "?" +:+ Join params "&" end) None).

(** ** Files *)
Definition opt_string (a : args) (key : string) : string := default "" (as_string (index a key)).

(** [NewRequest] and [client.Do], outside [doRequest]: no invalidation on failure. *)
Definition file_request (method path ctype : string) (body : option string)
    : prog W (result HttpResponse) :=
  ⟪the_net⟫ Do (mkHttpRequest method (httpBase b +:+ path) ("Bearer " +:+ psk b) (agentID b) ctype body).

(** The upload's reply decoded into a map; an error leaves what was decoded, here nothing. *)
Definition decoded_map (t : result string) : args :=
  match decode_first (http_text t) with
  | Some j => default [] (as_map (into_any j))
  | None => []
  end.

Definition share_file (to filename contentType description contentSha : string)
    (uploadResult : args) : prog W (result string) :=
  let fileID := opt_string uploadResult "file_id" in
  let size := match as_float (index uploadResult "size") with
              | Some f => float_to_int64 f
              | None => 0
              end in
  res ← doJSON b "POST" (session_path b "/messages") (Some (JObj
    [("payload", FileSharePayload_json
        (mkFileSharePayload fileID filename contentType size contentSha description));
     ("to", JStr to); ("type", JStr "file_share")]));
  match res with
  | Err msg => fail ("file uploaded but share message failed: " +:+ msg)
  | Ok _ => mret (Ok (Marshal (JObj
      [("file_id", JStr fileID); ("file_name", JStr filename); ("sha256", JStr contentSha);
       ("shared_to", JStr to); ("size", JInt size)])))
  end.

Definition upload_file (filename contentType : string) (data : list byte)
    : prog W (result HttpResponse) :=
  init ← ensureInit b;
  match init with
  | Err msg => fail msg
  | Ok _ =>
      resp ← file_request "POST" (session_path b ("/files?filename=" +:+ QueryEscape filename))
               contentType (Some (String.string_of_list_byte data));
      match resp with
      | Err msg => fail ("upload failed: " +:+ msg)
      | Ok r => if bool_decide (h_status r <> StatusCreated)
                then fail ("upload failed " +:+ status_text (h_status r) (h_text r))
                else mret (Ok r)
      end
  end.

Definition send_file_handler (a : args) : prog W (result string) :=
  let '(to, a) := requireString a "to" "send_file" in
  match to with Err msg => fail msg | Ok to =>
  let '(filename, a) := requireString a "filename" "send_file" in
  match filename with Err msg => fail msg | Ok filename =>
  let '(contentB64, a) := requireString a "content_base64" "send_file" in
  match contentB64 with Err msg => fail msg | Ok contentB64 =>
    let contentType := opt_string a "content_type" in
    let description := opt_string a "description" in
    let expectedSize := match as_float (index a "expected_size") with
                        | Some f => float_to_int64 f
                        | None => 0
                        end in
    let expectedSha := opt_string a "content_sha256" in
    match DecodeString contentB64 with
    | None => fail "invalid base64"
    | Some data =>
        match verifyContent data expectedSize expectedSha with
        | Some msg => fail msg
        | None =>
            let contentSha := sha256Hex data in
            let contentType := if bool_decide (contentType = "") then "application/octet-stream"
                               else contentType in
            up ← upload_file filename contentType data;
            match up with
            | Err msg => fail msg
            | Ok r => share_file to filename contentType description contentSha
                        (decoded_map (h_text r))
            end
        end
    end
  end end end.

Definition send_file : tool :=
  (mkTool "send_file"
     "Upload a file and share it with another agent. The file content is provided as base64. Returns file_id and shares it via the session."
     (schema
        [("to", prop "string" "Target agent ID"); ("filename", prop "string" "Name for the file");
         ("content_base64", prop "string" "Base64-encoded file content");
         ("content_type", prop "string" "MIME type (default application/octet-stream)");
         ("description", prop "string" "Optional description of the file");
         ("expected_size", prop "number" "Raw byte length of the file before base64 encoding. Strongly recommended: if the decoded content doesn't match, the send fails instead of storing a silently truncated file");
         ("content_sha256", prop "string" "SHA-256 hex of the raw file bytes. When provided, a mismatch fails the send — the strongest protection against truncated base64")]
        ["to"; "filename"; "content_base64"]),
   send_file_handler).

Definition download_file_handler (a : args) : prog W (result string) :=
  let fileID := opt_string a "file_id" in
  if bool_decide (fileID = "") then fail "file_id is required"
  else
    init ← ensureInit b;
    match init with
    | Err msg => fail msg
    | Ok _ =>
        resp ← file_request "GET" (session_path b ("/files/" +:+ fileID)) "" None;
        match resp with
        | Err msg => fail ("download failed: " +:+ msg)
        | Ok r =>
            if bool_decide (h_status r <> StatusOK)
            then fail ("download failed (" +:+ itoa (h_status r) +:+ ")")
            else match h_text r with
                 | Err msg => fail ("read failed: " +:+ msg)
                 | Ok text =>
                     let fdata := String.list_byte_of_string text in
                     let expectedSha := opt_string a "expected_sha256" in
                     match (if bool_decide (expectedSha = "") then None
                            else verifyContent fdata 0 expectedSha) with
                     | Some msg => fail msg
                     | None => mret (Ok (Marshal (JObj
                         [("content_base64", JStr (EncodeToString fdata));
                          ("content_type", JStr (header_get "Content-Type" (h_header r)));
                          ("file_id", JStr fileID);
                          ("sha256", JStr (header_get "X-Content-SHA256" (h_header r)));
                          ("size", JInt (Z.of_nat (length fdata)))])))
                     end
                 end
        end
    end.

Definition download_file : tool :=
  (mkTool "download_file"
     "Download a file by its file_id (obtained from a file_share message). Returns the file content as base64."
     (schema
        [("file_id", prop "string" "File ID from the file_share message");
         ("expected_sha256", prop "string" "SHA-256 hex from the file_share message. When provided, a mismatch fails the download — catches truncated or altered transfers before the content is used")]
        ["file_id"]),
   download_file_handler).

(** ** Signals *)
Definition trigger_agent_handler (a : args) : prog W (result string) :=
  let action := opt_string a "action" in
  if bool_decide (action = "") then fail "action is required"
  else if bool_decide (signalSocketPath b = "") then
    fail "trigger_agent not configured: PICOBOT_SIGNAL_SOCKET not set. Ensure picobot signal system is enabled and this bridge was spawned by picobot."
  else
    let channel := maybeString (index a "channel") in
    let chatID := maybeString (index a "chat_id") in
    '(channel, chatID) ← (if bool_decide (channel = "" \/ chatID = "") then
                            '(och, oid) ← originTarget;
                            mret (if bool_decide (channel = "") then och else channel,
                                  if bool_decide (chatID = "") then oid else chatID)
                          else mret (channel, chatID));
    res ← ⟪the_peer⟫ SendToSocket (signalSocketPath b)
            (mkSignal (signalSource b) action 0 channel chatID [("source_agent", JStr (agentID b))]);
    match res with
    | Err msg => fail ("trigger failed: " +:+ msg)
    | Ok resp => mret (Ok (Marshal (JObj ((fun kv => (kv.1, JStr kv.2)) <$> resp))))
    end.

Definition trigger_agent : tool :=
  (mkTool "trigger_agent"
     "Send a trigger signal to a local picobot agent instance via Unix socket. The signal carries a registered action name — picobot validates the action and injects a safe, pre-defined response. This wakes the agent to perform a known task (check messages, check email, etc). Requires PICOBOT_SIGNAL_SOCKET to be configured (auto-injected by picobot)."
     (schema
        [("action", prop "string" "The registered action to trigger (e.g., check_messages, motion_detected). Must be a known action registered in picobot's config.");
         ("channel", prop "string" "Target channel (e.g., telegram, discord). Leave empty for default.");
         ("chat_id", prop "string" "Target chat ID. Leave empty for default.")]
        ["action"]),
   trigger_agent_handler).

(** The tools in the order they are registered. *)
Definition all_tools : list tool :=
  [send_message; broadcast; receive_messages; list_agents; get_leader; transfer_leadership;
   scratchpad_set; scratchpad_get; scratchpad_delete; scratchpad_list; task_assign; task_status;
   task_result; request_history; send_file; download_file; trigger_agent].

Definition registerTools (s : Server W) : Server W :=
  foldl (fun s t => RegisterTool t.1 t.2 s) s all_tools.
End Tools.

(** [headless]: whether AGENTCHAT_HEADLESS is set. *)
Definition registerSignals (headless : bool) : Atom Io unit :=
  RegisterSignal (mkSignalAction "check_messages"
    "A message arrived for this agent in its agentchat session (direct message, broadcast, task, scratchpad, or leader change)"
    ("You have received new messages in your agentchat session on server {{.Source}} (chat {{.Channel}}:{{.ChatID}}). " +:+
     "Use the tools from THAT server — prefix mcp_{{.Source}}_ (e.g. mcp_{{.Source}}_receive_messages) — to read and handle them; " +:+
     "tools from other agentchat servers read different mailboxes and will show nothing. " +:+
     "The conversation history above shows work you have already completed in this chat — before acting on any message, " +:+
     "check whether it concerns a task you have already finished or a reply you have already sent. " +:+
     "If the messages are confirmations, echoes, or results of actions you already took, do not repeat the work: " +:+
     "acknowledge internally and reply only if the user genuinely needs new information." +:+
     (if headless then
        " This agent runs headless: no chat channel receives your prose reply. " +:+
        "Any response to other agents MUST be sent via agentchat tools (send_message, task_result, broadcast) — " +:+
        "writing plain prose delivers nothing. End with [silent] unless a human must be reached through another agent."
      else "")) false).

(** The server [main] runs. *)
Definition bridge_server {N} `{!HttpClient N} (b : Config) : Server (World N) :=
  registerTools b (NewServer "agentchat-mcp-bridge" "1.4.0").

Definition declare_signals (b : Config) (headless : bool) : Atom Io unit :=
  if bool_decide (signalSocketPath b = "") then mret tt else registerSignals headless.
