(* ===== verification/BridgeWatch.v ===== *)
(** * cmd/agentchat-mcp-bridge/watcher.go: the background loops

    The presence heartbeat, the watch stream with its watchdog, the wake-up requests and the
    loop that delivers them. Each loop is its body round by round; the fuel is the number of
    rounds to look at. The context is done when the process exits: a [flip] where the loop
    looks at it. *)

From Stdlib Require Import Strings.Ascii.
From S2P Require Import Prelude Json JsonText GoAny Encoding Lines Http Signal Protocol Bridge.

#[local] Open Scope Z_scope.

Definition sseBaseBackoff : Duration := 500 * millisecond.
Definition sseMaxBackoff : Duration := 30 * second.
Definition sseHealthyUptime : Duration := 30 * second.
Definition sseWatchdogTimeout : Duration := 45 * second.
Definition sseWatchdogTick : Duration := 5 * second.
Definition signalBaseBackoff : Duration := 500 * millisecond.
Definition signalMaxBackoff : Duration := 30 * second.
Definition reconnectSignalMinGap : Duration := 10 * second.

(** [rand.Int63n(n)], for a positive [n]. *)
Definition rand_int63n {S} (n : Z) : Atom S Z :=
  bs ← rand_read 8;
  mret (foldl (fun z c => 256 * z + Z.of_N (Byte.to_N c)) 0 bs mod n).

Definition backoffJitter {S} (d max : Duration) : Atom S Duration :=
  let d := if max <? d then max else d in
  let half := Z.quot d 2 in
  j ← rand_int63n (half + 1);
  mret (half + j).

(** When the watchdog cancels a stream on which nothing arrives after [last]: at its first tick
    that finds it idle for longer than the timeout. *)
Definition watchdog (t0 last : Time) : Time :=
  tick_after t0 sseWatchdogTick (last + sseWatchdogTimeout).

Record sseEnvelope := mkSse { e_Type : string; e_From : string; e_To : string; e_Sequence : Z }.

(** [json.Unmarshal] into the struct; [None] is an error. *)
Definition dec_sseEnvelope (data : string) : option sseEnvelope :=
  j ← Unmarshal data;
  kvs ← body_fields j;
  ty ← string_field "type" kvs; from ← string_field "from" kvs; to ← string_field "to" kvs;
  sq ← field_from dec_int64 0 "sequence" kvs;
  Some (mkSse ty from to sq).

(** One line of the stream: the event type and data so far, and the event a blank line
    completes. *)
Definition sse_step (st : string * string) (line : string)
    : (string * string) * option (string * string) :=
  let '(eventType, eventData) := st in
  let line := TrimSuffix line (str1 CR) in
  if HasPrefix line "event: " then ((TrimPrefix line "event: ", eventData), None)
  else if HasPrefix line "data: " then ((eventType, TrimPrefix line "data: "), None)
  else if bool_decide (line = "" /\ eventData <> "") then (("", ""), Some (eventType, eventData))
  else (st, None).

(** An element of the history as [initLastSeq] reads it. *)
Definition dec_sequence (j : json) : option Z :=
  kvs ← body_fields j; field_from dec_int64 0 "sequence" kvs.

Section Watch.
Context {N : Type} `{!HttpClient N} (b : Config).
Abbreviation W := (World N).

(** ** Wake-up requests *)

(** A send on a channel of capacity one that never blocks. *)
Definition requestSignal : prog W unit := ⟨the_st⟩ modify (with_signalCh true).

(** Whether an event is one to wake the agent for. *)
Definition relevant (env : sseEnvelope) : bool :=
  let ty := e_Type env in
  if bool_decide (ty = "message") then
    if bool_decide (e_To env = "*") then bool_decide (e_From env <> agentID b)
    else bool_decide (e_To env = agentID b)
  else if bool_decide (ty = "broadcast") then bool_decide (e_From env <> agentID b)
  else if bool_decide (ty ∈ ["task_assign"; "task_status"; "task_result"; "file_share"]) then
    bool_decide (e_To env = agentID b)
  else if bool_decide (ty ∈ ["scratchpad_update"; "leader_info"]) then
    bool_decide (e_From env <> agentID b)
  else false.

Definition trigger_type (env : sseEnvelope) : string :=
  if bool_decide (e_Type env = "message" /\ e_To env = "*") then "broadcast" else e_Type env.

Definition handleSSEEvent (sseEventType data : string) : prog W unit :=
  if bool_decide (sseEventType <> "message") then mret tt
  else
    match dec_sseEnvelope data with
    | None => mret tt
    | Some env =>
        current ← ⟨the_st⟩ gets lastSeq;
        if (0 <? e_Sequence env) && (e_Sequence env <=? current) then mret tt
        else if negb (relevant env) then mret tt
        else
          (if 0 <? e_Sequence env then ⟨the_st⟩ modify (with_lastSeq (e_Sequence env))
           else mret tt) ;;
          ⟨the_st⟩ modify (with_pending
            (Some (mkPending (trigger_type env) (e_From env) (e_Sequence env)))) ;;
          requestSignal
    end.

Definition maybeWakeOnConnect : prog W (result bool) :=
  pending ← peekMailbox b;
  match pending with
  | Err _ => requestSignal ;; mret (Ok true)
  | Ok n => if 0 <? n then requestSignal ;; mret (Ok true) else mret (Ok false)
  end.

(** ** Delivering them *)
Definition sendCheckMessagesSignal : prog W (result unit) :=
  '(channel, chatID) ← originTarget;
  info ← ⟨the_st⟩ gets pendingSignal;
  let metadata := match info with
                  | Some i => [("from_agent", JStr (FromAgent i)); ("sequence", JInt (p_Sequence i));
                               ("trigger_type", JStr (TriggerType i))]
                  | None => []
                  end in
  res ← ⟪the_peer⟫ SendToSocket (signalSocketPath b)
          (mkSignal (signalSource b) "check_messages" 0 channel chatID metadata);
  mret (match res with Ok _ => Ok tt | Err msg => Err msg end).

Definition ctx_done : prog W bool := ⟨lens_id⟩ flip.

(** [false]: the context ended the wait. *)
Definition sleepCtx (d : Duration) : prog W bool :=
  done ← ctx_done;
  if (done : bool) then mret false
  else t ← nowP; ⟨lens_id⟩ sleep_until (t + d) ;; mret true.

(** The sends of one request, until one succeeds: the back-off it leaves, [None] when the
    context ended or the fuel did. *)
Fixpoint deliver (fuel : nat) (backoff : Duration) : prog W (option Duration) :=
  match fuel with
  | O => mret None
  | S fuel' =>
      done ← ctx_done;
      if (done : bool) then mret None
      else
        err ← sendCheckMessagesSignal;
        match err with
        | Ok _ => mret (Some signalBaseBackoff)
        | Err _ =>
            d ← ⟨lens_id⟩ backoffJitter backoff signalMaxBackoff;
            slept ← sleepCtx d;
            if negb slept then mret None
            else deliver fuel' (Z.min (backoff * 2) signalMaxBackoff)
        end
  end.

(** Receive from the channel, when there is something to receive. *)
Definition take_request : prog W bool :=
  ⟨the_st⟩ (got ← gets signalCh; modify (with_signalCh false) ;; mret got).

Fixpoint signalLoop (fuel : nat) (backoff : Duration) : prog W unit :=
  match fuel with
  | O => mret tt
  | S fuel' =>
      done ← ctx_done;
      if (done : bool) then mret tt
      else
        got ← take_request;
        if (got : bool) then
          backoff' ← deliver fuel' backoff;
          match backoff' with Some d => signalLoop fuel' d | None => mret tt end
        else signalLoop fuel' backoff
  end.

(** ** Presence *)
Definition touchPresence : prog W (result unit) :=
  resp ← doRequestNow b "POST" (session_path b "/register") (Some (register_body b));
  match resp with
  | Err msg => mret (Err ("request failed: " +:+ msg))
  | Ok r =>
      if bool_decide (h_status r = StatusUnauthorized) then
        invalidateRegistration ;; mret (Err "heartbeat unauthorized; registration invalidated")
      else if bool_decide (h_status r <> StatusOK) then
        mret (Err ("server returned " +:+ itoa (h_status r) +:+ ": " +:+ http_text (h_text r)))
      else setWatchToken (reply_token (h_text r)) ;; mret (Ok tt)
  end.

Definition heartbeat_period : Duration := 30 * second.

(** [t0] is when the ticker started, [last] when its last tick was received. *)
Fixpoint presenceHeartbeat (fuel : nat) (t0 last : Time) : prog W unit :=
  match fuel with
  | O => mret tt
  | S fuel' =>
      done ← ctx_done;
      if (done : bool) then mret tt
      else
        ⟨lens_id⟩ sleep_until (tick_after t0 heartbeat_period last) ;;
        t ← nowP;
        _ ← touchPresence;
        presenceHeartbeat fuel' t0 t
  end.

(** ** The watch stream *)
Definition initLastSeq : prog W unit :=
  resp ← ⟪the_net⟫ Do (mkHttpRequest "GET" (httpBase b +:+ session_path b "/history?limit=50")
                          ("Bearer " +:+ psk b) (agentID b) "" None);
  match resp with
  | Err _ => mret tt
  | Ok r =>
      if bool_decide (h_status r <> StatusOK) then mret tt
      else
        match decode_first (http_text (h_text r)) ≫= dec_slice dec_sequence [] with
        | None => mret tt
        | Some seqs => ⟨the_st⟩ modify (with_lastSeq (foldl Z.max 0 seqs))
        end
  end.

Fixpoint stream_lines (st : string * string) (ls : list string) : prog W (string * string) :=
  match ls with
  | [] => mret st
  | l :: ls' =>
      let '(st', ev) := sse_step st l in
      match ev with Some (ty, data) => handleSSEEvent ty data | None => mret tt end ;;
      stream_lines st' ls'
  end.

Definition stream_max : Z := 1024 * 1024.

(** Wait for something to arrive after [d]; [false] when the watchdog cancels the stream
    first. *)
Definition await (t0 last : Time) (d : Duration) : prog W bool :=
  t ← nowP;
  if watchdog t0 last <? t + d then ⟨lens_id⟩ sleep_until (watchdog t0 last) ;; mret false
  else ⟨lens_id⟩ sleep_until (t + d) ;; mret true.

(** Read the stream until it ends: [last] is when something last arrived, [pending] the
    incomplete line, [st] the event so far. At an error too, what is left is a last line. *)
Fixpoint read_stream (t0 last : Time) (pending : string) (st : string * string)
    (reads : list (Duration * string)) (d_end : Duration) (err : option string)
    : prog W string :=
  match reads with
  | [] =>
      ok ← await t0 last d_end;
      stream_lines st (scan_rest pending) ;;
      mret (if (ok : bool) then match err with
                                | None => "stream ended"
                                | Some msg => "stream read: " +:+ msg
                                end
            else "stream read: context canceled")
  | (d, chunk) :: reads' =>
      ok ← await t0 last d;
      if negb ok then
        stream_lines st (scan_rest pending) ;; mret "stream read: context canceled"
      else
        t ← nowP;
        let last := if bool_decide (chunk = "") then last else t in
        match scan_more stream_max pending chunk with
        | (ls, None) => stream_lines st ls ;; mret "stream read: bufio.Scanner: token too long"
        | (ls, Some pending') =>
            st' ← stream_lines st ls;
            read_stream t0 last pending' st' reads' d_end err
        end
  end.

(** The wake-up of a (re)connection, at most one in [reconnectSignalMinGap]. *)
Definition connect_signal : prog W unit :=
  last ← ⟨the_st⟩ gets lastConnectSignal;
  t ← nowP;
  if reconnectSignalMinGap <=? t - last then
    fired ← maybeWakeOnConnect;
    match fired with
    | Ok true => t ← nowP; ⟨the_st⟩ modify (with_connectSignal t)
    | _ => mret tt
    end
  else mret tt.

Definition watch_url (token : string) : string :=
  httpBase b +:+ "/watch?session=" +:+ sessionID b +:+ "&token=" +:+ token.

(** It always returns an error: why the stream is over. *)
Definition watchStream : prog W string :=
  token ← getWatchToken;
  reg ← (if bool_decide (token = "") then ensureInit b else mret (Ok tt));
  match reg with
  | Err msg => mret ("register for watch token: " +:+ msg)
  | Ok _ =>
      initLastSeq ;;
      token ← getWatchToken;
      resp ← ⟪the_net⟫ Open (mkHttpRequest "GET" (watch_url token) "" "" "" None);
      match resp with
      | Err msg => mret ("connect: " +:+ msg)
      | Ok s =>
          if bool_decide (s_status s = StatusUnauthorized) then
            invalidateRegistration ;;
            mret "watch unauthorized; registration invalidated for retry"
          else if bool_decide (s_status s <> StatusOK) then
            mret ("unexpected status: " +:+ itoa (s_status s))
          else
            connect_signal ;;
            lastRead ← nowP;
            t0 ← nowP;
            read_stream t0 lastRead "" ("", "") (s_reads s) (s_end s) (s_error s)
      end
  end.

(** One round of [sseLoop]: the next back-off, [None] when the context ended. *)
Definition sse_round (backoff : Duration) : prog W (option Duration) :=
  done ← ctx_done;
  if (done : bool) then mret None
  else
    started ← nowP;
    _ ← watchStream;
    done ← ctx_done;
    if (done : bool) then mret None
    else
      t ← nowP;
      backoff ← (if sseHealthyUptime <=? t - started then mret sseBaseBackoff
                 else ⟨lens_id⟩ backoffJitter (backoff * 2) sseMaxBackoff);
      slept ← sleepCtx backoff;
      mret (if (slept : bool) then Some backoff else None).

Fixpoint sseLoop (fuel : nat) (backoff : Duration) : prog W unit :=
  match fuel with
  | O => mret tt
  | S fuel' =>
      next ← sse_round backoff;
      match next with Some d => sseLoop fuel' d | None => mret tt end
  end.

(** The goroutines it starts, looked at for [fuel] rounds each. *)
Definition startWatcher (fuel : nat) : prog W (list (prog W unit)) :=
  _ ← ensureInit b;
  t0 ← nowP;
  mret (presenceHeartbeat fuel t0 t0 ::
        if bool_decide (signalSocketPath b = "") then []
        else [signalLoop fuel signalBaseBackoff; sseLoop fuel sseBaseBackoff]).
End Watch.
