(* ===== verification/Cli.v ===== *)
(** * cmd/agentchat-cli/main.go: the terminal client

    [Config] is what the flags and the environment fix, [State] the fields and globals its
    goroutines change, and the world of a CLI that state, a network any [HttpClient] models and
    what the terminal shows. The loops take the number of rounds to look at as fuel; a goroutine
    looks at its quit channel with a [flip]. *)

From Stdlib Require Import Strings.Ascii.
From S2P Require Import Prelude Json JsonText GoAny Lines Http Protocol.

#[local] Open Scope Z_scope.

Record Config := mkConfig {
  serverURL : string;
  sessionID : string;
  psk : string;
  agentID : string;
  agentName : string;
}.

Record State := mkState {
  lastSeq : Z;
  watchToken : string;
  agentColors : gmap string string;
  colorIdx : nat;
}.
Definition newState : State := mkState 0 "" ∅ 0.

(** [main]: a flag that is not given falls back to the environment; [None] is an exit. *)
Definition configure (url session key agent name : string) (env : string -> string)
    : option Config :=
  let url := if bool_decide (url = "") then env "AGENTCHAT_URL" else url in
  let session := if bool_decide (session = "") then env "AGENTCHAT_SESSION_ID" else session in
  let key := if bool_decide (key = "") then env "AGENTCHAT_PSK" else key in
  if bool_decide (url = "") then None
  else if bool_decide (session = "" \/ key = "") then None
  else Some (mkConfig (TrimSuffix url "/") session key agent
               (if bool_decide (name = "") then agent else name)).

(** ** The world *)
Record World (N : Type) := mkWorld {
  st : State;
  net : N;
  out : list string;
}.
Arguments mkWorld {N} _ _ _.
Arguments st {N} _.
Arguments net {N} _.
Arguments out {N} _.

Ltac world_lens f g := refine (mkLens f g _ _ _); [done|by intros []|done].

Definition the_st {N} : Lens (World N) State.
Proof. world_lens (@st N) (fun x (w : World N) => @mkWorld N x (net w) (out w)). Defined.
Definition the_net {N} : Lens (World N) N.
Proof. world_lens (@net N) (fun x (w : World N) => @mkWorld N (st w) x (out w)). Defined.
Definition the_out {N} : Lens (World N) (list string).
Proof. world_lens (@out N) (fun x (w : World N) => @mkWorld N (st w) (net w) x). Defined.

Definition with_lastSeq (n : Z) (s : State) : State :=
  mkState n (watchToken s) (agentColors s) (colorIdx s).
Definition with_token (t : string) (s : State) : State :=
  mkState (lastSeq s) t (agentColors s) (colorIdx s).

(** ** Colours *)
Definition sgr (code : string) : string := String (chr 27) ("[" +:+ code +:+ "m").
Definition colorReset := sgr "0".
Definition colorRed := sgr "31".
Definition colorGreen := sgr "32".
Definition colorYellow := sgr "33".
Definition colorCyan := sgr "36".
Definition colorBold := sgr "1".
Definition colorDim := sgr "2".

Definition colors : list string := sgr <$> ["36"; "33"; "35"; "32"; "34"; "91"; "96"; "93"].

Definition getAgentColor (agent : string) : Atom State string := fun s e =>
  match agentColors s !! agent with
  | Some c => (c, s, e)
  | None =>
      let c := default "" (colors !! Nat.modulo (colorIdx s) (length colors)) in
      (c, mkState (lastSeq s) (watchToken s) (<[agent := c]> (agentColors s)) (S (colorIdx s)), e)
  end.

(** ** What the terminal shows *)
Definition nl : string := str1 LF.
Definition newline (s : string) : string := s +:+ nl.

(** [Time.Format("15:04:05")], of a time in UTC. *)
Definition clock_text (t : Time) : string :=
  let sod := (t / 10 ^ 9) mod 86400 in
  pad0 2 (sod / 3600) +:+ ":" +:+ pad0 2 (sod / 60 mod 60) +:+ ":" +:+ pad0 2 (sod mod 60).

(** [json.MarshalIndent(v, "", "  ")]; [pre] is the indentation so far. *)
Fixpoint MarshalIndent (pre : string) (j : json) : string :=
  let pre' := pre +:+ "  " in
  match j with
  | JArr (_ :: _ as l) =>
      "[" +:+ nl +:+ Join ((fun x => pre' +:+ MarshalIndent pre' x) <$> l) ("," +:+ nl) +:+
      nl +:+ pre +:+ "]"
  | JObj (_ :: _ as kvs) =>
      "{" +:+ nl +:+
      Join ((fun kv => pre' +:+ text_string kv.1 +:+ ": " +:+ MarshalIndent pre' kv.2) <$> kvs)
        ("," +:+ nl) +:+
      nl +:+ pre +:+ "}"
  | _ => Marshal j
  end.

(** [string(payload)]. *)
Definition payload_text (p : option RawMessage) : string :=
  match p with Some j => Marshal j | None => "" end.

Definition parsePayloadText (p : option RawMessage) : string :=
  match p with
  | Some JNull => "null"
  | Some (JObj kvs as j) =>
      if floats_ok j then
        let m := make_map ((fun kv => (kv.1, into_any kv.2)) <$> kvs) in
        match as_string (index m "text") with
        | Some text => text
        | None => match as_string (index m "content") with
                  | Some content => content
                  | None => Marshal (JObj m)
                  end
        end
      else Marshal j
  | _ => payload_text p
  end.

(** The [AgentID] of [parseAgentInfo]: fields of another type are left out. *)
Definition parseAgentID (p : option RawMessage) : string :=
  match p with
  | Some (JObj kvs) =>
      foldl (fun acc kv => if bool_decide (lower kv.1 = "agent_id")
                           then default acc (as_string kv.2) else acc) "" kvs
  | _ => ""
  end.

(** ** The stream's frames *)
Record sseFrame := mkFrame { Event : string; FData : string }.

Record sseParser := mkParser { event : string; data : list string; hasData : bool }.
Definition newParser : sseParser := mkParser "" [] false.

(** The value of a field: one space after the colon is not part of it. *)
Definition field_value (line name : string) : string := TrimPrefix (TrimPrefix line name) " ".

Definition feed (p : sseParser) (line : string) : sseParser * option sseFrame :=
  let line := TrimSuffix line (str1 CR) in
  if bool_decide (line = "") then
    if hasData p then (newParser, Some (mkFrame (event p) (Join (data p) nl))) else (p, None)
  else if HasPrefix line ":" then (p, None)
  else if HasPrefix line "event:" then
    (mkParser (field_value line "event:") (data p) (hasData p), None)
  else if HasPrefix line "data:" then
    (mkParser (event p) (data p ++ [field_value line "data:"]) true, None)
  else (p, None).

Section Cli.
Context {N : Type} `{!HttpClient N} (c : Config).
Abbreviation W := (World N).

Definition print (s : string) : prog W unit := ⟨the_out⟩ modify (fun o => o ++ [s]).

(** ** Requests *)
Definition doRequest (method path : string) (body : option string)
    : prog W (result HttpResponse) :=
  ⟪the_net⟫ Do (mkHttpRequest method (serverURL c +:+ path) ("Bearer " +:+ psk c) (agentID c)
                  (match body with Some _ => "application/json" | None => "" end) body).

(** The [any] a reply is decoded into: nil when it spells nothing. *)
Definition any_of (text : string) : json :=
  match Unmarshal text with Some j => into_any j | None => JNull end.

Definition doJSON (method path : string) (payload : option json) : prog W (result json) :=
  resp ← doRequest method path (Marshal <$> payload);
  match resp with
  | Err msg => mret (Err msg)
  | Ok r =>
      match h_text r with
      | Err msg => mret (Err ("read response: " +:+ msg))
      | Ok text =>
          if 400 <=? h_status r
          then mret (Err ("server error (" +:+ itoa (h_status r) +:+ "): " +:+ text))
          else mret (Ok (any_of text))
      end
  end.

Definition session_path (rest : string) : string := "/sessions/" +:+ sessionID c +:+ rest.

Definition register : prog W (result unit) :=
  res ← doJSON "POST" (session_path "/register")
          (Some (JObj [("capabilities", JArr [JStr "chat"; JStr "human"])]));
  match res with
  | Err msg => mret (Err msg)
  | Ok j =>
      match as_map j ≫= (fun m => as_string (index m "watch_token")) with
      | Some tok => ⟨the_st⟩ modify (with_token tok)
      | None => mret tt
      end ;;
      mret (Ok tt)
  end.

Definition quit : prog W bool := ⟨lens_id⟩ flip.

(** [t0] is when the ticker started, [last] when its last tick was received. *)
Fixpoint heartbeatLoop (fuel : nat) (t0 last : Time) : prog W unit :=
  match fuel with
  | O => mret tt
  | S fuel' =>
      done ← quit;
      if (done : bool) then mret tt
      else
        ⟨lens_id⟩ sleep_until (tick_after t0 (30 * second) last) ;;
        t ← nowP;
        res ← register;
        match res with
        | Err msg => print (newline (colorDim +:+ "heartbeat failed: " +:+ msg +:+ colorReset))
        | Ok _ => mret tt
        end ;;
        heartbeatLoop fuel' t0 t
  end.

(** ** Commands *)
Definition send_failed (msg : string) : string :=
  newline (colorRed +:+ "Send failed: " +:+ msg +:+ colorReset).

Definition text_payload (text : string) : json := JObj [("text", JStr text)].

Definition sendBroadcast (text : string) : prog W unit :=
  res ← doJSON "POST" (session_path "/broadcast")
          (Some (JObj [("payload", text_payload text); ("type", JStr "message")]));
  match res with Err msg => print (send_failed msg) | Ok _ => mret tt end.

Definition sendDirect (to text : string) : prog W unit :=
  res ← doJSON "POST" (session_path "/messages")
          (Some (JObj [("payload", text_payload text); ("to", JStr to); ("type", JStr "message")]));
  match res with
  | Err msg => print (send_failed msg)
  | Ok _ => print (newline (colorDim +:+ "  → " +:+ to +:+ colorReset))
  end.

(** [showAgents], [showHistory] and [showScratchpad]: a titled JSON reply. *)
Definition show (title path : string) : prog W unit :=
  res ← doJSON "GET" (session_path path) None;
  match res with
  | Err msg => print (newline (colorRed +:+ "Error: " +:+ msg +:+ colorReset))
  | Ok j => print (newline (colorBold +:+ title +:+ ":" +:+ colorReset +:+ nl +:+ MarshalIndent "" j))
  end.
Definition showAgents : prog W unit := show "Agents" "/agents".
Definition showHistory : prog W unit := show "History" "/history".
Definition showScratchpad : prog W unit := show "Scratchpad" "/scratchpad".

Definition help_text : list string :=
  newline <$>
    [colorBold +:+ "Commands:" +:+ colorReset;
     "  /help              — Show this help";
     "  /msg <agent> <text> — Send direct message";
     "  /agents            — List online agents";
     "  /history           — Show message history";
     "  /scratchpad        — Show shared scratchpad";
     "  /quit              — Exit"].

Definition goodbye : string := colorYellow +:+ "Goodbye!" +:+ colorReset.

(** [false]: the process exits. *)
Definition handleCommand (cmd : string) : prog W bool :=
  match SplitN 3 " "%char cmd with
  | "/help" :: _ => for_each help_text print ;; mret true
  | "/quit" :: _ | "/exit" :: _ => print (newline goodbye) ;; mret false
  | ["/msg"; to; text] => sendDirect to text ;; mret true
  | "/msg" :: _ =>
      print (newline (colorYellow +:+ "Usage: /msg <agent_id> <message>" +:+ colorReset)) ;; mret true
  | "/agents" :: _ => showAgents ;; mret true
  | "/history" :: _ => showHistory ;; mret true
  | "/scratchpad" :: _ => showScratchpad ;; mret true
  | _ =>
      print (newline (colorRed +:+ "Unknown command: " +:+ cmd +:+ ". Type /help for commands." +:+
                      colorReset)) ;;
      mret true
  end.

(** The loop over the lines typed, until a signal, a command that exits or the end of the
    input. *)
Fixpoint input_loop (lines : list string) : prog W unit :=
  done ← quit;
  if (done : bool) then print (nl +:+ newline goodbye)
  else
    match lines with
    | [] => mret tt
    | l :: lines' =>
        let line := TrimSpace l in
        if bool_decide (line = "") then input_loop lines'
        else if HasPrefix line "/" then
          go_on ← handleCommand line;
          if (go_on : bool) then input_loop lines' else mret tt
        else sendBroadcast line ;; input_loop lines'
    end.

(** ** The watch stream *)
Definition display (color text : string) (env : Envelope) : prog W unit :=
  print (nl +:+ newline (colorDim +:+ clock_text (Timestamp env) +:+ " " +:+ color +:+ From env +:+ text)).

Definition displayEnvelope (env : Envelope) : prog W unit :=
  let ty := Type_ env in
  let timestamp := clock_text (Timestamp env) in
  let payload := payload_text (Payload env) in
  let to_agent tag text := colorDim +:+ " → " +:+ colorCyan +:+ To env +:+ tag +:+ colorReset +:+ ": " +:+ text in
  let to_all text := colorDim +:+ " [broadcast]" +:+ colorReset +:+ ": " +:+ text in
  if bool_decide (ty = TypeAgentJoined) then
    print (nl +:+ newline (colorGreen +:+ timestamp +:+ " → " +:+ parseAgentID (Payload env) +:+
                           " joined the session" +:+ colorReset))
  else if bool_decide (ty = TypeAgentLeft) then
    print (nl +:+ newline (colorRed +:+ timestamp +:+ " ← " +:+ parseAgentID (Payload env) +:+
                           " left the session" +:+ colorReset))
  else if bool_decide (ty = TypeMessage) then
    color ← ⟨the_st⟩ getAgentColor (From env);
    let text := parsePayloadText (Payload env) in
    if bool_decide (To env = "" \/ To env = "*") then display color (to_all text) env
    else display color (to_agent "" text) env
  else if bool_decide (ty = TypeBroadcast) then
    color ← ⟨the_st⟩ getAgentColor (From env);
    display color (to_all (parsePayloadText (Payload env))) env
  else if bool_decide (ty = TypeTaskAssign) then
    color ← ⟨the_st⟩ getAgentColor (From env);
    display color (to_agent " [task_assign]" payload) env
  else if bool_decide (ty = TypeTaskResult) then
    color ← ⟨the_st⟩ getAgentColor (From env);
    display color (to_agent " [task_result]" payload) env
  else if bool_decide (ty = TypeLeaderInfo) then
    print (nl +:+ newline (colorYellow +:+ timestamp +:+ " ⭐ Leader: " +:+ payload +:+ colorReset))
  else
    color ← ⟨the_st⟩ getAgentColor (From env);
    display color (colorReset +:+ " [" +:+ ty +:+ "]: " +:+ payload) env.

(** Whether an envelope is shown, and the highest sequence number shown then. *)
Definition fresh (env : Envelope) : Atom State bool := fun s e =>
  if 0 <? Sequence env then
    if Sequence env <=? lastSeq s then (false, s, e) else (true, with_lastSeq (Sequence env) s, e)
  else (true, s, e).

Definition showEnvelope (env : Envelope) : prog W unit :=
  show_ ← ⟨the_st⟩ fresh env;
  if (show_ : bool) then displayEnvelope env ;; print "> " else mret tt.

(** The messages of a drained mailbox, through JSON text once more. *)
Definition drained_of (j : json) : option (list Envelope) :=
  kvs ← body_fields j;
  field_from (dec_slice (fun m => kvs ← body_fields m;
                field_from (fun _ => Envelope_of) zeroEnvelope "envelope" kvs)) [] "messages" kvs.

Definition drainAndDisplay : prog W unit :=
  res ← doJSON "GET" (session_path "/mailbox") None;
  match res with
  | Err msg => print (newline (colorDim +:+ "mailbox drain failed: " +:+ msg +:+ colorReset))
  | Ok j =>
      match Unmarshal (Marshal j) ≫= drained_of with
      | None => mret tt
      | Some envs => for_each envs showEnvelope
      end
  end.

(** What a frame makes the CLI do. *)
Definition handleFrame (f : sseFrame) : prog W unit :=
  if bool_decide (Event f = "connected") then drainAndDisplay
  else if bool_decide (Event f ∈ ["history"; "message"]) then
    match Unmarshal (FData f) ≫= Envelope_of with
    | Some env => showEnvelope env
    | None => mret tt
    end
  else mret tt.

(** The lines of one read: the parser they leave, [None] when the CLI quits. *)
Fixpoint stream_lines (p : sseParser) (ls : list string) : prog W (option sseParser) :=
  match ls with
  | [] => mret (Some p)
  | l :: ls' =>
      done ← quit;
      if (done : bool) then mret None
      else
        let '(p', f) := feed p l in
        match f with Some f => handleFrame f | None => mret tt end ;;
        stream_lines p' ls'
  end.

(** [bufio.MaxScanTokenSize]. *)
Definition stream_max : Z := 64 * 1024.

(** [None] is no error. *)
Fixpoint read_stream (pending : string) (p : sseParser) (reads : list (Duration * string))
    (d_end : Duration) (err : option string) : prog W (option string) :=
  t ← nowP;
  match reads with
  | [] =>
      ⟨lens_id⟩ sleep_until (t + d_end) ;;
      p' ← stream_lines p (scan_rest pending);
      mret (match p' with
            | None => None
            | Some _ => Some (default "stream ended" err)
            end)
  | (d, chunk) :: reads' =>
      ⟨lens_id⟩ sleep_until (t + d) ;;
      let '(ls, rest) := scan_more stream_max pending chunk in
      p' ← stream_lines p ls;
      match p', rest with
      | None, _ => mret None
      | Some _, None => mret (Some "bufio.Scanner: token too long")
      | Some p', Some pending' => read_stream pending' p' reads' d_end err
      end
  end.

Definition watch_url (token : string) : string :=
  serverURL c +:+ "/watch?session=" +:+ sessionID c +:+ "&" +:+
  (if bool_decide (token <> "") then "token=" +:+ token else "psk=" +:+ psk c).

Definition watchSSE : prog W (option string) :=
  token ← ⟨the_st⟩ gets watchToken;
  resp ← ⟪the_net⟫ Open (mkHttpRequest "GET" (watch_url token) "" "" "" None);
  match resp with
  | Err msg => mret (Some msg)
  | Ok s =>
      if bool_decide (s_status s <> 200) then
        mret (Some ("server returned " +:+ itoa (s_status s) +:+ ": " +:+
                    TrimSpace (concat_str (s_reads s).*2)))
      else read_stream "" newParser (s_reads s) (s_end s) (s_error s)
  end.

Definition maxBackoff : Duration := 10 * second.
Definition healthyUptime : Duration := 30 * second.

(** The back-off after a stream that was up for [up]. *)
Definition next_backoff (backoff up : Duration) : Duration :=
  if healthyUptime <=? up then second
  else if backoff <? maxBackoff then
    (if maxBackoff <? backoff * 2 then maxBackoff else backoff * 2)
  else backoff.

Definition lost_text (err : string) (backoff : string) : string :=
  newline (colorRed +:+ "SSE connection lost (" +:+ err +:+ "). Reconnecting in " +:+ backoff +:+
           "..." +:+ colorReset).

(** [Duration.String] of the whole seconds the back-off takes on. *)
Definition seconds_text (d : Duration) : string := itoa (Z.quot d second) +:+ "s".

(** One round of [watchLoop]: the next back-off, [None] when the CLI quits. *)
Definition watch_round (backoff : Duration) : prog W (option Duration) :=
  done ← quit;
  if (done : bool) then mret None
  else
    started ← nowP;
    err ← watchSSE;
    done ← quit;
    if (done : bool) then mret None
    else
      match err with
      | Some msg => print (lost_text msg (seconds_text backoff))
      | None => mret tt
      end ;;
      t ← nowP;
      let backoff := next_backoff backoff (t - started) in
      done ← quit;
      if (done : bool) then mret None
      else t ← nowP; ⟨lens_id⟩ sleep_until (t + backoff) ;; mret (Some backoff).

Fixpoint watchLoop (fuel : nat) (backoff : Duration) : prog W unit :=
  match fuel with
  | O => mret tt
  | S fuel' =>
      next ← watch_round backoff;
      match next with Some d => watchLoop fuel' d | None => mret tt end
  end.

(** ** Start *)
Fixpoint repeat_str (n : nat) (s : string) : string :=
  match n with O => "" | S n' => s +:+ repeat_str n' s end.

Definition banner_rule (l r : string) : string :=
  newline (colorBold +:+ colorCyan +:+ l +:+ repeat_str 50 "═" +:+ r +:+ colorReset).

(** [run]: the goroutines it leaves running, the reading of the input last; [None] is a panic
    ([sessionID[:8]] of a shorter session ID). *)
Definition run (fuel : nat) (lines : list string) : prog W (option (list (prog W unit))) :=
  _ ← register;
  print (banner_rule "╔" "╗") ;;
  if Z.of_nat (String.length (sessionID c)) <? 8 then mret None
  else
    print (newline (colorBold +:+ colorCyan +:+ "║  AgentChat CLI — connected to session " +:+
                    colorGreen +:+ String.substring 0 8 (sessionID c) +:+ colorCyan +:+
                    repeat_str 24 " " +:+ " ║" +:+ colorReset)) ;;
    print (banner_rule "╚" "╝") ;;
    print (newline (colorDim +:+ "Type messages to broadcast. Use /help for commands." +:+ colorReset) +:+ nl) ;;
    t0 ← nowP;
    mret (Some [watchLoop fuel second; heartbeatLoop fuel t0 t0; input_loop lines]).
End Cli.
