(* ===== verification/Sse.v ===== *)
(** * The text of the watch stream, from the server to its two readers

    [render] is what api.go's [handleSSE] prints for each frame. The bridge and the CLI read it
    with parsers of their own; on what the server writes, however it is cut into reads, both
    see exactly the server's events. *)

From Stdlib Require Import Strings.Ascii.
From S2P Require Import Prelude Rfc3339 Json JsonText Lines Protocol Api.
From S2P Require BridgeWatch Cli.

#[local] Open Scope Z_scope.

(** ** What the server writes *)
Definition nl : string := str1 LF.

Definition connected_data (session : string) (t : Time) : string :=
  let q := str1 quote_mark in
  "{" +:+ q +:+ "session" +:+ q +:+ ":" +:+ q +:+ session +:+ q +:+ "," +:+
  q +:+ "time" +:+ q +:+ ":" +:+ q +:+ rfc3339 (t / second * second) +:+ q +:+ "}".

Definition event_text (event data : string) : string :=
  "event: " +:+ event +:+ nl +:+ "data: " +:+ data +:+ nl +:+ nl.

Definition render (f : frame) : string :=
  match f with
  | Retry ms => "retry: " +:+ itoa ms +:+ nl +:+ nl
  | Connected session t => event_text "connected" (connected_data session t)
  | HistoryEvent env => event_text "history" (Marshal (Envelope_json env))
  | MessageEvent env => event_text "message" (Marshal (Envelope_json env))
  | Ping => ": ping" +:+ nl +:+ nl
  end.

Definition render_all (fs : list frame) : string := concat_str (render <$> fs).

(** The event and the data a frame carries. *)
Definition frame_event (f : frame) : option (string * string) :=
  match f with
  | Connected session t => Some ("connected", connected_data session t)
  | HistoryEvent env => Some ("history", Marshal (Envelope_json env))
  | MessageEvent env => Some ("message", Marshal (Envelope_json env))
  | Retry _ | Ping => None
  end.

(** ** What the two readers make of lines *)
Fixpoint bridge_events (st : string * string) (ls : list string)
    : list (string * string) * (string * string) :=
  match ls with
  | [] => ([], st)
  | l :: ls' =>
      let '(st', ev) := BridgeWatch.sse_step st l in
      let '(evs, st'') := bridge_events st' ls' in
      (match ev with Some x => x :: evs | None => evs end, st'')
  end.

Fixpoint cli_events (p : Cli.sseParser) (ls : list string)
    : list (string * string) * Cli.sseParser :=
  match ls with
  | [] => ([], p)
  | l :: ls' =>
      let '(p', f) := Cli.feed p l in
      let '(evs, p'') := cli_events p' ls' in
      (match f with Some f => (Cli.Event f, Cli.FData f) :: evs | None => evs end, p'')
  end.

(** ** The frames as lines *)
Definition frame_lines (f : frame) : list string :=
  match f with
  | Retry ms => ["retry: " +:+ itoa ms; ""]
  | Ping => [": ping"; ""]
  | Connected session t => ["event: connected"; "data: " +:+ connected_data session t; ""]
  | HistoryEvent env => ["event: history"; "data: " +:+ Marshal (Envelope_json env); ""]
  | MessageEvent env => ["event: message"; "data: " +:+ Marshal (Envelope_json env); ""]
  end.

(** A frame whose data is one line that fits a reader's buffer of [max] bytes. *)
Definition frame_ok (max : Z) (f : frame) : Prop :=
  match frame_event f with
  | Some (_, data) => one_line data = true /\ Z.of_nat (String.length data) + 6 < max
  | None => match f with Retry ms => 0 <= ms < 10 ^ 18 | _ => True end
  end.

Lemma frames_wider fs : Forall (frame_ok Cli.stream_max) fs -> Forall (frame_ok BridgeWatch.stream_max) fs.
Proof.
  intros H. eapply Forall_impl; [exact H|]. intros f. unfold frame_ok, Cli.stream_max, BridgeWatch.stream_max.
  destruct (frame_event f) as [[ev data]|]; [|done]. intros [? ?]. split; [done|lia].
Qed.

Lemma event_text_lines event data :
  event_text event data = unlines ["event: " +:+ event; "data: " +:+ data; ""].
Proof.
  unfold event_text, unlines, nl. cbn [foldr]. rewrite !string_app_assoc, !str_cons_app. done.
Qed.

Lemma render_lines f : render f = unlines (frame_lines f).
Proof.
  destruct f; cbn [render frame_lines]; try apply event_text_lines; [|done].
  unfold unlines. cbn [foldr]. rewrite !string_app_assoc, !str_cons_app. done.
Qed.

Lemma unlines_app l1 l2 : unlines (l1 ++ l2) = unlines l1 +:+ unlines l2.
Proof.
  induction l1 as [|l l1 IH]; [done|]. unfold unlines in *. cbn [foldr app].
  by rewrite IH, string_app_assoc.
Qed.

Lemma render_all_lines fs : render_all fs = unlines (mjoin (frame_lines <$> fs)).
Proof.
  unfold render_all. induction fs as [|f fs IH]; [done|].
  cbn [fmap list_fmap mjoin list_join concat_str foldr]. rewrite unlines_app, <- render_lines.
  f_equal. exact IH.
Qed.

Lemma frame_lines_fit max f : Cli.stream_max <= max -> frame_ok max f ->
  Forall (fun l => one_line l = true /\ Z.of_nat (String.length l) < max) (frame_lines f).
Proof.
  unfold Cli.stream_max. intros Hmax.
  assert (forall event data, one_line data = true /\ Z.of_nat (String.length data) + 6 < max ->
    one_line event = true -> (String.length event < 20)%nat ->
    Forall (fun l => one_line l = true /\ Z.of_nat (String.length l) < max)
      ["event: " +:+ event; "data: " +:+ data; ""]) as Hev.
  { intros event data [Hd Hl] He Hle.
    repeat constructor; rewrite ?one_line_app, ?str_app_length, ?He, ?Hd; cbn [String.length]; done || lia. }
  unfold frame_ok. destruct f as [ms|s t|env|env|]; cbn [frame_event frame_lines]; intros Hok.
  - repeat (constructor; [split|]); [by rewrite one_line_app, one_line_itoa| |done|cbn; lia|constructor].
    destruct (pad0_spec 18 ms Hok ltac:(lia)) as (Hl & _). unfold pad0 in Hl.
    rewrite !str_app_length in Hl. rewrite str_app_length. cbn [String.length]. lia.
  - apply (Hev "connected"); [done|done|simpl; lia].
  - apply (Hev "history"); [done|done|simpl; lia].
  - apply (Hev "message"); [done|done|simpl; lia].
  - repeat (constructor; [split|]); done || (cbn; lia).
Qed.

(** ** Reading a frame *)
Lemma TrimSuffix_cr l : one_line l = true -> TrimSuffix l (str1 CR) = l.
Proof. apply drop_cr_one_line. Qed.

Lemma bridge_events_app st l1 l2 :
  bridge_events st (l1 ++ l2) =
  let '(e1, st1) := bridge_events st l1 in
  let '(e2, st2) := bridge_events st1 l2 in (e1 ++ e2, st2).
Proof.
  revert st. induction l1 as [|l l1 IH]; intros st; cbn [app bridge_events].
  - by destruct (bridge_events st l2).
  - destruct (BridgeWatch.sse_step st l) as [st1 ev]. rewrite IH.
    destruct (bridge_events st1 l1) as [e1 st2]. destruct (bridge_events st2 l2) as [e2 st3]. by destruct ev.
Qed.

Lemma cli_events_app p l1 l2 :
  cli_events p (l1 ++ l2) =
  let '(e1, p1) := cli_events p l1 in
  let '(e2, p2) := cli_events p1 l2 in (e1 ++ e2, p2).
Proof.
  revert p. induction l1 as [|l l1 IH]; intros p; cbn [app cli_events].
  - by destruct (cli_events p l2).
  - destruct (Cli.feed p l) as [p1 f]. rewrite IH.
    destruct (cli_events p1 l1) as [e1 p2]. destruct (cli_events p2 l2) as [e2 p3]. by destruct f.
Qed.

Lemma bridge_event_lines event data :
  one_line event = true -> one_line data = true -> data <> "" ->
  bridge_events ("", "") ["event: " +:+ event; "data: " +:+ data; ""] = ([(event, data)], ("", "")).
Proof.
  intros He Hd Hne. cbn [bridge_events]. unfold BridgeWatch.sse_step.
  rewrite !TrimSuffix_cr by (rewrite ?one_line_app, ?He, ?Hd; done).
  rewrite !HasPrefix_app, !TrimPrefix_app.
  change (HasPrefix ("data: " +:+ data) "event: ") with false. cbv iota beta.
  rewrite bool_decide_eq_true_2 by done. done.
Qed.

Lemma cli_event_lines event data :
  one_line event = true -> one_line data = true -> event <> "" -> HasPrefix event " " = false ->
  HasPrefix data " " = false ->
  cli_events Cli.newParser ["event: " +:+ event; "data: " +:+ data; ""] = ([(event, data)], Cli.newParser).
Proof.
  intros He Hd Hne Hsp Hspd. cbn [cli_events]. unfold Cli.feed, Cli.field_value.
  rewrite !TrimSuffix_cr by (rewrite ?one_line_app, ?He, ?Hd; done).
  assert (forall p s, HasPrefix s " " = false -> TrimPrefix (TrimPrefix (p +:+ " " +:+ s) p) " " = s) as Htrim.
  { intros p s _. by rewrite !TrimPrefix_app. }
  change ("event: " +:+ event) with ("event:" +:+ " " +:+ event).
  change ("data: " +:+ data) with ("data:" +:+ " " +:+ data).
  rewrite !bool_decide_eq_false_2 by done. rewrite !HasPrefix_app, !Htrim by done.
  change (HasPrefix ("event:" +:+ " " +:+ event) ":") with false.
  change (HasPrefix ("data:" +:+ " " +:+ data) ":") with false.
  change (HasPrefix ("data:" +:+ " " +:+ data) "event:") with false. done.
Qed.

Lemma bridge_frame max f : frame_ok max f ->
  bridge_events ("", "") (frame_lines f) = (option_list (frame_event f), ("", "")).
Proof.
  unfold frame_ok. destruct f as [ms|s t|env|env|]; cbn [frame_event frame_lines option_list].
  - intros Hms. cbn [bridge_events]. unfold BridgeWatch.sse_step.
    rewrite !TrimSuffix_cr by (rewrite ?one_line_app, ?one_line_itoa; done). done.
  - intros [Hd _]. by apply (bridge_event_lines "connected").
  - intros [Hd _]. by apply (bridge_event_lines "history").
  - intros [Hd _]. by apply (bridge_event_lines "message").
  - done.
Qed.

Lemma cli_frame max f : frame_ok max f ->
  cli_events Cli.newParser (frame_lines f) = (option_list (frame_event f), Cli.newParser).
Proof.
  unfold frame_ok. destruct f as [ms|s t|env|env|]; cbn [frame_event frame_lines option_list].
  - intros Hms. cbn [cli_events]. unfold Cli.feed.
    rewrite !TrimSuffix_cr by (rewrite ?one_line_app, ?one_line_itoa; done). done.
  - intros [Hd _]. by apply (cli_event_lines "connected").
  - intros [Hd _]. by apply (cli_event_lines "history").
  - intros [Hd _]. by apply (cli_event_lines "message").
  - done.
Qed.

Lemma bridge_frames max fs : Forall (frame_ok max) fs ->
  bridge_events ("", "") (mjoin (frame_lines <$> fs)) = (omap frame_event fs, ("", "")).
Proof.
  induction 1 as [|f fs Hf _ IH]; [done|]. change (mjoin (frame_lines <$> f :: fs)) with (frame_lines f ++ mjoin (frame_lines <$> fs)).
  cbn [omap list_omap].
  rewrite bridge_events_app, (bridge_frame max) by done. cbv iota beta. rewrite IH. by destruct (frame_event f).
Qed.

Lemma cli_frames max fs : Forall (frame_ok max) fs ->
  cli_events Cli.newParser (mjoin (frame_lines <$> fs)) = (omap frame_event fs, Cli.newParser).
Proof.
  induction 1 as [|f fs Hf _ IH]; [done|]. change (mjoin (frame_lines <$> f :: fs)) with (frame_lines f ++ mjoin (frame_lines <$> fs)).
  cbn [omap list_omap].
  rewrite cli_events_app, (cli_frame max) by done. cbv iota beta. rewrite IH. by destruct (frame_event f).
Qed.

(** The lines both readers get of a stream, however it is cut into reads. *)
Lemma scan_frames max fs chunks :
  Cli.stream_max <= max -> Forall (frame_ok max) fs -> concat_str chunks = render_all fs ->
  scan_chunks max "" chunks = (mjoin (frame_lines <$> fs), false).
Proof.
  intros Hmax Hok Hc. rewrite scan_chunks_scan by (unfold Cli.stream_max in Hmax; lia).
  rewrite Hc, render_all_lines. clear Hc. apply scan_unlines.
  induction Hok as [|f fs Hf _ IH]; [constructor|].
  change (mjoin (frame_lines <$> f :: fs)) with (frame_lines f ++ mjoin (frame_lines <$> fs)).
  apply Forall_app. split; [|exact IH].
  eapply Forall_impl; [by apply frame_lines_fit|]. intros l [? ?]. split; [done|lia].
Qed.

Lemma bridge_sees fs chunks :
  Forall (frame_ok BridgeWatch.stream_max) fs -> concat_str chunks = render_all fs ->
  exists ls, scan_chunks BridgeWatch.stream_max "" chunks = (ls, false) /\
    bridge_events ("", "") ls = (omap frame_event fs, ("", "")).
Proof.
  intros Hok Hc. exists (mjoin (frame_lines <$> fs)). split; [by apply scan_frames|by eapply bridge_frames].
Qed.

(** C23: The bridge and the CLI, each with a line buffer and an SSE parser of its own, see the same
    events in what the server streams, and exactly the server's: whatever frames it writes
    (with data that fits the smaller buffer) and however the network cuts them into reads, both
    scanners split the text into the same lines without an error, and both parsers return the
    event and data of every frame that has them, in order and nothing else, with no partial
    event left over. *)
Theorem sse_readers_agree fs chunks :
  Forall (frame_ok Cli.stream_max) fs -> concat_str chunks = render_all fs ->
  exists ls, scan_chunks BridgeWatch.stream_max "" chunks = (ls, false) /\
    scan_chunks Cli.stream_max "" chunks = (ls, false) /\
    bridge_events ("", "") ls = (omap frame_event fs, ("", "")) /\
    cli_events Cli.newParser ls = (omap frame_event fs, Cli.newParser).
Proof.
  intros Hok Hc. exists (mjoin (frame_lines <$> fs)).
  split; [apply scan_frames; [done|by apply frames_wider|done]|]. split; [by apply scan_frames|].
  split; [by eapply bridge_frames|by eapply cli_frames].
Qed.

(** Messages and history of the server's own making meet the condition, when they fit. *)
Lemma message_frame_ok max env :
  wire_ok env -> Z.of_nat (String.length (Marshal (Envelope_json env))) + 6 < max ->
  frame_ok max (MessageEvent env) /\ frame_ok max (HistoryEvent env).
Proof. intros Hw Hl. assert (one_line (Marshal (Envelope_json env)) = true); [|by split]. by apply one_line_Marshal, spellable_Envelope. Qed.

(** The session ID is printed into the connected event as it is: with a double quote in it the
    data is not JSON. *)
Example connected_data_unescaped :
  Unmarshal (connected_data (String quote_mark "team") 0) = None.
Proof. vm_compute. reflexivity. Qed.
