(* ===== verification/BridgeWake.v ===== *)
(** * When the bridge wakes its agent

    What the events of a watch stream do to the bridge's state, how long a silent stream is
    kept, and that a requested wake-up is delivered. *)

From Stdlib Require Import Strings.Ascii Sorting.Sorted.
From S2P Require Import Prelude Rfc3339 Json JsonText Lines Http Signal Protocol Api Bridge BridgeWatch Sse.

#[local] Open Scope Z_scope.

(** ** Reading the server's envelopes *)
Lemma string_field_dec acc name kvs : string_field_from acc name kvs = field_from dec_string acc name kvs.
Proof.
  revert acc. induction kvs as [|[k v] kvs IH]; intros acc; [done|]. simpl.
  case_bool_decide; [|done]. by destruct v; simpl.
Qed.

(** What the bridge looks at of an envelope. *)
Definition view (env : Envelope) : sseEnvelope :=
  mkSse (Type_ env) (Protocol.From env) (Protocol.To env) (Protocol.Sequence env).

Lemma dec_view env : in_int64 (Protocol.Sequence env) ->
  (forall p, Protocol.Payload env = Some p -> spellable p) ->
  dec_sseEnvelope (Marshal (Envelope_json env)) = Some (view env).
Proof.
  intros Hz Hp. unfold dec_sseEnvelope. rewrite Unmarshal_Marshal by by apply spellable_Envelope_json.
  clear Hp. unfold Envelope_json. rewrite retyped_obj. cbn [fmap list_fmap].
  rewrite !retyped_fld_str, retyped_fld_int, retyped_fld_raw.
  change (retyped_fld (fld "type" ?x)) with (fld "type" x).
  change (retyped_fld (fld "timestamp" ?x)) with (fld "timestamp" (retyped x)).
  unfold obj, string_field, view. cbn [body_fields mbind option_bind]. rewrite !string_field_dec.
  unfold in_int64 in Hz. destruct env as [ty rid sid fr to pl sq ts].
  cbn [Type_ RequestID env_SessionID From To Payload Sequence Timestamp] in *.
  by repeat (read_field; cbn [mbind option_bind]).
Qed.

Section Wake.
Context {N : Type} `{!HttpClient N} (b : Config).
Abbreviation W := (World N).
Implicit Types (w : W) (e : Env) (s : State).

(** ** Events *)
Definition stale (last : Z) (env : sseEnvelope) : bool :=
  (0 <? e_Sequence env) && (e_Sequence env <=? last).
Definition watermark (last : Z) (env : sseEnvelope) : Z :=
  if 0 <? e_Sequence env then e_Sequence env else last.

(** What the agent should hear of: a message to the whole session, or a change of its shared
    state, by another agent; and a message, task or file for it. *)
Definition to_all (env : sseEnvelope) : Prop :=
  (e_Type env = "message" /\ e_To env = "*") \/
  e_Type env ∈ ["broadcast"; "scratchpad_update"; "leader_info"].
Definition to_me (env : sseEnvelope) : Prop :=
  e_Type env ∈ ["message"; "task_assign"; "task_status"; "task_result"; "file_share"] /\
  e_To env = agentID b.
Definition concerns (env : sseEnvelope) : Prop :=
  (to_all env /\ e_From env <> agentID b) \/ (~ to_all env /\ to_me env).

#[export] Instance concerns_dec env : Decision (concerns env).
Proof. unfold concerns, to_all, to_me. apply _. Defined.

Lemma relevant_concerns env : relevant b env = true <-> concerns env.
Proof.
  unfold relevant, concerns, to_all, to_me.
  repeat case_bool_decide; rewrite ?elem_of_cons, ?elem_of_nil in *; intuition congruence.
Qed.

Lemma filter_relevant (envs : list sseEnvelope) :
  filter (fun env => relevant b env = true) envs = filter concerns envs.
Proof. apply list_filter_iff. apply relevant_concerns. Qed.

(** Those of a list of events the agent is woken for, from a watermark on. *)
Fixpoint wakes (last : Z) (envs : list sseEnvelope) : list sseEnvelope :=
  match envs with
  | [] => []
  | env :: envs' =>
      if stale last env || negb (relevant b env) then wakes last envs'
      else env :: wakes (watermark last env) envs'
  end.

Definition pending_of (env : sseEnvelope) : pendingSignalInfo :=
  mkPending (trigger_type env) (e_From env) (e_Sequence env).

(** The state after waking for the events [ws]. *)
Definition woken (ws : list sseEnvelope) (s : State) : State :=
  foldl (fun s env => with_signalCh true (with_pending (Some (pending_of env))
                        (with_lastSeq (watermark (lastSeq s) env) s))) s ws.

Definition live_event (ev : string * string) : option sseEnvelope :=
  if bool_decide (ev.1 = "message") then dec_sseEnvelope ev.2 else None.

Lemma with_lastSeq_id s : with_lastSeq (lastSeq s) s = s.
Proof. by destruct s. Qed.

Lemma put_st w : put the_st (st w) w = w.
Proof. by destruct w. Qed.

Lemma handleSSEEvent_wp ev (Q : unit -> W -> Env -> Prop) w e :
  Q tt (put the_st (woken (wakes (lastSeq (st w)) (omap live_event [ev])) (st w)) w) e ->
  wp (handleSSEEvent b ev.1 ev.2) Q w e.
Proof.
  destruct ev as [ty data]. unfold handleSSEEvent, live_event. cbn [fst snd omap list_omap].
  destruct (decide (ty = "message")) as [->|Hty].
  2: { rewrite (bool_decide_eq_true_2 (ty <> "message")), (bool_decide_eq_false_2 (ty = "message")) by done. unfold woken; cbn [wakes foldl].
       rewrite put_st. intros HQ. by wps. }
  rewrite (bool_decide_eq_false_2 ("message" <> "message")), (bool_decide_eq_true_2 ("message" = "message")) by tauto.
  destruct (dec_sseEnvelope data) as [env|]; unfold woken; cbn [wakes foldl].
  2: { rewrite put_st. intros HQ. by wps. }
  intros HQ. wps. change (lastSeq (get the_st w)) with (lastSeq (st w)). unfold stale in HQ.
  destruct ((0 <? e_Sequence env) && (e_Sequence env <=? lastSeq (st w))); cbn [orb foldl] in HQ.
  { rewrite put_st in HQ. wps. by rewrite put_get. }
  destruct (relevant b env); cbn [orb negb foldl] in HQ |- *.
  2: { rewrite put_st in HQ. wps. by rewrite put_get. }
  unfold requestSignal, watermark in *.
  destruct (0 <? e_Sequence env); wps; rewrite ?put_get, ?put_put, ?get_put.
  - exact HQ.
  - rewrite with_lastSeq_id in HQ. exact HQ.
Qed.

Lemma wakes_app last l1 l2 :
  wakes last (l1 ++ l2) = wakes last l1 ++ wakes (foldl watermark last (wakes last l1)) l2.
Proof.
  revert last. induction l1 as [|env l1 IH]; intros last; [done|]. cbn [app wakes].
  destruct (_ || _); [apply IH|]. cbn [app foldl]. by rewrite IH.
Qed.

Lemma lastSeq_woken ws s : lastSeq (woken ws s) = foldl watermark (lastSeq s) ws.
Proof. revert s. induction ws as [|env ws IH]; intros s; [done|]. unfold woken in *. simpl. by rewrite IH. Qed.

Lemma woken_app ws1 ws2 s : woken (ws1 ++ ws2) s = woken ws2 (woken ws1 s).
Proof. unfold woken. by rewrite foldl_app. Qed.

(** The lines of a stream do what its events do. *)
Lemma stream_lines_wp ls sst (Q : string * string -> W -> Env -> Prop) w e :
  Q (bridge_events sst ls).2
    (put the_st (woken (wakes (lastSeq (st w)) (omap live_event (bridge_events sst ls).1)) (st w)) w) e ->
  wp (stream_lines b sst ls) Q w e.
Proof.
  revert sst w. induction ls as [|l ls IH]; intros sst w; cbn [stream_lines bridge_events].
  - cbn [fst snd omap list_omap wakes woken foldl]. rewrite put_st.
    intros HQ. by wps.
  - destruct (sse_step sst l) as [sst' ev]. destruct (bridge_events sst' ls) as [evs sst''] eqn:Hev.
    specialize (IH sst'). rewrite Hev in IH. cbn [fst snd] in *. intros HQ. wps.
    destruct ev as [[ty data]|]; [|wps; by apply IH].
    apply (handleSSEEvent_wp (ty, data)). apply IH. cbn [st the_st put].
    rewrite lastSeq_woken. cbn [omap list_omap] in HQ |- *.
    destruct (live_event (ty, data)) as [env|]; [|exact HQ].
    change (env :: omap live_event evs) with ([env] ++ omap live_event evs) in HQ.
    rewrite wakes_app, woken_app in HQ. exact HQ.
Qed.

(** *** Which events wake *)
Definition positive (envs : list sseEnvelope) : list Z :=
  filter (fun z => 0 < z) (e_Sequence <$> envs).

Lemma wakes_relevant last envs : wakes last envs `sublist_of` filter (fun env => relevant b env = true) envs.
Proof.
  revert last. induction envs as [|env envs IH]; intros last; [done|]. cbn [wakes]. rewrite filter_cons.
  destruct (relevant b env) eqn:Hr.
  - rewrite decide_True by done. destruct (stale last env); cbn [orb negb].
    + by apply sublist_cons.
    + by apply sublist_skip.
  - rewrite decide_False by done. by rewrite orb_true_r.
Qed.

(** No sequence number wakes twice, nor one that was seen before. *)
Lemma wakes_rising last envs : StronglySorted Z.lt (last :: positive (wakes last envs)).
Proof.
  unfold positive. revert last. induction envs as [|env envs IH]; intros last; [by repeat constructor|].
  cbn [wakes]. destruct (stale last env) eqn:Hs; cbn [orb]; [apply IH|].
  destruct (relevant b env); cbn [negb]; [|apply IH]. rewrite fmap_cons, filter_cons.
  unfold watermark. unfold stale in Hs. case_decide as Hp.
  - rewrite (proj2 (Z.ltb_lt 0 (e_Sequence env))) by done. specialize (IH (e_Sequence env)).
    constructor; [done|]. apply StronglySorted_inv in IH as [_ Hall].
    assert (last < e_Sequence env) by (destruct (Z.ltb_spec 0 (e_Sequence env)); simpl in Hs; lia).
    constructor; [done|]. eapply Forall_impl; [exact Hall|]. simpl. lia.
  - rewrite (proj2 (Z.ltb_ge 0 (e_Sequence env))) by lia. apply IH.
Qed.

(** When the relevant events come in order and are new, each wakes. *)
Lemma wakes_all last envs :
  StronglySorted Z.lt (last :: positive (filter (fun env => relevant b env = true) envs)) ->
  wakes last envs = filter (fun env => relevant b env = true) envs.
Proof.
  unfold positive. revert last. induction envs as [|env envs IH]; intros last; [done|].
  cbn [wakes]. rewrite filter_cons. destruct (relevant b env); cbn [negb].
  2: { rewrite decide_False by done. rewrite orb_true_r. apply IH. }
  rewrite decide_True, fmap_cons, filter_cons by done. unfold stale, watermark. case_decide as Hp.
  - rewrite (proj2 (Z.ltb_lt 0 (e_Sequence env))) by done. intros [Hss Hall]%StronglySorted_inv.
    apply Forall_cons in Hall as [Hlt _].
    rewrite (proj2 (Z.leb_gt (e_Sequence env) last)) by done. cbn [andb orb]. f_equal. by apply IH.
  - rewrite (proj2 (Z.ltb_ge 0 (e_Sequence env))) by lia. cbn [andb orb]. intros Hs. f_equal. by apply IH.
Qed.

(** *** The same, said without a watermark

    An event is due after the events [before] when the agent is concerned and its number, if it
    is a positive one, is above [last] and above that of every event before it the agent was
    concerned with. *)
Definition due (last : Z) (before : list sseEnvelope) (env : sseEnvelope) : Prop :=
  concerns env /\ (0 < e_Sequence env ->
    last < e_Sequence env /\ Forall (fun x => e_Sequence x < e_Sequence env) (filter concerns before)).

#[export] Instance due_dec last before env : Decision (due last before env).
Proof. unfold due. apply _. Defined.

Fixpoint due_events (last : Z) (before envs : list sseEnvelope) : list sseEnvelope :=
  match envs with
  | [] => []
  | env :: envs' =>
      (if decide (due last before env) then [env] else []) ++ due_events last (before ++ [env]) envs'
  end.

(** [m] is a watermark that stands for [last] and the events [before]. *)
Definition stands_for (m last : Z) (before : list sseEnvelope) : Prop :=
  forall z, 0 < z -> (m < z <-> last < z /\ Forall (fun x => e_Sequence x < z) (filter concerns before)).

Lemma stands_for_other m last before env :
  ~ concerns env -> stands_for m last before -> stands_for m last (before ++ [env]).
Proof.
  intros Hc H z Hz. rewrite filter_app, filter_cons_False, filter_nil, app_nil_r by done. by apply H.
Qed.

Lemma stands_for_more m last before env m' :
  concerns env -> stands_for m last before ->
  (forall z, 0 < z -> (m' < z <-> m < z /\ e_Sequence env < z)) -> stands_for m' last (before ++ [env]).
Proof.
  intros Hc H Hm z Hz. rewrite filter_app, filter_cons_True, filter_nil by done.
  rewrite Forall_app, Forall_singleton, Hm, (H z Hz) by done. tauto.
Qed.

Lemma wakes_due m last before envs :
  stands_for m last before -> wakes m envs = due_events last before envs.
Proof.
  revert m before. induction envs as [|env envs IH]; intros m before Hm; [done|]. cbn [wakes due_events].
  destruct (decide (concerns env)) as [Hc|Hc].
  2: { rewrite (decide_False (P := due _ _ _)) by (unfold due; tauto).
       assert (relevant b env = false) as ->.
       { destruct (relevant b env) eqn:Hr; [|done]. by apply relevant_concerns in Hr. }
       rewrite orb_true_r. by apply IH, stands_for_other. }
  rewrite (proj2 (relevant_concerns env) Hc). cbn [negb]. rewrite orb_false_r.
  destruct (stale m env) eqn:Hs; unfold stale in Hs.
  - apply andb_true_iff in Hs as [Hp%Z.ltb_lt Hle%Z.leb_le].
    rewrite decide_False by (unfold due; rewrite <- (Hm _ Hp); lia).
    apply IH. eapply stands_for_more; [done..|]. lia.
  - assert (due last before env) as Hd.
    { split; [done|]. intros Hp. apply (Hm _ Hp). apply andb_false_iff in Hs. lia. }
    rewrite decide_True by done. cbn [app]. f_equal. apply IH. eapply stands_for_more; [done..|].
    unfold watermark. apply andb_false_iff in Hs. destruct (Z.ltb_spec 0 (e_Sequence env)); lia.
Qed.

Lemma stands_for_start last : stands_for last last [].
Proof. intros z _. rewrite filter_nil. split; [by intros|tauto]. Qed.

(** What waking for rising numbers leaves as the watermark. *)
Lemma watermark_max last ws :
  StronglySorted Z.lt (last :: positive ws) -> foldl watermark last ws = foldl Z.max last (positive ws).
Proof.
  unfold positive. revert last. induction ws as [|env ws IH]; intros last; [done|].
  rewrite fmap_cons, filter_cons. cbn [foldl]. unfold watermark at 2. case_decide as Hp.
  - rewrite (proj2 (Z.ltb_lt 0 (e_Sequence env))) by done. intros [Hs Hall]%StronglySorted_inv.
    apply Forall_cons in Hall as [Hl _]. cbn [foldl]. rewrite Z.max_r by lia. by apply IH.
  - rewrite (proj2 (Z.ltb_ge 0 (e_Sequence env))) by lia. apply IH.
Qed.

Lemma woken_signalCh ws s : signalCh (woken ws s) = signalCh s || bool_decide (ws <> []).
Proof.
  destruct ws as [|env ws _] using rev_ind; [by rewrite orb_false_r|].
  rewrite woken_app, bool_decide_eq_true_2 by by destruct ws. by rewrite orb_true_r.
Qed.

Lemma woken_pending ws env s : pendingSignal (woken (ws ++ [env]) s) = Some (pending_of env).
Proof. by rewrite woken_app. Qed.

Lemma woken_pending_last ws s :
  pendingSignal (woken ws s) = match last ws with Some env => Some (pending_of env)
                                                | None => pendingSignal s end.
Proof. destruct ws as [|env ws _] using rev_ind; [done|]. by rewrite woken_pending, last_snoc. Qed.
End Wake.

(** ** Time between reads *)

Lemma now_quick {W} slack (Q : Time -> W -> Env -> Prop) (w : W) e :
  0 <= slack -> quick slack e ->
  (forall e', quick slack e' -> clock e <= clock e' <= clock e + slack -> Q (clock e') w e') ->
  wp nowP Q w e.
Proof.
  intros H0 Hq HQ. apply wp_act. unfold wpA, now, quick in *. destruct (ticks e) as [|d ds] eqn:Ht.
  - apply HQ; [by rewrite Ht|lia].
  - apply Forall_cons in Hq as [Hd Hq].
    apply (HQ (mkEnv (clock e + Z.of_N d) ds (orders e) (coins e) (entropy e))); [done|]. cbn [clock]. lia.
Qed.

Lemma sleep_quick {S} slack t (Q : unit -> S -> Env -> Prop) (s : S) e :
  quick slack e ->
  (forall e', quick slack e' -> clock e' = Z.max (clock e) t -> Q tt s e') -> wpA (sleep_until t) Q s e.
Proof. intros Hq HQ. by apply HQ. Qed.

Section Stream.
Context {N : Type} `{!HttpClient N} (b : Config).
Abbreviation W := (World N).
Implicit Types (w : W) (e : Env).

Lemma watchdog_bounds t0 last :
  last + sseWatchdogTimeout < watchdog t0 last <= last + sseWatchdogTimeout + sseWatchdogTick.
Proof. unfold watchdog. pose proof (tick_after_bounds t0 sseWatchdogTick (last + sseWatchdogTimeout) ltac:(done)). lia. Qed.

(** Something that arrives in time is waited for. *)
Lemma await_in_time slack t0 last d (Q : bool -> W -> Env -> Prop) w e :
  0 <= slack -> quick slack e -> clock e <= last + slack -> d + 2 * slack <= sseWatchdogTimeout ->
  (forall e', quick slack e' -> e ≼ e' -> Q true w e') ->
  wp (await t0 last d) Q w e.
Proof.
  intros H0 Hq Hc Hd HQ. pose proof (watchdog_bounds t0 last). unfold await. wps.
  eapply (now_quick slack); [done..|]. intros e1 Hq1 Hc1. rewrite (proj2 (Z.ltb_ge (watchdog t0 last) (clock e1 + d))) by lia. wps.
  eapply sleep_quick; [done|]. intros e2 Hq2 Hc2. wps. apply HQ; [done|clock].
Qed.

Lemma read_stream_wp slack t0 reads d_end ls : forall last p sst w e (Q : string -> W -> Env -> Prop),
  0 <= slack -> quick slack e -> clock e <= last + slack ->
  Forall (fun r => r.2 <> "" /\ r.1 + 2 * slack <= sseWatchdogTimeout) reads ->
  d_end + 2 * slack <= sseWatchdogTimeout ->
  scan_chunks stream_max p reads.*2 = (ls, false) ->
  (forall e', e ≼ e' -> Q "stream ended"
     (put the_st (woken (wakes b (lastSeq (st w)) (omap live_event (bridge_events sst ls).1)) (st w)) w) e') ->
  wp (read_stream b t0 last p sst reads d_end None) Q w e.
Proof.
  revert ls. induction reads as [|[d chunk] reads IH]; intros ls last p sst w e Q H0 Hq Hc Hr Hd Hls HQ;
    cbn [read_stream].
  - wps. eapply await_in_time; [done..|]. intros e1 Hq1 He1. wps. apply stream_lines_wp. wps.
    cbn [fmap list_fmap scan_chunks] in Hls. simplify_eq. by apply HQ.
  - apply Forall_cons in Hr as [[Hne Hgap] Hr]. cbn [fst snd] in *. wps.
    eapply await_in_time; [done..|]. intros e1 Hq1 He1. cbn [negb]. wps.
    eapply (now_quick slack); [done..|]. intros e2 Hq2 Hc2. rewrite bool_decide_eq_false_2 by done.
    cbn [fmap list_fmap snd scan_chunks] in Hls.
    destruct (scan_more stream_max p chunk) as [l1 [p'|]]; [|done].
    destruct (scan_chunks stream_max p' reads.*2) as [l2 b2] eqn:Hl2. injection Hls as <- ->.
    wps. apply stream_lines_wp. rewrite bridge_events_app in HQ.
    destruct (bridge_events sst l1) as [ev1 sst1]. cbn [fst snd] in *.
    eapply (IH l2); [done|done|lia|done..|]. intros e3 He3. cbn [st the_st put].
    rewrite lastSeq_woken, <- woken_app, <- wakes_app, <- omap_app.
    destruct (bridge_events sst1 l2) as [ev2 sst2]. cbn [fst]. apply HQ. clock.
Qed.

(** What the live messages of a stream look like to the bridge. *)
Definition live (fs : list frame) : list sseEnvelope :=
  omap (fun f => match f with MessageEvent env => Some (view env) | _ => None end) fs.

Definition live_wire (f : frame) : Prop :=
  match f with
  | MessageEvent env => in_int64 (Protocol.Sequence env) /\
      forall p, Protocol.Payload env = Some p -> spellable p
  | _ => True
  end.

Lemma live_events fs : Forall live_wire fs -> omap live_event (omap frame_event fs) = live fs.
Proof.
  unfold live. induction 1 as [|f fs Hf _ IH]; [done|]. cbn [omap list_omap].
  destruct f as [ms|s t|env|env|]; cbn [frame_event live_wire] in *; cbn [omap list_omap]; [exact IH| | | |exact IH].
  - exact IH.
  - exact IH.
  - unfold live_event at 1. cbn [fst snd]. destruct Hf. rewrite bool_decide_eq_true_2, dec_view by done. by f_equal.
Qed.

(** C19: A stream the server keeps alive (it never lets 45 s pass without a frame) is read to its
    end, and the agent is woken for what it carries, however the network cuts it up: the
    wake-up channel is set exactly when some live message was one to wake for (addressed to
    this agent, broadcast or changed by another, of a type the bridge knows) that the watermark
    did not show as old; the metadata of the last such message is what receive_messages will
    be told; replayed history, pings and the agent's own changes wake nobody. When the relevant
    messages come with rising sequence numbers above the watermark, each of them wakes. (For
    frames that fit the bridge's 1 MiB line buffer and envelopes that survive JSON, on a machine
    on which two readings of the clock are at most [slack] apart when nothing waits.) *)
Theorem stream_wakes slack t0 lastRead fs reads d_end w e :
  0 <= slack -> quick slack e -> clock e <= lastRead + slack ->
  Forall (frame_ok BridgeWatch.stream_max) fs -> Forall live_wire fs -> concat_str reads.*2 = render_all fs ->
  Forall (fun r => r.2 <> "" /\ r.1 + 2 * slack <= sseWatchdogTimeout) reads ->
  d_end + 2 * slack <= sseWatchdogTimeout ->
  wp (read_stream b t0 lastRead "" ("", "") reads d_end None) (fun msg w' _ =>
    let ws := wakes b (lastSeq (st w)) (live fs) in
    let rel := filter (concerns b) (live fs) in
    msg = "stream ended" /\ w' = put the_st (st w') w /\
    signalCh (st w') = signalCh (st w) || bool_decide (ws <> []) /\
    pendingSignal (st w') = match last ws with Some env => Some (pending_of env)
                                            | None => pendingSignal (st w) end /\
    ws `sublist_of` rel /\
    (StronglySorted Z.lt (lastSeq (st w) :: positive rel) -> ws = rel)) w e.
Proof.
  intros H0 Hq Hc Hok Hwire Htext Hr Hd.
  destruct (bridge_sees fs reads.*2 Hok Htext) as (ls & Hls & Hev).
  eapply read_stream_wp; [done..|]. intros e' _. rewrite Hev. cbn [fst]. rewrite live_events by done.
  cbn [st the_st put]. split; [done|]. split; [done|]. split; [apply woken_signalCh|].
  rewrite <- filter_relevant. split; [apply woken_pending_last|split; [apply wakes_relevant|apply wakes_all]].
Qed.

(** C25: Whatever text a stream carries, replays, duplicates and frames no server would write
    included, the agent is woken for exactly those of its message events that are due: events
    the agent is concerned with whose sequence number is above the watermark and above that of
    every earlier event of the text it was concerned with. So no positive number wakes twice,
    nor one at or below the watermark, and the watermark ends at the highest number that woke.
    (An event without a positive number, which the server never writes, is always new: it wakes
    each time and leaves the watermark.) The channel and the metadata of the wake-up are set by
    the last of them, and nothing else changes. *)
Theorem wakes_at_most_once sst ls w e :
  let envs := omap live_event (bridge_events sst ls).1 in
  let last_ := lastSeq (st w) in
  let ws := due_events b last_ [] envs in
  wp (stream_lines b sst ls) (fun _ w' _ =>
    w' = put the_st (woken ws (st w)) w /\
    StronglySorted Z.lt (last_ :: positive ws) /\
    lastSeq (st w') = foldl Z.max last_ (positive ws) /\
    signalCh (st w') = signalCh (st w) || bool_decide (ws <> []) /\
    pendingSignal (st w') = match last ws with Some env => Some (pending_of env)
                                            | None => pendingSignal (st w) end) w e.
Proof.
  intros envs last_ ws.
  assert (wakes b last_ envs = ws) as Hws by (apply wakes_due, stands_for_start).
  pose proof (wakes_rising b last_ envs) as Hs. rewrite Hws in Hs.
  apply stream_lines_wp. fold envs last_. rewrite Hws. cbn [st the_st put].
  split; [done|]. split; [exact Hs|]. split; [by rewrite lastSeq_woken, watermark_max|].
  split; [apply woken_signalCh|]. apply woken_pending_last.
Qed.

(** The time until the next read, or the end. *)
Definition next_gap (reads : list (Duration * string)) (d_end : Duration) : Duration :=
  match reads with (d, _) :: _ => d | [] => d_end end.

(** C32: A stream that falls silent is given up: when nothing arrives for fifty seconds after the
    last read, the watchdog ends the stream, at the latest fifty seconds after that read (or as
    soon as the bridge looks), so the loop reconnects instead of waiting for ever; and never
    earlier than forty-five seconds after it, three times the server's ping interval. *)
Theorem silent_stream_dropped slack t0 last pending sst reads d_end err w e :
  0 <= slack -> quick slack e ->
  last + sseWatchdogTimeout + sseWatchdogTick < clock e + next_gap reads d_end ->
  wp (read_stream b t0 last pending sst reads d_end err) (fun msg _ e' =>
    msg = "stream read: context canceled" /\
    last + sseWatchdogTimeout < clock e' <=
      Z.max (clock e + slack) (last + sseWatchdogTimeout + sseWatchdogTick)) w e.
Proof.
  intros H0 Hq Hgap. pose proof (watchdog_bounds t0 last) as Hw.
  assert (forall d (Q : bool -> W -> Env -> Prop), last + sseWatchdogTimeout + sseWatchdogTick < clock e + d ->
    (forall e', last + sseWatchdogTimeout < clock e' <=
       Z.max (clock e + slack) (last + sseWatchdogTimeout + sseWatchdogTick) -> Q false w e') ->
    wp (await t0 last d) Q w e) as Hawait.
  { intros d Q Hd HQ. unfold await. wps. eapply (now_quick slack); [done..|]. intros e1 Hq1 Hc1.
    rewrite (proj2 (Z.ltb_lt (watchdog t0 last) (clock e1 + d))) by lia. wps.
    eapply sleep_quick; [done|]. intros e2 Hq2 Hc2. wps. apply HQ. lia. }
  destruct reads as [|[d chunk] reads]; cbn [read_stream next_gap] in *; wps; apply Hawait; try done;
    intros e' He'; cbn [negb]; wps; apply stream_lines_wp; by wps.
Qed.

(** ** Back-off *)
Lemma rand_int63n_wp {S} n (Q : Z -> S -> Env -> Prop) (s : S) e :
  0 < n -> (forall j e', 0 <= j < n -> e ≼ e' -> Q j s e') -> wpA (rand_int63n n) Q s e.
Proof.
  intros Hn HQ. unfold rand_int63n. wps. apply wpA_rand. intros bs e' _ He. wps.
  apply HQ; [|done]. by apply Z.mod_pos_bound.
Qed.

Lemma backoffJitter_wp {S} d max (Q : Duration -> S -> Env -> Prop) (s : S) e :
  0 <= d -> 0 <= max ->
  (forall r e', Z.min d max / 2 <= r <= Z.min d max -> e ≼ e' -> Q r s e') ->
  wpA (backoffJitter d max) Q s e.
Proof.
  intros Hd Hm HQ. unfold backoffJitter. replace (if max <? d then max else d) with (Z.min d max)
    by (destruct (Z.ltb_spec max d); lia).
  set (x := Z.min d max) in *. assert (0 <= x) by lia. rewrite Z.quot_div_nonneg by lia.
  assert (0 <= x / 2 /\ x / 2 + x / 2 <= x) by (Z.to_euclidean_division_equations; lia).
  wps. apply rand_int63n_wp; [lia|]. intros j e' Hj He. wps. apply HQ; [lia|done].
Qed.
End Stream.
