(* ===== verification/BridgeLaws.v ===== *)
(** * The bridge's loops and requests, over any network

    How the bridge paces its reconnections, when it registers again, and that a requested
    wake-up reaches the host. *)

From S2P Require Import Prelude Json JsonText GoAny Http Signal Bridge BridgeTools BridgeWatch.
From S2P Require Import BridgeWake.

#[local] Open Scope Z_scope.

(** ** Only time passes *)
Ltac fwd :=
  repeat first
    [ progress intros
    | apply forward_bind
    | apply forward_ret
    | apply forward_now
    | apply forward_within
    | solve [apply forward_atomically; eauto with go]
    | apply Do_forward
    | apply Open_forward
    | solve [eauto with go]
    | case_match ].

Section Paced.
Context {N : Type} `{!HttpClient N} `{!HttpClock N} (b : Config).
Abbreviation W := (World N).
Implicit Types (w : W) (e : Env).

Lemma forward_ensureInit : forward (W := W) (ensureInit b).
Proof. unfold ensureInit, doRequestNow. fwd. Qed.
Lemma forward_invalidate : forward (W := W) invalidateRegistration.
Proof. unfold invalidateRegistration. fwd. Qed.
#[local] Hint Resolve forward_ensureInit forward_invalidate : go.

Lemma forward_doRequest m p x : forward (W := W) (doRequest b m p x).
Proof. unfold doRequest, doRequestNow. fwd. Qed.
#[local] Hint Resolve forward_doRequest : go.

Lemma forward_doJSON m p x : forward (W := W) (doJSON b m p x).
Proof. unfold doJSON. fwd. Qed.
#[local] Hint Resolve forward_doJSON : go.

Lemma forward_peekMailbox : forward (W := W) (peekMailbox b).
Proof. unfold peekMailbox. fwd. Qed.
#[local] Hint Resolve forward_peekMailbox : go.

Lemma forward_connect_signal : forward (W := W) (connect_signal b).
Proof. unfold connect_signal, maybeWakeOnConnect, requestSignal. fwd. Qed.
Lemma forward_initLastSeq : forward (W := W) (initLastSeq b).
Proof. unfold initLastSeq. fwd. Qed.
#[local] Hint Resolve forward_connect_signal forward_initLastSeq : go.

Lemma forward_stream_lines sst ls : forward (W := W) (stream_lines b sst ls).
Proof.
  intros w e. apply stream_lines_wp. clock.
Qed.
#[local] Hint Resolve forward_stream_lines : go.

Lemma forward_await t0 last d : forward (W := W) (await t0 last d).
Proof. unfold await. fwd. Qed.
#[local] Hint Resolve forward_await : go.

Lemma forward_read_stream reads : forall t0 last p sst d err,
  forward (W := W) (read_stream b t0 last p sst reads d err).
Proof. induction reads as [|[d chunk] reads IH]; intros; cbn [read_stream]; fwd. Qed.
#[local] Hint Resolve forward_read_stream : go.

Lemma forward_watchStream : forward (W := W) (watchStream b).
Proof. unfold watchStream, getWatchToken. fwd. Qed.

Lemma sleepCtx_wp d (Q : bool -> W -> Env -> Prop) w e :
  (forall slept e', e ≼ e' -> (slept = true -> clock e + d <= clock e') -> Q slept w e') ->
  wp (sleepCtx d) Q w e.
Proof.
  intros HQ. unfold sleepCtx, ctx_done. wps. apply wpA_flip. intros [] e1 He1; wps; [by apply HQ|].
  wp_now e2 He2. apply wpA_sleep. intros e3 He3 Hs. wps. apply HQ; [clock|]. intros _. clock.
Qed.

(** Between two attempts to open the watch stream the bridge waits at least half a second and
    at most thirty, and that long really passes; the wait at most doubles, and unless a stream
    that stayed up for thirty seconds put it back to half a second it does not shrink, up to the
    jitter at the cap. *)
Theorem reconnects_paced backoff w e :
  sseBaseBackoff <= backoff <= sseMaxBackoff ->
  wp (sse_round b backoff) (fun next _ e' => e ≼ e' /\ forall d, next = Some d ->
    sseBaseBackoff <= d <= sseMaxBackoff /\ d <= 2 * backoff /\ clock e + d <= clock e' /\
    (d = sseBaseBackoff \/ Z.min backoff (sseMaxBackoff / 2) <= d)) w e.
Proof.
  intros Hb. unfold sse_round, ctx_done. wps. apply wpA_flip. intros [] e1 He1; wps; [done|].
  wp_now e2 He2. apply wp_forward; [apply forward_watchStream|]. intros msg w3 e3 He3. wps.
  apply wpA_flip. intros [] e4 He4; wps; [split; [clock|done]|]. wp_now e5 He5.
  unfold sseBaseBackoff, sseMaxBackoff, sseHealthyUptime, second, millisecond in *.
  destruct (Z.leb_spec (30 * 10 ^ 9) (clock e5 - clock e2)); wps; [|apply backoffJitter_wp; [lia|lia|];
    intros d e6 Hd He6; wps]; apply sleepCtx_wp; intros [] e7 He7 Hs; wps;
    (split; [clock|]); intros d' [= <-]; specialize (Hs eq_refl).
  - split; [done|]. split; [lia|]. split; [clock|by left].
  - assert (Z.min (backoff * 2) (30 * 10 ^ 9) / 2 = Z.min backoff (15 * 10 ^ 9)) as Hm
      by (destruct (Z.le_gt_cases backoff (15 * 10 ^ 9)); Z.to_euclidean_division_equations; lia).
    rewrite Hm in Hd. change (30 * 10 ^ 9 / 2) with (15 * 10 ^ 9).
    split; [lia|]. split; [lia|]. split; [clock|right; lia].
Qed.
End Paced.

(** ** Calls, over any network *)
(** A request as it goes out. *)
Definition request (b : Config) (method path : string) (body : option string) : HttpRequest :=
  mkHttpRequest method (httpBase b +:+ path) ("Bearer " +:+ psk b) (agentID b)
    (match body with Some _ => "application/json" | None => "" end) body.
(** What a reply makes of a call: its result, and whether the bridge stays registered. *)
Definition call_result (r : result HttpResponse) : result json :=
  match r with
  | Err msg => Err msg
  | Ok r =>
      match h_text r with
      | Err msg => Err ("read response: " +:+ msg)
      | Ok text => if 400 <=? h_status r
                   then Err ("server error " +:+ status_text (h_status r) (Ok text))
                   else Ok (any_of text)
      end
  end.
Definition refused (r : result HttpResponse) : bool :=
  match r with
  | Err _ => true
  | Ok r => match h_text r with
            | Err _ => false
            | Ok _ => bool_decide (h_status r = StatusUnauthorized \/ h_status r = StatusForbidden)
            end
  end.

Section Calls.
Context {N : Type} `{!HttpClient N} (b : Config).
Abbreviation W := (World N).
Implicit Types (w : W) (e : Env).

(** The bridge after the network's reply to a call. *)
Definition replied (r : result HttpResponse) (w : W) : W :=
  if refused r then put the_st (with_registration false "" (st w)) w else w.

Lemma doJSON_any_wp m p x (Q : result json -> W -> Env -> Prop) w e :
  wp (ensureInit b) (fun init w1 e1 => init = Ok tt /\
    wp (Do (request b m p (Marshal <$> x)))
       (fun r n e2 => Q (call_result r) (replied r (put the_net n w1)) e2) (net w1) e1) w e ->
  wp (doJSON b m p x) Q w e.
Proof.
  intros HQ. unfold doJSON, doRequest, doRequestNow. wps. eapply wp_mono; [exact HQ|].
  intros init w1 e1 (-> & HDo). wps. eapply wp_mono; [exact HDo|].
  intros r n e2 HQ1. unfold replied, call_result, refused in *.
  destruct r as [r|msg]; wps; [|exact HQ1].
  destruct (h_text r) as [text|msg]; wps; [|exact HQ1]. unfold invalidateRegistration.
  case_bool_decide; wps; destruct (400 <=? h_status r); by wps.
Qed.

(** A registered bridge sends its requests right away. *)
Lemma ensureInit_registered (Q : result unit -> W -> Env -> Prop) w e :
  initialized (st w) = true -> Q (Ok tt) w e -> wp (ensureInit b) Q w e.
Proof.
  intros Hi HQ. unfold ensureInit. wps. change (initialized (get the_st w)) with (initialized (st w)).
  rewrite Hi. wps. by destruct w.
Qed.
End Calls.

(** ** Registration *)
Section Registration.
Context (b : Config).
Abbreviation W := (World Script).
Implicit Types (w : W) (e : Env).

Definition register_request : HttpRequest :=
  request b "POST" (session_path b "/register") (Some (register_body b)).

(** The state and the network after a call's reply. *)
Definition after_call (req : HttpRequest) (r : result HttpResponse) (rest : list (result HttpResponse))
    (w : W) : W :=
  let n := mkScript rest (streams (net w)) (seen (net w) ++ [req]) in
  mkWorld (if refused r then with_registration false "" (st w) else st w) (origin w) n (peer w).

(** The state and the network after a registration that was accepted. *)
Definition after_register (r : HttpResponse) (rest : list (result HttpResponse)) (w : W) : W :=
  mkWorld (with_registration true (reply_token (h_text r)) (st w)) (origin w)
    (mkScript rest (streams (net w)) (seen (net w) ++ [register_request])) (peer w).

Lemma ensureInit_wp (Q : result unit -> W -> Env -> Prop) w e :
  (if initialized (st w) then Q (Ok tt) w e
   else exists r rest, replies (net w) = Ok r :: rest /\ h_status r = StatusOK /\
          Q (Ok tt) (after_register r rest w) e) ->
  wp (ensureInit b) Q w e.
Proof.
  intros HQ. unfold ensureInit, doRequestNow. wps. change (initialized (get the_st w)) with (initialized (st w)).
  destruct w as [s o n pr]. cbn [st net] in *. destruct (initialized s); wps; [exact HQ|].
  destruct HQ as (r & rest & Hr & Hst & HQ). eapply script_Do_wp; [exact Hr|]. wps. rewrite bool_decide_eq_false_2 by tauto. wps. exact HQ.
Qed.

Lemma doJSON_wp m p x (Q : result json -> W -> Env -> Prop) w e :
  wp (ensureInit b) (fun init w1 e1 => init = Ok tt /\ exists r rest, replies (net w1) = r :: rest /\
    Q (call_result r) (after_call (request b m p (Marshal <$> x)) r rest w1) e1) w e ->
  wp (doJSON b m p x) Q w e.
Proof.
  intros HQ. apply doJSON_any_wp. eapply wp_mono; [exact HQ|].
  intros init w1 e1 (-> & r & rest & Hr & HQ1). split; [done|]. destruct w1 as [s o n pr].
  eapply script_Do_wp; [exact Hr|]. unfold replied, after_call in *. by destruct (refused r).
Qed.

(** The file requests of send_file and download_file. *)
Lemma file_request_wp bad rest m p ct x (Q : result HttpResponse -> W -> Env -> Prop) w e :
  replies (net w) = bad :: rest ->
  (forall n, Q bad (put the_net n w) e) -> wp (file_request b m p ct x) Q w e.
Proof. intros Hr HQ. unfold file_request. wps. eapply script_Do_wp; [exact Hr|]. apply HQ. Qed.

Lemma file_calls_keep bad rest w e :
  initialized (st w) = true -> refused bad = true -> replies (net w) = bad :: rest ->
  (forall nm ct data, wp (upload_file b nm ct data)
     (fun r w' _ => (exists msg, r = Err msg) /\ st w' = st w) w e) /\
  (forall a, opt_string a "file_id" <> "" ->
     wp (download_file_handler b a) (fun r w' _ => (exists msg, r = Err msg) /\ st w' = st w) w e).
Proof.
  intros Hi Hbad Hr. unfold refused in Hbad. split.
  - intros nm ct data. unfold upload_file. wps. apply ensureInit_registered; [exact Hi|]. wps.
    eapply file_request_wp; [exact Hr|]. intros n. destruct bad as [r|msg]; unfold fail; wps; [|by eauto].
    destruct (h_text r) eqn:Ht; [|done]. apply bool_decide_eq_true in Hbad.
    rewrite bool_decide_eq_true_2 by (unfold StatusUnauthorized, StatusForbidden, StatusCreated in *; lia).
    wps. by eauto.
  - intros a Ha. unfold download_file_handler. rewrite bool_decide_eq_false_2 by done. wps.
    apply ensureInit_registered; [exact Hi|]. wps.
    eapply file_request_wp; [exact Hr|]. intros n. destruct bad as [r|msg]; unfold fail; wps; [|by eauto].
    destruct (h_text r) eqn:Ht; [|done]. apply bool_decide_eq_true in Hbad.
    rewrite bool_decide_eq_true_2 by (unfold StatusUnauthorized, StatusForbidden, StatusOK in *; lia).
    wps. by eauto.
Qed.

(** C24: A server that forgets the bridge (a restart, an expired or revoked registration, a dropped
    connection) costs it one call, for calls made through [doJSON]: those of every tool but the
    upload of send_file and the download of download_file. The call that fails, by a transport
    error or with 401 or 403, reports the error and drops the registration and the watch token;
    the next such call, whatever it is, first registers again with the configured key and
    capabilities, takes the new watch token, and then sends its own request and returns what
    that is answered. The same failure of an upload or a download is reported too, but leaves
    the registration in place, so that it does not recover by itself. *)
Theorem lost_registration_recovers m1 p1 x1 m2 p2 x2 bad reg r rest w e :
  initialized (st w) = true -> refused bad = true -> h_status reg = StatusOK -> refused r = false ->
  replies (net w) = bad :: Ok reg :: r :: rest ->
  wp (r1 ← doJSON b m1 p1 x1; st1 ← ⟨the_st⟩ gets id; r2 ← doJSON b m2 p2 x2; mret (r1, st1, r2))
    (fun '(r1, st1, r2) w' _ =>
      r1 = call_result bad /\ (exists msg, r1 = Err msg) /\
      initialized st1 = false /\ watchToken st1 = "" /\
      r2 = call_result r /\ initialized (st w') = true /\
      watchToken (st w') = reply_token (h_text reg) /\
      seen (net w') = seen (net w) ++ [request b m1 p1 (Marshal <$> x1); register_request;
                                       request b m2 p2 (Marshal <$> x2)]) w e /\
  (forall nm ct data, wp (upload_file b nm ct data)
     (fun r w' _ => (exists msg, r = Err msg) /\ st w' = st w) w e) /\
  (forall a, opt_string a "file_id" <> "" ->
     wp (download_file_handler b a) (fun r w' _ => (exists msg, r = Err msg) /\ st w' = st w) w e).
Proof.
  intros Hi Hbad Hreg Hr Hrep. split; [|by eapply file_calls_keep].
  wps. apply doJSON_wp, ensureInit_wp. rewrite Hi.
  split; [done|]. eexists _, _. split; [exact Hrep|]. wps. unfold after_call. rewrite Hbad.
  apply doJSON_wp, ensureInit_wp. cbn [st net replies initialized with_registration].
  eexists _, _. split; [done|]. split; [done|]. split; [done|]. eexists _, _. split; [done|]. wps.
  split; [done|]. split.
  { unfold refused, call_result in *. destruct bad as [r0|msg]; [|by eexists].
    destruct (h_text r0); [|by eexists]. apply bool_decide_eq_true in Hbad as [->| ->]; by eexists. }
  unfold after_call, after_register. rewrite Hr. cbn [st net seen initialized watchToken with_registration].
  split_and!; [done..|]. simpl. by rewrite <- !app_assoc.
Qed.
End Registration.

(** ** Delivery of wake-ups *)

Section Delivery.
Context {N : Type} `{!HttpClient N} (b : Config).
Abbreviation W := (World N).
Implicit Types (w : W) (e : Env).

(** The signal the bridge sends in a state. *)
Definition check_signal (w : W) : Signal :=
  mkSignal (signalSource b) "check_messages" 0 (origin w).1 (origin w).2
    (match pendingSignal (st w) with
     | Some i => [("from_agent", JStr (FromAgent i)); ("sequence", JInt (p_Sequence i));
                  ("trigger_type", JStr (TriggerType i))]
     | None => []
     end).

(** The ways in which an attempt at a wake-up ends in an error: nobody listens, the signal cannot
    be written, or the host has it and closes the connection, or breaks it, without a reply. *)
Inductive failure := NotListening | WriteFails | HangsUp | ReadFails (msg : string).

Definition listens (f : failure) : bool := match f with NotListening => false | _ => true end.
Definition takes_it (f : failure) : option bool :=
  match f with NotListening => None | WriteFails => Some false | _ => Some true end.
Definition breaks_off (f : failure) : option read_outcome :=
  match f with HangsUp => Some Eof | ReadFails msg => Some (Broken msg) | _ => None end.
Definition has_it (f : failure) : bool := match f with HangsUp | ReadFails _ => true | _ => false end.

(** A host at which the attempts fail as [fs] says, and which then takes a signal and answers or
    stays silent. *)
Definition up_after (fs : list failure) (p : Peer) : Prop :=
  exists ds ws rs, dials p = (listens <$> fs) ++ true :: ds /\ writes p = omap takes_it fs ++ true :: ws /\
    reads p = omap breaks_off fs ++ rs /\
    match rs with Data _ :: _ | Timeout_ :: _ | [] => True | _ => False end.

(** The context is not done. *)
Definition running (n : nat) (e : Env) : Prop := exists cs, coins e = replicate n false ++ cs.

Lemma ctx_done_running n (Q : bool -> W -> Env -> Prop) w e :
  running (S n) e -> (forall e', e ≼ e' -> running n e' -> Q false w e') -> wp ctx_done Q w e.
Proof.
  intros [cs Hcs] HQ. unfold ctx_done. wps. unfold wpA, flip. rewrite Hcs. cbn [replicate app].
  apply HQ; [clock|by exists cs].
Qed.

Lemma running_now n e e' : running n e -> coins e' = coins e -> running n e'.
Proof. intros [cs Hcs] He. exists cs. by rewrite He. Qed.

Lemma running_eq n m e : running n e -> n = m -> running m e.
Proof. by intros ? <-. Qed.

(** A clock reading and a draw leave the choices alone. *)
Lemma now_running {V} n (Q : Time -> V -> Env -> Prop) (w : V) e :
  running n e -> (forall e', e ≼ e' -> running n e' -> Q (clock e') w e') -> wp nowP Q w e.
Proof.
  intros Hr HQ. apply wp_act. unfold wpA, now. destruct (ticks e) as [|d ds]; [by apply HQ|].
  apply (HQ (mkEnv (clock e + Z.of_N d) ds (orders e) (coins e) (entropy e))); [clock|].
  by eapply running_now.
Qed.

Lemma jitter_running n d max (Q : Duration -> W -> Env -> Prop) w e :
  running n e -> (forall x e', e ≼ e' -> running n e' -> Q x w e') ->
  wp (⟨lens_id⟩ backoffJitter d max) Q w e.
Proof.
  intros Hr HQ. wps. unfold backoffJitter, rand_int63n. wps. unfold wpA at 1, rand_read. wps.
  apply HQ; [clock|]. by eapply running_now.
Qed.

Lemma sleepCtx_running n d (Q : bool -> W -> Env -> Prop) w e :
  running (S n) e -> (forall e', e ≼ e' -> running n e' -> Q true w e') -> wp (sleepCtx d) Q w e.
Proof.
  intros Hr HQ. unfold sleepCtx. wps. eapply ctx_done_running; [exact Hr|]. intros e1 He1 Hr1. wps.
  eapply now_running; [exact Hr1|]. intros e2 He2 Hr2. wps. unfold wpA, sleep_until. wps.
  apply HQ; [clock|]. by eapply running_now.
Qed.

(** One attempt at a host that listens: the signal, stamped with the time, is transmitted. *)
Lemma send_listening ds n w (Q : result unit -> W -> Env -> Prop) e :
  dials (peer w) = true :: ds -> running n e ->
  (forall e1, e ≼ e1 -> running n e1 ->
     wp (transmit (stamped (clock e1) (check_signal w)))
       (fun x p e' => Q (match x with Ok _ => Ok tt | Err msg => Err msg end) (put the_peer p w) e')
       (mkPeer ds (writes (peer w)) (reads (peer w)) (received (peer w))) e1) ->
  wp (sendCheckMessagesSignal b) Q w e.
Proof.
  intros Hd Hrun HQ. unfold sendCheckMessagesSignal, originTarget. wps. rewrite put_get.
  unfold check_signal in HQ. change (origin w) with (get the_origin w) in HQ.
  destruct (get the_origin w) as [ch cid]. unfold id. wps. rewrite put_get. unfold SendToSocket. wps.
  unfold wpA at 1, dial. change (get the_peer w) with (peer w). rewrite Hd. cbn [negb]. wps.
  rewrite bool_decide_eq_true_2 by done. wps. eapply now_running; [exact Hrun|].
  intros e1 He1 Hr1. wps. eapply wp_mono; [by apply HQ|]. intros [x|msg] p e2 H; by wps.
Qed.

(** One attempt that fails. *)
Lemma send_fails f fs n w (Q : result unit -> W -> Env -> Prop) e :
  up_after (f :: fs) (peer w) -> running n e ->
  (forall msg p e', e ≼ e' -> running n e' -> up_after fs p ->
     (if has_it f then exists t, clock e <= t <= clock e' /\
        received p = received (peer w) ++ [Signal_json (stamped t (check_signal w))]
      else received p = received (peer w)) ->
     Q (Err msg) (put the_peer p w) e') ->
  wp (sendCheckMessagesSignal b) Q w e.
Proof.
  intros (ds & ws & rs & Hd & Hw & Hr & Hrs) Hrun HQ. destruct (listens f) eqn:Hl.
  - cbn [fmap list_fmap app] in Hd. rewrite Hl in Hd. eapply send_listening; [exact Hd|exact Hrun|].
    intros e1 He1 Hr1. unfold transmit. wps. unfold wpA at 1, Signal.write. cbn [writes].
    destruct f as [| | |msg]; [done|..]; cbn [omap list_omap takes_it breaks_off app] in Hw, Hr;
      rewrite Hw; cbn [negb]; wps.
    1: apply HQ; [done..| |done]; by exists ds, ws, rs.
    all: unfold wpA at 1, Signal.read; cbn [reads]; rewrite Hr; wps; apply HQ; [done..| |].
    all: first [by exists ds, ws, rs|cbn [has_it]; exists (clock e1); split; [clock|done]].
  - destruct f; [|done..]. cbn [fmap list_fmap omap list_omap listens takes_it breaks_off app] in *.
    unfold sendCheckMessagesSignal, originTarget. wps. rewrite put_get.
    destruct (get the_origin w) as [ch cid]. unfold id. wps. rewrite put_get. unfold SendToSocket. wps.
    unfold wpA at 1, dial. change (get the_peer w) with (peer w). rewrite Hd. cbn [negb]. wps.
    apply HQ; [done..| |done]. by exists ds, ws, rs.
Qed.

(** One attempt that succeeds. *)
Lemma send_up n w (Q : result unit -> W -> Env -> Prop) e :
  up_after [] (peer w) -> running n e ->
  (forall t p e', clock e <= t <= clock e' -> running n e' ->
     received p = received (peer w) ++ [Signal_json (stamped t (check_signal w))] ->
     Q (Ok tt) (put the_peer p w) e') ->
  wp (sendCheckMessagesSignal b) Q w e.
Proof.
  intros (ds & ws & rs & Hd & Hw & Hr & Hrs) Hrun HQ. cbn [fmap list_fmap omap list_omap app] in *.
  eapply send_listening; [exact Hd|exact Hrun|]. intros e1 He1 Hr1. unfold transmit. wps.
  unfold wpA at 1, Signal.write. cbn [writes]. rewrite Hw. cbn [negb]. wps.
  unfold wpA at 1, Signal.read. cbn [reads]. rewrite Hr.
  destruct rs as [|[s| | |msg] rs]; wps; try done;
    try (destruct (Unmarshal _ ≫= string_map); wps); apply (HQ (clock e1)); done || clock.
Qed.

(** The signals of a request: one for each time the host took it. *)
Definition sent_at (ts : list Time) (w : W) : list json :=
  (fun t => Signal_json (stamped t (check_signal w))) <$> ts.

(** The sends of one request, until one succeeds; the back-off is reset. *)
Lemma deliver_wp fs n fuel d (Q : option Duration -> W -> Env -> Prop) w e :
  up_after fs (peer w) -> (length fs < fuel)%nat -> running (2 * length fs + 1 + n) e ->
  (forall ts p e', e ≼ e' -> Forall (fun t => clock e <= t <= clock e') ts -> running n e' ->
     length ts = S (length (filter (fun f => has_it f = true) fs)) ->
     received p = received (peer w) ++ sent_at ts w ->
     Q (Some signalBaseBackoff) (put the_peer p w) e') ->
  wp (deliver b fuel d) Q w e.
Proof.
  revert fuel d w e. induction fs as [|f fs IH]; intros [|fuel] d w e Hup Hf Hrun HQ; cbn [length] in *;
    try lia; cbn [deliver]; wps.
  - eapply (ctx_done_running n); [eapply running_eq; [exact Hrun|lia]|]. intros e1 He1 Hr1. wps.
    eapply send_up; [exact Hup|exact Hr1|]. intros t p e2 Ht Hr2 Hrec. wps.
    apply (HQ [t]); [clock|repeat constructor; clock|done|done|done].
  - eapply (ctx_done_running (2 * length (f :: fs) + n)); [eapply running_eq; [exact Hrun|cbn; lia]|].
    intros e1 He1 Hr1. wps. eapply send_fails; [exact Hup|exact Hr1|]. intros msg p e2 He2 Hr2 Hup' Hgot. wps.
    eapply (jitter_running (S (2 * length fs + 1 + n))); [eapply running_eq; [exact Hr2|cbn; lia]|].
    intros x e3 He3 Hr3. wps.
    eapply sleepCtx_running; [exact Hr3|]. intros e4 He4 Hr4. cbn [negb]. wps.
    apply IH; [exact Hup'|lia|exact Hr4|]. intros ts p' e5 He5 Hts Hr5 Hlen Hrec.
    change (check_signal (put the_peer p w)) with (check_signal w) in *.
    cbn [peer put the_peer] in Hrec.
    assert (Forall (fun t => clock e <= t <= clock e5) ts) as Hts'.
    { eapply Forall_impl; [exact Hts|]. simpl. intros t Ht. clock. }
    rewrite filter_cons in HQ. destruct (has_it f).
    + destruct Hgot as (t & Ht & Hgot). apply (HQ (t :: ts)); [clock| |done|by cbn; rewrite Hlen|].
      * constructor; [clock|done].
      * rewrite Hrec, Hgot, <- app_assoc. done.
    + apply (HQ ts); [clock|done|done|done|]. by rewrite Hrec, Hgot.
Qed.

(** With nothing requested the loop does nothing. *)
Lemma signalLoop_idle fuel d w (Q : unit -> W -> Env -> Prop) e :
  signalCh (st w) = false -> (forall e', e ≼ e' -> Q tt w e') -> wp (signalLoop b fuel d) Q w e.
Proof.
  revert d e. induction fuel as [|fuel IH]; intros d e Hs HQ; cbn [signalLoop]; wps; [by apply HQ|].
  unfold ctx_done. wps. apply wpA_flip. intros [] e1 He1; wps; [by apply HQ|].
  unfold take_request. wps. change (signalCh (get the_st w)) with (signalCh (st w)). rewrite Hs. wps.
  assert (put the_st (with_signalCh false (get the_st w)) w = w) as ->.
  { destruct w as [[] o n p]. simpl in *. by subst. }
  apply IH; [done|]. intros e2 He2. apply HQ. by trans e1.
Qed.

(** C22: A requested wake-up is delivered: whatever attempts fail first, however many (nobody
    listens at the socket, the signal cannot be written, or the host takes it and closes or
    breaks the connection before it replies), the loop keeps trying until one attempt succeeds:
    the host takes the signal and replies, or stays silent until the read times out. The host has
    then received the signal once for that attempt and once for each failed attempt at which it
    had taken it (exactly once when the failed attempts did not get through), each time with the
    metadata of the message that caused it and the origin of the last tool call; the request is
    taken from the channel, and nothing else changes. *)
Theorem wake_up_delivered fs fuel d w e :
  signalCh (st w) = true -> up_after fs (peer w) -> (S (length fs) < fuel)%nat ->
  running (2 * length fs + 2) e ->
  wp (signalLoop b fuel d) (fun _ w' e' => exists ts p,
    Forall (fun t => clock e <= t <= clock e') ts /\
    length ts = S (length (filter (fun f => has_it f = true) fs)) /\
    w' = put the_peer p (put the_st (with_signalCh false (st w)) w) /\
    received p = received (peer w) ++ sent_at ts w) w e.
Proof.
  intros Hs Hup Hf Hrun. destruct fuel as [|fuel]; [lia|]. cbn [signalLoop]. wps.
  eapply (ctx_done_running (2 * length fs + 1)); [eapply running_eq; [exact Hrun|lia]|]. intros e1 He1 Hr1. wps.
  unfold take_request. wps. change (signalCh (get the_st w)) with (signalCh (st w)). rewrite Hs. wps.
  eapply (deliver_wp fs 0); [done|lia|eapply running_eq; [exact Hr1|lia]|].
  intros ts p e2 He2 Hts _ Hlen Hrec. wps. apply signalLoop_idle; [done|]. intros e3 He3.
  exists ts, p. split; [eapply Forall_impl; [exact Hts|]; simpl; intros t Ht; clock|]. split; [done|].
  split; [done|]. exact Hrec.
Qed.
End Delivery.
