(* ===== verification/BridgeProcess.v ===== *)
(** * cmd/agentchat-mcp-bridge: the bridge's process

    The goroutines of the bridge beside each other: the MCP server's reading loop with the
    goroutine of each request (file McpRun), and what [startWatcher] starts: the presence
    heartbeat, the loop that delivers wake-ups and the watch stream. Their shared state is the
    world of the bridge; [bridge_main] is the process as [main] sets it up, over any network and
    any host. What the model leaves out of [main]: the log file and the signals that end it. *)

From S2P Require Import Prelude Json JsonText GoAny Lines Http Signal Protocol Mcp McpRun.
From S2P Require Import Bridge BridgeTools BridgeWatch.

#[local] Open Scope Z_scope.

(** ** What a wake-up is owed *)

(** A section that found the context done. *)
Definition cancels (e e' : Env) : Prop := flip tt e = (true, tt, e').

(** [tracks n m p Q]: for [n] sections, or until it finds the context done, [p], started with
    ([m = true]) or without a wake-up in hand, never drops one: [asked] is what the channel
    holds, [made] how many wake-ups the host has received. Without one in hand a section keeps
    what is asked for, or takes it; with one in hand it keeps the channel, and lays it down only
    by making it. When [p] returns, [Q] holds of the sections left and of what it has in hand. *)
Section Tracks.
Context {W : Type} (asked : W -> bool) (made : W -> nat).

Definition keeps_asked (w w' : W) : Prop := asked w = true -> asked w' = true.
Definition moves (m m' : bool) (w w' : W) : Prop :=
  (made w <= made w')%nat /\
  match m, m' with
  | false, true => True
  | true, false => keeps_asked w w' /\ (made w < made w')%nat
  | _, _ => keeps_asked w w'
  end.

Fixpoint tracks {A} (n : nat) (m : bool) (p : prog W A) (Q : nat -> A -> bool -> Prop) : Prop :=
  match p, n with
  | Ret a, _ => Q n a m
  | Act _ _, O => True
  | Act a k, S n' => forall w e, wpA a (fun b w' e' =>
      cancels e e' \/ exists m', moves m m' w w' /\ tracks n' m' (k b) Q) w e
  end.

(** A section of any other goroutine. *)
Definition aside (w w' : W) : Prop := (made w <= made w')%nat /\ keeps_asked w w'.

(** For [n] sections, unless it finds the context done, [p] neither takes another wake-up nor
    returns before it has made one. *)
Fixpoint bound {A} (n : nat) (p : prog W A) : Prop :=
  match n, p with
  | O, _ => True
  | S _, Ret _ => False
  | S n', Act a k => forall w e, wpA a (fun b w' e' => cancels e e' \/
      (made w < made w')%nat \/ (keeps_asked w w' /\ bound n' (k b))) w e
  end.

Lemma tracks_mono {A} n n' m (p : prog W A) (Q R : nat -> A -> bool -> Prop) :
  (n' <= n)%nat -> tracks n m p Q ->
  (forall l l' x m', (l' <= l)%nat -> Q l x m' -> R l' x m') -> tracks n' m p R.
Proof.
  revert n n' m. induction p as [x|B a k IH]; intros n n' m Hn Hp HQR.
  - assert (Q n x m) as HQ by (by destruct n). assert (R n' x m) by eauto. by destruct n'.
  - destruct n' as [|n']; [done|]. destruct n as [|n]; [lia|]. intros w e.
    eapply wpA_mono; [apply Hp|]. intros b w' e' [?|(m' & Hm & Hk)]; [by left|right].
    exists m'. split; [done|]. eapply IH; [|done..]. lia.
Qed.

Lemma tracks_bind {A B} n m (p : prog W A) (f : A -> prog W B) Q R :
  tracks n m p Q -> (forall l x m', (l <= n)%nat -> Q l x m' -> tracks l m' (f x) R) ->
  tracks n m (p ≫= f) R.
Proof.
  unfold mbind, prog_bind. revert n m. induction p as [x|C a k IH]; intros n m Hp Hf.
  - apply Hf; [done|]. by destruct n.
  - destruct n as [|n]; [done|]. intros w e. eapply wpA_mono; [apply Hp|].
    intros b w' e' [?|(m' & Hm & Hk)]; [by left|right]. exists m'. split; [done|].
    apply IH; [done|]. intros l x m1 Hl. apply Hf. lia.
Qed.

Lemma tracks_guar {A} n m (p : prog W A) (Q : A -> Prop) :
  guar aside p Q -> tracks n m p (fun _ x m' => Q x /\ m' = m).
Proof.
  revert n. induction p as [x|B a k IH]; intros n Hp; [by destruct n|].
  destruct n as [|n]; [done|]. intros w e. eapply wpA_mono; [apply Hp|].
  intros b w' e' [[Hle Hk] Hg]. right. exists m. split; [|by apply IH]. split; [done|by destruct m].
Qed.

Lemma tracks_flip n m :
  tracks n m (⟨lens_id⟩ flip) (fun l done m' => S l = n /\ done = false /\ m' = m).
Proof.
  destruct n as [|n]; [done|]. intros w e. apply wpA_zoom. unfold wpA, flip, cancels. simpl.
  destruct (coins e) as [|[] cs] eqn:Hc; [left; unfold flip; by rewrite Hc..|]. right. exists m.
  split; [split; [reflexivity|destruct m; unfold keeps_asked; auto]|by destruct n].
Qed.

Lemma tracks_zero {A} m (p : prog W A) : tracks 0 m p (fun l _ _ => l = 0%nat).
Proof. by destruct p. Qed.

Lemma tracks_bound {A} n (p : prog W A) :
  tracks n true p (fun l _ _ => l = 0%nat) -> bound n p.
Proof.
  revert n. induction p as [x|B a k IH]; intros n Hp; destruct n as [|n]; try done.
  intros w e. eapply wpA_mono; [apply Hp|]. intros b w' e' [?|([|] & [Hle Hm] & Hk)]; [by left|right..].
  - right. split; [done|by apply IH].
  - left. tauto.
Qed.
End Tracks.

Lemma tracks_within {W S A} (L : Lens W S) asked made n m (p : prog S A) Q :
  tracks asked made n m p Q -> tracks (asked ∘ get L) (made ∘ get L) n m (⟪L⟫ p) Q.
Proof.
  revert n m. induction p as [x|B a k IH]; intros n m Hp; [by destruct n|].
  destruct n as [|n]; [done|]. intros w e. apply wpA_zoom. eapply wpA_mono; [apply Hp|].
  intros b s' e' [?|(m' & Hm & Hk)]; [by left|right]. exists m'. split; [|by apply IH].
  unfold moves, keeps_asked in *. simpl. by rewrite !get_put.
Qed.

(** ** The bridge's sections *)
Definition is_call (j : json) : bool :=
  match j with
  | JObj kvs =>
      match lookup_key "action" kvs with
      | Some (JStr a) => bool_decide (a = "check_messages")
      | _ => false
      end
  | _ => false
  end.

Section Sections.
Context {N : Type} `{!HttpClient N} (b : Config).
Abbreviation W := (World N).
Implicit Types (w : W).

(** A wake-up is asked for; the wake-ups the host has received. *)
Definition asked w : bool := signalCh (st w).
Definition made w : nat := length (filter (fun j => is_call j = true) (received (peer w))).
Abbreviation R := (aside asked made).

Lemma aside_refl w : R w w.
Proof. split; [reflexivity|]. unfold keeps_asked. auto. Qed.

Lemma aside_st (f : State -> State) w :
  (forall s, signalCh s = true -> signalCh (f s) = true) -> R w (put the_st (f (st w)) w).
Proof. intros Hf. split; [reflexivity|]. unfold keeps_asked, asked. apply Hf. Qed.

Lemma guar_st (f : State -> State) :
  (forall s, signalCh s = true -> signalCh (f s) = true) ->
  guar R (⟨the_st⟩ modify f) (fun _ => True).
Proof. intros Hf. apply guar_atomically. intros w e. apply wpA_modify. split; [by apply aside_st|done]. Qed.

Lemma guar_look {S A} (L : Lens W S) (f : S -> A) : guar R (⟨L⟩ gets f) (fun _ => True).
Proof. apply guar_atomically. intros w e. apply wpA_gets. rewrite put_get. split; [apply aside_refl|done]. Qed.

Lemma guar_net {A} (p : prog N A) : guar R (⟪the_net⟫ p) (fun _ => True).
Proof. eapply (guar_within _ (fun _ _ => True)); [|by apply guar_any]. intros w n _. exact (aside_refl w). Qed.

Lemma guar_env {A} (a : forall S, Atom S A) :
  (forall (w : W) e, wpA (a W) (fun _ w' _ => w' = w) w e) -> guar R (⟨lens_id⟩ a W) (fun _ => True).
Proof.
  intros Ha. apply guar_atomically. intros w e. eapply wpA_mono; [apply Ha|].
  intros x w' e' ->. split; [apply aside_refl|done].
Qed.

Lemma guar_now : guar R nowP (fun _ => True).
Proof. by apply guar_nowP; [apply aside_refl|]. Qed.

Lemma guar_flip_ : guar R (⟨lens_id⟩ flip) (fun _ => True).
Proof. apply (guar_env (@flip)). intros w e. by apply wpA_flip. Qed.

Lemma guar_sleep t : guar R (⟨lens_id⟩ sleep_until t) (fun _ => True).
Proof. apply (guar_env (fun S => sleep_until t)). intros w e. by apply wpA_sleep. Qed.

Lemma guar_jitter d max : guar R (⟨lens_id⟩ backoffJitter d max) (fun _ => True).
Proof.
  apply (guar_env (fun S => backoffJitter d max)). intros w e. unfold backoffJitter, rand_int63n. wps.
  apply wpA_rand. intros bs e' _ _. by wps.
Qed.

(** Sending: the host's list of signals only grows. *)
Definition grows (p p' : Peer) : Prop := exists js, received p' = received p ++ js.

Lemma grows_same p p' : received p' = received p -> grows p p'.
Proof. intros Hr. exists []. by rewrite app_nil_r. Qed.

Lemma made_grows w p : grows (peer w) p -> R w (put the_peer p w).
Proof.
  intros [js Hjs]. split; [|unfold keeps_asked; auto]. unfold made. cbn [peer the_peer put]. rewrite Hjs, filter_app, length_app. lia.
Qed.

Lemma guar_dial : guar grows (⟨lens_id⟩ dial) (fun _ => True).
Proof.
  apply guar_atomically. intros p e. unfold wpA, dial. cbn [get put lens_id].
  destruct (dials p); (split; [|done]); by apply grows_same.
Qed.

Lemma guar_reply : guar grows (⟨lens_id⟩ Signal.read) (fun _ => True).
Proof.
  apply guar_atomically. intros p e. unfold wpA, Signal.read. cbn [get put lens_id].
  destruct (reads p); (split; [|done]); by apply grows_same.
Qed.

Lemma guar_write j : guar grows (⟨lens_id⟩ Signal.write j) (fun _ => True).
Proof.
  apply guar_atomically. intros p e. unfold wpA, Signal.write. cbn [get put lens_id].
  destruct (writes p) as [|[] ws]; (split; [|done]); try by apply grows_same. by eexists.
Qed.

Lemma guar_transmit sig : guar grows (transmit sig) (fun _ => True).
Proof.
  unfold transmit. apply guar_then; [apply guar_write|]. intros [|]; cbn [negb]; [|done].
  apply guar_then; [apply guar_reply|]. intros [s| | |msg]; try done. by destruct (_ ≫= _).
Qed.

Lemma guar_SendToSocket path sig : guar grows (SendToSocket path sig) (fun _ => True).
Proof.
  unfold SendToSocket. apply guar_then; [apply guar_dial|]. intros [|]; cbn [negb]; [|done].
  case_bool_decide; [|apply guar_transmit]. apply guar_then; [by apply guar_nowP; [intros; apply grows_same|]|].
  intros t. apply guar_transmit.
Qed.

Lemma guar_send path sig : guar R (⟪the_peer⟫ SendToSocket path sig) (fun _ => True).
Proof. eapply guar_within; [|apply guar_SendToSocket]. intros w p. apply made_grows. Qed.
End Sections.

(** *** Every goroutine but the one that delivers *)
Ltac bridge_step :=
  lazymatch goal with
  | |- guar _ (mbind _ _) _ => apply guar_then
  | |- forall _, guar _ _ _ => intros ?
  | |- guar _ (within the_net _) _ => apply guar_net
  | |- guar _ (within the_peer _) _ => apply guar_send
  | |- guar _ (atomically the_st (modify _)) _ => apply guar_st; by intros []
  | |- guar _ (atomically _ (gets _)) _ => apply guar_look
  | |- guar _ (atomically lens_id flip) _ => apply guar_flip_
  | |- guar _ (atomically lens_id (sleep_until _)) _ => apply guar_sleep
  | |- guar _ (atomically lens_id (backoffJitter _ _)) _ => apply guar_jitter
  | |- guar _ nowP _ => apply guar_now
  | |- guar _ (mret _) _ => done
  | |- guar _ (fail _) _ => done
  | |- guar _ (let '(_, _) := ?p in _) _ => destruct p
  | |- guar _ (if ?c then _ else _) _ => destruct c
  | |- guar _ (match ?o with Some _ => _ | None => _ end) _ => destruct o as [?|] eqn:?
  | |- guar _ (match ?r with Ok _ => _ | Err _ => _ end) _ => destruct r
  end.
Ltac bridge_guar := repeat first [bridge_step | solve [eauto with bridge]].

Create HintDb bridge.

Section Aside.
Context {N : Type} `{!HttpClient N} (b : Config).
Abbreviation W := (World N).
Abbreviation R := (aside (W := W) asked made).

Lemma aside_ensureInit : guar R (ensureInit b) (fun _ => True).
Proof. unfold ensureInit, doRequestNow. bridge_guar. Qed.
#[local] Hint Resolve aside_ensureInit : bridge.

Lemma aside_doRequest m p x : guar R (doRequest b m p x) (fun _ => True).
Proof. unfold doRequest, doRequestNow, invalidateRegistration. bridge_guar. Qed.
#[local] Hint Resolve aside_doRequest : bridge.

Lemma aside_doJSON m p x : guar R (doJSON b m p x) (fun _ => True).
Proof. unfold doJSON, invalidateRegistration. bridge_guar. Qed.
#[local] Hint Resolve aside_doJSON : bridge.

Lemma aside_post p x r : guar R (post b p x r) (fun _ => True).
Proof. unfold post. bridge_guar. Qed.
Lemma aside_ask m p x : guar R (ask b m p x) (fun _ => True).
Proof. unfold ask. bridge_guar. Qed.
#[local] Hint Resolve aside_post aside_ask : bridge.

Lemma aside_pending : guar R getPendingSignalInfo (fun _ => True).
Proof.
  unfold getPendingSignalInfo. apply guar_atomically. intros w e. wps. split; [|done].
  by apply (aside_st (with_pending None)); intros [].
Qed.
#[local] Hint Resolve aside_pending : bridge.

Lemma aside_drainAll : guar R (drainAll b) (fun _ => True).
Proof. unfold drainAll, pollMailbox. bridge_guar. Qed.
#[local] Hint Resolve aside_drainAll : bridge.

Lemma aside_tool t x : t ∈ all_tools b -> guar R (t.2 x) (fun _ => True).
Proof.
  unfold all_tools. rewrite !elem_of_cons, elem_of_nil.
  intros Ht. repeat destruct Ht as [->|Ht]; [..|done]; cbn [snd send_message broadcast receive_messages
    list_agents get_leader transfer_leadership scratchpad_set scratchpad_get scratchpad_delete
    scratchpad_list task_assign task_status task_result request_history send_file download_file
    trigger_agent]; unfold with_key, send_task, send_file_handler, upload_file, share_file,
    download_file_handler, trigger_agent_handler, file_request, originTarget; cbv zeta; bridge_guar.
Qed.

(** The heartbeat and the stream. *)
Lemma aside_heartbeat fuel : forall t0 t, guar R (presenceHeartbeat b fuel t0 t) (fun _ => True).
Proof.
  induction fuel as [|fuel IH]; intros t0 t; cbn [presenceHeartbeat]; [done|].
  unfold ctx_done, touchPresence, doRequestNow, invalidateRegistration, setWatchToken.
  bridge_guar; apply IH.
Qed.

Lemma aside_event ty data : guar R (handleSSEEvent b ty data) (fun _ => True).
Proof. unfold handleSSEEvent, requestSignal. bridge_guar. Qed.
#[local] Hint Resolve aside_event : bridge.

Lemma aside_lines ls : forall sst, guar R (stream_lines b sst ls) (fun _ => True).
Proof.
  induction ls as [|l ls IH]; intros sst; cbn [stream_lines]; [done|].
  destruct (sse_step sst l) as [sst' [[ty data]|]]; bridge_guar; apply IH.
Qed.
#[local] Hint Resolve aside_lines : bridge.

Lemma aside_await t0 last d : guar R (await t0 last d) (fun _ => True).
Proof. unfold await. bridge_guar. Qed.
#[local] Hint Resolve aside_await : bridge.

Lemma aside_read reads : forall t0 last p sst d err,
  guar R (read_stream b t0 last p sst reads d err) (fun _ => True).
Proof.
  induction reads as [|[d' chunk] reads IH]; intros t0 last p sst d err; cbn [read_stream]; cbv zeta.
  - bridge_guar.
  - apply guar_then; [apply aside_await|]. intros [|]; cbn [negb]; [|bridge_guar].
    apply guar_then; [apply guar_now|]. intros t. destruct (scan_more _ _ _) as [ls [p'|]]; [|bridge_guar].
    apply guar_then; [apply aside_lines|]. intros st'. apply IH.
Qed.
#[local] Hint Resolve aside_read : bridge.

Lemma aside_watchStream : guar R (watchStream b) (fun _ => True).
Proof.
  unfold watchStream, getWatchToken, initLastSeq, connect_signal, maybeWakeOnConnect, peekMailbox,
    requestSignal, invalidateRegistration. bridge_guar.
Qed.
#[local] Hint Resolve aside_watchStream : bridge.

Lemma aside_sseLoop fuel : forall d, guar R (sseLoop b fuel d) (fun _ => True).
Proof.
  induction fuel as [|fuel IH]; intros d; cbn [sseLoop]; [done|].
  apply guar_then; [unfold sse_round, sleepCtx, ctx_done; bridge_guar|]. intros [d'|]; [apply IH|done].
Qed.

(** *** The one that delivers *)
Definition made_by (p : Peer) : nat := length (filter (fun j => is_call j = true) (received p)).

Lemma tracks_peer {A} n m (p : prog Peer A) Q :
  tracks (fun _ => true) made_by n m p Q -> tracks (W := W) asked made n m (⟪the_peer⟫ p) Q.
Proof.
  revert n m. induction p as [x|B a k IH]; intros n m Hp; [by destruct n|].
  destruct n as [|n]; [done|]. intros w e. apply wpA_zoom. eapply wpA_mono; [apply Hp|].
  intros x p' e' [?|(m' & [Hle Hm] & Hk)]; [by left|right]. exists m'. split; [|by apply IH].
  split; [exact Hle|].
  assert (keeps_asked (W := W) asked w (put the_peer p' w)) as Hka by (unfold keeps_asked; auto).
  destruct m, m'; try done. split; [done|apply Hm].
Qed.

Lemma tracks_peer_guar {A} n m (p : prog Peer A) (Q : A -> Prop) :
  guar grows p Q -> tracks (fun _ => true) made_by n m p (fun _ x m' => Q x /\ m' = m).
Proof.
  intros Hp. apply tracks_guar. eapply guar_weaken; [|exact Hp]. intros p1 p2 [js Hjs]. split; [|done].
  unfold made_by. rewrite Hjs, filter_app, length_app. lia.
Qed.

(** Success means the host has it. *)
Definition told {A} (_ : nat) (r : result A) (m : bool) : Prop := (exists x, r = Ok x) -> m = false.

Lemma told_err {A} n msg m : told (A := A) n (Err msg) m.
Proof. by intros [x [=]]. Qed.
#[local] Hint Resolve told_err : core.

Lemma tracks_write n m sig : Action sig = "check_messages" ->
  tracks (fun _ => true) made_by n m (⟨lens_id⟩ Signal.write (Signal_json sig))
    (fun _ ok m' => ok = true -> m' = false).
Proof.
  intros Ha. destruct n as [|n]; [done|]. intros p e. apply wpA_zoom. unfold wpA, Signal.write.
  cbn [get put lens_id].
  assert (forall p', received p' = received p -> moves (fun _ => true) made_by m m p p') as Hsame.
  { intros p' Hr. split; [unfold made_by; by rewrite Hr|]. by destruct m. }
  destruct (writes p) as [|[] ws]; right; [by exists m; split; [apply Hsame|destruct n]| |
    by exists m; split; [apply Hsame|destruct n]].
  exists false. split; [|by destruct n].
  assert (made_by (mkPeer (dials p) ws (reads p) (received p ++ [Signal_json sig])) = S (made_by p)) as Hm.
  { unfold made_by. cbn [received]. rewrite filter_app, length_app.
    assert (is_call (Signal_json sig) = true) as Hc.
    { unfold is_call, Signal_json. cbn. rewrite Ha. by case_bool_decide. }
    cbn [filter list_filter]. rewrite decide_True by done. simpl. lia. }
  unfold moves, keeps_asked. rewrite Hm. split; [lia|]. destruct m; [|done]. split; [done|lia].
Qed.

Lemma tracks_ret {W' A} ask mk n m (x : A) (Q : nat -> A -> bool -> Prop) :
  Q n x m -> tracks (W := W') ask mk n m (mret x) Q.
Proof. by destruct n. Qed.

Lemma tracks_transmit n m sig : Action sig = "check_messages" ->
  tracks (fun _ => true) made_by n m (transmit sig) told.
Proof.
  intros Ha. unfold transmit. eapply tracks_bind; [by apply tracks_write|].
  intros l [|] m' _ Hm'; cbn [negb]; [|by apply tracks_ret].
  eapply tracks_bind; [apply tracks_peer_guar, guar_reply|]. intros l2 r m2 _ [_ ->]. rewrite Hm' by done.
  by destruct r as [x| | |msg]; try destruct (_ ≫= _); apply tracks_ret.
Qed.

Lemma tracks_SendToSocket n m path sig : Action sig = "check_messages" ->
  tracks (fun _ => true) made_by n m (SendToSocket path sig) told.
Proof.
  intros Ha. unfold SendToSocket. eapply tracks_bind; [apply tracks_peer_guar, guar_dial|].
  intros l [|] m1 _ [_ ->]; cbn [negb]; [|by apply tracks_ret]. case_bool_decide; [|by apply tracks_transmit].
  eapply tracks_bind; [apply tracks_peer_guar, guar_nowP; [intros; by apply grows_same|intros; exact I]|].
  intros l2 t m2 _ [_ ->]. by apply tracks_transmit.
Qed.

Lemma tracks_send n m : tracks (W := W) asked made n m (sendCheckMessagesSignal b) told.
Proof.
  unfold sendCheckMessagesSignal, originTarget. eapply tracks_bind; [apply tracks_guar, guar_look|].
  intros l [ch cid] m1 _ [_ ->]. eapply tracks_bind; [apply tracks_guar, guar_look|]. intros l2 info m2 _ [_ ->].
  eapply tracks_bind; [by apply tracks_peer, tracks_SendToSocket|].
  intros l3 [x|msg] m3 _ Hm; apply tracks_ret; [|done]. intros _. apply Hm. by exists x.
Qed.

Lemma tracks_sleepCtx n m d :
  tracks (W := W) asked made n m (sleepCtx d) (fun _ slept m' => slept = true /\ m' = m).
Proof.
  unfold sleepCtx. eapply tracks_bind; [apply tracks_flip|]. intros l t m1 _ (_ & -> & ->).
  eapply tracks_bind; [apply tracks_guar, guar_now|]. intros l2 t m2 _ [_ ->].
  eapply tracks_bind; [apply tracks_guar, guar_sleep|]. intros l3 ? m3 _ [_ ->]. by apply tracks_ret.
Qed.

(** A delivery ends with the wake-up made, unless its rounds are over. *)
Lemma tracks_deliver fuel : forall n m d, (n <= fuel)%nat ->
  tracks (W := W) asked made n m (deliver b fuel d)
    (fun l r m' => l = 0%nat \/ (exists d', r = Some d') /\ m' = false).
Proof.
  induction fuel as [|fuel IH]; intros n m d Hn; cbn [deliver]; [apply tracks_ret; left; lia|].
  eapply tracks_bind; [apply tracks_flip|]. intros l stop m1 _ (Hl & -> & ->).
  eapply tracks_bind; [apply tracks_send|]. intros l2 [x|msg] m2 Hl2 Hm.
  { apply tracks_ret. right. split; [by eexists|]. apply Hm. by exists x. }
  eapply tracks_bind; [apply tracks_guar, guar_jitter|]. intros l3 d1 m3 Hl3 [_ ->].
  eapply tracks_bind; [apply tracks_sleepCtx|]. intros l4 slept m4 Hl4 [-> ->]. apply IH. lia.
Qed.

Lemma tracks_take n : tracks (W := W) asked made n false take_request (fun _ got m => m = got).
Proof.
  destruct n as [|n]; [done|]. intros w e. apply wpA_zoom. wps. right. exists (signalCh (st w)).
  split; [|by destruct n]. split; [reflexivity|]. destruct (signalCh (st w)) eqn:Hs; [done|].
  unfold keeps_asked, asked. by rewrite Hs.
Qed.

Lemma tracks_signalLoop fuel : forall n d, (n <= fuel)%nat ->
  tracks (W := W) asked made n false (signalLoop b fuel d) (fun l _ _ => l = 0%nat).
Proof.
  induction fuel as [|fuel IH]; intros n d Hn; cbn [signalLoop]; [apply tracks_ret; lia|].
  eapply tracks_bind; [apply tracks_flip|]. intros l stop m1 _ (Hl & -> & ->).
  eapply tracks_bind; [apply tracks_take|]. intros l2 [|] m Hl2 ->; [|apply IH; lia].
  eapply tracks_bind; [apply tracks_deliver; lia|].
  intros l3 r m2 Hl3 [->|[[d' ->] ->]]; [by destruct r; [apply tracks_zero|apply tracks_ret]|apply IH; lia].
Qed.
End Aside.

(** ** The process *)
Section Process.
Context {N : Type} `{!HttpClient N} (b : Config).
Abbreviation W := (World N).
Abbreviation FW := ((W * Io) * Run)%type.

Definition the_bridge : Lens FW W := lens_comp the_mcp the_state.

(** What [main] sets up: the signals it declares, the goroutines of [startWatcher], and
    [server.Run] on its own goroutine. *)
Definition bridge_main (headless : bool) (fuel : nat) (input : string) : prog FW (list (prog FW unit)) :=
  ⟨lens_comp the_mcp the_io⟩ declare_signals b headless ;;
  gs ← ⟪the_bridge⟫ startWatcher b fuel;
  mret (RunWith fuel input :: ((fun g => ⟪the_bridge⟫ g) <$> gs)).

(** The goroutine of a request. *)
Definition request_goroutine : prog FW unit -> Prop := goroutine the_origin (bridge_server b).

(** A step in which the context is not done. *)
Definition live_step (P P' : Pool FW) : Prop :=
  pool_step request_goroutine P P' /\ ~ cancels (p_env P) (p_env P').

Definition pool_asked (P : Pool FW) : bool := asked (get the_bridge (p_world P)).
Definition pool_made (P : Pool FW) : nat := made (get the_bridge (p_world P)).

Abbreviation asks := (asked (N := N) ∘ get the_bridge).
Abbreviation makes := (made (N := N) ∘ get the_bridge).
Abbreviation R := (aside asks makes).

Lemma aside_bridge {A} (p : prog W A) (Q : A -> Prop) :
  guar (aside (W := W) asked made) p Q -> guar R (⟪the_bridge⟫ p) Q.
Proof.
  intros Hp. eapply guar_within; [|exact Hp]. intros w s' [Hm Hk]. unfold aside, keeps_asked. simpl in *.
  by split.
Qed.

(** Sections on the server's own state. *)
Lemma aside_run {A} (a : Atom Run A) : guar R (⟨the_run⟩ a) (fun _ => True).
Proof.
  apply guar_atomically. intros w e. unfold wpA, the_run, lens_snd. cbn [get put].
  destruct (a (snd w) e) as [[x r] e']. split; [|done]. split; [reflexivity|]. by unfold keeps_asked.
Qed.

Abbreviation RS := (aside (asked (N := N) ∘ get (the_state (S := W))) (made ∘ get the_state)).

Lemma aside_io {A} (a : Atom Io A) : guar RS (⟨the_io⟩ a) (fun _ => True).
Proof.
  apply guar_atomically. intros w e. unfold wpA, the_io, lens_snd. cbn [get put].
  destruct (a (snd w) e) as [[x r] e']. split; [|done]. split; [reflexivity|]. by unfold keeps_asked.
Qed.

Lemma registered_tool nm h :
  handler_of (bridge_server b) nm = Some h -> exists t, t ∈ all_tools b /\ h = t.2.
Proof.
  unfold handler_of, bridge_server, registerTools.
  assert (forall ts s, handlers (foldl (fun s t => RegisterTool t.1 t.2 s) s ts) !! nm = Some h ->
    handlers s !! nm = Some h \/ exists t, t ∈ ts /\ h = t.2) as Hreg.
  { induction ts as [|t ts IH]; intros s Hh; [by left|]. destruct (IH _ Hh) as [H|(t' & Ht & ->)].
    - unfold RegisterTool in H. cbn [handlers] in H. apply lookup_insert_Some in H as [[_ <-]|[_ H]]; [|by left].
      right. exists t. split; [left|done].
    - right. exists t'. split; [by right|done]. }
  intros Hh. by destruct (Hreg _ _ Hh) as [[=]|Ht].
Qed.

#[local] Hint Resolve aside_io : bridge.

Lemma aside_write r : guar RS (write r) (fun _ => True).
Proof. unfold write. bridge_guar. Qed.
#[local] Hint Resolve aside_write : bridge.

Lemma aside_origin o : guar RS (⟨lens_comp the_state the_origin⟩ modify (fun _ => o)) (fun _ => True).
Proof. apply guar_atomically. intros [w io] e. apply wpA_modify. split; [split; [reflexivity|by unfold keeps_asked]|done]. Qed.
#[local] Hint Resolve aside_origin : bridge.

Lemma aside_handler nm h x :
  handler_of (bridge_server b) nm = Some h -> guar RS (⟪the_state⟫ h x) (fun _ => True).
Proof.
  intros (t & Ht & ->)%registered_tool. eapply guar_within; [|by apply (aside_tool b)].
  intros w s' [Hm Hk]. unfold aside, keeps_asked. simpl in *. by split.
Qed.

Lemma aside_handleRequest req : guar RS (handleRequest the_origin (bridge_server b) req) (fun _ => True).
Proof.
  unfold handleRequest, sendResult, sendError. bridge_guar. all: by eapply aside_handler.
Qed.

Lemma aside_worker i : guar R (worker the_origin (bridge_server b) i) (fun _ => True).
Proof.
  unfold worker. apply guar_then; [apply aside_run|]. intros [req|]; [|done].
  apply guar_then; [|intros _; apply aside_run]. eapply guar_within; [|apply aside_handleRequest].
  intros w s' [Hm Hk]. unfold aside, keeps_asked. simpl in *. by split.
Qed.

Lemma aside_flip : guar R (⟨lens_id⟩ flip) (fun _ => True).
Proof.
  apply guar_atomically. intros w e. apply wpA_flip. intros c e' _. split; [|done].
  split; [reflexivity|by unfold keeps_asked].
Qed.

Lemma aside_scan long ls : guar R (scan_loop (S := W) ls long) (fun _ => True).
Proof.
  induction ls as [|l ls IH]; cbn [scan_loop]; (apply guar_then; [apply aside_flip|]); intros [|]; try done.
  apply guar_then; [|intros ?; apply IH]. destruct (request_of l) as [req|]; [|done].
  apply guar_then; [apply aside_run|intros ?; apply aside_run].
Qed.

Lemma aside_RunWith fuel input : guar R (RunWith (S := W) fuel input) (fun _ => True).
Proof.
  unfold RunWith. destruct (scan scanner_max input) as [lines long].
  apply guar_then; [apply aside_scan|]. intros [?|msg]; [|apply aside_run].
  apply guar_then.
  { apply guar_nowP; [|done]. intros w. split; [reflexivity|by unfold keeps_asked]. }
  intros t. generalize (t + shutdownGrace). induction fuel as [|fuel IH]; intros u; [done|].
  apply guar_then; [apply aside_run|]. intros [|]; [done|apply IH].
Qed.

(** Goroutine 2 delivers; [m] is whether it has a wake-up in hand after [c] steps. *)
Record loops_ok (fuel c : nat) (ts : list (prog FW unit)) (m : bool) : Prop := {
  lk_loop : exists p, ts !! 2%nat = Some p /\
    tracks asks makes (fuel - c) m p (fun l _ _ => l = 0%nat);
  lk_rest i p : i <> 2%nat -> ts !! i = Some p -> guar R p (fun _ => True);
}.

Lemma guar_answer {V A} (G : V -> V -> Prop) (p : prog V A) (Q : A -> Prop) w e x w' e' :
  guar G p Q -> run p w e = (x, w', e') -> Q x.
Proof.
  revert w e. induction p as [y|B a k IH]; intros w e Hp Hr; [by injection Hr as <- _ _|].
  specialize (Hp w e). cbn [run] in Hr. unfold wpA in Hp. unfold mbind, atom_bind in Hr.
  destruct (a w e) as [[y w1] e1]. destruct Hp. eauto.
Qed.

Lemma main_loops headless fuel input :
  signalSocketPath b <> "" ->
  guar (fun _ _ => True) (bridge_main headless fuel input) (fun ts => loops_ok fuel 0 ts false).
Proof.
  intros Hs. unfold bridge_main, startWatcher. rewrite (bool_decide_eq_false_2 _ Hs).
  apply guar_then; [by apply guar_any|]. intros [].
  eapply (guar_bind _ _ _ (fun gs => exists t0, gs = [presenceHeartbeat b fuel t0 t0;
    signalLoop b fuel signalBaseBackoff; sseLoop b fuel sseBaseBackoff])).
  { eapply (guar_within _ (fun _ _ => True)); [done|].
    apply guar_then; [by apply guar_any|]. intros _. eapply guar_bind; [by apply guar_any|].
    intros t0 _. by exists t0. }
  intros gs [t0 ->]. apply guar_ret. split.
  - eexists. split; [done|]. apply tracks_within, tracks_signalLoop. lia.
  - intros [|[|[|[|i]]]] p Hi Hp; cbn in Hp; simplify_eq; [apply aside_RunWith|apply aside_bridge..].
    + apply aside_heartbeat.
    + apply aside_sseLoop.
Qed.

Lemma live_step_ok fuel c P P' m :
  (c < fuel)%nat -> live_step P P' -> loops_ok fuel c (p_threads P) m ->
  exists m', moves asks makes m m' (p_world P) (p_world P') /\ loops_ok fuel (S c) (p_threads P') m'.
Proof.
  intros Hc [Hstep Hlive] [(p2 & H2 & Ht) Hrest].
  destruct Hstep as [i p p' w w' e e' ts Hi H1|p w e ts (k & ->)]; cbn [p_threads p_world p_env] in *.
  - destruct p as [x|B a k]; [done|]. cbn [step1] in H1.
    destruct (decide (i = 2%nat)) as [->|Hi2].
    + simplify_eq. replace (fuel - c)%nat with (S (fuel - S c)) in Ht by lia.
      specialize (Ht w e). unfold wpA in Ht. destruct (a w e) as [[y w1] e1]. simplify_eq.
      destruct Ht as [?|(m' & Hm & Ht)]; [done|]. exists m'. split; [done|]. split.
      * eexists. by rewrite list_lookup_insert_eq by by eapply lookup_lt_Some.
      * intros j q Hj. rewrite list_lookup_insert_ne by done. by apply Hrest.
    + pose proof (Hrest _ _ Hi2 Hi w e) as Hg. unfold wpA in Hg. destruct (a w e) as [[y w1] e1].
      simplify_eq. destruct Hg as [[Hle Hk] Hg]. exists m. split; [split; [done|by destruct m]|]. split.
      * exists p2. rewrite list_lookup_insert_ne by done. split; [done|].
        eapply tracks_mono; [|exact Ht|]; [lia|]. cbn. intros; lia.
      * intros j q Hj. destruct (decide (i = j)) as [<-|].
        -- rewrite list_lookup_insert_eq by (by eapply lookup_lt_Some). by intros [= <-].
        -- rewrite list_lookup_insert_ne by done. by apply Hrest.
  - exists m. split; [split; [reflexivity|destruct m; by unfold keeps_asked]|]. split.
    + exists p2. split; [by apply lookup_app_l_Some|]. eapply tracks_mono; [|exact Ht|]; [lia|]. cbn. intros; lia.
    + intros j q Hj Hq. apply lookup_snoc_Some in Hq as [[_ Hq]|[_ <-]]; [eauto|]. apply aside_worker.
Qed.

Lemma live_steps_ok fuel c n P P' m :
  (n + c <= fuel)%nat -> nsteps live_step n P P' -> loops_ok fuel c (p_threads P) m ->
  exists m', loops_ok fuel (n + c) (p_threads P') m' /\
    (m = true \/ pool_asked P = true ->
     m' = true \/ pool_asked P' = true \/ (pool_made P < pool_made P')%nat) /\
    (pool_made P <= pool_made P')%nat.
Proof.
  intros Hc Hrun. revert c m Hc. induction Hrun as [P|n P P1 P' Hstep _ IH]; intros c m Hc Hok.
  { exists m. split; [exact Hok|]. split; [tauto|reflexivity]. }
  destruct (live_step_ok fuel c P P1 m) as (m1 & [Hle Hm] & Hok1); [lia|done..|].
  destruct (IH (S c) m1) as (m2 & Hok2 & Hkeep & Hle2); [lia|done|].
  exists m2. replace (S n + c)%nat with (n + S c)%nat by lia. split; [done|].
  unfold keeps_asked, pool_asked, pool_made in *. simpl in *. split; [|lia].
  intros Hhas. destruct m, m1; intuition (try lia).
Qed.

(** C21: A wake-up is never lost. In the process [main] sets up with a signal socket, whatever the
    host, the network and the tool calls do and however the goroutines interleave, once a wake-up
    is asked for ([signalCh] holds one), then at every later moment before the context is done it
    is still asked for, or the host has received a wake-up call since, or the delivering goroutine
    has it in hand: it then neither takes another one nor returns before it has made the call,
    unless the context is done. Sends that fail are tried again; requests that arrive meanwhile
    are kept. The loops are looked at for [fuel] steps of the whole run. *)
Theorem wake_up_never_lost fuel headless input w e ts w0 e0 i j P1 P2 :
  signalSocketPath b <> "" ->
  run (bridge_main headless fuel input) w e = (ts, w0, e0) ->
  (i + j <= fuel)%nat ->
  nsteps live_step i (mkPool w0 e0 ts) P1 -> pool_asked P1 = true ->
  nsteps live_step j P1 P2 ->
  pool_asked P2 = true \/ (pool_made P1 < pool_made P2)%nat \/
  exists p, p_threads P2 !! 2%nat = Some p /\ bound asks makes (fuel - (i + j)) p.
Proof.
  intros Hs Hmain Hfuel H1 Hasked H2.
  pose proof (guar_answer _ _ _ _ _ _ _ _ (main_loops headless fuel input Hs) Hmain) as H0.
  destruct (live_steps_ok fuel 0 i _ _ _ ltac:(lia) H1 H0) as (m1 & Hm1 & _ & _).
  destruct (live_steps_ok fuel (i + 0) j _ _ _ ltac:(lia) H2 Hm1) as (m2 & [(p & Hp & Ht) _] & Hkeep & _).
  destruct Hkeep as [->|[?|?]]; [by right|right; right|by left|by right; left].
  exists p. split; [done|]. apply tracks_bound. by replace (i + j)%nat with (j + (i + 0))%nat by lia.
Qed.
End Process.
