(* ===== verification/Net.v ===== *)
(** * The server as the clients' network

    [server_client] is the [HttpClient] whose other end is internal/api itself: the URL and
    the headers of a request are taken apart, ServeMux's patterns (those of [Api.pattern])
    choose the route, [Api.serve] answers, and the answer is written as text. The URL is the
    server's base and a target; a request outside the plain cases (an unclean path, which
    ServeMux redirects, spaces or control characters, other methods, the watch stream) is
    answered by the parameter [other], as is opening a stream by [open_stream]. Time limits of
    the client are left out. *)

From Stdlib Require Import Strings.Ascii.
From S2P Require Import Prelude Json JsonText GoAny Encoding Lines Http Protocol Api.

#[local] Open Scope Z_scope.

(** ** The request's address *)
Definition control (c : ascii) : bool := ((N_of_ascii c <? 32) || (N_of_ascii c =? 127))%N.
Definition breaks_target (c : ascii) : bool :=
  control c || bool_decide (c = " "%char \/ c = "#"%char).

(** A header value that arrives as it was set. *)
Definition header_value (s : string) : bool :=
  negb (has_char control s) && bool_decide (TrimSpace s = s).

Definition unclean (seg : string) : bool := bool_decide (seg = "" \/ seg = "." \/ seg = "..").

(** [r.URL.EscapedPath()], its segments decoded, and [r.URL.RawQuery]. *)
Definition read_target (target : string) : option (list string * string) :=
  if has_char breaks_target target then None
  else
    let '(path, q) := default (target, "") (cut "?"%char target) in
    match Split "/"%char path with
    | "" :: segs =>
        if existsb unclean segs then None
        else segs ← mapM (unescape false) segs; Some (segs, q)
    | _ => None
    end.

(** [r.URL.Query()]: pairs that do not decode, or hold a semicolon, are skipped. *)
Definition query_pair (s : string) : option (string * string) :=
  if bool_decide (s = "") || has_char (fun c => bool_decide (c = ";"%char)) s then None
  else
    let '(k, v) := default (s, "") (cut "="%char s) in
    k ← unescape true k; v ← unescape true v; Some (k, v).
Definition query_pairs (q : string) : list (string * string) := omap query_pair (Split "&"%char q).

(** [Get]: the first value of a key. *)
Fixpoint get_value (name : string) (kvs : list (string * string)) : string :=
  match kvs with
  | [] => ""
  | (k, v) :: kvs' => if bool_decide (k = name) then v else get_value name kvs'
  end.

(** ** ServeMux *)
Definition all_routes : list route :=
  [POST_sessions; GET_session; DELETE_session; GET_healthz; POST_register; POST_messages;
   POST_broadcast; GET_mailbox; GET_mailbox_peek; GET_agents; GET_leader; POST_leader_transfer;
   GET_history; GET_scratchpad; POST_scratchpad_set; POST_scratchpad_get; POST_scratchpad_delete;
   POST_files; GET_files; GET_file; DELETE_file].

(** A pattern's segment: the name of a wildcard, or the segment itself. *)
Definition wildcard (p : string) : option string :=
  if HasPrefix p "{" then Some (TrimSuffix (TrimPrefix p "{") "}") else None.

Fixpoint match_segments (pat segs : list string) : option (list (string * string)) :=
  match pat, segs with
  | [], [] => Some []
  | p :: pat', s :: segs' =>
      match wildcard p with
      | Some name => kvs ← match_segments pat' segs'; Some ((name, s) :: kvs)
      | None => if bool_decide (p = s) then match_segments pat' segs' else None
      end
  | _, _ => None
  end.

(** The method and the segments of a route's pattern. *)
Definition route_method (rt : route) : string := (default ("", "") (cut " "%char (pattern rt))).1.
Definition route_segments (rt : route) : list string :=
  tail (Split "/"%char (default ("", "") (cut " "%char (pattern rt))).2).

(** The path values a route gives the segments. *)
Definition match_route (segs : list string) (rt : route) : option (route * list (string * string)) :=
  kvs ← match_segments (route_segments rt) segs; Some (rt, kvs).

(** The first that matches is the only one ([routes_disjoint]). *)
Definition find_route (method : string) (segs : list string) : option (route * list (string * string)) :=
  head (omap (match_route segs) (filter (fun rt => route_method rt = method) all_routes)).

Definition StatusMethodNotAllowed : Z := 405.
Definition no_route (segs : list string) : Response :=
  match omap (match_route segs) all_routes with
  | [] => error "404 page not found" StatusNotFound
  | _ => error "Method Not Allowed" StatusMethodNotAllowed
  end.

(** ** Requests and responses as the handlers and the clients see them *)
Definition as_received (r : HttpRequest) (values : list (string * string)) (q : string) : Request :=
  mkRequest (get_value "id" values) (get_value "fileID" values) (h_auth r) (h_agent r) (h_ctype r)
    (fun name => get_value name (query_pairs q)) (h_body r ≫= decode_first)
    (Some (String.list_byte_of_string (default "" (h_body r)))).

(** Line breaks in a header's value become spaces, and the value is trimmed. *)
Fixpoint break_to_space (s : string) : string :=
  match s with
  | EmptyString => ""
  | String c s' => String (if bool_decide (c = LF \/ c = CR) then " "%char else c) (break_to_space s')
  end.
Definition header_wire (s : string) : string := TrimSpace (break_to_space s).

Definition as_written (r : Response) : HttpResponse :=
  match reply r with
  | Text s => mkHttpResponse (status r)
      [("Content-Type", "text/plain; charset=utf-8"); ("X-Content-Type-Options", "nosniff")]
      (Ok (s +:+ str1 LF))
  | Json j => mkHttpResponse (status r) [("Content-Type", "application/json")]
      (Ok (Marshal j +:+ str1 LF))
  | File headers content => mkHttpResponse (status r)
      ((fun kv => (kv.1, header_wire kv.2)) <$> headers) (Ok (String.string_of_list_byte content))
  | NoContent => mkHttpResponse (status r) [] (Ok "")
  end.

Section Server.
Context (base : string) (fuel : nat).
Context (other : HttpRequest -> prog Handler (result HttpResponse)).
Context (open_stream : HttpRequest -> prog Handler (result HttpStream)).

(** The segments and the query of a request in the plain cases. *)
Definition addressed (r : HttpRequest) : option (list string * string) :=
  if bool_decide (h_method r ∈ ["GET"; "POST"; "DELETE"]) && header_value (h_auth r) &&
     header_value (h_agent r) && header_value (h_ctype r) then
    target ← expect base (h_url r);
    '(segs, q) ← read_target target;
    if bool_decide (segs = ["watch"]) then None else Some (segs, q)
  else None.

Definition exchange (r : HttpRequest) : prog Handler (result HttpResponse) :=
  match addressed r with
  | None => other r
  | Some (segs, q) =>
      match find_route (h_method r) segs with
      | None => mret (Ok (as_written (no_route segs)))
      | Some (rt, values) =>
          resp ← serve fuel rt (as_received r values q);
          mret (match resp with
                | Some resp => Ok (as_written resp)
                | None => Err "Client.Timeout exceeded while awaiting headers"
                end)
      end
  end.

Definition server_client : HttpClient Handler := {| Do := exchange; Open := open_stream |}.
End Server.

(** ** Addresses of the clients' making *)

(** A string that is a path segment as it is, and a header value. *)
Definition segment_char (c : ascii) : bool := negb (breaks_target c || url_special c).
Definition segment (s : string) : bool :=
  negb (unclean s) && negb (has_char (fun c => negb (segment_char c)) s).

Lemma has_char_mono P P' s : (forall c, P c = true -> P' c = true) ->
  has_char P' s = false -> has_char P s = false.
Proof.
  intros HP. induction s as [|c s IH]; [done|]. cbn [has_char]. intros [Hc Hs]%orb_false_iff.
  rewrite (IH Hs), orb_false_r. destruct (P c) eqn:E; [|done]. by rewrite HP in Hc.
Qed.

Lemma cut_app d a b : has_char (fun c => bool_decide (c = d)) a = false ->
  cut d (a +:+ String d b) = Some (a, b).
Proof.
  induction a as [|c a IH].
  - intros _. simpl. by rewrite bool_decide_eq_true_2.
  - rewrite str_cons_app. cbn [has_char cut]. intros [-> Ha]%orb_false_iff. by rewrite IH.
Qed.

Lemma cut_none d a : has_char (fun c => bool_decide (c = d)) a = false -> cut d a = None.
Proof.
  induction a as [|c a IH]; [done|]. cbn [has_char cut]. intros [-> Ha]%orb_false_iff. by rewrite IH.
Qed.

(** Splitting what was joined. *)
Lemma Split_Join d l :
  l <> [] -> Forall (fun s => has_char (fun c => bool_decide (c = d)) s = false) l ->
  Split d (Join l (str1 d)) = l.
Proof.
  intros Hne Hl. unfold Split.
  enough (forall n, (length l <= n)%nat -> SplitN n d (Join l (str1 d)) = l) as H.
  { apply H. clear -Hne. induction l as [|s [|s' l] IH]; [done|simpl; lia|].
    rewrite Join_cons, !str_app_length. specialize (IH ltac:(done)). simpl in *. lia. }
  destruct l as [|s l]; [done|]. clear Hne. revert s Hl.
  induction l as [|s' l IH]; intros s [Hs Hl]%Forall_cons [|[|n]] Hn; try (simpl in Hn; lia);
    cbn [SplitN].
  - done.
  - by rewrite cut_none.
  - rewrite Join_cons.
    change (s +:+ str1 d +:+ Join (s' :: l) (str1 d)) with (s +:+ String d (Join (s' :: l) (str1 d))).
    rewrite cut_app by done. f_equal.
    apply (IH s' Hl (S n)). simpl in *. lia.
Qed.

Lemma segment_clean s : segment s = true ->
  unclean s = false /\ has_char (fun c => negb (segment_char c)) s = false.
Proof. unfold segment. intros [H1 H2]%andb_true_iff. by rewrite !negb_true_iff in H1, H2. Qed.

Lemma segment_free P s : (forall c, P c = true -> segment_char c = false) -> segment s = true ->
  has_char P s = false.
Proof.
  intros HP [_ Hs]%segment_clean. eapply has_char_mono; [|exact Hs]. intros c Hc. cbv beta. by rewrite (HP c Hc).
Qed.

Lemma special_not_segment c : url_special c = true -> segment_char c = false.
Proof. unfold segment_char. intros ->. by rewrite orb_true_r. Qed.
Lemma breaks_not_segment c : breaks_target c = true -> segment_char c = false.
Proof. unfold segment_char. by intros ->. Qed.
#[local] Hint Resolve special_not_segment breaks_not_segment : core.

Lemma has_char_Join P l sep :
  has_char P sep = false -> Forall (fun s => has_char P s = false) l -> has_char P (Join l sep) = false.
Proof.
  intros Hsep. induction 1 as [|s l Hs Hl IH]; [done|]. destruct l as [|s' l]; [done|].
  rewrite Join_cons, !has_char_app. by rewrite Hs, Hsep, IH.
Qed.

(** The path of plain segments, and a query behind it. *)
Definition path_text (segs : list string) : string := Join ("" :: segs) "/".

Lemma read_target_path segs : Forall (fun s => segment s = true) segs -> segs <> [] ->
  read_target (path_text segs) = Some (segs, "") /\
  forall q, has_char breaks_target q = false ->
    read_target (path_text segs +:+ "?" +:+ q) = Some (segs, q).
Proof.
  intros Hs Hne.
  assert (forall P, (forall c, P c = true -> segment_char c = false) -> P "/"%char = false ->
    has_char P (path_text segs) = false) as Hfree.
  { intros P HP Hslash. apply has_char_Join; [cbn [has_char]; by rewrite Hslash|].
    constructor; [done|]. eapply Forall_impl; [exact Hs|]. intros s. by apply segment_free. }
  assert (Split "/"%char (path_text segs) = "" :: segs) as Hsplit.
  { apply Split_Join; [done|]. constructor; [done|]. eapply Forall_impl; [exact Hs|]. intros s.
    apply segment_free. intros c Hc. apply special_not_segment. unfold url_special.
    apply bool_decide_eq_true in Hc. subst. by vm_compute. }
  assert (existsb unclean segs = false) as Hun.
  { clear -Hs. induction Hs as [|s segs [Hu _]%segment_clean _ IH]; [done|].
    cbn [existsb]. by rewrite Hu, IH. }
  assert (mapM (unescape false) segs = Some segs) as Hm.
  { clear -Hs. apply mapM_Some. induction Hs as [|s segs H _ IH]; constructor; [|done].
    apply unescape_plain. apply segment_free; [|done]. intros c Hc. apply special_not_segment.
    apply bool_decide_eq_true in Hc as [->| ->]; by vm_compute. }
  assert (cut "?"%char (path_text segs) = None) as Hcut.
  { apply cut_none, Hfree; [|by vm_compute]. intros c Hc%bool_decide_eq_true. subst. by vm_compute. }
  assert (has_char breaks_target (path_text segs) = false) as Hbr by (apply Hfree; auto).
  split; [|intros q Hq]; unfold read_target.
  - rewrite Hbr, Hcut. unfold default, id. cbv beta iota zeta. rewrite Hsplit, Hun, Hm. done.
  - rewrite !has_char_app, Hbr, Hq. change (has_char breaks_target "?") with false. cbn [orb].
    change ("?" +:+ q) with (String "?"%char q).
    rewrite cut_app by (apply Hfree; [intros c ->%bool_decide_eq_true; by vm_compute|by vm_compute]).
    unfold default, id. cbv beta iota zeta. rewrite Hsplit, Hun, Hm. done.
Qed.

(** ** The patterns *)

(** Two patterns no list of segments matches both of: of different lengths, or with different
    literals in one place. *)
Fixpoint apart (p q : list string) : bool :=
  match p, q with
  | [], [] => false
  | x :: p', y :: q' =>
      bool_decide (wildcard x = None /\ wildcard y = None /\ x <> y) || apart p' q'
  | _, _ => true
  end.

Lemma match_tail x p s segs v :
  match_segments (x :: p) (s :: segs) = Some v -> is_Some (match_segments p segs).
Proof.
  cbn [match_segments]. destruct (wildcard x); [by intros (? & -> & _)%bind_Some|].
  case_bool_decide; [by eexists|discriminate].
Qed.

Lemma match_apart p q segs v v' :
  match_segments p segs = Some v -> match_segments q segs = Some v' -> apart p q = false.
Proof.
  revert q segs v v'. induction p as [|x p IH]; intros [|y q] [|s segs] v v'; try done.
  intros Hx Hy. cbn [apart]. apply orb_false_iff. split.
  - apply bool_decide_eq_false_2. intros (Hwx & Hwy & Hne). cbn [match_segments] in *.
    rewrite Hwx in Hx. rewrite Hwy in Hy. repeat case_bool_decide; simplify_eq.
  - apply match_tail in Hx as [? Hx], Hy as [? Hy]. by eapply IH.
Qed.

(** No request matches two of the server's patterns. *)
Theorem routes_disjoint segs r1 r2 v1 v2 :
  route_method r1 = route_method r2 -> match_route segs r1 = Some v1 -> match_route segs r2 = Some v2 ->
  r1 = r2.
Proof.
  intros Hm H1 H2. unfold match_route in *. apply bind_Some in H1 as (x1 & H1 & _).
  apply bind_Some in H2 as (x2 & H2 & _). pose proof (match_apart _ _ _ _ _ H1 H2) as Ha.
  clear -Hm Ha. destruct r1, r2; try done; vm_compute in Ha; discriminate Ha.
Qed.

(** Every route is reached by the requests of its pattern. *)
Theorem routes_reached rt id_ fid :
  find_route (route_method rt)
    ((fun p => match wildcard p with
               | Some name => if bool_decide (name = "id") then id_ else fid
               | None => p
               end) <$> route_segments rt) =
  Some (rt, omap (fun p => name ← wildcard p; Some (name, if bool_decide (name = "id") then id_ else fid))
                 (route_segments rt)).
Proof. by destruct rt. Qed.
