(* ===== verification/EndToEnd.v ===== *)
(** * From one agent's bridge to another's

    Two bridges on one server ([Net.server_client]): what one agent's tool call sends, the
    other agent's tool call returns, through the request's text, the routes, the middleware,
    the hub, the mailbox and the reply's text. *)

From Stdlib Require Import Strings.Ascii.
From S2P Require Import Prelude Rfc3339 Json JsonText GoAny Encoding Lines Http Signal Protocol Mcp.
From S2P Require Import Hub HubDelivery Watcher Api ApiAuth ApiStream Net.
From S2P Require Session Filestore Presence Mailbox Persist.
From S2P Require Import Bridge BridgeTools BridgeLaws.

#[local] Open Scope Z_scope.

(** ** The server's side of the requests *)
Section Routes.
Implicit Types (a : Handler) (e : Env) (r : Request).

(** What a request finds: the session has this key, and the hub is well formed. *)
Record serving (sid key : string) a : Prop := mkServing {
  sv_key : creds (store a) !! sid = Some key;
  sv_wf : hub_wf (hub a);
}.

(** The queue of an agent's mailbox. *)
Definition inbox a (sid aid : string) : list Mailbox.Entry :=
  Mailbox.queue (mailboxes (hub a)) (mailbox_key sid aid).
Definition room a : nat := Mailbox.maxPer (mailboxes (hub a)).

Lemma member_refreshed sid aid caps n t to :
  Presence.keyed t -> Presence.member t sid to ->
  Presence.member (Presence.touched sid aid caps n t) sid to.
Proof.
  intros Hk (st & Hst & H1 & H2). unfold Presence.member.
  destruct (decide (Presence.agentKey sid to = Presence.agentKey sid aid)) as [He|Hne].
  - rewrite He in *. simpl. rewrite lookup_insert_eq, Hst. simpl. by eexists.
  - rewrite Presence.lookup_touched_ne by done. by exists st.
Qed.

Lemma hub_RefreshPresence_wp {N} sid aid (Q : unit -> Hub N -> Env -> Prop) (h : Hub N) e :
  (forall t ss e', e ≼ e' -> creds ss = creds (sessionStore h) ->
     Q tt (put the_sessions ss (put the_presence (Presence.touched sid aid None t (presence h)) h)) e') ->
  wp (RefreshPresence sid aid) Q h e.
Proof.
  intros HQ. unfold RefreshPresence. wps. apply Presence.presence_Touch_wp. intros e1 He1.
  unfold touch_activity. wp_now e2 He2. apply Session.session_TouchActivity_wp.
  - intros _. wps. apply (HQ (clock e1)); [clock|done].
  - intros sess Hs. wps. apply (HQ (clock e1)); [clock|].
    change (Session.sessions (sessionStore h) !! sid = Some sess) in Hs.
    unfold creds. simpl. rewrite fmap_insert. apply insert_id. by rewrite lookup_fmap, Hs.
Qed.

(** Behind the middleware: the request goes on with everything but presence and activity as it
    was. *)
Lemma auth_serving sid key next r aid (Q : option Response -> Handler -> Env -> Prop) a e :
  sid <> "" -> aid <> "" -> key <> "" -> path_id r = sid -> X_Agent_ID r = aid ->
  Authorization r = "Bearer " +:+ key -> serving sid key a ->
  (forall a' e', e ≼ e' -> serving sid key a' -> mailboxes (hub a') = mailboxes (hub a) ->
     (forall to, Presence.member (presence (hub a)) sid to -> Presence.member (presence (hub a')) sid to) ->
     files (hub a') = files (hub a) /\ get the_log (hub a') = get the_log (hub a) /\
       notifier (hub a') = notifier (hub a) ->
     wp (next r aid) Q a' e') ->
  wp (auth next r) Q a e.
Proof.
  intros Hsid Haid Hkey Hid Hag Hauth [Hc [Hk Hmb]] HQ. apply auth_admits.
  - split; [by rewrite Hid|]. split; [by rewrite Hag|]. exists key. rewrite Hid. split; [|done].
    unfold bearer. rewrite Hauth, TrimPrefix_app. rewrite !bool_decide_eq_false_2; [done|done|].
    intros H. apply (f_equal String.length) in H. rewrite str_app_length in H. simpl in H. lia.
  - wps. rewrite Hid, Hag. apply hub_RefreshPresence_wp. intros t ss e1 He1 Hss. wps.
    apply HQ; [done| |done| |done].
    + split; [by unfold store; simpl; rewrite Hss|]. split; [by apply Presence.keyed_touched|done].
    + intros to. simpl. by apply member_refreshed.
Qed.

(** A request of an agent of the session, with the session's key. *)
Record of_agent (sid key aid : string) r : Prop := mkOfAgent {
  oa_id : path_id r = sid;
  oa_agent : X_Agent_ID r = aid;
  oa_auth : Authorization r = "Bearer " +:+ key;
  oa_sid : sid <> "";
  oa_aid : aid <> "";
  oa_key : key <> "";
}.

(** What [POST /messages] did: one entry with the message, under the session's next sequence
    number, behind the recipient's queue, and the message handed to the watchers. *)
Record posted (sid aid to ty : string) (p : RawMessage) (e : Env) a a' e' : Prop := mkPosted {
  po_entry : exists en t, clock e <= t <= clock e' /\
    Mailbox.entry_Envelope en =
      mkEnvelope ty "" sid aid to (Some p) (bumped sid (get the_log (hub a))) t /\
    inbox a' sid to = cap (room a) (inbox a sid to ++ [en]) /\
    notified (notifier (hub a)) [(sid, Mailbox.entry_Envelope en)] (notifier (hub a'));
  po_room : room a' = room a;
  po_files : files (hub a') = files (hub a);
}.

Lemma serve_messages_wp fuel sid key aid to ty p kvs r (Q : option Response -> Handler -> Env -> Prop) a e :
  of_agent sid key aid r -> serving sid key a ->
  body r = Some (JObj kvs) -> string_field "to" kvs = Some to -> string_field "type" kvs = Some ty ->
  raw_field "payload" kvs = Some p -> to <> "" -> ty <> "" ->
  Presence.member (presence (hub a)) sid to ->
  (forall a' e', e ≼ e' -> serving sid key a' -> posted sid aid to ty p e a a' e' ->
     Q (Some (writeJSON StatusOK (strmap_json [("status", "sent")]))) a' e') ->
  wp (serve fuel POST_messages r) Q a e.
Proof.
  intros [Hid Hag Hau Hsid Haid Hkey] Hs Hb Hto Hty Hp Hne Htne Hm HQ.
  apply (auth_serving sid key _ r aid); [done..|].
  intros a1 e1 He1 [Hc1 Hwf1] Hmb1 Hmem1 (Hfi1 & Hlog1 & Hno1).
  unfold sendMessage. rewrite Hb. cbn [mbind option_bind body_fields]. rewrite Hto. cbn [mbind option_bind].
  rewrite Hty. cbn [mbind option_bind]. rewrite Hp, Hid. rewrite !bool_decide_eq_false_2 by done. wps.
  apply hub_SendMessage_wp; [done|done|by apply Hmem1|]. intros t mb o e2 He2 Ht env env' Hf Hn.
  unfold respond. wps. destruct Hf as [Hin _ Hmax Hwf].
  destruct (Hin (mailbox_key sid to)) as (en & Hen & Hq); [by left|].
  change (get the_hub a1) with (hub a1) in Hq, Hmax. rewrite Hmb1 in Hq, Hmax.
  apply HQ; [clock| |].
  - split; [done|]. split; [apply Hwf1|done].
  - split; [|exact Hmax|exact Hfi1]. exists en, t.
    split; [clock|]. subst env env'. change (get the_hub a1) with (hub a1) in Hen, Hn.
    rewrite Hlog1 in Hen, Hn. rewrite Hen. split; [done|]. split; [exact Hq|]. by rewrite <- Hno1.
Qed.

(** [GET /mailbox] without a wait and a filter: the whole queue, which is then empty. *)
Lemma serve_mailbox_wp fuel sid key aid r (Q : option Response -> Handler -> Env -> Prop) a e :
  of_agent sid key aid r -> serving sid key a -> (poll_fuel <= fuel)%nat ->
  query r "from" = "" -> query r "type" = "" ->
  (forall a' e', e ≼ e' -> serving sid key a' -> inbox a' sid aid = [] ->
     Q (Some (drain_reply (inbox a sid aid))) a' e') ->
  wp (serve fuel GET_mailbox r) Q a e.
Proof.
  intros [Hid Hag Hau Hsid Haid Hkey] Hs Hfuel Hfrom Hty HQ.
  apply (auth_serving sid key _ r aid); [done..|]. intros a1 e1 He1 [Hc1 Hwf1] Hmb1 Hmem1 _.
  apply api_drainMailbox_wp; [apply Hwf1|done|]. rewrite Hid, Hfrom, Hty, Hmb1.
  intros t mb e2 He2 (Hq & _ & _ & Hwf) _. rewrite filter_true by done.
  apply HQ; [clock| |].
  - split; [done|]. split; [apply Presence.keyed_touched, Hwf1|done].
  - unfold inbox. simpl. rewrite Hq. by apply filter_none.
Qed.
End Routes.

(** ** Replies as the bridge reads them *)
Lemma number_end_LF : number_end (str1 LF).
Proof. done. Qed.

Lemma Unmarshal_line j : spellable j -> Unmarshal (Marshal j +:+ str1 LF) = Some (retyped j).
Proof.
  intros Hs. unfold Unmarshal. rewrite Marshal_reads_back; [done|done| |apply number_end_LF].
  rewrite str_app_length. lia.
Qed.

Lemma decode_first_Marshal j : spellable j -> decode_first (Marshal j) = Some (retyped j).
Proof.
  intros Hs. unfold decode_first. rewrite <- (str_app_nil (Marshal j)) at 2.
  by rewrite Marshal_reads_back by (done || lia).
Qed.

Lemma any_of_line j : spellable j -> any_of (Marshal j +:+ str1 LF) = into_any (retyped j).
Proof. intros Hs. unfold any_of. by rewrite Unmarshal_line. Qed.

(** A successful JSON answer, through the wire. *)
Lemma call_result_Json code j : spellable j -> code < 400 ->
  call_result (Ok (as_written (writeJSON code j))) = Ok (into_any (retyped j)) /\
  refused (Ok (as_written (writeJSON code j))) = false.
Proof.
  intros Hs Hc. unfold call_result, refused. cbn [as_written writeJSON reply h_text h_status status].
  rewrite any_of_line by done. destruct (Z.leb_spec 400 code); [lia|]. split; [done|].
  apply bool_decide_eq_false_2. unfold StatusUnauthorized, StatusForbidden. lia.
Qed.

(** ** A bridge on the server *)
Section OnServer.
Context (base : string) (fuel : nat).
Context (other : HttpRequest -> prog Handler (result HttpResponse)).
Context (open_stream : HttpRequest -> prog Handler (result HttpStream)).
#[local] Instance server_ : HttpClient Handler := server_client base fuel other open_stream.
Abbreviation W := (World Handler).
Implicit Types (w : W) (e : Env) (b : Config).

(** A configuration of a channel of this server: values that arrive as they are. *)
Record joined b : Prop := mkJoined {
  jo_base : httpBase b = base;
  jo_session : segment (sessionID b) = true;
  jo_auth : header_value ("Bearer " +:+ psk b) = true;
  jo_agent : header_value (agentID b) = true;
  jo_key : psk b <> "";
  jo_name : agentID b <> "";
}.

(** A request of the bridge, with any type and body. *)
Definition from_bridge b (m p ctype : string) (x : option string) : HttpRequest :=
  mkHttpRequest m (httpBase b +:+ p) ("Bearer " +:+ psk b) (agentID b) ctype x.

Lemma addressed_bridge b m p ctype x segs q :
  joined b -> m ∈ ["GET"; "POST"; "DELETE"] -> header_value ctype = true ->
  read_target p = Some (segs, q) -> segs <> ["watch"] ->
  addressed base (from_bridge b m p ctype x) = Some (segs, q).
Proof.
  intros [Hb _ Ha Hg _ _] Hm Hc Hp Hw. unfold addressed, from_bridge.
  cbn [h_method h_auth h_agent h_ctype h_url]. rewrite bool_decide_eq_true_2, Ha, Hg, Hc by done.
  cbn [andb]. rewrite Hb, expect_app. cbn [mbind option_bind]. rewrite Hp. cbn [mbind option_bind].
  by rewrite bool_decide_eq_false_2.
Qed.

Lemma of_agent_bridge b m p ctype x values q :
  joined b -> get_value "id" values = sessionID b ->
  of_agent (sessionID b) (psk b) (agentID b) (as_received (from_bridge b m p ctype x) values q).
Proof.
  intros [_ Hs _ _ Hk Ha] Hv. split; try done.
  intros Hn. rewrite Hn in Hs. by vm_compute in Hs.
Qed.

(** Such a request, to a route. *)
Lemma exchange_wp b m p ctype x segs q rt values (Q : result HttpResponse -> Handler -> Env -> Prop) a e :
  joined b -> m ∈ ["GET"; "POST"; "DELETE"] -> header_value ctype = true ->
  read_target p = Some (segs, q) -> segs <> ["watch"] -> find_route m segs = Some (rt, values) ->
  wp (serve fuel rt (as_received (from_bridge b m p ctype x) values q))
     (fun resp a' e' => exists r, resp = Some r /\ Q (Ok (as_written r)) a' e') a e ->
  wp (Do (from_bridge b m p ctype x)) Q a e.
Proof.
  intros Hj Hm Hc Hp Hw Hrt HQ. cbn [Do server_ server_client]. unfold exchange.
  erewrite addressed_bridge by done. cbn [h_method from_bridge]. rewrite Hrt. wps.
  eapply wp_mono; [exact HQ|]. intros resp a' e' (r & -> & HQ1). wps. exact HQ1.
Qed.

Lemma of_agent_request b m p x values q :
  joined b -> get_value "id" values = sessionID b ->
  of_agent (sessionID b) (psk b) (agentID b) (as_received (request b m p x) values q).
Proof. apply of_agent_bridge. Qed.

(** A call of a registered bridge is the route's answer. *)
Lemma doJSON_server_wp b m p x segs q rt values (Q : result json -> W -> Env -> Prop) w e :
  joined b -> initialized (st w) = true -> m ∈ ["GET"; "POST"; "DELETE"] ->
  read_target p = Some (segs, q) -> segs <> ["watch"] -> find_route m segs = Some (rt, values) ->
  wp (serve fuel rt (as_received (request b m p (Marshal <$> x)) values q))
     (fun resp a e' => exists r, resp = Some r /\
        Q (call_result (Ok (as_written r))) (replied (Ok (as_written r)) (put the_net a w)) e') (net w) e ->
  wp (doJSON b m p x) Q w e.
Proof.
  intros Hj Hi Hm Hp Hw Hrt HQ. apply doJSON_any_wp, ensureInit_registered; [done|]. split; [done|].
  eapply (exchange_wp b m p _ (Marshal <$> x)); [done|done|by destruct x|exact Hp|done|exact Hrt|].
  eapply wp_mono; [exact HQ|]. intros resp a e' (r & -> & HQ1). by exists r.
Qed.
End OnServer.

(** ** The messages of a reply *)

(** An entry as it reaches the tool: a map of normal values. *)
Definition entry_map (en : Mailbox.Entry) : args :=
  default [] (as_map (into_any (retyped (Persist.Entry_json en)))).

Definition readable (en : Mailbox.Entry) : Prop :=
  forall p, Payload (Mailbox.entry_Envelope en) = Some p -> spellable p.

Lemma spellable_entry en : readable en -> spellable (Persist.Entry_json en).
Proof.
  intros Hen. unfold Persist.Entry_json. apply spellable_obj.
  repeat apply Forall_cons_2; [constructor|by apply spellable_Envelope_json|constructor|done].
Qed.

Lemma index_into_any kvs k : NoDup kvs.*1 ->
  as_map (into_any (JObj kvs)) ≫= (fun m => Some (index m k)) =
  Some (default JNull (into_any <$> lookup_key k kvs)).
Proof.
  intros Hnd. cbn [into_any as_map mbind option_bind]. unfold index. f_equal.
  rewrite make_map_lookup.
  - f_equal. clear Hnd. induction kvs as [|[k' v] kvs IH]; [done|]. simpl. by case_bool_decide.
  - enough (((fun kv => (kv.1, into_any kv.2)) <$> kvs).*1 = kvs.*1) as -> by done.
    clear. induction kvs as [|kv kvs IH]; [done|]. simpl. by f_equal.
Qed.

Lemma index_of_obj kvs m k v : NoDup kvs.*1 -> as_map (into_any (JObj kvs)) = Some m ->
  lookup_key k kvs = Some v -> index m k = into_any v.
Proof. intros Hnd Hm Hk. pose proof (index_into_any kvs k Hnd) as H. rewrite Hm, Hk in H. by injection H. Qed.

Lemma as_map_obj kvs : exists m, as_map (into_any (JObj kvs)) = Some m.
Proof. by eexists. Qed.

(** Distinct literal keys. *)
Ltac distinct := apply (bool_decide_unpack _); vm_compute; exact I.

Lemma entry_map_spec en : as_map (into_any (retyped (Persist.Entry_json en))) = Some (entry_map en).
Proof. unfold entry_map. destruct (retyped (Persist.Entry_json en)) eqn:E; try done. Qed.

Lemma reply_messages_of n l :
  reply_messages (into_any (retyped (JObj [("count", JInt n); ("messages", JArr l)]))) =
  omap as_map (into_any <$> (retyped <$> l)).
Proof.
  change (retyped (JObj _)) with (JObj [("count", JInt n); ("messages", JArr (retyped <$> l))]).
  unfold reply_messages. set (kvs := [("count", JInt n); _]).
  destruct (as_map_obj kvs) as [m Hm]. rewrite Hm. cbn [mbind option_bind].
  assert (NoDup kvs.*1) as Hnd by distinct.
  by rewrite (index_of_obj kvs m "messages" _ Hnd Hm eq_refl).
Qed.

Lemma omap_entries (entries : list Mailbox.Entry) :
  omap as_map (into_any <$> (retyped <$> (Persist.Entry_json <$> entries))) = entry_map <$> entries.
Proof.
  induction entries as [|en entries IH]; [done|]. rewrite !fmap_cons, <- IH.
  change (omap as_map (?x :: ?l)) with
    (match as_map x with Some y => y :: omap as_map l | None => omap as_map l end).
  by rewrite entry_map_spec.
Qed.

(** The message [m] is the one that was sent. *)
Record carries (from to ty : string) (p : json) (m : args) : Prop := mkCarries {
  ca_envelope : exists em, as_map (index m "envelope") = Some em /\
    index em "from" = JStr from /\ index em "to" = JStr to /\ index em "type" = JStr ty /\
    index em "payload" = p;
  ca_source : index m "_source" = JStr "mailbox";
  ca_delivery : index m "_delivery" = JStr "direct";
}.

(** A value that survives the wire as it is: JSON with sorted keys and float64 numbers, as
    every argument of a tool call is. *)
Record wire_value (p : json) : Prop := mkWireValue {
  wv_spellable : spellable p;
  wv_normal : normal p;
  wv_timeless : retyped p = p;
}.

Lemma wire_value_back p : wire_value p -> into_any (retyped p) = p.
Proof. intros [_ Hn ->]. by apply into_any_fixed. Qed.

Lemma retyped_Envelope env :
  retyped (Envelope_json env) =
  obj [fld "type" (JStr (Type_ env)); fld_str "request_id" (RequestID env);
       fld_str "session_id" (env_SessionID env); fld_str "from" (From env); fld_str "to" (To env);
       fld_raw "payload" (retyped <$> Payload env); fld_int "sequence" (Sequence env);
       fld "timestamp" (JStr (rfc3339 (Timestamp env)))].
Proof.
  unfold Envelope_json. rewrite retyped_obj. cbn [fmap list_fmap].
  by rewrite !retyped_fld_str, retyped_fld_int, retyped_fld_raw.
Qed.

(** The fields of a direct message's envelope. *)
Definition direct_fields (sid from to ty : string) (p : json) (n : Z) (t : Time)
    : list (string * json) :=
  [("type", JStr ty); ("session_id", JStr sid); ("from", JStr from); ("to", JStr to); ("payload", p)] ++
  option_list (fld_int "sequence" n) ++ [("timestamp", JStr (rfc3339 t))].

Lemma retyped_direct sid from to ty p n t :
  sid <> "" -> from <> "" -> to <> "" ->
  retyped (Envelope_json (mkEnvelope ty "" sid from to (Some p) n t)) =
  JObj (direct_fields sid from to ty (retyped p) n t).
Proof.
  intros Hsid Hfrom Hto. rewrite retyped_Envelope. unfold obj, fld_str, direct_fields.
  cbn [RequestID env_SessionID From To].
  rewrite (bool_decide_eq_false_2 (sid = _)), (bool_decide_eq_false_2 (from = _)), (bool_decide_eq_false_2 (to = _)) by done.
  rewrite (bool_decide_eq_true_2 ("" = "")) by done.
  cbn [Type_ Payload Sequence Timestamp]. generalize (rfc3339 t). intros ts.
  unfold fld_int. by case_bool_decide.
Qed.

Lemma direct_fields_distinct sid from to ty p n t : NoDup (direct_fields sid from to ty p n t).*1.
Proof. unfold direct_fields, fld_int. case_bool_decide; distinct. Qed.

(** What the bridge adds to a message does not hide what it carries. *)
Definition with_marks (info : option pendingSignalInfo) (m : args) : args :=
  match info with Some i => mark_trigger i (tagMessage m) | None => tagMessage m end.

Lemma index_with_marks info m k : k <> "_signal_trigger" -> index (with_marks info m) k = index (tagMessage m) k.
Proof.
  intros Hk. unfold with_marks, mark_trigger. destruct info as [i|]; [|done].
  repeat case_match; rewrite ?index_insert_ne; done.
Qed.

(** An entry with a direct message, as the tool returns it. *)
Lemma entry_carries en sid from to ty p n t info :
  Mailbox.entry_Envelope en = mkEnvelope ty "" sid from to (Some (retyped p)) n t ->
  sid <> "" -> from <> "" -> to <> "" -> to <> "*" -> wire_value p ->
  carries from to ty p (with_marks info (entry_map en)).
Proof.
  intros Hen Hsid Hfrom Hto Hstar Hp.
  set (ekvs := direct_fields sid from to ty p n t).
  set (kvs := [("id", JStr (Mailbox.ID en)); ("envelope", JObj ekvs); ("received", JStr (rfc3339 (Mailbox.Received en)))]).
  assert (retyped (Persist.Entry_json en) = JObj kvs) as Hkvs.
  { change (retyped (Persist.Entry_json en)) with (JObj [("id", JStr (Mailbox.ID en));
      ("envelope", retyped (Envelope_json (Mailbox.entry_Envelope en)));
      ("received", JStr (rfc3339 (Mailbox.Received en)))]).
    rewrite Hen, retyped_direct, !(wv_timeless p Hp) by done. done. }
  assert (NoDup kvs.*1) as Hnd by distinct.
  pose proof (direct_fields_distinct sid from to ty p n t : NoDup ekvs.*1) as Hned.
  pose proof (entry_map_spec en) as Hm. rewrite Hkvs in Hm.
  destruct (as_map_obj ekvs) as [em Hem].
  assert (index (entry_map en) "envelope" = into_any (JObj ekvs)) as Henv
    by (by apply (index_of_obj kvs)).
  assert (index em "to" = JStr to) as Het by (by apply (index_of_obj ekvs em "to" (JStr to))).
  split.
  - exists em. rewrite index_with_marks by done. unfold tagMessage.
    rewrite !index_insert_ne, Henv by done. split; [exact Hem|].
    split; [by apply (index_of_obj ekvs em "from" (JStr from))|]. split; [done|].
    split; [by apply (index_of_obj ekvs em "type" (JStr ty))|].
    rewrite (index_of_obj ekvs em "payload" p) by done. rewrite <- (wv_timeless p Hp) at 1.
    by apply wire_value_back.
  - rewrite index_with_marks by done. unfold tagMessage. by rewrite index_insert_ne, index_insert_eq.
  - rewrite index_with_marks by done. unfold tagMessage. rewrite index_insert_eq. unfold tagDelivery.
    rewrite index_insert_ne, Henv, Hem by done. cbn [mbind option_bind]. rewrite Het. cbn [as_string fmap option_fmap option_map].
    assert (isBroadcast to = false) as -> by (apply bool_decide_eq_false_2; naive_solver).
    rewrite bool_decide_eq_false_2 by done. rewrite index_insert_ne by done.
    by assert (index (entry_map en) "to" = JNull) as -> by reflexivity.
Qed.

(** ** Two agents' bridges and their server *)
Record Client := mkClient { c_st : State; c_origin : string * string; c_peer : Peer }.
Record Pair := mkPair { left_ : Client; right_ : Client; shared : Handler }.

Definition client_world (c : Client) (h : Handler) : World Handler :=
  mkWorld (c_st c) (c_origin c) h (c_peer c).
Definition world_client (w : World Handler) : Client := mkClient (st w) (origin w) (peer w).

Definition at_left : Lens Pair (World Handler).
Proof.
  by refine (mkLens (fun p => client_world (left_ p) (shared p))
    (fun w p => mkPair (world_client w) (right_ p) (net w)) _ _ _); intros; repeat match goal with
    | p : Pair |- _ => destruct p | c : Client |- _ => destruct c | w : World _ |- _ => destruct w end.
Defined.
Definition at_right : Lens Pair (World Handler).
Proof.
  by refine (mkLens (fun p => client_world (right_ p) (shared p))
    (fun w p => mkPair (left_ p) (world_client w) (net w)) _ _ _); intros; repeat match goal with
    | p : Pair |- _ => destruct p | c : Client |- _ => destruct c | w : World _ |- _ => destruct w end.
Defined.

(** ** Tool calls on the server *)
Section Tools.
Context (base : string) (fuel : nat).
Context (other : HttpRequest -> prog Handler (result HttpResponse)).
Context (open_stream : HttpRequest -> prog Handler (result HttpStream)).
#[local] Instance server_net : HttpClient Handler := server_client base fuel other open_stream.
Abbreviation W := (World Handler).
Implicit Types (w : W) (e : Env) (b : Config).

(** The bridge's session and key are the server's. *)
Definition served b w : Prop := serving (sessionID b) (psk b) (net w).

Lemma session_target b rest q :
  joined base b -> Forall (fun s => segment s = true) rest ->
  read_target (path_text (["sessions"; sessionID b] ++ rest)) = Some (["sessions"; sessionID b] ++ rest, "") /\
  (has_char breaks_target q = false ->
   read_target (path_text (["sessions"; sessionID b] ++ rest) +:+ "?" +:+ q) =
     Some (["sessions"; sessionID b] ++ rest, q)).
Proof.
  intros [_ Hs _ _ _ _] Hr.
  destruct (read_target_path (["sessions"; sessionID b] ++ rest)) as [H1 H2]; [by repeat constructor|done|].
  split; [exact H1|exact (H2 q)].
Qed.

(** A message of any kind to a member of the session. *)
Lemma post_message_wp b to ty p (Q : result json -> W -> Env -> Prop) w e :
  joined base b -> initialized (st w) = true -> served b w -> spellable p -> to <> "" -> ty <> "" ->
  Presence.member (presence (hub (net w))) (sessionID b) to ->
  (forall a e', e ≼ e' -> serving (sessionID b) (psk b) a ->
     posted (sessionID b) (agentID b) to ty (retyped p) e (net w) a e' ->
     forall j, Q (Ok j) (put the_net a w) e') ->
  wp (doJSON b "POST" (session_path b "/messages")
        (Some (JObj [("payload", p); ("to", JStr to); ("type", JStr ty)]))) Q w e.
Proof.
  intros Hj Hi Hs Hp Hto Hty Hm HQ.
  destruct (session_target b ["messages"] "" Hj) as [Ht _]; [by repeat constructor|].
  eapply (doJSON_server_wp base fuel other open_stream b "POST" _ _ _ "" POST_messages [("id", sessionID b)]);
    [done|done|set_solver|exact Ht|done|reflexivity|].
  eapply (serve_messages_wp fuel (sessionID b) (psk b) (agentID b) to ty (retyped p)
            [("payload", retyped p); ("to", JStr to); ("type", JStr ty)]);
    [by eapply of_agent_request|done| | | | |done|done|done|].
  - cbn [body as_received request h_body fmap option_fmap option_map mbind option_bind].
    rewrite decode_first_Marshal; [done|]. constructor. by repeat constructor.
  - done.
  - done.
  - done.
  - intros a e' He Hs' Hpo. eexists. split; [done|].
    destruct (call_result_Json StatusOK (strmap_json [("status", "sent")])) as [-> Href];
      [by repeat constructor|done|].
    unfold replied. rewrite Href. by apply HQ.
Qed.

(** What [receive_messages] returns of a mailbox. *)
Definition received_text (info : option pendingSignalInfo) (es : list Mailbox.Entry) : string :=
  Marshal (JArr (JObj <$> (with_marks info <$> (entry_map <$> es)))).

Lemma mark_triggers_marks info ms : mark_triggers info (tagMessages ms) = with_marks info <$> ms.
Proof. unfold mark_triggers, tagMessages, with_marks. destruct info; [|done]. by rewrite <- list_fmap_compose. Qed.

Lemma receive_messages_wp b (x : args) (Q : result string -> W -> Env -> Prop) w e :
  joined base b -> initialized (st w) = true -> served b w -> (poll_fuel <= fuel)%nat ->
  let q := inbox (net w) (sessionID b) (agentID b) in
  Forall readable q ->
  (forall a e', e ≼ e' -> serving (sessionID b) (psk b) a ->
     inbox a (sessionID b) (agentID b) = [] ->
     Q (Ok (received_text (pendingSignal (st w)) q))
       (put the_net a (put the_st (with_pending None (st w)) w)) e') ->
  wp ((receive_messages b).2 x) Q w e.
Proof.
  intros Hj Hi Hs Hfuel q Hq HQ. cbn [receive_messages snd]. unfold drainAll, pollMailbox. wps.
  destruct (session_target b ["mailbox"] "wait=0" Hj) as [_ Ht]; [by repeat constructor|].
  specialize (Ht eq_refl).
  eapply (doJSON_server_wp base fuel other open_stream b "GET" _ _ ["sessions"; sessionID b; "mailbox"] "wait=0"
           GET_mailbox [("id", sessionID b)]);
    [done|done|set_solver| |done|reflexivity|].
  { etrans; [|exact Ht]. f_equal. unfold mailbox_path. rewrite !bool_decide_eq_true_2 by done.
    rewrite !str_app_nil. unfold path_text. cbn [app Join]. by rewrite !string_app_assoc. }
  eapply serve_mailbox_wp; [by eapply of_agent_request|done|done|reflexivity|reflexivity|].
  intros a e' He Hs' Hin. eexists. split; [done|]. fold q.
  assert (spellable (JObj [("count", JInt (Z.of_nat (length q))); ("messages", JArr (Persist.Entry_json <$> q))])) as Hsp.
  { constructor. repeat apply Forall_cons_2; [constructor| |done]. constructor. apply Forall_fmap.
    eapply Forall_impl; [exact Hq|]. intros en. apply spellable_entry. }
  destruct (call_result_Json Api.StatusOK _ Hsp ltac:(done)) as [Hres Href].
  change (drain_reply q) with (writeJSON Api.StatusOK (JObj [("count", JInt (Z.of_nat (length q)));
    ("messages", JArr (Persist.Entry_json <$> q))])).
  rewrite Hres. unfold replied. rewrite Href.
  wps. unfold getPendingSignalInfo. wps.
  rewrite reply_messages_of, omap_entries, mark_triggers_marks. by apply (HQ a).
Qed.

(** The calls of the messaging tools that send [p], as a message of type [ty], to [to]. *)
Inductive sends b : Tool * ToolHandler W -> args -> string -> string -> json -> Prop :=
| sends_message x x' to : requireString x "to" "send_message" = (Ok to, x') ->
    sends b (send_message b) x to "message" (index x' "payload")
| sends_assign x x' to : requireString x "to" "task_assign" = (Ok to, x') ->
    sends b (task_assign b) x to "task_assign"
      (JObj [("description", index x' "description"); ("parameters", index x' "parameters");
             ("task_id", index x' "task_id")])
| sends_status x x' to : requireString x "to" "task_status" = (Ok to, x') ->
    sends b (task_status b) x to "task_status"
      (JObj [("detail", index x' "detail"); ("status", index x' "status"); ("task_id", index x' "task_id")])
| sends_result x x' to : requireString x "to" "task_result" = (Ok to, x') ->
    sends b (task_result b) x to "task_result"
      (JObj [("result", index x' "result"); ("task_id", index x' "task_id")]).

Lemma sends_wp b t x to ty p (Q : result string -> W -> Env -> Prop) w e :
  sends b t x to ty p ->
  joined base b -> initialized (st w) = true -> served b w -> spellable p -> to <> "" ->
  Presence.member (presence (hub (net w))) (sessionID b) to ->
  (forall a e', e ≼ e' -> serving (sessionID b) (psk b) a ->
     posted (sessionID b) (agentID b) to ty (retyped p) e (net w) a e' ->
     Q (Ok "sent") (put the_net a w) e') ->
  wp (t.2 x) Q w e.
Proof.
  intros Ht Hj Hi Hs Hp Hto Hm HQ.
  assert (wp (post b "/messages" (JObj [("payload", p); ("to", JStr to); ("type", JStr ty)]) "sent") Q w e) as Hpost.
  { unfold post. wps. eapply post_message_wp; try done; [by destruct Ht|]. intros a e' He Hs' Hpo j. wps. by apply HQ. }
  destruct Ht as [x x' to Hr|x x' to Hr|x x' to Hr|x x' to Hr];
    cbn [snd send_message task_assign task_status task_result]; unfold send_task; rewrite Hr; exact Hpost.
Qed.

(** Two registered bridges in one channel of the server: the right one's agent is a member of
    it, its mailbox has room for a message, and what waits there can be spelled. *)
Record channel ba bb (w : Pair) : Prop := mkChannel {
  ch_left : joined base ba;
  ch_right : joined base bb;
  ch_session : sessionID ba = sessionID bb;
  ch_key : psk ba = psk bb;
  ch_registered : initialized (c_st (left_ w)) = true /\ initialized (c_st (right_ w)) = true;
  ch_serving : serving (sessionID bb) (psk bb) (shared w);
  ch_member : Presence.member (presence (hub (shared w))) (sessionID bb) (agentID bb);
  ch_name : agentID bb <> "*";
  ch_room : (0 < room (shared w))%nat;
  ch_readable : Forall readable (inbox (shared w) (sessionID bb) (agentID bb));
}.

(** C1: What one agent sends, the other receives, once. A call of a messaging tool (send_message,
    task_assign, task_status, task_result) on one agent's bridge returns "sent"; the next
    receive_messages of the addressed agent, on its own bridge, returns the text of a JSON array
    whose last element is that message, from this sender, to this recipient, of this type,
    with exactly the payload of the call, marked as a direct delivery from the mailbox, behind
    the messages that already waited (all of them but the oldest of a full mailbox); and the
    call after that returns none. In between lie both requests' text, the route, the
    middleware, the hub, the mailbox and the reply's text. *)
Theorem message_reaches_agent ba bb t x x1 x2 ty p (w : Pair) e :
  channel ba bb w -> (poll_fuel <= fuel)%nat ->
  sends ba t x (agentID bb) ty p -> wire_value p ->
  wp (r1 ← ⟪at_left⟫ t.2 x;
      r2 ← ⟪at_right⟫ (receive_messages bb).2 x1;
      r3 ← ⟪at_right⟫ (receive_messages bb).2 x2;
      mret (r1, r2, r3))
    (fun '(r1, r2, r3) _ _ => r1 = Ok "sent" /\
      (exists older m, r2 = Ok (Marshal (JArr (JObj <$> older ++ [m]))) /\
         length older = min (room (shared w) - 1) (length (inbox (shared w) (sessionID bb) (agentID bb))) /\
         carries (agentID ba) (agentID bb) ty p m) /\
      r3 = Ok "[]") w e.
Proof.
  intros [Ha Hb Hsid Hkey [Hia Hib] Hs Hm Hstar Hroom Hq] Hfuel Ht Hp. wps.
  assert (sessionID bb <> "") as Hsne by (intros Hn; destruct Hb as [_ Hseg _ _ _ _]; by rewrite Hn in Hseg).
  eapply (sends_wp ba); try done.
  { unfold served. rewrite Hsid, Hkey. exact Hs. }
  { apply Hp. }
  { apply Hb. }
  { by rewrite Hsid. }
  intros a e1 He1 Hs1 [(en & t0 & _ & Hen & Hin & _) _ _]. rewrite Hsid, Hkey in *.
  change (net (get at_left w)) with (shared w) in Hin, Hen.
  assert (readable en) as Hren.
  { intros p' Hp'. rewrite Hen in Hp'. injection Hp' as <-. rewrite wv_timeless by done. apply Hp. }
  wps. eapply receive_messages_wp; try done.
  { change (Forall readable (inbox a (sessionID bb) (agentID bb))). rewrite Hin. apply Forall_forall.
    intros x0 Hx0%elem_of_cap%elem_of_app. rewrite Forall_forall in Hq. set_solver. }
  intros a2 e2 He2 Hs2 Hin2. wps. eapply receive_messages_wp; try done.
  { change (Forall readable (inbox a2 (sessionID bb) (agentID bb))). rewrite Hin2. constructor. }
  intros a3 e3 _ _ _. wps. split; [done|]. split.
  2:{ change (Ok (received_text None (inbox a2 (sessionID bb) (agentID bb))) = Ok "[]"). by rewrite Hin2. }
  set (info := pendingSignal (c_st (right_ w))).
  change (net (get at_right (put at_left (put the_net a (get at_left w)) w))) with a.
  change (pendingSignal (st (get at_right (put at_left (put the_net a (get at_left w)) w)))) with info.
  rewrite Hin.
  pose proof (cap_last (room (shared w)) (inbox (shared w) (sessionID bb) (agentID bb)) en Hroom) as Hlast.
  apply last_Some in Hlast as [olds Holds].
  exists (with_marks info <$> (entry_map <$> olds)), (with_marks info (entry_map en)).
  split; [|split].
  - rewrite Holds. unfold received_text. by rewrite !fmap_app.
  - rewrite !length_fmap. apply (f_equal length) in Holds.
    rewrite length_cap, !length_app in Holds. simpl in Holds. lia.
  - eapply entry_carries; try done; [apply Ha|apply Hb].
Qed.
End Tools.
