(* ===== verification/FileSharing.v ===== *)
(** * A file from one agent's bridge to another's

    [send_file] and [download_file] on two bridges of one server: the base64 argument, the
    upload, the file store, the share message, the download and the base64 result. *)

From Stdlib Require Import Strings.Ascii.
From S2P Require Import Prelude Rfc3339 Json JsonText GoAny Encoding Lines Http Signal Protocol Mcp.
From S2P Require Import Hub HubDelivery Watcher Api ApiAuth Net.
From S2P Require Filestore Presence Mailbox.
From S2P Require Import Bridge BridgeTools BridgeLaws EndToEnd.

#[local] Open Scope Z_scope.

(** ** The server's side *)
Section Routes.
Implicit Types (a : Handler) (e : Env) (r : Request).

(** A file of the server's making: a fresh ID, the size and the digest of the data. *)
Record stored (sid fid name ctype by_ : string) (data : list byte) a : Prop := mkStored {
  sf_id : exists bs, length bs = 16%nat /\ fid = hex_encode bs;
  sf_file : exists t, Filestore.file_at (files (hub a)) sid fid =
    Some (Filestore.mkFile fid name ctype (Z.of_nat (length data)) (Filestore.sha256Hex data) data by_ t);
}.

(** The upload's answer. *)
Definition upload_reply (fid name ctype by_ : string) (data : list byte) (t : Time) : json :=
  JObj [("content_type", JStr ctype); ("file_id", JStr fid); ("file_name", JStr name);
        ("sha256", JStr (Filestore.sha256Hex data)); ("size", JInt (Z.of_nat (length data)));
        ("uploaded_at", JTime t); ("uploaded_by", JStr by_)].

Lemma serve_upload_wp fuel sid key aid r name data (Q : option Response -> Handler -> Env -> Prop) a e :
  of_agent sid key aid r -> serving sid key a -> raw_body r = Some data ->
  query r "filename" = name -> name <> "" -> Content_Type r <> "" ->
  Z.of_nat (length data) <= maxUploadMemory ->
  Z.of_nat (length data) <= Filestore.maxSize (files (hub a)) ->
  (forall fid t a' e', e ≼ e' -> serving sid key a' -> mailboxes (hub a') = mailboxes (hub a) ->
     (forall to, Presence.member (presence (hub a)) sid to -> Presence.member (presence (hub a')) sid to) ->
     stored sid fid name (Content_Type r) aid data a' ->
     Q (Some (writeJSON StatusCreated (upload_reply fid name (Content_Type r) aid data t))) a' e') ->
  wp (serve fuel POST_files r) Q a e.
Proof.
  intros [Hid Hag Hau Hsid Haid Hkey] Hs Hraw Hq Hname Hct Hup Hmax HQ.
  apply (auth_serving sid key _ r aid); [done..|]. intros a1 e1 He1 [Hc1 Hwf1] Hmb1 Hmem1 [Hfi1 _].
  unfold uploadFile. rewrite Hraw, Hq, Hid, !(bool_decide_eq_false_2 (name = "")) by done.
  rewrite (bool_decide_eq_false_2 (Content_Type r = "")) by done.
  destruct (Z.ltb_spec maxUploadMemory (Z.of_nat (length data))); [lia|]. wps. unfold StoreFile. wps.
  apply Filestore.filestore_Store_wp.
  { intros Hbig. change (get the_files (get the_hub a1)) with (files (hub a1)) in Hbig.
    rewrite Hfi1 in Hbig. lia. }
  intros fid e2 _ Hfid He2 f. unfold respond. wps.
  apply HQ; [clock| |done|done|].
  { split; [done|]. split; apply Hwf1. }
  split; [done|]. exists (clock e2). unfold Filestore.file_at. simpl. by rewrite lookup2_insert2, decide_True.
Qed.

(** The download's answer. *)
Definition download_reply (name ctype : string) (data : list byte) : Response :=
  mkResponse StatusOK (File [("Content-Type", ctype);
    ("Content-Disposition", "attachment; filename=" +:+ String (ascii_of_N 34)
       (name +:+ String (ascii_of_N 34) ""));
    ("Content-Length", itoa (Z.of_nat (length data)));
    ("X-Content-SHA256", Filestore.sha256Hex data)] data).

Lemma serve_download_wp fuel sid key aid r name ctype by_ data
    (Q : option Response -> Handler -> Env -> Prop) a e :
  of_agent sid key aid r -> serving sid key a -> stored sid (path_fileID r) name ctype by_ data a ->
  (forall a' e', Q (Some (download_reply name ctype data)) a' e') ->
  wp (serve fuel GET_file r) Q a e.
Proof.
  intros [Hid Hag Hau Hsid Haid Hkey] Hs [_ [t Hf]] HQ.
  apply (auth_serving sid key _ r aid); [done..|]. intros a1 e1 He1 _ _ _ [Hfi1 _].
  unfold downloadFile, GetFile, Filestore.Get. wps. rewrite Hid.
  change (get the_files (get the_hub a1)) with (files (hub a1)). rewrite Hfi1.
  unfold Filestore.file_at in Hf. rewrite Hf. unfold respond. wps. apply HQ.
Qed.
End Routes.

(** ** Addresses and headers of a file *)
Lemma segment_hex bs : length bs = 16%nat -> segment (hex_encode bs) = true.
Proof.
  intros Hl. unfold segment. rewrite andb_true_iff, !negb_true_iff. split.
  - apply bool_decide_eq_false_2. pose proof (length_hex_encode bs) as H. rewrite Hl in H.
    intros [Hn|[Hn|Hn]]; rewrite Hn in H; done.
  - clear Hl. induction bs as [|c bs IH]; [done|]. cbn [hex_encode has_char]. rewrite IH. by destruct c.
Qed.

Lemma QueryEscape_target s : has_char breaks_target (QueryEscape s) = false.
Proof.
  induction s as [|c s IH]; [done|]. cbn [QueryEscape]. rewrite has_char_app, IH, orb_false_r.
  by destruct c as [[] [] [] [] [] [] [] []].
Qed.

(** A query of one escaped parameter. *)
Lemma query_of_one key s : key <> "" ->
  has_char (fun c => bool_decide (c = "&"%char \/ c = "="%char \/ c = "#"%char \/ c = ";"%char)) key = false ->
  unescape true key = Some key ->
  query_pairs (key +:+ "=" +:+ QueryEscape s) = [(key, s)].
Proof.
  intros Hne Hk Hu. unfold query_pairs.
  assert (forall c, c = "&"%char \/ c = ";"%char -> has_char (fun c' => bool_decide (c' = c)) (key +:+ "=" +:+ QueryEscape s) = false) as Hfree.
  { intros c Hc. rewrite !has_char_app.
    assert (forall c', bool_decide (c' = c) = true -> bool_decide (c' = "&"%char \/ c' = "="%char \/ c' = "#"%char \/ c' = ";"%char) = true) as Hi.
    { intros c' ->%bool_decide_eq_true. apply bool_decide_eq_true_2. naive_solver. }
    rewrite (has_char_mono _ _ key Hi Hk), (has_char_mono _ _ _ Hi (QueryEscape_safe s)).
    by destruct Hc as [->| ->]. }
  assert (Split "&"%char (key +:+ "=" +:+ QueryEscape s) = [key +:+ "=" +:+ QueryEscape s]) as ->.
  { apply (Split_Join "&"%char [_]); [done|]. constructor; [|done]. apply Hfree. by left. }
  cbn [omap list_omap]. unfold query_pair. rewrite Hfree by by right.
  rewrite bool_decide_eq_false_2 by (by destruct key). cbn [orb].
  change (key +:+ "=" +:+ QueryEscape s) with (key +:+ String "="%char (QueryEscape s)).
  rewrite cut_app.
  - unfold default, id. cbv beta iota zeta. rewrite Hu. cbn [mbind option_bind]. by rewrite unescape_QueryEscape.
  - eapply has_char_mono; [|exact Hk]. intros c ->%bool_decide_eq_true. by vm_compute.
Qed.

(** A header of a plain value is sent as it is. *)
Lemma header_wire_plain v : header_value v = true -> header_wire v = v.
Proof.
  unfold header_value, header_wire. intros [Hc Ht%bool_decide_eq_true]%andb_true_iff.
  assert (break_to_space v = v) as ->; [|done]. clear Ht. apply negb_true_iff in Hc.
  induction v as [|c v IH]; [done|]. cbn [has_char] in Hc. apply orb_false_iff in Hc as [Hc Hv].
  cbn [break_to_space]. rewrite IH by done. rewrite bool_decide_eq_false_2; [done|].
  by intros [->| ->].
Qed.

Lemma header_value_hex bs : header_value (hex_encode bs) = true.
Proof.
  assert (forall c, In c (String.list_ascii_of_string (hex_encode bs)) -> control c = false /\ white c = false) as Hc.
  { induction bs as [|b bs IH]; [done|]. cbn [hex_encode String.list_ascii_of_string In].
    intros c [<-|[<-|H]]; [by destruct b|by destruct b|by apply IH]. }
  revert Hc. generalize (hex_encode bs). clear. intros s Hs. unfold header_value.
  apply andb_true_iff. split.
  - apply negb_true_iff. induction s as [|c s IH]; [done|]. cbn [has_char].
    rewrite (proj1 (Hs c ltac:(by left))). apply IH. intros c' H. apply Hs. by right.
  - apply bool_decide_eq_true_2. unfold TrimSpace.
    assert (trim_left s = s) as ->.
    { destruct s as [|c s]; [done|]. cbn [trim_left]. by rewrite (proj2 (Hs c ltac:(by left))). }
    induction s as [|c s IH]; [done|]. cbn [trim_right].
    rewrite IH by (intros c' H; apply Hs; by right). rewrite (proj2 (Hs c ltac:(by left))).
    by rewrite andb_false_r.
Qed.

Lemma decode_first_line j : spellable j -> decode_first (Marshal j +:+ str1 LF) = Some (retyped j).
Proof.
  intros Hs. unfold decode_first. rewrite Marshal_reads_back; [done|done| |apply number_end_LF].
  rewrite str_app_length. lia.
Qed.

Lemma requireString_nonempty a k t s a' : requireString a k t = (Ok s, a') -> s <> "".
Proof.
  unfold requireString. intros H ->. repeat case_match; simplify_eq; simpl in *;
    repeat match goal with
    | H : context [bool_decide _] |- _ => case_bool_decide; simplify_eq/=
    | H : _ ≫= _ = Some _ |- _ => apply bind_Some in H as (? & ? & ?)
    end; done.
Qed.

(** ** The tools *)
Section Tools.
Context (base : string) (fuel : nat).
Context (other : HttpRequest -> prog Handler (result HttpResponse)).
Context (open_stream : HttpRequest -> prog Handler (result HttpStream)).
#[local] Instance files_net : HttpClient Handler := server_client base fuel other open_stream.
Abbreviation W := (World Handler).
Implicit Types (w : W) (e : Env) (b : Config).

Lemma upload_file_wp b name ctype data (Q : result HttpResponse -> W -> Env -> Prop) w e :
  joined base b -> initialized (st w) = true -> served b w ->
  name <> "" -> ctype <> "" -> header_value ctype = true ->
  Z.of_nat (length data) <= maxUploadMemory ->
  Z.of_nat (length data) <= Filestore.maxSize (files (hub (net w))) ->
  (forall fid t a e', e ≼ e' -> serving (sessionID b) (psk b) a ->
     mailboxes (hub a) = mailboxes (hub (net w)) ->
     (forall to, Presence.member (presence (hub (net w))) (sessionID b) to ->
        Presence.member (presence (hub a)) (sessionID b) to) ->
     stored (sessionID b) fid name ctype (agentID b) data a ->
     Q (Ok (as_written (writeJSON StatusCreated (upload_reply fid name ctype (agentID b) data t))))
       (put the_net a w) e') ->
  wp (upload_file b name ctype data) Q w e.
Proof.
  intros Hj Hi Hs Hname Hct Hhd Hup Hmax HQ. unfold upload_file. wps. apply ensureInit_registered; [done|].
  wps. unfold file_request. wps.
  set (q := "filename=" +:+ QueryEscape name).
  assert (has_char breaks_target q = false) as Hq by (unfold q; by rewrite has_char_app, QueryEscape_target).
  destruct (session_target base b ["files"] q Hj) as [_ Ht]; [by repeat constructor|]. specialize (Ht Hq).
  eapply (exchange_wp base fuel other open_stream b "POST" _ ctype _ ["sessions"; sessionID b; "files"] q
            POST_files [("id", sessionID b)]); [done|set_solver|done| |done|reflexivity|].
  { etrans; [|exact Ht]. f_equal. unfold session_path, path_text, q. cbn [app Join]. by rewrite !string_app_assoc. }
  eapply (serve_upload_wp fuel (sessionID b) (psk b) (agentID b) _ name data); [by eapply of_agent_bridge|done| | |done|done|done|done|].
  - cbn [raw_body as_received from_bridge h_body default]. unfold id. by rewrite String.list_byte_of_string_of_list_byte.
  - cbn [query as_received]. change q with ("filename" +:+ "=" +:+ QueryEscape name).
    rewrite query_of_one; [reflexivity|done|reflexivity|reflexivity].
  - intros fid t a' e' He Hs' Hmb Hmem Hst. eexists. split; [done|]. wps. by apply HQ.
Qed.

(** What the tool reads of the upload's reply. *)
Lemma upload_reply_read fid name ctype by_ data t :
  Z.of_nat (length data) <= maxUploadMemory ->
  let m := decoded_map (Ok (Marshal (upload_reply fid name ctype by_ data t) +:+ str1 LF)) in
  opt_string m "file_id" = fid /\
  match as_float (index m "size") with Some f => float_to_int64 f | None => 0 end = Z.of_nat (length data).
Proof.
  intros Hlen m.
  set (kvs := [("content_type", JStr ctype); ("file_id", JStr fid); ("file_name", JStr name);
        ("sha256", JStr (Filestore.sha256Hex data)); ("size", JInt (Z.of_nat (length data)));
        ("uploaded_at", JStr (rfc3339 t)); ("uploaded_by", JStr by_)]).
  assert (NoDup kvs.*1) as Hnd by (apply (bool_decide_unpack _); vm_compute; exact I).
  assert (as_map (into_any (JObj kvs)) = Some m) as Hm.
  { unfold m, decoded_map. cbn [http_text]. rewrite decode_first_line; [done|].
    constructor. by repeat constructor. }
  assert (exact (Z.of_nat (length data))) as Hex by (unfold exact, maxUploadMemory in *; lia).
  split.
  - unfold opt_string. by rewrite (index_of_obj kvs m "file_id" (JStr fid) Hnd Hm).
  - rewrite (index_of_obj kvs m "size" (JInt (Z.of_nat (length data))) Hnd Hm) by done.
    cbn [into_any]. rewrite norm_exact by done. destruct (float_exact _ Hex) as (f & Hf & _ & Hz).
    unfold as_float. by rewrite Hf.
Qed.

(** The share message of a file. *)
Definition share_payload (fid name ctype descr : string) (data : list byte) : json :=
  FileSharePayload_json (mkFileSharePayload fid name ctype (Z.of_nat (length data))
    (Filestore.sha256Hex data) descr).

Lemma share_payload_wire fid name ctype descr data :
  spellable (share_payload fid name ctype descr data) /\
  retyped (share_payload fid name ctype descr data) = share_payload fid name ctype descr data.
Proof.
  unfold share_payload, FileSharePayload_json. split.
  - apply spellable_obj. repeat (apply Forall_cons; split; [try apply spellable_fld_str; try constructor|]); done.
  - rewrite retyped_obj. cbn [fmap list_fmap]. by rewrite !retyped_fld_str.
Qed.

(** A call of [send_file] whose content decodes and passes its own checks. *)
Definition file_call (x : args) (to name ctype descr : string) (data : list byte) : Prop :=
  exists x1 x2 x3 c64,
    requireString x "to" "send_file" = (Ok to, x1) /\
    requireString x1 "filename" "send_file" = (Ok name, x2) /\
    requireString x2 "content_base64" "send_file" = (Ok c64, x3) /\
    DecodeString c64 = Some data /\
    verifyContent data (match as_float (index x3 "expected_size") with
                        | Some f => float_to_int64 f
                        | None => 0
                        end) (opt_string x3 "content_sha256") = None /\
    ctype = (if bool_decide (opt_string x3 "content_type" = "") then "application/octet-stream"
             else opt_string x3 "content_type") /\
    descr = opt_string x3 "description".

(** What the two tools return. *)
Definition sent_file (fid name to : string) (data : list byte) : string :=
  Marshal (JObj [("file_id", JStr fid); ("file_name", JStr name); ("sha256", JStr (sha256Hex data));
                 ("shared_to", JStr to); ("size", JInt (Z.of_nat (length data)))]).
Definition downloaded_file (fid ctype : string) (data : list byte) : string :=
  Marshal (JObj [("content_base64", JStr (EncodeToString data)); ("content_type", JStr ctype);
                 ("file_id", JStr fid); ("sha256", JStr (sha256Hex data));
                 ("size", JInt (Z.of_nat (length data)))]).

Lemma send_file_wp b x to name ctype descr data (Q : result string -> W -> Env -> Prop) w e :
  joined base b -> initialized (st w) = true -> served b w ->
  file_call x to name ctype descr data -> header_value ctype = true ->
  Z.of_nat (length data) <= maxUploadMemory ->
  Z.of_nat (length data) <= Filestore.maxSize (files (hub (net w))) ->
  Presence.member (presence (hub (net w))) (sessionID b) to ->
  (forall fid n t en a e', serving (sessionID b) (psk b) a ->
     stored (sessionID b) fid name ctype (agentID b) data a ->
     Mailbox.entry_Envelope en = mkEnvelope "file_share" "" (sessionID b) (agentID b) to
       (Some (share_payload fid name ctype descr data)) n t ->
     inbox a (sessionID b) to = cap (room (net w)) (inbox (net w) (sessionID b) to ++ [en]) ->
     Q (Ok (sent_file fid name to data)) (put the_net a w) e') ->
  wp (send_file_handler b x) Q w e.
Proof.
  intros Hj Hi Hs (x1 & x2 & x3 & c64 & Hto & Hname & Hc & Hd & Hv & -> & ->) Hhd Hup Hmax Hm HQ.
  unfold send_file_handler. rewrite Hto, Hname, Hc, Hd, Hv. set (ctype := if bool_decide _ then _ else _) in *.
  assert (ctype <> "") as Hct by (unfold ctype; by case_bool_decide).
  wps. apply upload_file_wp; [done..|by eapply requireString_nonempty|done|done|done|done|].
  intros fid t a1 e1 He1 Hs1 Hmb1 Hmem1 Hst1. wps.
  destruct (upload_reply_read fid name ctype (agentID b) data t Hup) as [Hfid Hsize].
  cbn [as_written writeJSON reply h_text]. unfold share_file. rewrite Hfid, Hsize. wps.
  destruct (share_payload_wire fid name ctype (opt_string x3 "description") data) as [Hsp Hre].
  eapply (post_message_wp base fuel other open_stream b to "file_share"
            (share_payload fid name ctype (opt_string x3 "description") data)); [done|done|done|exact Hsp| |done| |].
  { by eapply requireString_nonempty. }
  { by apply Hmem1. }
  intros a2 e2 He2 Hs2 [(en & t2 & _ & Hen & Hin & _) Hroom Hfi] j. wps.
  change (net (put the_net a1 w)) with a1 in Hin, Hfi. rewrite Hre in Hen.
  replace (put the_net a2 (put the_net a1 w)) with (put the_net a2 w) by (by destruct w).
  eapply HQ; [done| |exact Hen|].
  - destruct Hst1 as [Hhex [t' Hf]]. split; [done|]. exists t'. by rewrite Hfi.
  - unfold inbox, room in *. by rewrite Hmb1 in Hin.
Qed.

Lemma download_headers name ctype data : header_value ctype = true ->
  header_get "Content-Type" (h_header (as_written (download_reply name ctype data))) = ctype /\
  header_get "X-Content-SHA256" (h_header (as_written (download_reply name ctype data))) = sha256Hex data.
Proof.
  intros Hc. split; [etrans; [|by apply header_wire_plain]|etrans; [|by apply header_wire_plain, header_value_hex]];
    reflexivity.
Qed.

Lemma download_file_wp b x fid name ctype by_ data (Q : result string -> W -> Env -> Prop) w e :
  joined base b -> initialized (st w) = true -> served b w ->
  stored (sessionID b) fid name ctype by_ data (net w) -> header_value ctype = true ->
  opt_string x "file_id" = fid ->
  (opt_string x "expected_sha256" = "" \/ opt_string x "expected_sha256" = sha256Hex data) ->
  (forall w' e', Q (Ok (downloaded_file fid ctype data)) w' e') ->
  wp (download_file_handler b x) Q w e.
Proof.
  intros Hj Hi Hs Hst Hhd Hfid Hsha HQ. unfold download_file_handler. rewrite Hfid.
  destruct (sf_id _ _ _ _ _ _ _ Hst) as (bs & Hbs & Hhex).
  pose proof (segment_hex bs Hbs) as Hseg. rewrite <- Hhex in Hseg.
  rewrite bool_decide_eq_false_2 by (by intros Hn; rewrite Hn in Hseg). wps.
  apply ensureInit_registered; [done|]. wps. unfold file_request. wps.
  destruct (session_target base b ["files"; fid] "" Hj) as [Ht _]; [by repeat constructor|].
  eapply (exchange_wp base fuel other open_stream b "GET" _ "" None ["sessions"; sessionID b; "files"; fid] ""
            GET_file [("id", sessionID b); ("fileID", fid)]); [done|set_solver|done|exact Ht|done|reflexivity|].
  eapply (serve_download_wp fuel (sessionID b) (psk b) (agentID b) _ name ctype by_ data);
    [by eapply of_agent_bridge|done|exact Hst|].
  intros a e1. eexists. split; [done|]. wps.
  rewrite bool_decide_eq_false_2 by (intros H; apply H; reflexivity). 
  change (h_text (as_written (download_reply name ctype data))) with
    (Ok (String.string_of_list_byte data)). cbv beta iota zeta. rewrite String.list_byte_of_string_of_list_byte.
  assert (verifyContent data 0 (sha256Hex data) = None) as Hver.
  { unfold verifyContent. change (0 <? 0) with false. cbn [andb].
    rewrite bool_decide_eq_false_2; [done|]. by intros [_ H]. }
  assert ((if bool_decide (opt_string x "expected_sha256" = "") then None
           else verifyContent data 0 (opt_string x "expected_sha256")) = None) as Hchk.
  { destruct Hsha as [->| ->]; [done|]. rewrite Hver. by case_bool_decide. }
  rewrite Hchk. wps. destruct (download_headers name ctype data Hhd) as [Hct Hdig].
  rewrite Hct, Hdig. apply HQ.
Qed.
(** C2: A file one agent shares reaches the other byte for byte. When the content of a send_file
    call decodes, passes the checks the caller asked for and is within the server's limits,
    the call returns the file's ID, digest and size; the addressed agent's mailbox then ends
    with one file_share message that names that ID, the file's name, type, size and digest;
    and any download_file call of that agent with this ID (and no expected digest, or this
    one) returns the base64 of exactly the same bytes, with their digest, size and type. *)
Theorem file_reaches_agent ba bb x name ctype descr data (w : Pair) e :
  channel base ba bb w -> file_call x (agentID bb) name ctype descr data ->
  header_value ctype = true -> Z.of_nat (length data) <= maxUploadMemory ->
  Z.of_nat (length data) <= Filestore.maxSize (files (hub (shared w))) ->
  wp (⟪at_left⟫ send_file_handler ba x) (fun r p1 e1 => exists fid n t older en,
    r = Ok (sent_file fid name (agentID bb) data) /\
    inbox (shared p1) (sessionID bb) (agentID bb) = older ++ [en] /\
    Mailbox.entry_Envelope en = mkEnvelope "file_share" "" (sessionID bb) (agentID ba) (agentID bb)
      (Some (share_payload fid name ctype descr data)) n t /\
    forall y, opt_string y "file_id" = fid ->
      opt_string y "expected_sha256" = "" \/ opt_string y "expected_sha256" = sha256Hex data ->
      wp (⟪at_right⟫ download_file_handler bb y)
         (fun r2 _ _ => r2 = Ok (downloaded_file fid ctype data)) p1 e1) w e.
Proof.
  intros [Ha Hb Hsid Hkey [Hia Hib] Hs Hm _ Hroom _] Hx Hhd Hup Hmax. wps.
  eapply send_file_wp; [exact Ha|exact Hia| |exact Hx|done|done|exact Hmax| |].
  { unfold served. rewrite Hsid, Hkey. exact Hs. }
  { rewrite Hsid. exact Hm. }
  intros fid n t en a e1 Hs1 Hst Hen Hin. rewrite Hsid, Hkey in *.
  pose proof (cap_last (room (shared w)) (inbox (shared w) (sessionID bb) (agentID bb)) en Hroom) as Hlast.
  apply last_Some in Hlast as [older Holder].
  exists fid, n, t, older, en. split; [done|]. split; [|split; [exact Hen|]].
  { etrans; [exact Hin|exact Holder]. }
  intros y Hfid Hsha. wps. eapply download_file_wp; [done|exact Hib|exact Hs1|exact Hst|done..|].
  by intros w2 e2.
Qed.
End Tools.
