(* ===== verification/WakeUp.v ===== *)
(** * From one agent's tool call to the other agent's wake-up

    A message is not only queued: the server's stream carries it to the recipient's bridge,
    which asks to wake its agent. The stream is opened and run by [Api.handleSSE] and
    [Api.sse_loop], its text is [Sse.render_all], and the reader is [BridgeWatch.read_stream]. *)

From S2P Require Import Prelude Json JsonText GoAny Lines Http Signal Protocol Mcp.
From S2P Require Import Hub HubDelivery Watcher Api ApiAuth ApiStream.
From S2P Require Presence Mailbox.
From S2P Require Import Bridge BridgeTools BridgeWatch Sse BridgeWake Net EndToEnd.

#[local] Open Scope Z_scope.

(** A message handed to the watchers lies in the channel of every stream with room. *)
Lemma notified_buffer sid env w o ch :
  watcher_ok w -> notified (Some w) [(sid, env)] o ->
  ch ∈ subscribers w sid -> (length (buffer w ch) < chan_cap)%nat ->
  exists w', o = Some w' /\ watcher_ok w' /\ buffer w' ch = buffer w ch ++ [env].
Proof.
  intros Hok Hn Hch Hroom. inversion Hn as [| |n s ev evs e n1 e1 o' H1 H2]; simplify_eq.
  inversion H2; simplify_eq. pose proof (notify_ok sid env w e Hok) as H.
  change (notify sid env w e) with (Notify sid env w e) in H1. unfold wpA in H. rewrite H1 in H.
  destruct H as (Hok' & _ & Hb). exists n1. split; [done|]. split; [done|]. by rewrite Hb, decide_True.
Qed.

Lemma live_messages fs : live fs = view <$> messages fs.
Proof.
  unfold live, messages. induction fs as [|f fs IH]; [done|]. cbn [omap list_omap].
  destruct f; try exact IH. rewrite fmap_cons. by f_equal.
Qed.

Lemma messages_opening sid t history :
  messages ([Retry 3000; Connected sid t] ++ (HistoryEvent <$> history)) = [].
Proof. unfold messages. simpl. by induction history. Qed.

Lemma messages_app fs1 fs2 : messages (fs1 ++ fs2) = messages fs1 ++ messages fs2.
Proof. apply omap_app. Qed.

Lemma live_wire_messages fs :
  Forall (fun env => in_int64 (Protocol.Sequence env) /\ forall p, Payload env = Some p -> spellable p)
    (messages fs) -> Forall live_wire fs.
Proof.
  unfold messages. induction fs as [|f fs IH]; [done|]. cbn [omap list_omap].
  destruct f; try (intros H; constructor; [done|by apply IH]).
  intros [H1 H2]%Forall_cons. constructor; [done|by apply IH].
Qed.

Lemma bumped_in_int64 sid l : in_int64 (bumped sid l).
Proof. apply int64_range. Qed.

(** An envelope a tool sent is one to wake its recipient for. *)
Lemma sent_concerns b env :
  Type_ env ∈ ["message"; "task_assign"; "task_status"; "task_result"] ->
  To env = agentID b -> agentID b <> "*" -> concerns b (view env).
Proof.
  intros Hty Hto Hstar. right. unfold to_all, to_me, view. cbn [e_Type e_To].
  rewrite !elem_of_cons, elem_of_nil in *. rewrite Hto. split; [|naive_solver].
  intros [[_ H]|H]; [done|].
  destruct Hty as [Ht|[Ht|[Ht|[Ht|[]]]]]; rewrite Ht in H; naive_solver.
Qed.

Lemma wakes_one b last env : concerns b env -> last < e_Sequence env ->
  0 < e_Sequence env -> wakes b last [env] = [env].
Proof.
  intros Hc%relevant_concerns Hl Hp. cbn [wakes]. unfold stale.
  rewrite Hc, (proj2 (Z.leb_gt _ _) Hl), andb_false_r. done.
Qed.

(** The world of two bridges and their server, the server alone. *)
Definition at_server : Lens Pair Handler.
Proof.
  by refine (mkLens shared (fun h p => mkPair (left_ p) (right_ p) h) _ _ _); intros; repeat match goal with
    | p : Pair |- _ => destruct p end.
Defined.

(** What a stream of the channel has carried: the frames it wrote, and whether the message is
    among them. *)
Inductive carried :=
| NoStream (r : Response)
| Carried (r1 : result string) (ch : nat) (written : list frame).

Section WakeUp.
Context (base : string) (fuel : nat).
Context (other : HttpRequest -> prog Handler (result HttpResponse)).
Context (open_stream : HttpRequest -> prog Handler (result HttpStream)).
#[local] Instance wake_net : HttpClient Handler := server_client base fuel other open_stream.
Implicit Types (b : Config) (e : Env).

(** The types of the messages the tools send. *)
Lemma sends_type b t x to ty p : sends base fuel other open_stream b t x to ty p ->
  ty ∈ ["message"; "task_assign"; "task_status"; "task_result"].
Proof. intros []; set_solver. Qed.

(** A stream is opened, a tool is called, and the stream goes on. *)
Definition send_while_streaming (sfuel : nat) sid (call : prog (World Handler) (result string))
    : prog Pair carried :=
  out ← ⟪at_server⟫ handleSSE sid;
  match out with
  | Refused resp => mret (NoStream resp)
  | Streaming ch written =>
      r1 ← ⟪at_left⟫ call;
      written ← ⟪at_server⟫ sse_loop sfuel sid ch written;
      mret (Carried r1 ch written)
  end.

(** The bridge of an agent, from its stream's text: [fs] is what the server wrote, in reads
    that come in time. *)
Record arrives (fs : list frame) (slack : Duration) (lastRead : Time)
    (reads : list (Duration * string)) (d_end : Duration) e : Prop := mkArrives {
  ar_slack : 0 <= slack;
  ar_quick : quick slack e;
  ar_now : clock e <= lastRead + slack;
  ar_frames : Forall (frame_ok BridgeWatch.stream_max) fs;
  ar_text : concat_str reads.*2 = render_all fs;
  ar_reads : Forall (fun r => r.2 <> "" /\ r.1 + 2 * slack <= sseWatchdogTimeout) reads;
  ar_end : d_end + 2 * slack <= sseWatchdogTimeout;
}.

(** What a bridge makes of a stream that carries one message to wake for. *)
Lemma read_one_wp b fs env slack t0 lastRead reads d_end (w : World Handler) e :
  arrives fs slack lastRead reads d_end e -> messages fs = [env] ->
  in_int64 (Protocol.Sequence env) -> (forall p, Payload env = Some p -> spellable p) ->
  concerns b (view env) -> 0 <= lastSeq (st w) < Protocol.Sequence env ->
  wp (read_stream b t0 lastRead "" ("", "") reads d_end None) (fun _ w' _ =>
    signalCh (st w') = true /\ pendingSignal (st w') = Some (pending_of (view env)) /\
    lastSeq (st w') = Protocol.Sequence env) w e.
Proof.
  intros [H0 Hq Hc Hok Htext Hr Hd] Hm Hz Hp Hcon Hseq.
  destruct (bridge_sees fs reads.*2 Hok Htext) as (ls & Hls & Hev).
  eapply read_stream_wp; [done..|]. intros e' _. rewrite Hev. cbn [fst].
  rewrite live_events, live_messages, Hm by (apply live_wire_messages; rewrite Hm; by constructor).
  cbn [fmap list_fmap st the_st put]. rewrite wakes_one by (done || cbn [view e_Sequence]; lia).
  unfold woken, watermark. cbn [foldl view e_Sequence]. by rewrite (proj2 (Z.ltb_lt 0 _)) by lia.
Qed.

(** C3: A message wakes the agent it is for. While the recipient's bridge has a stream open and
    knows nothing newer than the session's counter, another agent's messaging tool is called.
    The call returns "sent", and one envelope (this sender, recipient, type and payload, under
    the next sequence number) is either the only one the stream's channel still holds or the
    only live message the stream has written, behind the whole recorded history; and in the
    second case, however the network cuts the stream's text into reads, the recipient's bridge
    asks for a wake-up, with this message's type, sender and number as its reason, and moves
    its watermark to that number. (The reads come in time for the watchdog and the frames fit the
    bridge's 1 MiB line buffer.) *)
Theorem message_wakes_agent sfuel ba bb t x ty p wt (w : Pair) e :
  channel base ba bb w -> sends base fuel other open_stream ba t x (agentID bb) ty p -> wire_value p ->
  notifier (hub (shared w)) = Some wt -> watcher_ok wt ->
  (size (subscribers wt (sessionID bb)) < maxWatchersPerSession (shared w))%nat ->
  let seq := bumped (sessionID bb) (get the_log (hub (shared w))) in
  0 <= lastSeq (c_st (right_ w)) < seq ->
  wp (send_while_streaming sfuel (sessionID bb) (t.2 x)) (fun out w' e' =>
    exists ch t0 frames ts wt',
      let opening := [Retry 3000; Connected (sessionID bb) t0] ++
        (HistoryEvent <$> default [] (history (hub (shared w)) !! sessionID bb)) in
      let env := mkEnvelope ty "" (sessionID bb) (agentID ba) (agentID bb) (Some p) seq ts in
      out = Carried (Ok "sent") ch (opening ++ frames) /\ Forall live_frame frames /\
      notifier (hub (shared w')) = Some wt' /\
      (messages frames = [] /\ buffer wt' ch = [env] \/
       messages frames = [env] /\ buffer wt' ch = [] /\
       forall slack t1 lastRead reads d_end e2,
         arrives (opening ++ frames) slack lastRead reads d_end e2 ->
         wp (read_stream bb t1 lastRead "" ("", "") reads d_end None) (fun _ w2 _ =>
           signalCh (st w2) = true /\
           pendingSignal (st w2) = Some (mkPending ty (agentID ba) seq) /\
           lastSeq (st w2) = seq) (get at_right w') e2)) w e.
Proof.
  intros [Ha Hb Hsid Hkey [Hia Hib] Hs Hm Hstar Hroom Hq] Ht Hp Hno Hok Hfree seq Hseq.
  unfold send_while_streaming. wps.
  apply (handleSSE_wp _ wt); [exact Hno|done|intros; exfalso; cbn [at_server get] in *; lia|].
  intros ch t0 w1 e1 _ He1 _ _ Hok1 Hb1 Hsub1 _. wps. set (a1 := put the_watcher (Some w1) (shared w)).
  eapply (sends_wp base fuel other open_stream ba); try done.
  { unfold served. rewrite Hsid, Hkey. destruct Hs as [? [? ?]]. split; [done|by split]. }
  { apply Hp. }
  { apply Hb. }
  { by rewrite Hsid. }
  intros a2 e2 He2 Hs2 [(en & ts & _ & Hen & _ & Hn) _ _]. rewrite Hsid in *.
  destruct (notified_buffer _ _ w1 _ ch Hok1 Hn) as (w2 & Hw2 & Hok2 & Hb2).
  { rewrite Hsub1. set_solver. }
  { rewrite Hb1. simpl. unfold chan_cap. lia. }
  rewrite Hb1 in Hb2. cbn [app] in Hb2. wps. eapply (sse_loop_wp sfuel); [exact Hw2|done|].
  intros out w3 e3 He3 Hlive Hmsg Hok3. rewrite Hb2, Hen in Hmsg. wps.
  exists ch, t0, out, ts, w3. split; [done|]. split; [done|]. split; [done|].
  change (bumped (sessionID bb) (get the_log _)) with seq in Hmsg. rewrite (wv_timeless p Hp) in Hmsg.
  destruct (messages out) as [|env l] eqn:Hmo.
  { left. split; [done|exact Hmsg]. }
  cbn [app] in Hmsg. injection Hmsg as -> Hnil. apply app_eq_nil in Hnil as [-> Hb3]. right.
  split; [done|]. split; [done|]. intros slack t1 lastRead reads d_end e4 Har.
  eapply wp_mono.
  - apply (read_one_wp bb _ (mkEnvelope ty "" (sessionID bb) (agentID ba) (agentID bb) (Some p) seq ts)
             slack t1 lastRead reads d_end _ _ Har).
    + by rewrite messages_app, messages_opening, Hmo.
    + apply bumped_in_int64.
    + intros p' [= <-]. apply Hp.
    + apply sent_concerns; [by eapply sends_type|done|done].
    + exact Hseq.
  - intros msg w5 e5 (H1 & H2 & H3). split; [done|]. split; [|done]. rewrite H2.
    unfold pending_of, trigger_type, view. cbn. rewrite bool_decide_eq_false_2; [done|]. naive_solver.
Qed.
End WakeUp.
