(* ===== verification/TaskLaws.v ===== *)
(** * The task tools and the payloads of the protocol

    The bridge's task tools build their payloads as maps of whatever the caller passed; the
    protocol declares structs for them (file Payloads). *)

From S2P Require Import Prelude Json GoAny Http Protocol Payloads Mcp Bridge BridgeTools.

#[local] Open Scope Z_scope.

Section Tasks.
Context {N : Type} `{!HttpClient N} (b : Config).

(** Every call of the tool [t] is refused for its recipient, or is one post of a message of
    type [ty] whose payload, read with [read], is [want] of the arguments. *)
Definition posts_payload {A} (t : Tool * ToolHandler (World N)) (ty : string)
    (read : json -> option A) (want : args -> option A) : Prop :=
  forall x, match requireString x "to" ty with
            | (Err msg, _) => t.2 x = fail msg
            | (Ok to, x') => exists p, read p = want x' /\
                t.2 x = post b "/messages"
                  (JObj [("payload", p); ("to", JStr to); ("type", JStr ty)]) "sent"
            end.

(** An argument that is text or left out. *)
Definition text_arg (x : args) (k : string) : option string := dec_string "" (index x k).

Lemma send_task_posts {A} tool ty fields (read : json -> option A) want :
  (forall x', read (JObj (fields x')) = want x') ->
  posts_payload (tool, send_task b ty fields) ty read want.
Proof.
  intros Hof x. unfold send_task. cbn [snd]. destruct (requireString x "to" ty) as [[to|msg] x']; [|done].
  by exists (JObj (fields x')).
Qed.

(** C29: What a task tool sends is the payload struct the protocol declares for its message type.
    Whatever the arguments are, a call without a recipient is refused and sends nothing, and
    any other is one post to the recipient under the declared type, whose payload reads as the
    struct: field by field the caller's arguments, the free-form ones as they are, the textual
    ones empty when left out (no field but the recipient is required by the handlers). It does
    not read as the struct exactly when a textual argument is a value of another type, which
    the handlers pass on unchecked. *)
Theorem tasks_conform :
  posts_payload (task_assign b) TypeTaskAssign TaskAssignPayload_of (fun x =>
    id_ ← text_arg x "task_id"; descr ← text_arg x "description";
    Some (mkTaskAssignPayload id_ descr (Some (index x "parameters")))) /\
  posts_payload (task_status b) TypeTaskStatus TaskStatusPayload_of (fun x =>
    id_ ← text_arg x "task_id"; status ← text_arg x "status"; detail ← text_arg x "detail";
    Some (mkTaskStatusPayload id_ status detail)) /\
  posts_payload (task_result b) TypeTaskResult TaskResultPayload_of (fun x =>
    id_ ← text_arg x "task_id"; Some (mkTaskResultPayload id_ (Some (index x "result")))).
Proof.
  split; [|split]; apply send_task_posts; intros x'; unfold text_arg; cbn;
    by repeat (case_match; simplify_eq/=).
Qed.
End Tasks.
