(* ===== verification/BridgeArgs.v ===== *)
(** * The values the bridge's handlers see and return

    Every map and value that reaches a handler or leaves it is in the normal form of a Go
    [any]; what [requireString] recovers; what a download checks. *)

From Stdlib Require Import Sorting.Sorted.
From S2P Require Import Prelude Json JsonText GoAny Encoding Http Protocol Mcp Bridge BridgeTools.
From S2P Require Import BridgeLaws.
From S2P Require Filestore.

#[local] Open Scope Z_scope.

(** ** Normal forms are kept *)
Lemma normal_insert k v m : normal v -> normal_map m -> normal_map (insert_key k v m).
Proof.
  intros Hv Hm. inversion Hm; subst. constructor; [by apply insert_key_sorted|by apply insert_key_Forall].
Qed.

Lemma delete_key_sorted k (m : args) : StronglySorted key_lt m.*1 -> StronglySorted key_lt (delete_key k m).*1.
Proof.
  unfold delete_key. induction m as [|[k' v] m IH]; [done|]. rewrite filter_cons, fmap_cons. cbn [fst].
  intros [Hs Hall]%StronglySorted_inv. case_decide; [|by apply IH]. rewrite fmap_cons. constructor; [by apply IH|].
  rewrite Forall_forall in *. intros x ([k2 v2] & -> & [_ Hx]%list_elem_of_filter)%list_elem_of_fmap.
  apply Hall. apply list_elem_of_fmap. by exists (k2, v2).
Qed.

Lemma normal_delete k m : normal_map m -> normal_map (delete_key k m).
Proof.
  intros Hm. inversion Hm as [| | | | | | |? Hs Hf]; subst. constructor; [by apply delete_key_sorted|].
  rewrite Forall_forall in *. intros kv [_ Hkv]%list_elem_of_filter. by apply Hf.
Qed.

Lemma lookup_key_elem k m v : lookup_key k m = Some v -> (k, v) ∈ m.
Proof.
  induction m as [|[k' v'] m IH]; [done|]. simpl. case_bool_decide; intros; simplify_eq; set_solver.
Qed.

Lemma normal_index k m : normal_map m -> normal (index m k).
Proof.
  intros Hm. unfold index. destruct (lookup_key k m) as [v|] eqn:Hk; [|constructor].
  inversion Hm as [| | | | | | |? _ Hf]; subst. apply lookup_key_elem in Hk.
  rewrite Forall_forall in Hf. by apply (Hf (k, v)).
Qed.

Lemma lookup_delete_key k k' (m : args) :
  lookup_key k' (delete_key k m) = if decide (k' = k) then None else lookup_key k' m.
Proof.
  unfold delete_key. induction m as [|[k2 v] m IH]; [by case_decide|]. rewrite filter_cons. cbn [fst].
  destruct (decide (k2 <> k)) as [Hk|Hk]; cbn [lookup_key]; rewrite IH; destruct (decide (k' = k)) as [->|Hn].
  - by rewrite bool_decide_eq_false_2.
  - done.
  - done.
  - rewrite bool_decide_eq_false_2; [done|]. intros ->. by apply Hk.
Qed.

(** ** Arguments of a call *)
Lemma dec_args_normal acc j a : normal_map acc -> dec_args acc j = Some a -> normal_map a.
Proof.
  intros Hacc. unfold dec_args. destruct j as [| | | | | |l|kvs]; try done.
  - intros [= <-]. by repeat constructor.
  - destruct (floats_ok _); [|done]. intros [= <-]. clear -Hacc. revert acc Hacc.
    induction kvs as [|[k v] kvs IH]; intros acc Hacc; [done|]. apply IH. apply normal_insert; [|done].
    apply into_any_normal.
Qed.

Lemma field_from_inv {A} (P : A -> Prop) dec name kvs : forall acc x,
  (forall a v y, P a -> dec a v = Some y -> P y) -> P acc -> field_from dec acc name kvs = Some x -> P x.
Proof.
  induction kvs as [|[k v] kvs IH]; intros acc x Hd Ha; simpl; [by intros [= <-]|].
  case_bool_decide; [|by apply IH]. destruct (dec acc v) eqn:Hv; [|done]. apply IH; [done|]. by eapply Hd.
Qed.

(** What [requireString] finds at the top level, or in the payload. *)
Definition top_string (a : args) (key : string) : option string :=
  s ← as_string (index a key); if bool_decide (s <> "") then Some s else None.
Definition payload_string (a : args) (key : string) : option (args * string) :=
  pm ← as_map (index a "payload"); pv ← as_string (index pm key);
  if bool_decide (pv <> "") then Some (pm, pv) else None.

(** C26: [requireString]: an address given where it belongs is used and the arguments stay as they
    were. One nested inside the payload by mistake is recovered: its value is used, it is
    removed from the payload, and every other argument and every other field of the payload
    stays. When it is in neither place, or empty, the call fails and nothing changes. The
    result is never empty. *)
Theorem address_recovered a key tool :
  key <> "payload" ->
  let '(r, a') := requireString a key tool in
  match top_string a key, payload_string a key with
  | Some s, _ => r = Ok s /\ a' = a /\ s <> ""
  | None, Some (pm, s) =>
      r = Ok s /\ s <> "" /\ (forall k, k <> "payload" -> index a' k = index a k) /\
      exists pm', index a' "payload" = JObj pm' /\ lookup_key key pm' = None /\
        forall k, k <> key -> lookup_key k pm' = lookup_key k pm
  | None, None => (exists msg, r = Err msg) /\ a' = a
  end.
Proof.
  intros Hkey. unfold requireString, top_string, payload_string.
  destruct (as_string (index a key) ≫= _) as [s|] eqn:Ht.
  { split; [done|]. split; [done|]. destruct (as_string (index a key)); [|done]. simpl in Ht.
    case_bool_decide; naive_solver. }
  destruct (as_map (index a "payload")) as [pm|]; cbn [mbind option_bind]; [|by eauto].
  destruct (as_string (index pm key)) as [pv|]; cbn [mbind option_bind]; [|by eauto].
  case_bool_decide as Hpv; [|by eauto]. split; [done|]. split; [done|]. split.
  - intros k Hk. unfold index. rewrite lookup_insert_key. by rewrite decide_False.
  - exists (delete_key key pm). unfold index at 1. rewrite lookup_insert_key, decide_True by done.
    split; [done|]. split; [by rewrite lookup_delete_key, decide_True|].
    intros k Hk. by rewrite lookup_delete_key, decide_False.
Qed.

(** The arguments a handler is called with, what a reply is decoded into, the arguments
    [requireString] returns and the messages the bridge tags and marks are all in the normal
    form of a Go value (objects have distinct keys, kept sorted; numbers are float64s in their
    shortest spelling), and decoding such a value again changes nothing. *)
Theorem bridge_values_normal :
  (forall p nm a m, call_params p = Some (nm, a, m) -> normal_map a) /\
  (forall text, normal (any_of text)) /\
  (forall a key tool, normal_map a -> normal_map (requireString a key tool).2) /\
  (forall j m, normal j -> m ∈ reply_messages j -> normal_map m) /\
  (forall info m, normal_map m -> normal_map (mark_trigger info (tagMessage m))) /\
  (forall j, normal j -> into_any j = j).
Proof.
  split_and!.
  - intros p nm a m Hc. unfold call_params in Hc.
    destruct (p ≫= body_fields) as [kvs|]; [|done]. cbn [mbind option_bind] in Hc.
    destruct (string_field "name" kvs); [|done]. cbn [mbind option_bind] in Hc.
    destruct (field_from dec_args [] "arguments" kvs) as [a0|] eqn:Ha; [|done]. cbn [mbind option_bind] in Hc.
    destruct (field_from dec_meta None "_meta" kvs); [|done]. simplify_eq/=.
    eapply (field_from_inv normal_map); [| |exact Ha]; [|by repeat constructor].
    intros; by eapply dec_args_normal.
  - intros text. unfold any_of. destruct (Unmarshal text); [apply into_any_normal|constructor].
  - intros a key tool Ha. unfold requireString. destruct (as_string (index a key) ≫= _); [done|].
    destruct (as_map (index a "payload")) as [pm|] eqn:Hm; [|done]. cbn [mbind option_bind].
    destruct (as_string (index pm key)) as [pv|]; [|done]. cbn [mbind option_bind]. case_bool_decide; [|done].
    apply normal_insert; [|done]. apply normal_delete. unfold as_map in Hm.
    pose proof (normal_index "payload" a Ha) as Hn. by destruct (index a "payload"); simplify_eq.
  - intros j m Hj Hm. unfold reply_messages in Hm. destruct j as [| | | | | | |kvs]; simpl in Hm;
      try by apply not_elem_of_nil in Hm.
    pose proof (normal_index "messages" kvs Hj) as Hn. destruct (as_slice _) as [raw|] eqn:Hr;
      [|by apply not_elem_of_nil in Hm].
    unfold as_slice in Hr. destruct (index kvs "messages"); simplify_eq. inversion Hn as [| | | | | |? Hf|]; subst.
    apply list_elem_of_omap in Hm as (x & Hx & Hm). rewrite Forall_forall in Hf. specialize (Hf x Hx).
    by destruct x; simplify_eq/=.
  - intros info m Hm. assert (normal_map (tagMessage m)) as Ht.
    { unfold tagMessage. apply normal_insert; [constructor|]. apply normal_insert; [constructor|done]. }
    unfold mark_trigger. repeat case_match; try done. apply normal_insert; [constructor|done].
  - apply into_any_fixed.
Qed.

(** ** Received messages *)

(** Sent to the whole session: by the envelope's recipient, or the message's own. *)
Definition to_session (m : args) : Prop :=
  (exists em t, index m "envelope" = JObj em /\ as_string (index em "to") = Some t /\ (t = "" \/ t = "*")) \/
  (exists t, as_string (index m "to") = Some t /\ (t = "" \/ t = "*")).

(** The message the last wake-up was for. *)
Definition triggered (info : option pendingSignalInfo) (m : args) : Prop :=
  exists i em f, info = Some i /\ index m "envelope" = JObj em /\
    as_float (index em "sequence") = Some f /\ float_to_int64 f = p_Sequence i.

(** [m'] is [m] as the agent is shown it. *)
Record tagged (info : option pendingSignalInfo) (m m' : args) : Prop := mkTagged {
  tg_source : index m' "_source" = JStr "mailbox";
  tg_session : to_session m -> index m' "_delivery" = JStr "broadcast";
  tg_direct : ~ to_session m -> index m' "_delivery" = JStr "direct";
  tg_trigger : triggered info m -> index m' "_signal_trigger" = JBool true;
  tg_other : ~ triggered info m -> index m' "_signal_trigger" = index m "_signal_trigger";
  tg_rest k : k ∉ ["_source"; "_delivery"; "_signal_trigger"] -> index m' k = index m k;
}.

Lemma tagDelivery_to (m m0 : args) :
  index m "envelope" = index m0 "envelope" -> index m "to" = index m0 "to" ->
  (to_session m0 -> tagDelivery m = "broadcast") /\ (~ to_session m0 -> tagDelivery m = "direct").
Proof.
  intros He Ht. unfold tagDelivery, to_session. rewrite He, Ht.
  assert (forall o : option string, isBroadcast <$> o = Some true <-> exists t, o = Some t /\ (t = "" \/ t = "*")) as Hb.
  { intros [t|]; simpl; [|naive_solver]. unfold isBroadcast. split.
    - intros [= Hb]. apply bool_decide_eq_true in Hb. eauto.
    - intros (t' & [= <-] & Hb). by rewrite bool_decide_eq_true_2. }
  assert (isBroadcast <$> (as_map (index m0 "envelope") ≫= fun x => as_string (index x "to")) = Some true <->
    exists em t, index m0 "envelope" = JObj em /\ as_string (index em "to") = Some t /\ (t = "" \/ t = "*")) as Hem.
  { rewrite Hb. destruct (index m0 "envelope"); simpl; naive_solver. }
  pose proof (Hb (as_string (index m0 "to"))) as Hto. rewrite <- Hem, <- Hto.
  split; intros H; repeat case_bool_decide; tauto.
Qed.

Lemma mark_trigger_cases i m :
  (triggered (Some i) m /\ mark_trigger i m = insert_key "_signal_trigger" (JBool true) m) \/
  (~ triggered (Some i) m /\ mark_trigger i m = m).
Proof.
  unfold mark_trigger, triggered. destruct (as_map (index m "envelope")) as [em|] eqn:He; cbn [mbind option_bind].
  2: { right. split; [|done]. intros (i' & em & f & _ & H & _). by rewrite H in He. }
  assert (index m "envelope" = JObj em) as Hem by (by destruct (index m "envelope"); simplify_eq/=).
  destruct (as_float (index em "sequence")) as [f|] eqn:Hf.
  2: { right. split; [|done]. intros (i' & em' & f & _ & H & Hf' & _). rewrite Hem in H. simplify_eq. }
  case_bool_decide as Hs; [left|right]; (split; [|done]).
  - by exists i, em, f.
  - intros (i' & em' & f' & [= <-] & H & Hf' & Hs'). rewrite Hem in H. by simplify_eq.
Qed.

Lemma triggered_tag info m : triggered info (tagMessage m) <-> triggered info m.
Proof. unfold triggered, tagMessage. by rewrite !index_insert_ne. Qed.

Lemma tagged_marked info m :
  tagged info m (match info with Some i => mark_trigger i (tagMessage m) | None => tagMessage m end).
Proof.
  assert (tagged None m (tagMessage m)) as Ht.
  { unfold tagMessage. destruct (tagDelivery_to (insert_key "_source" (JStr "mailbox") m) m) as [Hb Hd];
      [by rewrite index_insert_ne..|].
    split.
    - by rewrite index_insert_ne, index_insert_eq.
    - intros H. by rewrite index_insert_eq, Hb.
    - intros H. by rewrite index_insert_eq, Hd.
    - by intros (i & em & f & [=] & _).
    - intros _. by rewrite !index_insert_ne.
    - intros k Hk. rewrite !index_insert_ne; [done|set_solver..]. }
  destruct info as [i|]; [|done]. destruct Ht as [H1 H2 H3 _ H5 H6].
  assert (index (tagMessage m) "_signal_trigger" = index m "_signal_trigger") as Hst.
  { apply H5. by intros (i' & em & f & [=] & _). }
  destruct (mark_trigger_cases i (tagMessage m)) as [[Htr ->]|[Htr ->]]; rewrite triggered_tag in Htr;
    split; rewrite ?index_insert_ne by done; auto; try tauto.
  - intros _. apply index_insert_eq.
  - intros k Hk. rewrite index_insert_ne by set_solver. by apply H6.
Qed.

(** C28: What receive_messages hands to the agent. When the server answers, the result spells
    exactly the objects of the reply's "messages", one for one and in order, each with
    [_source] "mailbox", with [_delivery] "broadcast" when the recipient is empty or "*" and
    "direct" otherwise, and with [_signal_trigger] true exactly on those whose sequence number
    is that of the message the last wake-up was for (which is then forgotten); every other
    field of a message stays as it came. When the call fails, the error is returned and what
    the wake-up was for is kept for the next call. The one request sent is a drain without a
    wait or filter. *)
Theorem received_tagged b x r rest (w : World Script) e :
  initialized (st w) = true -> replies (net w) = r :: rest ->
  wp ((receive_messages b).2 x) (fun res w' _ =>
    seen (net w') = seen (net w) ++ [request b "GET" (session_path b "/mailbox?wait=0") None] /\
    match call_result r with
    | Ok j => exists out, res = Ok (Marshal (JArr (JObj <$> out))) /\
        Forall2 (tagged (pendingSignal (st w)))
          (match j with
           | JObj kvs => match index kvs "messages" with
                         | JArr l => omap (fun v => match v with JObj m => Some m | _ => None end) l
                         | _ => []
                         end
           | _ => []
           end) out /\
        pendingSignal (st w') = None
    | Err msg => res = Err ("fetch mailbox: " +:+ msg) /\ pendingSignal (st w') = pendingSignal (st w)
    end) w e.
Proof.
  intros Hi Hr. cbn [receive_messages snd]. unfold drainAll, pollMailbox. wps.
  apply doJSON_wp, ensureInit_wp. rewrite Hi. split; [done|]. exists r, rest. split; [done|].
  assert (mailbox_path b 0 "" "" = session_path b "/mailbox?wait=0") as ->.
  { unfold mailbox_path. rewrite !bool_decide_eq_true_2 by done. by rewrite !str_app_nil. }
  assert (pendingSignal (if refused r then with_registration false "" (st w) else st w) =
    pendingSignal (st w)) as Hp by by destruct (refused r).
  unfold after_call. destruct (call_result r) as [j|msg]; unfold fail; wps; [|done].
  unfold getPendingSignalInfo. wps. cbn [st the_st get put net seen]. rewrite Hp. split; [done|].
  eexists. split; [done|]. split; [|done].
  assert (reply_messages j = match j with
           | JObj kvs => match index kvs "messages" with
                         | JArr l => omap (fun v => match v with JObj m => Some m | _ => None end) l
                         | _ => []
                         end
           | _ => []
           end) as <-.
  { unfold reply_messages. destruct j as [| | | | | | |kvs]; try done. cbn [as_map mbind option_bind].
    by destruct (index kvs "messages"). }
  unfold tagMessages, mark_triggers. generalize (reply_messages j) as ms.
  induction ms as [|m ms IH]; [by destruct (pendingSignal (st w))|].
  destruct (pendingSignal (st w)) as [i|] eqn:Hpi; cbn [fmap list_fmap]; constructor; try exact IH.
  - exact (tagged_marked (Some i) m).
  - exact (tagged_marked None m).
Qed.
