(* ===== verification/CliLaws.v ===== *)
(** * What the CLI shows

    De-duplication of envelopes by sequence number, colours and the start of the program. *)

From Stdlib Require Import Sorting.Sorted.
From S2P Require Import Prelude Json JsonText GoAny Lines Http Protocol Cli.

#[local] Open Scope Z_scope.

Section CliLaws.
Context {N : Type} `{!HttpClient N} (c : Config).
Abbreviation W := (World N).
Implicit Types (w : W) (e : Env) (s : State).

(** Those of a list of envelopes that are shown, from a highest number shown on. *)
Fixpoint shown (last : Z) (envs : list Envelope) : list Envelope :=
  match envs with
  | [] => []
  | env :: envs' =>
      if 0 <? Sequence env then
        if Sequence env <=? last then shown last envs' else env :: shown (Sequence env) envs'
      else env :: shown last envs'
  end.

Definition highest (last : Z) (envs : list Envelope) : Z :=
  foldl (fun l env => if 0 <? Sequence env then Sequence env else l) last (shown last envs).

(** ** Colours *)
(** An agent keeps the colour it got; colours are given out in turn. *)
Lemma getAgentColor_wp a (Q : string -> State -> Env -> Prop) s e :
  (forall col s', s' = mkState (lastSeq s) (watchToken s) (<[a := col]> (agentColors s)) (colorIdx s') ->
     (agentColors s !! a = Some col \/ agentColors s !! a = None) -> Q col s' e) ->
  wpA (getAgentColor a) Q s e.
Proof.
  intros HQ. unfold wpA, getAgentColor. destruct (agentColors s !! a) as [col|] eqn:Ha.
  - apply HQ; [|by left]. rewrite insert_id by done. by destruct s.
  - by apply HQ; [|right].
Qed.

(** ** One envelope *)

(** What displaying leaves alone: the watermark, the token and the network. *)
Definition display_frame w w' : Prop :=
  lastSeq (st w') = lastSeq (st w) /\ watchToken (st w') = watchToken (st w) /\ net w' = net w.

Lemma displayEnvelope_wp env (Q : unit -> W -> Env -> Prop) w e :
  (forall w' text, display_frame w w' -> out w' = out w ++ [text] -> Q tt w' e) ->
  wp (displayEnvelope env) Q w e.
Proof.
  intros HQ. unfold displayEnvelope, display, print.
  assert (forall (body : string -> string), wp (color ← ⟨the_st⟩ getAgentColor (From env);
            ⟨the_out⟩ modify (fun o => o ++ [body color])) Q w e) as Hc.
  { intros body. wps. apply getAgentColor_wp. intros col s' Hs _. wps. eapply HQ; [|done].
    rewrite Hs. by split_and!. }
  assert (forall text, wp (⟨the_out⟩ modify (fun o => o ++ [text])) Q w e) as Hp.
  { intros text. wps. by eapply HQ. }
  do 3 (case_bool_decide; [try apply Hp|]).
  all: cycle 1.
  { repeat (case_bool_decide; [first [apply Hp | apply (Hc (fun color => nl +:+ newline _))]|]).
    apply (Hc (fun color => nl +:+ newline _)). }
  case_bool_decide; apply (Hc (fun color => nl +:+ newline _)).
Qed.

(** A prompt follows every text. *)
Definition prompted (texts : list string) : list string := mjoin ((fun t => [t; "> "]) <$> texts).

Lemma showEnvelope_wp env (Q : unit -> W -> Env -> Prop) w e :
  (forall w' texts, watchToken (st w') = watchToken (st w) -> net w' = net w ->
     length texts = length (shown (lastSeq (st w)) [env]) ->
     lastSeq (st w') = highest (lastSeq (st w)) [env] -> out w' = out w ++ prompted texts -> Q tt w' e) ->
  wp (showEnvelope env) Q w e.
Proof.
  intros HQ. unfold showEnvelope, highest in *. cbn [shown foldl] in HQ. wps.
  unfold wpA at 1, fresh. change (lastSeq (get the_st w)) with (lastSeq (st w)).
  assert (forall w1, watchToken (st w1) = watchToken (st w) -> net w1 = net w -> out w1 = out w ->
    (lastSeq (st w1) = if 0 <? Sequence env then Sequence env else lastSeq (st w)) ->
    (0 <? Sequence env) && (Sequence env <=? lastSeq (st w)) = false ->
    wp (displayEnvelope env) (fun _ w' e' => wp (print "> ") Q w' e') w1 e) as Hshow.
  { intros w1 Ht Hn Ho Hl Hc. apply displayEnvelope_wp. intros w2 text (Hl2 & Ht2 & Hn2) Ho2.
    unfold print. wps. apply (HQ _ [text]); cbn [st net out put the_out]; try congruence.
    - destruct (0 <? Sequence env); [|done]. simpl in Hc. by rewrite Hc.
    - destruct (0 <? Sequence env) eqn:H0; simpl in Hc; [rewrite Hc|]; simpl; rewrite H0; congruence.
    - change (get the_out w2) with (out w2). rewrite Ho2, Ho. by rewrite <- app_assoc. }
  destruct (0 <? Sequence env) eqn:H0; [destruct (Sequence env <=? lastSeq (st w)) eqn:Hle|]; wps.
  - rewrite put_get. apply (HQ w []); try done. by rewrite app_nil_r.
  - by apply Hshow.
  - apply Hshow; by rewrite ?put_get.
Qed.

Lemma shown_app last l1 l2 :
  shown last (l1 ++ l2) = shown last l1 ++ shown (highest last l1) l2.
Proof.
  unfold highest. revert last. induction l1 as [|env l1 IH]; intros last; [done|]. cbn [app shown].
  destruct (0 <? Sequence env) eqn:H0; [destruct (Sequence env <=? last)|]; cbn [app foldl];
    rewrite ?H0, IH; done.
Qed.

Lemma highest_app last l1 l2 : highest last (l1 ++ l2) = highest (highest last l1) l2.
Proof. unfold highest at 1. rewrite shown_app, foldl_app. done. Qed.

Definition positive_seqs (envs : list Envelope) : list Z := filter (fun z => 0 < z) (Sequence <$> envs).

Lemma shown_rising last envs : StronglySorted Z.lt (last :: positive_seqs (shown last envs)).
Proof.
  unfold positive_seqs. revert last. induction envs as [|env envs IH]; intros last; [by repeat constructor|].
  cbn [shown]. destruct (Z.ltb_spec 0 (Sequence env)) as [Hp|Hn].
  - destruct (Z.leb_spec (Sequence env) last) as [Hle|Hlt]; [apply IH|].
    rewrite fmap_cons, filter_cons, decide_True by done. specialize (IH (Sequence env)).
    constructor; [done|]. apply StronglySorted_inv in IH as [_ Hall].
    constructor; [done|]. eapply Forall_impl; [exact Hall|]. simpl. lia.
  - rewrite fmap_cons, filter_cons, decide_False by lia. apply IH.
Qed.

(** C27: However often an envelope reaches the CLI, by the replay of the history, by the live
    stream and from the mailbox, it is shown at most once: of any list of envelopes exactly
    those are shown, each as one text followed by the prompt, that have no sequence number or
    one above every number shown before, so the numbers shown only rise; the rest leave no
    trace. *)
Theorem cli_shows_once envs w e :
  wp (for_each envs showEnvelope) (fun _ w' _ => exists texts,
    out w' = out w ++ prompted texts /\ length texts = length (shown (lastSeq (st w)) envs) /\
    lastSeq (st w') = highest (lastSeq (st w)) envs /\ net w' = net w /\
    watchToken (st w') = watchToken (st w) /\
    StronglySorted Z.lt (lastSeq (st w) :: positive_seqs (shown (lastSeq (st w)) envs))) w e.
Proof.
  eapply wp_mono; [apply (wp_for_each envs showEnvelope (fun seen w' _ => exists texts,
    out w' = out w ++ prompted texts /\ length texts = length (shown (lastSeq (st w)) seen) /\
    lastSeq (st w') = highest (lastSeq (st w)) seen /\ net w' = net w /\
    watchToken (st w') = watchToken (st w)))|].
  - exists []. by rewrite app_nil_r.
  - intros seen env w1 e1 _ (texts & Ho & Hlen & Hl & Hn & Ht). apply showEnvelope_wp.
    intros w2 more Ht2 Hn2 Hlen2 Hl2 Ho2. exists (texts ++ more).
    unfold prompted in *. rewrite fmap_app, join_app, shown_app, highest_app, !length_app, <- Hl.
    split; [by rewrite Ho2, Ho, app_assoc|]. split; [lia|]. split; [done|]. split; congruence.
  - intros _ w' _ (texts & H). exists texts. destruct H as (H1 & H2 & H3 & H4 & H5).
    split_and!; try done. apply shown_rising.
Qed.

(** What the numbers hide: once a message from the mailbox is shown, every older message of the
    history is dropped, shown before or not. *)
Lemma older_hidden env older :
  0 < Sequence env -> Forall (fun o => 0 < Sequence o <= Sequence env) older ->
  shown 0 (env :: older) = [env].
Proof.
  intros H0 Hall. cbn [shown]. rewrite (proj2 (Z.ltb_lt _ _)), (proj2 (Z.leb_gt _ _)) by done. f_equal.
  induction Hall as [|o older [Hp Hle] _ IH]; [done|]. cbn [shown].
  by rewrite (proj2 (Z.ltb_lt 0 (Sequence o))), (proj2 (Z.leb_le (Sequence o) _)).
Qed.

(** The program panics after registering when the session ID is shorter than eight bytes. *)
Lemma short_session_panics fuel lines w e :
  Z.of_nat (String.length (sessionID c)) < 8 ->
  wp (run c fuel lines) (fun r _ _ => r = None) w e.
Proof.
  intros Hs. unfold run, print. wps. eapply wp_mono.
  { instantiate (1 := fun _ _ _ => True). unfold wp, wpA. by destruct (Prelude.run _ _ _) as [[??]?]. }
  intros r w1 e1 _. wps. rewrite (proj2 (Z.ltb_lt _ _)) by done. by wps.
Qed.
End CliLaws.
