(* ===== verification/Witnesses.v ===== *)
(** * The theorems at work

    A small server (session "s" with agents "alice", its leader, and "bob") on which the
    hypotheses of the theorems hold, and each theorem applied to it. *)

From Stdlib Require Import Sorting.Sorted.
From S2P Require Import Prelude Json Protocol Hub HubDelivery HubOrder HubMembers HubLifecycle.
From S2P Require Import Watcher WatchToken Api ApiAuth ApiStream ApiOpen Server.
From S2P Require Leader Scratchpad Session Filestore Presence Mailbox Persist.

#[local] Open Scope Z_scope.

Definition env0 : Env := mkEnv 0 [] [] [] [].

Definition alice := Presence.mkAgentState "alice" "s" None 0 false.
Definition bob := Presence.mkAgentState "bob" "s" None 0 false.
Definition people : Presence.Tracker :=
  Presence.mkTracker {[ "s/alice" := alice; "s/bob" := bob ]} (60 * second) (24 * hour).
Definition sess : Session.Session := Session.mkSession "s" "demo" "key" 0 0.
Definition hi (n : Z) : Envelope := mkEnvelope "message" "" "s" "alice" "bob" None n 0.

(** The demonstration hub over any fan-out. *)
Definition demo {N} (n : N) : Hub N :=
  mkHub (Session.mkStore {[ "s" := sess ]}) (Leader.mkTracker {[ "s" := "alice" ]})
    Scratchpad.NewStore (Filestore.NewStore maxFileSize) people (Mailbox.NewStore mailboxMax)
    {[ "s" := [hi 1; hi 2] ]} 100 (15 * second) {[ "s" := 2 ]} false (Some n).

Definition rec_demo : Hub (list (string * Envelope)) := demo [].

Lemma people_lookup k st :
  Presence.agents people !! k = Some st ->
  (k = "s/alice" /\ st = alice) \/ (k = "s/bob" /\ st = bob).
Proof.
  simpl. intros [[<- <-]|[_ [<- <-]%lookup_singleton_Some]]%lookup_insert_Some; auto.
Qed.

Lemma demo_members : members_ok people env0.
Proof.
  split; intros k st [[-> ->]|[-> ->]]%people_lookup; done.
Qed.

Lemma demo_wf {N} (n : N) : hub_wf (demo n).
Proof. split; [apply demo_members|apply Mailbox.NewStore_wf]. Qed.

Lemma demo_inv {N} (n : N) : hub_inv [] (demo n) env0.
Proof.
  split; [apply demo_wf|]. split; [apply demo_members|].
  intros sid a. simpl. intros [<- <-]%lookup_singleton_Some.
  left. by exists alice.
Qed.

Lemma demo_log {N} (n : N) : log_ok 2 (get the_log (demo n)).
Proof.
  intros sid. simpl. destruct (decide (sid = "s")) as [->|Hne].
  - rewrite !lookup_singleton_eq. simpl. split; [lia|]. split; simpl.
    + lia.
    + repeat constructor; done.
    + repeat constructor; done.
    + repeat constructor.
  - rewrite !lookup_singleton_ne by done. simpl. split; [lia|].
    split; simpl; [lia|constructor..].
Qed.

Lemma demo_keyed {N} (n : N) : Session.keyed (sessionStore (demo n)).
Proof. intros k x. simpl. by intros [<- <-]%lookup_singleton_Some. Qed.

(** ** Mailboxes *)
Lemma mailbox_refines_witness :
  wp (Mailbox.exec_all [Mailbox.OpDeliver "s/bob" (hi 1); Mailbox.OpDrain "s/bob"])
    (fun answers s' _ => exists m', Mailbox.spec_run 2 (Mailbox.mkSpec ∅ 0)
       [Mailbox.OpDeliver "s/bob" (hi 1); Mailbox.OpDrain "s/bob"] answers m' /\
       Mailbox.implements s' m') (Mailbox.NewStore 2) env0.
Proof.
  apply (Mailbox.mailbox_refines_spec _ (Mailbox.NewStore 2) (Mailbox.mkSpec ∅ 0) env0).
  split; [apply Mailbox.NewStore_wf|done|done].
Defined.

(** Two deliveries to the same new mailbox, both past their first look before either creates
    the box. *)
Definition two_sends : Pool Mailbox.Store :=
  mkPool (Mailbox.NewStore 2) env0
    [Mailbox.exec (Mailbox.OpDeliver "s/bob" (hi 1)) ;; mret tt;
     Mailbox.exec (Mailbox.OpDeliver "s/bob" (hi 2)) ;; mret tt].

Lemma mailbox_bounded_witness :
  match sched [0; 1; 0; 1; 0; 1; 0; 1; 1; 0]%nat two_sends with
  | Some P => length (Mailbox.queue (p_world P) "s/bob") = 2%nat /\ Mailbox.wf (p_world P)
  | None => False
  end.
Proof.
  assert ((fun P => length (Mailbox.queue (p_world P) "s/bob")) <$>
            sched [0; 1; 0; 1; 0; 1; 0; 1; 1; 0]%nat two_sends = Some 2%nat) as Hs
    by (vm_compute; reflexivity).
  destruct (sched [0; 1; 0; 1; 0; 1; 0; 1; 1; 0]%nat two_sends) as [[s' e' ts']|] eqn:E;
    [|discriminate].
  split; [by injection Hs|].
  apply (Mailbox.mailbox_bounded_interleaved (Mailbox.NewStore 2) env0 (p_threads two_sends) s' e' ts').
  - apply Mailbox.NewStore_wf.
  - by intros i b.
  - repeat constructor.
  - eapply rtc_nsteps. eexists. exact (sched_nsteps _ _ two_sends _ E).
Defined.

(** A store with one message for bob. *)
Definition mailed : Mailbox.Store := (run (Mailbox.Deliver "s/bob" (hi 3)) (Mailbox.NewStore 2) env0).1.2.
Definition mail3 : Mailbox.Entry := Mailbox.mkEntry "m-1" (hi 3) 0.

Lemma mailed_wf : Mailbox.wf mailed.
Proof.
  assert (wp (Mailbox.Deliver "s/bob" (hi 3)) (fun _ s _ => Mailbox.wf s) (Mailbox.NewStore 2) env0) as H.
  { apply Mailbox.mailbox_Deliver_wp; [apply Mailbox.NewStore_wf|]. by intros t s' e' _ en (_ & _ & _ & Hwf) _. }
  unfold mailed. unfold wp, wpA in H. by destruct (run _ _ _) as [[x s'] e'].
Qed.

(** Without mail a second is waited for, to the instant; with mail not at all. *)
Lemma wait_returns_witness :
  wp (Mailbox.DrainMatchingWait 10 "s/bob" "" "" second)
    (fun r _ e' => r = Some [] /\ clock e' = second) (Mailbox.NewStore 2) env0 /\
  wp (Mailbox.DrainMatchingWait 10 "s/bob" "" "" second)
    (fun r s' e' => r = Some [mail3] /\ Mailbox.queue s' "s/bob" = [] /\ clock e' = 0) mailed env0.
Proof.
  assert (quick 0 env0) as Hq by constructor. split.
  - eapply wp_mono; [apply (Mailbox.wait_returns 10 "s/bob" "" "" second (Mailbox.NewStore 2) env0)|].
    + apply Mailbox.NewStore_wf.
    + vm_compute. lia.
    + intros r s' e' (matched & -> & -> & _ & _ & Hd). split; [done|].
      destruct Hd as [Hd [_ Hs]]. destruct (Hs 0 ltac:(done) Hq) as [_ Hc]. cbn [clock env0] in Hd, Hc.
      assert (0 <= second) by done. lia.
  - eapply wp_mono; [apply (Mailbox.wait_returns 10 "s/bob" "" "" second mailed env0)|].
    + apply mailed_wf.
    + vm_compute. lia.
    + intros r s' e' (matched & -> & -> & Hq' & _ & Hd). split; [by vm_compute|]. split; [by rewrite Hq'; vm_compute|].
      destruct Hd as [He Hs]. destruct (Hs 0 ltac:(done) Hq) as [_ Hc]. unfold env_le in He. cbn [clock env0] in He, Hc. lia.
Defined.

(** ** Delivery *)
Lemma send_delivers_witness :
  wp (SendMessage "s" "alice" "bob" "message" None) (fun r h' _ => r = Ok tt /\
    exists env, notifier h' = Some [("s", env)] /\ Sequence env = 3) rec_demo env0.
Proof.
  eapply wp_mono; [apply (send_delivers "s" "alice" "bob" "message" None rec_demo env0)|].
  - apply demo_wf.
  - done.
  - by exists bob.
  - intros r h' e' (-> & t & mb & o & _ & -> & _ & Hn). split; [done|].
    apply notified_recorder in Hn. simpl in *. eauto.
Defined.

Lemma send_rejects_witness :
  wp (SendMessage "s" "alice" "carol" "message" None) (fun r h' _ => h' = rec_demo /\
    r = Err (errNoAgent "carol")) rec_demo env0.
Proof.
  eapply wp_mono; [apply (send_rejects "s" "alice" "carol" "message" None rec_demo env0)|].
  - apply demo_wf.
  - left. by intros (st & Hst & _).
  - by intros r h' e' [-> ->].
Defined.

Lemma broadcast_witness :
  wp (Broadcast "s" "alice" "broadcast" None) (fun n h' _ =>
    exists mb, mailboxes h' = mb /\ exists env, reached rec_demo "s" "alice" env n mb) rec_demo env0.
Proof.
  eapply wp_mono;
    [apply (broadcast_reaches_members "s" "alice" "broadcast" None rec_demo env0), demo_wf|].
  intros n h' e' (t & mb & o & _ & -> & Hr & _). eauto.
Defined.

Lemma scratchpad_set_witness :
  wp (ScratchpadSet "s" "alice" "plan" (Some (JInt 1))) (fun r h' _ =>
    exists t, r = Ok (mkScratchpadEntry "plan" (Some (JInt 1)) "alice" t)) rec_demo env0.
Proof.
  eapply wp_mono;
    [apply (scratchpad_set_announces "s" "alice" "plan" (Some (JInt 1)) rec_demo env0), demo_wf|].
  intros r h' e' H. cbv beta in H. rewrite decide_False in H by done.
  destruct H as (t & t' & n & mb & o & _ & _ & -> & _). eauto.
Defined.

Lemma transfer_witness :
  wp (LeaderTransfer "s" "alice" "bob") (fun r h' _ =>
    match r with
    | Ok _ => Leader.leaders (leader h') !! "s" = Some "bob"
    | Err _ => h' = rec_demo
    end) rec_demo env0.
Proof.
  eapply wp_mono; [apply (transfer_by_leader_only "s" "alice" "bob" rec_demo env0), demo_wf|].
  intros [] h' e'.
  - intros (_ & _ & -> & _). by rewrite lookup_insert_eq.
  - by intros [-> _].
Defined.

(** ** The message log *)
Definition two_broadcasts : Pool (Hub (list (string * Envelope))) :=
  mkPool rec_demo env0
    [Broadcast "s" "alice" "broadcast" None ;; mret tt;
     Broadcast "s" "bob" "broadcast" None ;; mret tt].

Lemma history_ordered_witness :
  match sched [0; 1; 1; 0]%nat two_broadcasts with
  | Some P => Sequence <$> default [] (history (p_world P) !! "s") = [1; 2; 3; 4] /\
      session_log_ok (maxHistory (p_world P)) "s" (default 0 (seqNums (p_world P) !! "s"))
        (default [] (history (p_world P) !! "s"))
  | None => False
  end.
Proof.
  assert ((fun P => Sequence <$> default [] (history (p_world P) !! "s")) <$>
            sched [0; 1; 1; 0]%nat two_broadcasts = Some [1; 2; 3; 4]) as Hs by (vm_compute; reflexivity).
  destruct (sched [0; 1; 1; 0]%nat two_broadcasts) as [[h' e' ts']|] eqn:E; [|discriminate].
  split; [by injection Hs|].
  apply (history_ordered_interleaved 2 4 rec_demo h' env0 e' (p_threads two_broadcasts) ts').
  - lia.
  - vm_compute. discriminate.
  - apply demo_log.
  - repeat constructor.
  - exact (sched_nsteps _ _ two_broadcasts _ E).
Defined.

Lemma history_pages_witness :
  wp (GetHistoryAfter "s" 0 1) (fun page _ _ => page = [hi 1] /\
    [hi 1; hi 2] = page ++ filter (fun env => 1 < Sequence env) [hi 1; hi 2]) rec_demo env0.
Proof.
  eapply wp_mono; [apply (history_pages "s" 0 1 rec_demo env0); simpl; lia|].
  intros page h' e' (_ & _ & Hp & Hnext). assert (page = [hi 1]) as -> by by rewrite Hp.
  split; [done|]. apply (Hnext (hi 1)); [|done]. repeat constructor; done.
Defined.

Lemma restore_witness :
  wp (RestoreState {[ "s" := [hi 1; hi 2] ]} {[ "s" := 2 ]})
    (fun _ h' _ => bumped "s" (get the_log h') = 3 /\ bumped "t" (get the_log h') = 1 /\
       2 < bumped "s" (get the_log h'))
    (boot false : Hub (list (string * Envelope))) env0.
Proof.
  eapply wp_mono;
    [apply (restore_never_reuses {[ "s" := [hi 1; hi 2] ]} {[ "s" := 2 ]} 2
              (boot false : Hub (list (string * Envelope))) env0)|].
  - done.
  - done.
  - done.
  - apply (demo_log (N := unit) tt).
  - intros x h' e' (_ & _ & _ & Hn & H). rewrite !Hn. split; [reflexivity|]. split; [reflexivity|].
    rewrite <- (Hn "s"). apply (H "s" (hi 2)). right. left.
Defined.

(** ** Membership *)
Lemma leader_active_witness :
  active (presence (run (hub_sweep (N := list (string * Envelope))) rec_demo
            (mkEnv (59 * second) [] [] [] [])).1.2) "s" "alice".
Proof.
  destruct (run (hub_sweep (N := list (string * Envelope))) rec_demo
    (mkEnv (59 * second) [] [] [] [])) as [[[] h'] e'] eqn:E.
  apply (leader_is_active rec_demo h' (mkEnv (59 * second) [] [] [] []) e' "s" "alice").
  - destruct (demo_inv (N := list (string * Envelope)) []) as (H1 & H2 & H3). split; [done|].
    split; [|done]. eapply members_ok_later; [exact H2|]. vm_compute. discriminate.
  - eapply runs_step; [apply pc_sweep|exact E|apply runs_refl].
  - vm_compute in E. injection E as <- <-. reflexivity.
Defined.

Lemma register_announces_witness :
  wp (Register "s" "carol" None) (fun isNew h' _ => isNew = true /\
    Leader.leaders (leader h') !! "s" = Some "alice" /\
    exists env, notifier h' = Some [("s", env)]) rec_demo env0.
Proof.
  eapply wp_mono; [apply (register_announces "s" "carol" None rec_demo [] env0)|].
  - apply demo_members.
  - done.
  - done.
  - intros isNew h' e' (_ & _ & H). simpl in H. destruct H as (-> & -> & t & ->).
    split; [done|]. split; [done|]. by eexists.
Defined.

Lemma heartbeat_witness :
  wp (Register "s" "alice" None) (fun _ h' e' =>
    clock e' < 60 * second -> sessionStore h' = sessionStore rec_demo) rec_demo env0.
Proof.
  eapply wp_mono; [apply (heartbeat_not_activity "s" "alice" None alice rec_demo env0)|].
  - apply demo_members.
  - done.
  - reflexivity.
  - intros ? h' e' H Hc. apply H. simpl. lia.
Defined.

Lemma known_before_register_witness :
  wp (RefreshPresence "t" "alice" ;; Register "t" "alice" None)
    (fun isNew h' _ => isNew = false /\ Leader.leaders (leader h') !! "t" = None) rec_demo env0.
Proof.
  apply (known_before_register "t" "alice" None rec_demo env0).
  - apply demo_members.
  - done.
  - reflexivity.
  - reflexivity.
Defined.

(** ** Sessions that end *)
Lemma close_witness :
  wp (CloseSession "s") (fun _ h' _ => no_session h' "s" /\ same_session rec_demo h' "t")
    rec_demo env0.
Proof.
  eapply wp_mono; [apply (close_session_exact "s" rec_demo env0)|].
  - apply Mailbox.NewStore_wf.
  - apply demo_members.
  - done.
  - intros x h' e' [H1 H2]. split; [done|]. by apply H2.
Defined.

Lemma janitor_witness :
  wp (reapStaleSessions second) (fun _ h' _ => Session.sessions (sessionStore h') !! "s" = None)
    rec_demo (mkEnv (2 * second) [] [] [] []).
Proof.
  eapply wp_mono; [apply (janitor_reaps_stale second rec_demo (mkEnv (2 * second) [] [] [] []))|].
  - apply Mailbox.NewStore_wf.
  - eapply members_ok_later; [apply demo_members|]. vm_compute. discriminate.
  - apply demo_keyed.
  - intros sid s. simpl. by intros [<- <-]%lookup_singleton_Some.
  - intros x h' e' (cutoff & Hc & H). specialize (H "s" eq_refl).
    change (Session.sessions (sessionStore rec_demo) !! "s") with (Some sess) in H.
    cbv beta iota in H. destruct (decide (Session.LastActive sess <= cutoff)) as [Hle|Hgt];
      [by destruct H|]. destruct Hgt. simpl in *. unfold second in *. lia.
Defined.

(** ** Watching *)
Definition one_watcher : Watcher := mkWatcher {[ "s" := {[ 0%nat ]} ]} [[]].

Lemma one_watcher_ok : watcher_ok one_watcher.
Proof.
  assert (forall sid ch, ch ∈ subscribers one_watcher sid -> sid = "s" /\ ch = 0%nat) as Hin.
  { intros sid ch. unfold subscribers, one_watcher. simpl.
    destruct (decide (sid = "s")) as [->|Hne].
    - rewrite lookup_singleton_eq. simpl. rewrite elem_of_singleton. auto.
    - rewrite lookup_singleton_ne by done. simpl. set_solver. }
  split.
  - intros sid ch [_ ->]%Hin. simpl. lia.
  - intros [|ch]; simpl; lia.
  - intros s1 s2 ch [-> _]%Hin [-> _]%Hin. done.
Qed.

Lemma notify_witness :
  wpA (Notify "s" (hi 1)) (fun _ w' _ => buffer w' 0 = [hi 1]) one_watcher env0.
Proof.
  eapply wpA_mono; [apply (notify_fans_out "s" (hi 1) one_watcher env0), one_watcher_ok|].
  intros x w' e' (_ & _ & ->). rewrite decide_True; [done|]. split; [|vm_compute; lia].
  unfold subscribers. simpl. set_solver.
Defined.

Lemma subscriber_fifo_witness :
  wpA (play 0 [WNotify "s" (hi 1); WSubscribe "s"; WNotify "t" (hi 7); WRecv 0; WNotify "s" (hi 2)])
    (fun got w' _ => got ++ buffer w' 0 = [hi 1; hi 2]) one_watcher env0.
Proof.
  eapply wpA_mono; [apply (subscriber_fifo "s" 0)|].
  - apply one_watcher_ok.
  - unfold subscribers. simpl. set_solver.
  - set_solver.
  - intros got w' _ [_ H]. apply H. vm_compute. lia.
Defined.

Definition server : Handler :=
  mkHandler (demo one_watcher) (newWatchTokenStore hour) (15 * second) 64.

Definition req (auth_ agent : string) : Request :=
  mkRequest "s" "" auth_ agent "" (fun _ => "") None None.

Lemma auth_admits_witness :
  wp (auth getLeader (req "Bearer key" "alice"))
    (fun resp _ _ => exists j, resp = Some (writeJSON StatusOK j)) server env0.
Proof.
  apply (auth_admits getLeader (req "Bearer key" "alice") server env0).
  - split; [done|]. split; [done|]. exists "key". by split.
  - unfold wp, wpA. vm_compute. eauto.
Defined.

Lemma auth_gate_witness :
  wp (auth getLeader (req "Bearer wrong" "alice")) (fun resp a' _ => a' = server /\
    exists msg code, resp = Some (error msg code)) server env0.
Proof.
  eapply wp_mono; [apply (auth_gate getLeader (req "Bearer wrong" "alice") server env0)|].
  - intros (_ & _ & psk & Hb & Hc). vm_compute in Hb, Hc. congruence.
  - intros resp a' e' (-> & _ & msg & code & -> & _). eauto.
Defined.

Lemma no_takeover_witness :
  wp (registerAgent (req "Bearer wrong" "mallory")) (fun resp a' _ => a' = server /\
    resp <> None) server env0.
Proof.
  eapply wp_mono; [apply (register_no_takeover (req "Bearer wrong" "mallory") "key" server env0)|].
  - reflexivity.
  - vm_compute. discriminate.
  - intros resp a' e' (-> & _ & msg & code & -> & _). done.
Defined.

Definition waiting_req : Request :=
  mkRequest "s" "" "" "bob" "" (fun k => if bool_decide (k = "wait") then "2" else "") None None.
Definition server_mail : Handler := put the_hub (put the_mailboxes mailed (hub server)) server.

(** A request that may wait two seconds, without and with mail. *)
Lemma drain_answers_witness :
  wp (drainMailbox poll_fuel waiting_req "bob") (fun resp _ e' =>
    resp = Some (drain_reply []) /\ clock e' = 2 * second) server env0 /\
  wp (drainMailbox poll_fuel waiting_req "bob") (fun resp _ e' =>
    resp = Some (drain_reply [mail3]) /\ clock e' = 0) server_mail env0.
Proof.
  assert (quick 0 env0) as Hq by constructor. split.
  - eapply wp_mono; [apply (drain_answers poll_fuel waiting_req "bob" server env0)|].
    + apply Mailbox.NewStore_wf.
    + done.
    + intros resp a' e' (-> & _ & _ & _ & Hd). split; [done|]. destruct Hd as [Hd [_ Hs]].
      destruct (Hs 0 ltac:(done) Hq) as [_ Hc]. change (wait_seconds waiting_req) with 2 in Hd, Hc.
      cbn [clock env0] in Hd, Hc. lia.
  - eapply wp_mono; [apply (drain_answers poll_fuel waiting_req "bob" server_mail env0)|].
    + apply mailed_wf.
    + done.
    + intros resp a' e' (-> & _ & _ & _ & Hd). split; [by vm_compute|]. destruct Hd as [He Hs].
      destruct (Hs 0 ltac:(done) Hq) as [_ Hc]. unfold env_le in He. cbn [clock env0] in He, Hc. lia.
Defined.

Definition opening_turns : list bool := [true; false; true; true; false; true; false; true].

Lemma stream_opens_witness :
  wp (handleSSE "s") (fun out _ _ => exists ch t,
    out = Streaming ch [Retry 3000; Connected "s" t; HistoryEvent (hi 1); HistoryEvent (hi 2)])
    server env0 /\
  wp (weave opening_turns (handleSSE "s") (⟪the_hub⟫ send_all "s" [ToAll "bob" "message" None]))
    (fun r a' _ => exists sent ch t i j w',
       is_of "s" (ToAll "bob" "message" None) sent /\
       r.1 = Streaming ch ([Retry 3000; Connected "s" t] ++
               (HistoryEvent <$> [hi 1; hi 2] ++ take i [sent])) /\
       notifier (hub a') = Some w' /\ (j <= i <= 1)%nat /\ buffer w' ch = drop j [sent])
    server env0.
Proof.
  destruct (stream_opens "s" one_watcher server env0 eq_refl one_watcher_ok) as [Halone Hbeside].
  assert (~ (maxWatchersPerSession server <= size (subscribers one_watcher "s"))%nat) as Hroom
    by (vm_compute; lia).
  split.
  - eapply wp_mono; [exact Halone|]. intros out a' e' H. cbv beta in H. rewrite decide_False in H by done.
    destruct H as (ch & t & w' & -> & _). exists ch, t. reflexivity.
  - eapply wp_mono; [apply wp_and; [apply (Hbeside opening_turns [ToAll "bob" "message" None]); vm_compute; lia|]|].
    { instantiate (1 := fun r _ _ => r.2 = [ToAll "bob" "message" None]). vm_compute. reflexivity. }
    intros [out accepted] a' e' [H Hacc]. cbn [fst snd] in *. subst accepted.
    destruct H as (sent & Hsent & _ & H). rewrite decide_False in H by done.
    destruct H as (ch & t & i & j & w' & -> & _ & Hw & _ & _ & Hij & Hb).
    apply Forall2_cons_inv_l in Hsent as (env & sent' & Henv & ->%Forall2_nil_inv_l & ->).
    exists env, ch, t, i, j, w'. split; [done|]. split; [|split; [done|split; [exact Hij|]]].
    + rewrite cap_small; [done|]. rewrite length_app, length_take.
      change (length (default [] (history (hub server) !! "s"))) with 2%nat.
      change (maxHistory (hub server)) with 100%nat. simpl. lia.
    + rewrite Hb, take_ge; [done|]. rewrite length_drop. unfold chan_cap. cbn. lia.
Defined.

(** ** Persistence *)
Definition saved : Persist.Snapshot :=
  Persist.mkSnapshot [sess] {[ "s/bob" := [Mailbox.mkEntry "m-1" (hi 1) 0] ]}
    {[ "s" := [hi 1; hi 2] ]} {[ "s" := 2 ]} {[ "s" := [mkScratchpadEntry "k" None "alice" 0] ]}.

Lemma saved_sized : Persist.sized saved.
Proof.
  split; simpl.
  - intros k l [<- <-]%lookup_singleton_Some. repeat constructor; vm_compute; discriminate.
  - intros k l [<- <-]%lookup_singleton_Some. repeat constructor; vm_compute; discriminate.
  - intros k l [<- <-]%lookup_singleton_Some. split; vm_compute; discriminate.
Qed.

Lemma snapshot_round_trip_witness :
  Persist.Snapshot_of (Persist.Snapshot_json saved) = Some (Persist.settled saved).
Proof. apply (Persist.snapshot_round_trip saved), saved_sized. Defined.

Lemma empty_dir : Persist.recoverable (fun o => o = None) (Persist.mkFS ∅ [] []).
Proof. repeat constructor. by exists None. Qed.

Lemma flush_atomic_witness :
  wp (Persist.Flush saved) (fun r fs' _ =>
    r = Ok tt -> Persist.Load fs' = Some (Persist.settled saved)) (Persist.mkFS ∅ [] []) env0.
Proof.
  eapply wp_mono; [eapply always_wp, (Persist.flush_atomic saved None)|].
  - apply saved_sized.
  - apply empty_dir.
  - by intros r fs' e' H ->.
Defined.

Lemma restart_witness :
  wp flush_once (fun r w e1 =>
    r = Ok tt -> wp (startup w.2) (fun _ h2 _ => restored (demo tt) h2) (boot false) e1)
    (demo tt, Persist.mkFS ∅ [] []) env0.
Proof.
  eapply wp_mono;
    [apply (restart_restores false (demo tt) (Persist.mkFS ∅ [] []) None env0 2)|].
  - apply demo_keyed.
  - by intros sid pad.
  - done.
  - apply demo_log.
  - intros k. constructor.
  - apply empty_dir.
  - intros r w e1 [_ H] ->. exact H.
Defined.
