(* ===== verification/ClientWitnesses.v ===== *)
(** * The clients' theorems at work

    A stream with one message for the agent "bob", a bridge in its session and a host of
    requests, and each theorem about the clients that has hypotheses applied to them. *)

From Stdlib Require Import Sorting.Sorted Strings.Ascii.
From S2P Require Import Prelude Rfc3339 Json JsonText GoAny Lines Http Signal Protocol Api Mcp.
From S2P Require Import Bridge BridgeTools BridgeWatch Sse BridgeWake BridgeLaws BridgeArgs.
From S2P Require Cli McpRun BridgeProcess.

#[local] Open Scope Z_scope.

Definition quiet : Env := mkEnv 0 [] [] [] [].

Definition bob_config : Config :=
  mkConfig "http://localhost:8080" "s" "key" "bob" None false "/run/host.sock" "".

Definition note : Envelope :=
  mkEnvelope "message" "" "s" "alice" "bob" (Some (JObj [("text", JStr "hi")])) 7 0.
Definition old_note : Envelope := mkEnvelope "message" "" "s" "alice" "bob" None 3 0.

Lemma note_ok : wire_ok note.
Proof.
  split; [by vm_compute| |by vm_compute]. intros p [= <-]. by repeat constructor.
Qed.

Definition frames : list frame :=
  [Retry 3000; Connected "s" 0; HistoryEvent old_note; Ping; MessageEvent note].

(** The stream's text in two reads, cut inside a line. *)
Definition first_read : string := String.substring 0 100 (render_all frames).
Definition second_read : string :=
  String.substring 100 (String.length (render_all frames)) (render_all frames).

Lemma frames_ok : Forall (frame_ok Cli.stream_max) frames.
Proof. repeat constructor; by vm_compute. Qed.

Lemma frames_wire : Forall live_wire frames.
Proof. destruct note_ok. repeat (constructor; [done|]). constructor. Qed.

Lemma cut_ok : concat_str [first_read; second_read] = render_all frames.
Proof. by vm_compute. Qed.

Lemma sse_readers_agree_witness :
  exists ls, scan_chunks BridgeWatch.stream_max "" [first_read; second_read] = (ls, false) /\
    scan_chunks Cli.stream_max "" [first_read; second_read] = (ls, false) /\
    bridge_events ("", "") ls = (omap frame_event frames, ("", "")) /\
    cli_events Cli.newParser ls = (omap frame_event frames, Cli.newParser).
Proof. apply (sse_readers_agree frames); [exact frames_ok|exact cut_ok]. Defined.

Definition peer0 : Peer := mkPeer [] [] [] [].
Definition world0 (n : Script) : World Script := mkWorld newState ("", "") n peer0.
Definition network (rs : list (result HttpResponse)) : Script := mkScript rs [] [].

Lemma stream_wakes_witness :
  wp (read_stream bob_config 0 0 "" ("", "") [(second, first_read); (15 * second, second_read)] second None)
    (fun msg w' _ => msg = "stream ended" /\ signalCh (st w') = true /\
       pendingSignal (st w') = Some (mkPending "message" "alice" 7)) (world0 (network [])) quiet.
Proof.
  eapply wp_mono.
  - apply (stream_wakes bob_config 0 0 0 frames); [done|constructor|done|apply frames_wider, frames_ok|exact frames_wire|exact cut_ok| |done].
    repeat constructor; done.
  - intros msg w' e' (H1 & _ & H2 & H3 & _). split; [done|]. rewrite H2, H3. by vm_compute.
Defined.

Lemma silent_stream_witness :
  wp (read_stream bob_config 0 0 "" ("", "") [] hour None)
    (fun msg _ e' => msg = "stream read: context canceled" /\ 45 * second < clock e' <= 50 * second)
    (world0 (network [])) quiet.
Proof.
  eapply wp_mono; [apply (silent_stream_dropped bob_config 0 0 0 "" ("", "") [] hour None); [done|constructor|done]|].
  done.
Defined.

Lemma reconnects_paced_witness :
  wp (sse_round bob_config sseBaseBackoff) (fun next _ e' => quiet ≼ e' /\ forall d, next = Some d ->
    sseBaseBackoff <= d <= sseMaxBackoff /\ d <= 2 * sseBaseBackoff /\ clock quiet + d <= clock e' /\
    (d = sseBaseBackoff \/ Z.min sseBaseBackoff (sseMaxBackoff / 2) <= d)) (world0 (network [])) quiet.
Proof. apply (reconnects_paced bob_config); done. Defined.

(** A server that restarts: it refuses the first request, then knows the bridge again. *)
Definition registered : State := with_registration true "old" newState.
Definition reply (code : Z) (text : string) : HttpResponse := mkHttpResponse code [] (Ok text).
Definition token_reply : HttpResponse :=
  reply 200 (Marshal (JObj [("watch_token", JStr "new")])).
Definition restarting : Script :=
  network [Ok (reply 401 "invalid session or PSK"); Ok token_reply; Ok (reply 200 "[]")].

Lemma lost_registration_witness :
  wp (r1 ← doJSON bob_config "GET" "/a" None; st1 ← ⟨the_st⟩ gets id;
      r2 ← doJSON bob_config "GET" "/b" None; mret (r1, st1, r2))
    (fun '(r1, st1, r2) w' _ => initialized st1 = false /\ r2 = Ok (JArr []) /\
       watchToken (st w') = "new" /\ length (seen (net w')) = 3%nat)
    (mkWorld registered ("", "") restarting peer0) quiet /\
  wp (upload_file bob_config "a.txt" "text/plain" [])
    (fun r w' _ => (exists msg, r = Err msg) /\ initialized (st w') = true)
    (mkWorld registered ("", "") restarting peer0) quiet.
Proof.
  destruct (lost_registration_recovers bob_config "GET" "/a" None "GET" "/b" None
      (Ok (reply 401 "invalid session or PSK")) token_reply (Ok (reply 200 "[]")) []
      (mkWorld registered ("", "") restarting peer0) quiet) as (Hcalls & Hup & _); [reflexivity..|]. split.
  - eapply wp_mono; [exact Hcalls|].
    intros [[r1 st1] r2] w' e' (_ & _ & H1 & _ & H2 & _ & H3 & H4). rewrite H2, H3, H4. by vm_compute.
  - eapply wp_mono; [apply (Hup "a.txt" "text/plain" [])|]. intros r w' e' [Hr ->]. by split.
Defined.

(** A host that is down twice. *)
Definition rebooting : Peer := mkPeer [false; false; true] [true] [] [].
Definition asked : World Script :=
  mkWorld (with_signalCh true newState) ("telegram", "42") (network []) rebooting.
Definition awake : Env := mkEnv 0 [] [] (replicate 6 false) [].

(** One that is down, then takes the signal and closes without a reply, then is up. *)
Definition flaky : Peer := mkPeer [false; true; true] [true; true] [Eof] [].
Definition asked_flaky : World Script := put the_peer flaky asked.

Lemma wake_up_witness :
  wp (signalLoop bob_config 4 signalBaseBackoff) (fun _ w' _ =>
    length (received (peer w')) = 1%nat /\ signalCh (st w') = false) asked awake /\
  wp (signalLoop bob_config 4 signalBaseBackoff) (fun _ w' _ =>
    length (received (peer w')) = 2%nat /\ signalCh (st w') = false) asked_flaky awake.
Proof.
  split.
  - eapply wp_mono.
    + apply (wake_up_delivered bob_config [NotListening; NotListening]); [done| |cbn; lia|by exists []].
      by exists [], [], [].
    + intros _ w' e' (ts & p & _ & Hl & -> & Hr). cbn [peer put the_peer st the_st]. rewrite Hr.
      unfold sent_at. rewrite length_app, length_fmap, Hl. done.
  - eapply wp_mono.
    + apply (wake_up_delivered bob_config [NotListening; HangsUp]); [done| |cbn; lia|by exists []].
      by exists [], [], [].
    + intros _ w' e' (ts & p & _ & Hl & -> & Hr). cbn [peer put the_peer st the_st]. rewrite Hr.
      unfold sent_at. rewrite length_app, length_fmap, Hl. done.
Defined.

(** Two requests of a host, to a server with no tools. *)
Definition hello : jsonRPCRequest := mkRequest (JInt 1) "initialize" None.
Definition call : jsonRPCRequest :=
  mkRequest (JStr "b") "tools/call" (Some (JObj [("name", JStr "send_message")])).
Definition bare : Mcp.Server (string * string) := NewServer "bridge" "1".

(** The same requests as text, read and answered; the input ends while both are at work. *)
Definition hello_text : string :=
  unlines [Marshal (jsonRPCRequest_json hello); ""; Marshal (jsonRPCRequest_json call)].
Definition run_threads : list (prog (((string * string) * Io) * McpRun.Run) unit) :=
  [McpRun.RunWith 3 hello_text; McpRun.worker lens_id bare 0; McpRun.worker lens_id bare 0].
Definition reading_env : Env := mkEnv 0 [] [] (replicate 4 false) [].
Definition run_pool := mkPool ((("", ""), mkIo [] []), McpRun.newRun) reading_env run_threads.
Definition run_schedule : list nat := [0; 0; 0; 1; 0; 0; 0; 0; 2; 0; 0; 0; 2; 2; 1; 1; 1; 0]%nat.
Definition run_end := sched_end run_schedule run_pool.

Lemma run_ends : sched run_schedule run_pool = Some run_end.
Proof. apply sched_ends. vm_compute. reflexivity. Qed.

Lemma run_answers_witness :
  McpRun.ended (p_world run_end).2 = Some McpRun.AllDone /\
  exists rs, written (p_world run_end).1.2 = rs /\ (resp_ID <$> rs) ≡ₚ [JInt 1; JStr "b"].
Proof.
  assert (McpRun.ended (p_world run_end).2 = Some McpRun.AllDone) as Hend by (vm_compute; reflexivity).
  split; [exact Hend|].
  destruct (McpRun.run_answers_once lens_id bare 3 hello_text ("", "") (mkIo [] []) reading_env
              (2 + length run_schedule) run_end) as (rs & sent & left & Hw & _ & Hp & _ & Hall).
  - eapply nsteps_trans.
    + apply (spawn_all _ _ _ [McpRun.worker lens_id bare 0; McpRun.worker lens_id bare 0]).
      constructor; [by exists 0%nat|]. constructor; [by exists 0%nat|constructor].
    + exact (sched_nsteps _ _ _ _ run_ends).
  - exists rs. split; [exact Hw|]. destruct (Hall Hend) as [-> ->]. rewrite app_nil_r in Hp.
    symmetry. exact Hp.
Defined.

(** The bridge's process: it registers, its stream delivers a message while the host is down, and
    the request the message asks for is taken and tried. A schedule whose sections all draw a
    coin list that starts with [false] finds the context done nowhere. *)
Definition not_done (e : Env) : bool := match coins e with false :: _ => true | _ => false end.

Fixpoint live_sched {W} (ixs : list nat) (P : Pool W) : option (Pool W) :=
  match ixs with
  | [] => Some P
  | i :: ixs' => if not_done (p_env P) then sched [i] P ≫= live_sched ixs' else None
  end.

Lemma live_sched_steps {N} `{!HttpClient N} b ixs (P P' : Pool ((World N * Io) * McpRun.Run)) :
  live_sched ixs P = Some P' -> nsteps (BridgeProcess.live_step b) (length ixs) P P'.
Proof.
  revert P. induction ixs as [|i ixs IH]; intros P Hs; cbn [live_sched] in Hs; [simplify_eq; constructor|].
  destruct (not_done (p_env P)) eqn:Hn; [|done]. apply bind_Some in Hs as (P1 & H1 & Hs).
  econstructor; [|by apply IH]. split.
  - pose proof (sched_nsteps (BridgeProcess.request_goroutine b) [i] P P1 H1) as Hp.
    by apply nsteps_once_inv in Hp.
  - unfold BridgeProcess.cancels, flip, not_done in *. by destruct (coins (p_env P)) as [|[] cs].
Qed.

Definition live_net : Script :=
  mkScript [Ok token_reply; Ok (reply 200 "[]")]
    [Ok (mkHttpStream 200 [(second, first_read); (15 * second, second_read)] second None)] [].
Definition bridge_start : (World Script * Io) * McpRun.Run :=
  ((mkWorld newState ("telegram", "42") live_net rebooting, mkIo [] []), McpRun.newRun).
Definition booted :=
  run (BridgeProcess.bridge_main bob_config false 60 "") bridge_start (mkEnv 0 [] [] (replicate 12 false) []).
Definition booted_pool := mkPool booted.1.2 booted.2 booted.1.1.
Definition live_end ixs P : Pool ((World Script * Io) * McpRun.Run) := default P (live_sched ixs P).
Definition message_came := live_end (replicate 22 3%nat) booted_pool.
Definition tried_once := live_end (replicate 5 2%nat) message_came.
Definition host_back := live_end (replicate 20 2%nat) tried_once.

Lemma live_ends ixs (P : Pool ((World Script * Io) * McpRun.Run)) :
  (if live_sched ixs P is Some _ then true else false) = true -> live_sched ixs P = Some (live_end ixs P).
Proof. unfold live_end. by destruct (live_sched ixs P). Qed.

Lemma wake_up_kept_witness :
  BridgeProcess.pool_asked message_came = true /\ BridgeProcess.pool_asked tried_once = false /\
  BridgeProcess.pool_made tried_once = 0%nat /\
  exists p, p_threads tried_once !! 2%nat = Some p /\
    BridgeProcess.bound (BridgeProcess.asked ∘ get BridgeProcess.the_bridge)
      (BridgeProcess.made ∘ get BridgeProcess.the_bridge) 33 p.
Proof.
  assert (BridgeProcess.pool_asked message_came = true) as Hasked by (vm_compute; reflexivity).
  assert (BridgeProcess.pool_asked tried_once = false) as Htaken by (vm_compute; reflexivity).
  assert (BridgeProcess.pool_made tried_once = 0%nat) as Hmade by (vm_compute; reflexivity).
  assert (nsteps (BridgeProcess.live_step bob_config) 22 booted_pool message_came) as H1.
  { apply (live_sched_steps bob_config (replicate 22 3%nat)), live_ends. vm_compute. reflexivity. }
  assert (nsteps (BridgeProcess.live_step bob_config) 5 message_came tried_once) as H2.
  { apply (live_sched_steps bob_config (replicate 5 2%nat)), live_ends. vm_compute. reflexivity. }
  split; [exact Hasked|]. split; [exact Htaken|]. split; [exact Hmade|].
  destruct (BridgeProcess.wake_up_never_lost bob_config 60 false "" bridge_start
      (mkEnv 0 [] [] (replicate 12 false) []) booted.1.1 booted.1.2 booted.2 22 5 message_came tried_once)
    as [H|[H|(p & Hp & Hb)]]; [done|unfold booted; by destruct (run _ _ _) as [[??]?]|lia|exact H1|exact Hasked|exact H2|..].
  - by rewrite Htaken in H.
  - rewrite Hmade in H. lia.
  - exists p. split; [exact Hp|exact Hb].
Defined.

(** Once the host is up again it has the call. *)
Example host_has_the_call : BridgeProcess.pool_made host_back = 1%nat.
Proof. vm_compute. reflexivity. Qed.

(** The requests with an empty line, a notification and a broken line between them, in two pieces
    cut inside the first. *)
Definition mixed_lines : list McpRun.input_line :=
  [McpRun.Asks hello; McpRun.Noise ""; McpRun.Noise (Marshal (JObj [("jsonrpc", JStr "2.0"); ("method", JStr "x")]));
   McpRun.Noise "}{"; McpRun.Asks call].
Definition mixed_text : string := unlines (McpRun.line_text <$> mixed_lines).
Definition mixed_pieces : list string :=
  [String.substring 0 10 mixed_text; String.substring 10 (String.length mixed_text) mixed_text].

Lemma mcp_requests_read_witness :
  scan_chunks scanner_max "" mixed_pieces = scan scanner_max (concat_str mixed_pieces) /\
  wp (McpRun.RunWith (S := string) 3 (concat_str mixed_pieces))
    (fun _ w' _ => McpRun.started w'.2 = received_as <$> [hello; call] /\ McpRun.inFlight w'.2 = 2%nat)
    (("", mkIo [] []), McpRun.newRun) awake.
Proof.
  destruct (McpRun.mcp_requests_read (S := string) 3 mixed_lines mixed_pieces
              (("", mkIo [] []), McpRun.newRun) awake []) as [H1 H2].
  - assert (forall t, one_line t && (Z.of_nat (String.length t) <? scanner_max) &&
      (if request_of t is None then true else false) = true -> McpRun.readable_line (McpRun.Noise t)) as Hn.
    { intros t. cbn [McpRun.readable_line]. rewrite !andb_true_iff, Z.ltb_lt. by destruct (request_of t) as [?|]; intros [[? ?] ?]. }
    assert (McpRun.readable_line (McpRun.Asks hello) /\ McpRun.readable_line (McpRun.Asks call)) as [Hh Hc].
    { split; (split; [repeat constructor|]); (split; [by intros p [= <-]; repeat constructor|by split; [|vm_compute]]). }
    repeat apply Forall_cons_2; [exact Hh|apply Hn; vm_compute; reflexivity..|exact Hc|apply Forall_nil_2].
  - vm_compute. reflexivity.
  - reflexivity.
  - split; [exact H1|]. eapply wp_mono; [exact H2|]. intros _ w' e' (_ & -> & -> & _). split; vm_compute; reflexivity.
Defined.

Lemma address_recovered_witness :
  requireString [("payload", JObj [("text", JStr "x"); ("to", JStr "bob")])] "to" "send_message" =
    (Ok "bob", [("payload", JObj [("text", JStr "x")])]) /\
  (let '(r, a') := requireString [("payload", JObj [("text", JStr "x"); ("to", JStr "bob")])] "to" "send_message" in
   r = Ok "bob").
Proof.
  split; [reflexivity|].
  pose proof (address_recovered [("payload", JObj [("text", JStr "x"); ("to", JStr "bob")])] "to"
                "send_message" ltac:(done)) as H.
  exact (proj1 H).
Defined.

(** A broadcast and the direct message the bridge was woken for, received. *)
Definition two_mails : json :=
  JObj [("count", JInt 2);
        ("messages", JArr [JObj [("envelope", JObj [("from", JStr "al"); ("sequence", JInt 6); ("to", JStr "*")])];
                           JObj [("envelope", JObj [("from", JStr "al"); ("sequence", JInt 7); ("to", JStr "bob")])]])].
Definition woken_for : World Script :=
  mkWorld (with_pending (Some (mkPending "message" "al" 7)) (with_registration true "tok" newState)) ("", "")
    (network [Ok (reply 200 (Marshal two_mails))]) peer0.

Lemma received_tagged_witness :
  wp ((receive_messages bob_config).2 []) (fun res w' _ => exists m1 m2,
    res = Ok (Marshal (JArr [JObj m1; JObj m2])) /\
    index m1 "_delivery" = JStr "broadcast" /\ index m1 "_signal_trigger" = JNull /\
    index m2 "_delivery" = JStr "direct" /\ index m2 "_signal_trigger" = JBool true /\
    pendingSignal (st w') = None) woken_for quiet.
Proof.
  assert (call_result (Ok (reply 200 (Marshal two_mails))) = Ok (any_of (Marshal two_mails))) as Hc by reflexivity.
  assert (any_of (Marshal two_mails) = two_mails) as Ha by (vm_compute; reflexivity).
  eapply wp_mono.
  - apply (received_tagged bob_config [] (Ok (reply 200 (Marshal two_mails))) []); reflexivity.
  - intros res w' e' [_ H]. rewrite Hc, Ha in H. destruct H as (out & -> & Hout & Hp).
    cbn in Hout. apply Forall2_cons_inv_l in Hout as (m1 & o1 & H1 & Hout & ->).
    apply Forall2_cons_inv_l in Hout as (m2 & o2 & H2 & Hout & ->). apply Forall2_nil_inv_l in Hout as ->.
    exists m1, m2. split; [done|]. split.
    { apply (tg_session _ _ _ H1). left. eexists _, "*". split; [reflexivity|]. split; [reflexivity|by right]. }
    split. { apply (tg_other _ _ _ H1). intros (i & em & f & [= <-] & [= <-] & [= <-] & Hf). by vm_compute in Hf. }
    split. { apply (tg_direct _ _ _ H2). intros [(em & t & [= <-] & [= <-] & [?|?])|(t & [=] & _)]; done. }
    split; [|exact Hp]. apply (tg_trigger _ _ _ H2). eexists _, _, _. split; [reflexivity|].
    split; [reflexivity|]. split; [reflexivity|]. by vm_compute.
Defined.
