(* ===== verification/NetWitnesses.v ===== *)
(** * The end-to-end theorems at work

    The bridges of "alice" and "bob" on the demonstration server of Witnesses. *)

From Stdlib Require Import Strings.Ascii.
From S2P Require Import Prelude Json JsonText GoAny Encoding Http Signal Protocol Mcp.
From S2P Require Import Hub HubDelivery Watcher Api ApiAuth ApiStream Witnesses Net.
From S2P Require Filestore Presence Mailbox Server.
From S2P Require Import Bridge BridgeTools BridgeWatch Sse BridgeWake EndToEnd FileSharing WakeUp.

#[local] Open Scope Z_scope.

Definition url : string := "http://localhost:8080".
Definition config (agent : string) : Config := mkConfig url "s" "key" agent None false "" "".
Definition client : Client :=
  mkClient (with_registration true "t" newState) ("", "") (mkPeer [] [] [] []).
Definition both : Pair := mkPair client client server.

(** Nothing outside the plain cases is asked for. *)
Definition no_other (r : HttpRequest) : prog Handler (result HttpResponse) := mret (Err "other").
Definition no_stream (r : HttpRequest) : prog Handler (result HttpStream) := mret (Err "other").

Lemma both_channel : channel url (config "alice") (config "bob") both.
Proof.
  assert (forall a, a = "alice" \/ a = "bob" -> joined url (config a)) as Hj.
  { intros a Ha. split; try done; by destruct Ha as [-> | ->]. }
  split; [by apply Hj; left|by apply Hj; right|done|done|done| | |done| |].
  - split; [done|]. apply demo_wf.
  - by exists bob.
  - by vm_compute; lia.
  - constructor.
Qed.

Definition greeting : json := JObj [("text", JStr "hi")].
Definition call_args : args := [("payload", greeting); ("to", JStr "bob")].

Lemma greeting_ok : wire_value greeting.
Proof. split; [by repeat constructor|by repeat constructor|done]. Qed.

Lemma message_reaches_witness :
  wp (r1 ← ⟪at_left⟫ (@send_message _ (server_client url poll_fuel no_other no_stream) (config "alice")).2 call_args;
      r2 ← ⟪at_right⟫ (@receive_messages _ (server_client url poll_fuel no_other no_stream) (config "bob")).2 [];
      r3 ← ⟪at_right⟫ (@receive_messages _ (server_client url poll_fuel no_other no_stream) (config "bob")).2 [];
      mret (r1, r2, r3))
    (fun '(r1, r2, r3) _ _ => r1 = Ok "sent" /\ r3 = Ok "[]" /\
       exists m, r2 = Ok (Marshal (JArr [JObj m])) /\ carries "alice" "bob" "message" greeting m)
    both env0.
Proof.
  eapply wp_mono.
  - apply (message_reaches_agent url poll_fuel no_other no_stream (config "alice") (config "bob")
             _ call_args [] [] "message" greeting both env0).
    + exact both_channel.
    + done.
    + by apply (sends_message url poll_fuel no_other no_stream (config "alice") call_args call_args "bob").
    + exact greeting_ok.
  - intros [[r1 r2] r3] w' e' (-> & (older & m & -> & Hlen & Hm) & ->).
    split; [done|]. split; [done|]. exists m. split; [|exact Hm].
    change (length (inbox (shared both) (sessionID (config "bob")) (agentID (config "bob")))) with 0%nat in Hlen.
    rewrite Nat.min_0_r in Hlen. by apply nil_length_inv in Hlen as ->.
Defined.

(** bob's bridge is told by its stream. The server's side of the world is given its coins: the
    stream's loop does not end, does not ping, and reads its channel. *)
Definition stream_env : Env := mkEnv 0 [] [] [false; false; true] [].
Definition send_call : prog (World Handler) (result string) :=
  (@send_message _ (server_client url poll_fuel no_other no_stream) (config "alice")).2 call_args.

Lemma message_wakes_witness :
  wp (send_while_streaming 3 "s" send_call) (fun out _ _ => exists ch written env,
    out = Carried (Ok "sent") ch written /\ Type_ env = "message" /\ From env = "alice" /\
    (messages written = [] \/ messages written = [env])) both stream_env.
Proof.
  eapply wp_mono.
  - apply (message_wakes_agent url poll_fuel no_other no_stream 3 (config "alice") (config "bob")
             _ call_args "message" greeting one_watcher both stream_env).
    + exact both_channel.
    + by apply (sends_message url poll_fuel no_other no_stream (config "alice") call_args call_args "bob").
    + exact greeting_ok.
    + done.
    + exact one_watcher_ok.
    + by vm_compute; lia.
    + by vm_compute.
  - intros out w' e' (ch & t0 & frames & ts & wt' & -> & _ & _ & H). eexists ch, _, _.
    split; [done|]. split; [|split; [|]]; [| |].
    3: { rewrite messages_app, messages_opening. cbn [app].
         destruct H as [[-> _]|[-> _]]; [by left|by right]. }
    all: done.
Defined.

(** The same, executed. *)
Definition stream_reaches : option pendingSignalInfo :=
  let '(out, w, e) := run (send_while_streaming 3 "s" send_call) both stream_env in
  match out with
  | Carried _ _ written =>
      let '(_, w2, _) := run (@read_stream _ (config "bob") 0 0 "" ("", "") [(second, render_all written)] second None)
                             (get at_right w) e in
      pendingSignal (st w2)
  | NoStream _ => None
  end.

Example stream_wakes_bob : stream_reaches = Some (mkPending "message" "alice" 3).
Proof. vm_compute. reflexivity. Qed.

Definition man_y : list byte := String.list_byte_of_string "Man y".
Definition file_args : args :=
  [("content_base64", JStr "TWFuIHk="); ("filename", JStr "a.txt"); ("to", JStr "bob")].

Lemma file_reaches_witness :
  wp (⟪at_left⟫ @send_file_handler _ (server_client url poll_fuel no_other no_stream) (config "alice") file_args)
    (fun r p1 e1 => exists fid, r = Ok (sent_file fid "a.txt" "bob" man_y) /\
       wp (⟪at_right⟫ @download_file_handler _ (server_client url poll_fuel no_other no_stream) (config "bob")
             [("file_id", JStr fid)])
          (fun r2 _ _ => r2 = Ok (downloaded_file fid "application/octet-stream" man_y)) p1 e1)
    both env0.
Proof.
  eapply wp_mono.
  - apply (file_reaches_agent url poll_fuel no_other no_stream (config "alice") (config "bob")
             file_args "a.txt" "application/octet-stream" "" man_y both env0).
    + exact both_channel.
    + exists file_args, file_args, file_args, "TWFuIHk=". by repeat split; vm_compute.
    + done.
    + by vm_compute.
    + by vm_compute.
  - intros r p1 e1 (fid & n & t & older & en & -> & _ & _ & H). exists fid. split; [done|].
    apply H; [done|by left].
Defined.

(** The whole way, executed: on a new server, bob's bridge registers with its first call, alice's
    with the one that sends, and bob's next call returns the message. *)
Definition new_server : Handler := New (Server.boot false).
Definition fresh : Client := mkClient newState ("", "") (mkPeer [] [] [] []).

Definition first_calls : prog Pair (result string * result string * result string) :=
  let net_ := server_client url poll_fuel no_other no_stream in
  r1 ← ⟪at_right⟫ (@list_agents _ net_ (config "bob")).2 [];
  r2 ← ⟪at_left⟫ (@send_message _ net_ (config "alice")).2 call_args;
  r3 ← ⟪at_right⟫ (@receive_messages _ net_ (config "bob")).2 [];
  mret (r1, r2, r3).

Example first_message :
  let '(r1, r2, r3) := (run first_calls (mkPair fresh fresh new_server) env0).1.1 in
  r2 = Ok "sent" /\
  (match r3 with Ok t => Unmarshal t | Err _ => None end) =
    Some (JArr [JObj [("_delivery", JStr "direct"); ("_source", JStr "mailbox");
      ("envelope", JObj [("from", JStr "alice"); ("payload", greeting); ("sequence", JInt 3);
        ("session_id", JStr "s"); ("timestamp", JStr "1970-01-01T00:00:00Z"); ("to", JStr "bob");
        ("type", JStr "message")]);
      ("id", JStr "m-1"); ("received", JStr "1970-01-01T00:00:00Z")]]).
Proof. vm_compute. by split. Qed.
