(* ===== verification/ProcessWitnesses.v ===== *)
(** * The theorems on interleavings at work

    Schedules run by [sched]: mail handed over between goroutines, flushes that overtake each
    other, and a server process that is started, run, crashed and started again. *)

From Stdlib Require Import Strings.Byte.
From S2P Require Import Prelude Json Protocol Hub HubDelivery HubOrder HubLifecycle.
From S2P Require Import Watcher WatchToken Flushing Api ApiOrder Server Process.
From S2P Require Import Witnesses.
From S2P Require Leader Scratchpad Session Filestore Presence Mailbox MailOnce Persist.

#[local] Open Scope Z_scope.

(** ** Mail *)
Definition mail_threads : list (prog (Mailbox.Store * MailOnce.Post) unit) :=
  [MailOnce.perform (MailOnce.Send "s/bob" (hi 1));
   MailOnce.perform (MailOnce.TakeMatching "s/bob" "alice" "")].

Definition mail_start := mkPool (Mailbox.NewStore 2, MailOnce.mkPost [] []) env0 mail_threads.
Definition mail_schedule : list nat := [0; 0; 0; 0; 0; 0; 1; 1; 0; 1]%nat.
Definition mail_end := sched_end mail_schedule mail_start.

Lemma mail_ends : sched mail_schedule mail_start = Some mail_end.
Proof. apply sched_ends. vm_compute. reflexivity. Qed.

Lemma mail_conserved_witness :
  MailOnce.to "s/bob" (MailOnce.received (p_world mail_end).2) ++
    (Mailbox.entry_Envelope <$> Mailbox.queue (p_world mail_end).1 "s/bob") ≡ₚ
  MailOnce.to "s/bob" (MailOnce.sent (p_world mail_end).2).
Proof.
  eapply (MailOnce.mail_conserved false 2 _ env0 mail_end "s/bob").
  - eapply (spawn_sched _ _ _ mail_threads mail_schedule); [|exact mail_ends].
    repeat constructor; eexists; split; done.
  - done.
  - vm_compute. repeat constructor.
  - vm_compute. lia.
Defined.

(** ** Flushes *)
Definition saved' : Persist.Snapshot := Persist.mkSnapshot [] ∅ ∅ {[ "s" := 3 ]} ∅.

(** The disk takes every call; the two flushes draw different names. *)
Definition env_disk : Env :=
  mkEnv 0 [] [] (replicate 12 true) [Byte.x00; Byte.x00; Byte.x00; Byte.x00; Byte.x01; Byte.x00; Byte.x00; Byte.x00].

Definition two_flushes : list (prog Persist.FS unit) :=
  [Persist.Flush saved ;; mret tt; Persist.Flush saved' ;; mret tt].

(** The first flush has written its file when the second one runs from start to end; its
    rename then puts the older snapshot back. Both report success. *)
Definition overtaken : list nat := [0; 0; 0; 0; 1; 1; 1; 1; 0; 1; 1; 0]%nat.

Lemma saved_sized' : Persist.sized saved'.
Proof.
  split; simpl.
  - intros k l Hk. by rewrite lookup_empty in Hk.
  - intros k l Hk. by rewrite lookup_empty in Hk.
  - intros k l [<- <-]%lookup_singleton_Some. split; vm_compute; discriminate.
Qed.

Definition flush_pool := mkPool (Persist.mkFS ∅ [] []) env_disk two_flushes.
Definition flush_end := sched_end overtaken flush_pool.

Lemma flush_ends : sched overtaken flush_pool = Some flush_end.
Proof. apply sched_ends. vm_compute. reflexivity. Qed.

Lemma flushes_atomic_witness :
  Persist.Load (p_world flush_end) = None \/
  exists snap, snap ∈ [saved; saved'] /\
    Persist.Load (p_world flush_end) = Some (Persist.settled snap).
Proof.
  eapply (flushes_atomic [saved; saved'] None (Persist.mkFS ∅ [] []) env_disk _ flush_end);
    [| | |by left].
  - constructor; [apply saved_sized|]. constructor; [apply saved_sized'|constructor].
  - apply empty_dir.
  - eapply (spawn_sched _ _ _ two_flushes overtaken); [|exact flush_ends].
    constructor; [exists saved; split; [left|done]|].
    constructor; [exists saved'; split; [by right; left|done]|constructor].
Defined.

(** The flush that starts last need not be the one that stays: [Flusher.Stop] does not wait for
    a flush under way, so the final flush of a clean shutdown can be undone by it. *)
Theorem final_flush_undone :
  sched overtaken flush_pool = Some flush_end /\ p_threads flush_end = [Ret tt; Ret tt] /\
  Persist.Load (p_world flush_end) = Some (Persist.settled saved).
Proof. split; [exact flush_ends|]. split; vm_compute; reflexivity. Qed.

(** Ending a session between the two reads of the log leaves a snapshot that has the session and
    its messages without their counter: the restarted server gives the next message number 1,
    which the session's history already has. *)
Definition closing_threads : list (prog (Hub (list (string * Envelope)) * Persist.FS) unit) :=
  [flush_once ;; mret tt; ⟪lens_fst⟫ CloseSession "s"].

Definition closing_pool := mkPool (rec_demo, Persist.mkFS ∅ [] []) env_disk closing_threads.
Definition closing_schedule : list nat := [0; 0; 0; 1; 0; 0; 0; 0; 0; 0; 0; 0]%nat.
Definition closing_end := sched_end closing_schedule closing_pool.
Definition reborn : Hub (list (string * Envelope)) :=
  (run (startup (p_world closing_end).2) (boot false) env0).1.2.

Theorem snapshot_misses_counter :
  sched closing_schedule closing_pool = Some closing_end /\
  history reborn !! "s" = Some [hi 1; hi 2] /\ bumped "s" (get the_log reborn) = 1.
Proof.
  split; [apply sched_ends; vm_compute; reflexivity|]. split; vm_compute; reflexivity.
Qed.

(** ** The process *)
Definition cfg : Config :=
  configure (fun v => if bool_decide (v = "AGENTCHAT_DATA") then "/data" else "").

(** Every choice falls on success; the clock moves with every reading. *)
Definition env_run : Env := mkEnv 0 [] [] (replicate 40 true) [].

Definition post_session : Request :=
  mkRequest "" "" "" "" "" (fun _ => "") (Some (JObj [("name", JStr "demo")])) None.

(** A session is created, the flusher's first tick stores it, and the signal ends the process. *)
Definition process_threads : list (prog Process unit) :=
  [request 1 POST_sessions post_session; flusher 1].

Definition first_boot := run (startup_process cfg) (new_process cfg (Persist.mkFS ∅ [] [])) env_run.
Definition first_start := mkPool first_boot.1.2 first_boot.2 process_threads.
Definition process_schedule : list nat := [0; 1; 1; 0; 1; 1; 1; 1; 1; 1; 1; 1; 1; 1; 1; 1]%nat.
Definition first_end := sched_end process_schedule first_start.

Lemma first_ends : sched process_schedule first_start = Some first_end.
Proof. apply sched_ends. vm_compute. reflexivity. Qed.

Lemma process_goroutines : Forall (goroutine false) process_threads.
Proof. by repeat constructor. Qed.

Lemma first_ready : ready false 0 first_boot.1.2.
Proof.
  apply (started_ready cfg 0 (Persist.mkFS ∅ [] []) env_run _ first_boot.2); [done| |].
  - constructor; [|constructor]. by exists None.
  - unfold first_boot. by destruct (run _ _ _) as [[[] w] e].
Qed.

Lemma first_steps :
  nsteps (pool_step (goroutine false)) 18 (mkPool first_boot.1.2 first_boot.2 []) first_end.
Proof.
  apply (spawn_sched _ _ _ process_threads process_schedule); [apply process_goroutines|].
  exact first_ends.
Qed.

(** The directory has the new session. *)
Example first_saved :
  (fun s => length (Persist.Sessions s)) <$> Persist.Load (disk (p_world first_end)) = Some 1%nat.
Proof. vm_compute. reflexivity. Qed.

Lemma process_sound_witness :
  state_ok false 18 (Persist.Load (disk (p_world first_end))).
Proof.
  apply (process_sound false 0 first_boot.1.2 first_boot.2 18 first_end); [done|done| | |by left].
  - apply first_ready.
  - apply first_steps.
Defined.

Definition second_boot :=
  run (startup_process cfg) (new_process cfg (disk (p_world first_end))) env_run.

Lemma server_survives_witness :
  (length (Mailbox.queue (mailboxes (hub (handler second_boot.1.2))) "s/bob") <= 1000)%nat.
Proof.
  apply (server_survives 18 0 cfg (disk (p_world first_end)) env_run second_boot.1.2 second_boot.2
    (mkPool second_boot.1.2 second_boot.2 [])).
  - apply (lives_next 0 18 cfg _ (Persist.mkFS ∅ [] []) _ env_run first_boot.1.2 first_boot.2 first_end).
    + constructor.
    + unfold first_boot. by destruct (run _ _ _) as [[[] w] e].
    + apply first_steps.
    + by left.
  - unfold second_boot. by destruct (run _ _ _) as [[[] w] e].
  - constructor.
  - done.
Defined.
